(* ===== verification/_CoqProject ===== *)
-Q . S2P
Prelude.v
GoStd.v
Decimal.v
QDecimal.v
Domains.v
Symbol.v
MutexFlag.v
MutexMap.v
MutexSlice.v
Errors.v
Order.v
OrderData.v
Position.v
World.v
Interleaving.v
Dealer.v
DealerInv.v
DealerSteps.v
DealerEvents.v
DealerProps.v
DealerRules.v
DealerThreads.v
DealerSpecs.v
DealerDefer.v
DealerTraces.v
BTree.v
PriceLevel.v
OrderBook.v
OrderBookProps.v
OrderBookViews.v
Quote.v
Trade.v
TTLCache.v
TTLCacheProps.v
RateLimiter.v
LatencyMeasurer.v
Translate.v
BybitMessages.v
CoinExMessages.v
MessagesProps.v
Json.v
Topic.v
ChannelGroup.v
BybitTopics.v
CoinExTopics.v
TopicsProps.v
TopicsEndToEnd.v
HealthChecker.v
Author.v
Agent.v
BybitAgent.v
CoinExAgent.v
AgentLimits.v
AgentProps.v
Receiver.v
Subscriptions.v
Channel.v
ChannelProps.v
Connection.v
Insights.v
BybitInsights.v
BybitInsightsProps.v
CoinExInsights.v
Lapua.v
Config.v
ConfigProps.v
Watcher.v
Exporter.v
Deals.v
Providers.v
Display.v
HttpClient.v
AuthRequests.v
Startup.v
OrderTrip.v
Flights.v
FlightSteps.v
System.v
ExchangeSystem.v
Lifecycle.v
