(* ===== verification/Prelude.v ===== *)
(** * lapuacore: a verification library for the trading core

    lapuacore is the core of trading programs on the exchanges Bybit and CoinEx: it
    keeps order books, quotes and trades that follow the exchanges' web sockets,
    sends, amends and cancels orders over their HTTP APIs, and follows the orders and
    the position from the private web socket.  This library models that code and proves
    what it promises; where the code does not keep a promise, a theorem shows how.

    ** Parts

    Market data comes in over a group of redundant channels ([internal/gateways]): a
    channel dials a connection, keeps it alive (health checker, author, reconnection) and
    reads frames with a receiver; the topic manager of the exchange routes a message to
    its topic, which drops the copies of a message that were seen before (a cache
    with a time to live that the group shares), decodes and translates it and calls its
    handlers: methods of the order books, quotes and trades ([domains/insights]).  Orders
    go out through a dealer ([domains/deals]), which calls the agent of the exchange;
    the agent asks its rate limiter, signs and posts a request, and gives the answer to a
    handler of the dealer; order and position messages of the private channel go to
    handlers of the dealer too.  [initializers] puts the parts together, [configs] and
    [metrics] serve them.

    ** Files

    Each component has a file for its data and operations, with the names of the source,
    and, where its theory is large, others with its properties; the header of a file names
    its sources under src/.
    - Foundations: Prelude (this file: generic lemmas, tactics, record update), GoStd
      (64-bit integers, time, decimal text, the order of Go maps), Decimal and QDecimal
      (the interface of shopspring/decimal with its laws, and an instance), BTree (the same
      for google/btree), Json (encoding/json on JSON values), Translate.
    - Containers and domain: MutexFlag, MutexMap, MutexSlice, Domains, Symbol, Errors, Order,
      OrderData, Position.
    - The dealer: World (a state of shared orders, operation locks, the dealer's fields, agent
      calls and goroutines; programs over it as a monad with a run, a weakest
      precondition and a step relation for interleavings), Dealer (every operation and
      handler), DealerInv, DealerSteps (the invariant and that each program keeps
      it), DealerEvents (reachable states), DealerProps, Interleaving (a rely-guarantee
      logic for programs that run at once under locks), DealerRules and DealerThreads (the
      dealer under concurrent calls), DealerSpecs, DealerDefer and DealerTraces (schedules
      that go wrong).
    - The dealer with its agent: Flights (the requests that an agent took, and which orders
      wait for them), FlightSteps (what each handler and operation does to these), System (the
      step relation of a dealer and the requests in flight),
      ExchangeSystem (the answers are those of the exchanges' agents).
    - Market data: PriceLevel, OrderBook, OrderBookProps, OrderBookViews, Quote,
      Trade, Providers (the interface of the two kinds of prices as a class), Display.
    - Messages: BybitMessages, CoinExMessages (DTOs and translators), MessagesProps.
    - Gateways: TTLCache, TTLCacheProps, Topic, ChannelGroup, BybitTopics, CoinExTopics,
      TopicsProps, TopicsEndToEnd, Subscriptions, HealthChecker, Author, AuthRequests, Receiver, Channel,
      ChannelProps, Connection, LatencyMeasurer.
    - Trading APIs: RateLimiter, Agent, BybitAgent, CoinExAgent, AgentLimits, AgentProps, HttpClient,
      OrderTrip (both agents behind one interface, with the dealer).
    - Applications: Insights, BybitInsights, BybitInsightsProps, CoinExInsights,
      Deals, Lapua, Startup, Lifecycle (globals,
      goroutines, and the end of a process), Config, ConfigProps, Watcher, Exporter.

    Interfaces are classes: [Decimal] and [BTree] with their laws, [Agent] (what a dealer
    asks of an agent), [OrderGateway] with its laws (what both agents make of an HTTP
    result), [LimitedAgent], [TopicManager] with [TopicManagerLaws] (what a group relies on,
    discharged by both exchanges' managers), [QuoteProvider] with its laws, [GoRuntime]
    (the order of maps), [Interference] (an invariant and a relation for the logic of
    interleavings), [HttpRuntime] and [ConfigText] (texts, HMAC, the JSON of a parameter),
    [InfluxPoints].

    ** Theorems

    - Dealer: every event of a reachable dealer completes.  For events that run one after the
      other, up to the orders that a refused batch of cancellations revived (the revived
      orders: its rollback does not look whether an order has ended): the orders the dealer keeps
      as living are those that are not done; every order ends once and is retained
      once; an order moves only along its life cycle.  What each operation, response and
      message does on every branch; the last of several deferred amendments wins and a deferred
      cancellation overrides them.  Concurrent calls, interleaved node by node, never panic, and
      they all end with their locks given back unless two batches of cancellations meet;
      what such calls can do to an order that ended is shown by traces (DealerTraces).
    - The dealer with its agent, for operations and answers one after the other: a limit
      order waits for an answer only if a request of that kind for it is in flight (a market order
      keeps waiting); answers, whatever they say, use the requests up and leave every order
      settled; what an exchange's agent makes of any HTTP result is such an answer.
    - Market data: a book's cached best prices, previous best prices and readiness are those of its
      two sorted sides after any messages; deltas and snapshots refine the merge of sides
      as finite maps by sequence number, a snapshot without levels on a side leaving that
      side alone; average execution prices.
    - Gateways: the cache is a window of the first arrivals, as long as no call meets the
      deletion of an entry that the cleaner found expired, and reports every key once within the
      time to live however calls and cleanup interleave; a group of channels whose goroutines
      overlap handles every message with an id once, within the time to live, and those of
      one channel in their order; a book that an exchange prints reaches the handlers; a
      channel keeps its invariant, a reconnection restores it, and what it takes from its
      connections is what their receivers forwarded, up to what a replaced one's
      buffer held; the health checker's timeout, the author's retries, subscriptions.
    - Trading APIs: requests of any rolling second are within the limits; what an HTTP result makes
      of an order and of the dealer, through either agent; each order of a batch gets its own
      answer; what each exchange learns of an order from a request; signatures verify.
    - Applications: the insights that an application reads are what the messages of their own
      topics say that the group lets through, on the whole path from redundant channels, if no two
      of them share a topic's name, and when they are ready; the dealers
      get the data of their symbols; waiting, starting, the order in which a process has to
      initialise its parts, one dealer for a symbol, shutting down, parameters over reloads,
      the watcher, metrics.
    Theorems about mistakes show them at reachable states: two topics of one name starve a
    book, a batch locks its orders in the order of a map, getters write a map together.

    ** Conventions and bounds

    [int], [int64] and durations are integers of Z, wrapped to 64 bits ([wrap64]) where the
    code's arithmetic can leave them; counters that cannot are of nat or Z.  Pointers are positions
    ([nat]) in a store where objects are shared (orders, symbols, insights, designators), nil is
    [None].  A panic is a value ([None], [Panic], [Crash] or [Panicked], as the file says).
    The order in which a loop meets a Go map is a permutation that depends on the
    number of the loop, so theorems hold for every order.  Fuel occurs in two places:
    [WaitForInsightsToBeReady] counts rounds, and its theorem says that enough
    rounds end it exactly if it ends; programs of the dealer are trees, whose run needs none.
    A mutex makes the methods it guards atomic; where the code holds it for less than a method,
    the steps are separate (TTLCache, ChannelGroup, World, HttpClient, Exporter, Watcher).
    A handler of a topic is one step.  A request counts for the rate limits when its quota is taken.

    ** Not modelled

    The texts that are logged, sleeping times, the InfluxDB client, the examples; the
    syntax of JSON, YAML and numbers with a fraction, gzip, HMAC, fsnotify, TLS and the HTTP
    exchange, which are parameters or inputs; the monotonic reading of the clock; the reuse of a
    slice's array after a reload; a second InitInsights or InitDeals of one manager, except for
    the globals it sets (Lifecycle); one topic object in several managers keeps
    only the id of its last request there, here each manager has its own.  What the receiver of
    a replaced connection still forwards reaches nobody, and is no event. *)

From Stdlib Require Export Ascii QArith Qabs Qround Lqa.
From stdpp Require Export base tactics list gmap strings numbers.
Export list_basics.list list_relations.list list_misc.list list_monad.list.
Open Scope nat_scope.

(** Lemmas that automate the common cases. *)
Create HintDb lapua.
Create Rewrite HintDb lapua.

(** ** Generic lemmas *)

Lemma foldl_preserves {A B} (P : B -> Prop) (f : B -> A -> B) l b :
  P b -> (forall b x, x ∈ l -> P b -> P (f b x)) -> P (foldl f b l).
Proof.
  revert b. induction l as [|x l IH]; intros b Hb Hf; [done|]. simpl.
  apply IH; [apply Hf; [left|done]|]. intros; apply Hf; [by right|done].
Qed.

Lemma filter_nothing {A} (f : A -> bool) l :
  (forall x, x ∈ l -> f x = false) -> List.filter f l = [].
Proof.
  induction l as [|x l IH]; intros H; [done|]. simpl. rewrite (H x) by left.
  apply IH. intros y Hy. apply H. by right.
Qed.

(** Partners of the elements of related lists. *)
Lemma Forall2_elem_l {A B} (R : A -> B -> Prop) l l' x :
  Forall2 R l l' -> x ∈ l -> exists y, y ∈ l' /\ R x y.
Proof.
  induction 1 as [|a b l l' Hab _ IH]; [by intros ?%not_elem_of_nil|].
  intros [->|Hin]%elem_of_cons; [exists b; split; [left|done]|].
  destruct (IH Hin) as (y & Hy & HR). exists y. split; [by right|done].
Qed.

Lemma Forall2_elem_r {A B} (R : A -> B -> Prop) l l' y :
  Forall2 R l l' -> y ∈ l' -> exists x, x ∈ l /\ R x y.
Proof. intros H. apply Forall2_flip in H. apply (Forall2_elem_l _ _ _ y H). Qed.

(** A function is injective on a list of distinct images. *)
Lemma NoDup_map_inj {A B} (f : A -> B) l x y :
  NoDup (map f l) -> x ∈ l -> y ∈ l -> f x = f y -> x = y.
Proof.
  intros Hnd [i Hi]%list_elem_of_lookup [j Hj]%list_elem_of_lookup He.
  assert (i = j) as <-; [|congruence].
  eapply (NoDup_lookup (f <$> l)); [exact Hnd|..]; rewrite list_lookup_fmap, ?Hi, ?Hj; simpl; [done|by rewrite He].
Qed.

(** A loop whose body can fail. *)
Fixpoint foldM {A S} (f : S -> A -> option S) (l : list A) (s : S) : option S :=
  match l with
  | [] => Some s
  | x :: l => match f s x with Some s' => foldM f l s' | None => None end
  end.

Lemma foldM_snoc {A S} (f : S -> A -> option S) l x s :
  foldM f (l ++ [x]) s = match foldM f l s with Some s' => f s' x | None => None end.
Proof.
  revert s. induction l as [|y l IH]; intros s; simpl; [by destruct (f s x)|].
  destruct (f s y); [apply IH|done].
Qed.

(** An invariant of the elements done so far. *)
Lemma foldM_ind {A S} (P : list A -> S -> Prop) (f : S -> A -> option S) l s s' :
  foldM f l s = Some s' -> P [] s ->
  (forall l x s s', P l s -> f s x = Some s' -> P (l ++ [x]) s') -> P l s'.
Proof.
  intros Hf H0 Hstep. revert s' Hf. induction l as [|x l IH] using rev_ind; intros s'; [by intros [= <-]|].
  rewrite foldM_snoc. destruct (foldM f l s) as [s1|]; [|done]. intros Hx. eapply Hstep; [by apply IH|done].
Qed.

(** Texts; [String.append] is not simplified. *)
Lemma append_cons c (a b : string) : (String c a +:+ b)%string = String c (a +:+ b)%string.
Proof. done. Qed.

Lemma append_nil (b : string) : ("" +:+ b)%string = b.
Proof. done. Qed.

Lemma append_assoc (a b c : string) : (a +:+ (b +:+ c))%string = ((a +:+ b) +:+ c)%string.
Proof. induction a as [|x a IH]; [done|]. rewrite !append_cons. by f_equal. Qed.

Lemma length_append (a b : string) : String.length (a +:+ b) = String.length a + String.length b.
Proof. induction a as [|x a IH]; [done|]. rewrite append_cons. simpl. by rewrite IH. Qed.

(** The first of two optional values. *)
Definition or_else {A} (x y : option A) : option A :=
  match x with Some _ => x | None => y end.

(** A lookup and a boolean test of what is found. *)
Definition found_check {A} (x : option A) (f : A -> bool) : bool :=
  match x with Some y => f y | None => false end.

Lemma found_check_sound {A} (x : option A) f :
  found_check x f = true -> exists y, x = Some y /\ f y = true.
Proof. destruct x; simpl; naive_solver. Qed.

(** ** Tactics *)

(** Case analysis on every [match] of the goal or the context, then clean up. *)
Ltac split_matches :=
  repeat (first [progress simplify_eq/= | case_match]).

(** ** Functional update of record fields

    [r <| f := v |>] is [r] with field [f] set to [v].  A record type opts in by an
    instance of [Eta], its eta expansion; the update of a field replaces that
    field's projection in the expansion. *)

Class Eta (R : Type) := eta : R -> R.
Class Update {R T : Type} (field : R -> T) := update : (T -> T) -> R -> R.
Arguments update {R T} field {_} _ _.

Ltac derive_update :=
  lazymatch goal with
  | |- @Update ?R _ ?field =>
      let inst := constr:(_ : Eta R) in
      let body := eval hnf in inst in
      lazymatch eval pattern field in body with
      | ?rebuild _ => exact (fun change => rebuild (fun r => change (field r)))
      end
  end.
#[export] Hint Extern 0 (Update _) => derive_update : typeclass_instances.

Notation "r <| f := v |>" := (update f (fun _ => v) r)
  (at level 8, left associativity, format "r  <|  f  :=  v  |>").
Notation "r <| f ::= g |>" := (update f g r)
  (at level 8, left associativity, format "r  <|  f  ::=  g  |>").
