(* ===== verification/GoStd.v ===== *)
(** * The Go language and standard library, as far as lapuacore uses them

    - 64-bit two's complement integers ([int], [int64], [time.Duration]);
    - [time.Time] and [time.Duration];
    - [strconv.FormatInt] and [strconv.ParseInt] in base 10;
    - the unspecified iteration order of Go maps.

    Nothing of this file is code of the repository, so nothing of it is in the
    map of the development. *)

From S2P Require Import Prelude.
From Stdlib Require Import DecimalString DecimalZ DecimalFacts.
Local Open Scope Z_scope.

(** ** 64-bit integers *)

Definition int64_min : Z := - 2 ^ 63.
Definition int64_max : Z := 2 ^ 63 - 1.
Definition in_int64 (z : Z) : Prop := int64_min <= z <= int64_max.

#[export] Instance in_int64_dec z : Decision (in_int64 z).
Proof. unfold in_int64. apply _. Defined.

(** The value an [int64] expression holds: arithmetic wraps around. *)
Definition wrap64 (z : Z) : Z := (z + 2 ^ 63) mod 2 ^ 64 - 2 ^ 63.

Lemma wrap64_in z : in_int64 (wrap64 z).
Proof.
  unfold in_int64, wrap64, int64_min, int64_max.
  pose proof (Z.mod_pos_bound (z + 2 ^ 63) (2 ^ 64)). lia.
Qed.

Lemma wrap64_id z : in_int64 z -> wrap64 z = z.
Proof.
  unfold in_int64, wrap64, int64_min, int64_max. intros H.
  rewrite Z.mod_small; lia.
Qed.

#[export] Hint Resolve wrap64_in : lapua.
#[export] Hint Rewrite wrap64_id using (assumption) : lapua.

(** ** Time

    A [time.Time] is the number of nanoseconds since Go's zero time
    (January 1, year 1, UTC); the monotonic reading and the location play no
    role in what the repository compares. *)

Abbreviation time := Z (only parsing).
Abbreviation duration := Z (only parsing).

Definition time_zero : time := 0.
Definition unix_epoch : time := 62135596800 * 10 ^ 9.
Definition Millisecond : duration := 10 ^ 6.
Definition Second : duration := 10 ^ 9.

Definition UnixMilli (ms : Z) : time := unix_epoch + ms * Millisecond.
Definition time_IsZero (t : time) : bool := t =? time_zero.
Definition time_After (t u : time) : bool := u <? t.
Definition time_Before (t u : time) : bool := t <? u.
Definition time_Equal (t u : time) : bool := t =? u.

(** [Time.Sub] saturates at the bounds of [Duration]. *)
Definition time_Sub (t u : time) : duration :=
  Z.max int64_min (Z.min int64_max (t - u)).

Definition Milliseconds (d : duration) : Z := Z.quot d Millisecond.

Lemma time_Sub_in t u : in_int64 (time_Sub t u).
Proof. unfold time_Sub, in_int64, int64_min, int64_max. lia. Qed.

Lemma time_Sub_mono t t' u : t <= t' -> time_Sub t u <= time_Sub t' u.
Proof. unfold time_Sub. lia. Qed.

Lemma time_Sub_gt t u d :
  in_int64 d -> d < int64_max -> (d < time_Sub t u <-> d < t - u).
Proof. unfold time_Sub, in_int64, int64_min, int64_max. lia. Qed.

#[export] Hint Resolve time_Sub_in : lapua.

(** ** Decimal integers as text *)

Definition FormatInt (z : Z) : string := NilZero.string_of_int (Z.to_int z).

(** [strconv.ParseInt(s, 10, 64)] (and [strconv.Atoi] where [int] has 64 bits):
    an optional sign, at least one digit, and a value in range. *)
Definition ParseInt (s : string) : option Z :=
  let magnitude s' := Z.of_uint <$> NilZero.uint_of_string s' in
  z ← match s with
      | String "+"%char s' => magnitude s'
      | String "-"%char s' => Z.opp <$> magnitude s'
      | _ => magnitude s
      end;
  if decide (in_int64 z) then Some z else None.

Lemma uint_string_head u c s :
  NilZero.string_of_uint u = String c s -> c <> "+"%char /\ c <> "-"%char.
Proof. destruct u; simpl; intros [= <- _]; split; discriminate. Qed.

Lemma uint_string_cons u : exists c s, NilZero.string_of_uint u = String c s.
Proof. destruct u; simpl; eauto. Qed.

Lemma ParseInt_unsigned s u :
  NilZero.string_of_uint u = s ->
  ParseInt s = z ← Z.of_uint <$> NilZero.uint_of_string s;
               if decide (in_int64 z) then Some z else None.
Proof.
  intros <-. destruct (uint_string_cons u) as (c & s & Hs).
  destruct (uint_string_head u c s Hs) as [H1 H2]. rewrite Hs.
  unfold ParseInt. destruct c as [[] [] [] [] [] [] [] []]; try done; congruence.
Qed.

(** What [FormatInt] prints, [ParseInt] reads back. *)
Lemma ParseInt_FormatInt z : in_int64 z -> ParseInt (FormatInt z) = Some z.
Proof.
  intros Hz. unfold FormatInt. destruct (Z.to_int z) as [u|u] eqn:E.
  all: pose proof (DecimalZ.of_to z) as Hof; rewrite E in Hof; cbn in Hof.
  all: assert (Hu : u <> Decimal.Nil) by
    (intros ->; destruct z as [|p|p]; simpl in E; try discriminate;
     injection E; apply DecimalPos.Unsigned.to_uint_nonnil).
  - cbn [NilZero.string_of_int]. rewrite (ParseInt_unsigned _ u) by done.
    rewrite NilZero.usu by done. cbn.
    rewrite Hof. by rewrite decide_True.
  - cbn [NilZero.string_of_int]. unfold ParseInt. rewrite NilZero.usu by done. cbn.
    rewrite Hof. by rewrite decide_True.
Qed.

Lemma ParseInt_in s z : ParseInt s = Some z -> in_int64 z.
Proof.
  unfold ParseInt. intros H. apply bind_Some in H as (z' & _ & H).
  case_decide; naive_solver.
Qed.

(** ** Maps

    Ranging over a Go map visits its entries in an order the language leaves
    open, and which may differ from one loop to the next.  [shuffle n] is the
    order of the [n]-th loop. *)

Class GoRuntime := {
  shuffle : nat -> forall {X : Type}, list X -> list X;
  shuffle_perm : forall n X (l : list X), shuffle n l ≡ₚ l
}.

(** The runtime that always iterates in the order given. *)
Definition in_order : GoRuntime.
Proof. refine {| shuffle := fun _ _ l => l |}. done. Defined.

(** A runtime that reverses every second loop. *)
Definition alternating : GoRuntime.
Proof.
  refine {| shuffle := fun n X l => if Nat.even n then l else reverse l |}.
  intros n X l. destruct (Nat.even n); [done | apply reverse_Permutation].
Defined.

Lemma shuffle_elem `{GoRuntime} n {X} (l : list X) x : x ∈ shuffle n l <-> x ∈ l.
Proof. by rewrite shuffle_perm. Qed.

Lemma shuffle_NoDup `{GoRuntime} n {X} (l : list X) : NoDup (shuffle n l) <-> NoDup l.
Proof. by rewrite shuffle_perm. Qed.

Lemma shuffle_length `{GoRuntime} n {X} (l : list X) : length (shuffle n l) = length l.
Proof. by rewrite shuffle_perm. Qed.
