(* ===== verification/Decimal.v ===== *)
(** * The interface of github.com/shopspring/decimal

    The package is a dependency, so it is a parameter of the development: a
    carrier with the operations the repository calls, and, as a class of laws,
    what the package documents about them.  A decimal denotes a rational; many
    decimals denote the same one (1.5 and 1.50), so equality of decimals is the
    setoid equality [≡] below and never Leibniz equality.  [QDecimal] is a
    concrete instance, used to evaluate examples. *)

From S2P Require Import Prelude GoStd.
From Stdlib Require Import DecimalString DecimalZ.
Local Open Scope Q_scope.

(** A [float64] constant, given by its shortest decimal notation [mant * 10^exp10]. *)
Record float64 := Float { mant : Z; exp10 : Z }.

(** Rounding toward zero. *)
Definition Qtrunc (q : Q) : Z := if Qle_bool 0 q then Qfloor q else (- Qfloor (- q))%Z.

(** Half a unit of the 16th decimal, the precision of [Div]. *)
Definition half_ulp : Q := (1 # 2) * / inject_Z (10 ^ 16).

Class Decimal := {
  dec : Type;
  dval : dec -> Q;
  Zero : dec;
  NewFromInt : Z -> dec;
  NewFromFloat : float64 -> dec;
  Add : dec -> dec -> dec;
  Sub : dec -> dec -> dec;
  Mul : dec -> dec -> dec;
  (** [None]: the division by zero, on which the package panics *)
  Div : dec -> dec -> option dec;
  Neg : dec -> dec;
  Abs : dec -> dec;
  Truncate : dec -> Z -> dec;
  Equal : dec -> dec -> bool;
  GreaterThan : dec -> dec -> bool;
  LessThan : dec -> dec -> bool;
  LessThanOrEqual : dec -> dec -> bool;
  IsZero : dec -> bool;
  IsPositive : dec -> bool;
  IsNegative : dec -> bool;
  dString : dec -> string;
  (** [None]: the error of a text that is not a number *)
  NewFromString : string -> option dec
}.

Class DecimalLaws {D : Decimal} : Prop := {
  dval_Zero : dval Zero == 0;
  dval_NewFromInt z : dval (NewFromInt z) == inject_Z z;
  dval_NewFromFloat f : dval (NewFromFloat f) == inject_Z (mant f) * Qpower 10 (exp10 f);
  dval_Add a b : dval (Add a b) == dval a + dval b;
  dval_Sub a b : dval (Sub a b) == dval a - dval b;
  dval_Mul a b : dval (Mul a b) == dval a * dval b;
  dval_Neg a : dval (Neg a) == - dval a;
  dval_Abs a : dval (Abs a) == Qabs (dval a);
  Div_panic a b : Div a b = None <-> dval b == 0;
  Div_close a b r :
    Div a b = Some r -> Qabs (dval r - dval a / dval b) <= half_ulp;
  Div_exact a b r z :
    Div a b = Some r -> dval a / dval b * inject_Z (10 ^ 16) == inject_Z z ->
    dval r == dval a / dval b;
  dval_Truncate a : dval (Truncate a 0) == inject_Z (Qtrunc (dval a));
  Equal_spec a b : Equal a b = true <-> dval a == dval b;
  GreaterThan_spec a b : GreaterThan a b = true <-> dval b < dval a;
  LessThan_spec a b : LessThan a b = true <-> dval a < dval b;
  LessThanOrEqual_spec a b : LessThanOrEqual a b = true <-> dval a <= dval b;
  IsZero_spec a : IsZero a = true <-> dval a == 0;
  IsPositive_spec a : IsPositive a = true <-> 0 < dval a;
  IsNegative_spec a : IsNegative a = true <-> dval a < 0;
  dString_parse a : exists b, NewFromString (dString a) = Some b /\ dval b == dval a
}.
Arguments DecimalLaws D : clear implicits.

(** ** Decimals up to the number they denote *)

Section Setoid.
  Context {D : Decimal}.

#[global] Instance dec_equiv : Equiv dec := fun a b => dval a == dval b.

#[global] Instance dec_equivalence : Equivalence (≡@{dec}).
Proof.
  split; unfold base.equiv, dec_equiv.
  - intros a. apply Qeq_refl.
  - intros a b H. by apply Qeq_sym.
  - intros a b c H1 H2. by apply Qeq_trans with (dval b).
Qed.

#[global] Instance dval_proper : Proper ((≡) ==> Qeq) dval.
Proof. intros a b H. exact H. Qed.

#[global] Instance dec_equiv_dec : RelDecision (≡@{dec}).
Proof. intros a b. unfold base.equiv, dec_equiv. destruct (Qeq_dec (dval a) (dval b)); [by left|by right]. Defined.
End Setoid.

(** Rewriting with the laws turns a statement about decimals into one about Q. *)
Create Rewrite HintDb dval.
#[export] Hint Rewrite @dval_Zero @dval_NewFromInt @dval_Add @dval_Sub @dval_Mul @dval_Neg
  @dval_Abs @dval_Truncate using typeclasses eauto : dval.

Ltac dval_simpl := unfold base.equiv, dec_equiv in *; autorewrite with dval.

Lemma bool_reflects (b c : bool) (P Q' : Prop) :
  (b = true <-> P) -> (c = true <-> Q') -> (P <-> Q') -> b = c.
Proof. destruct b, c; intuition congruence. Qed.

Section Laws.
  Context {D : Decimal} {DL : DecimalLaws D}.

#[global] Instance Add_proper : Proper ((≡) ==> (≡) ==> (≡)) Add.
Proof. intros a a' Ha b b' Hb. dval_simpl. lra. Qed.
#[global] Instance Sub_proper : Proper ((≡) ==> (≡) ==> (≡)) Sub.
Proof. intros a a' Ha b b' Hb. dval_simpl. lra. Qed.
#[global] Instance Mul_proper : Proper ((≡) ==> (≡) ==> (≡)) Mul.
Proof. intros a a' Ha b b' Hb. dval_simpl. by apply Qmult_comp. Qed.
#[global] Instance Neg_proper : Proper ((≡) ==> (≡)) Neg.
Proof. intros a a' Ha. dval_simpl. lra. Qed.
#[global] Instance Abs_proper : Proper ((≡) ==> (≡)) Abs.
Proof. intros a a' Ha. dval_simpl. by apply Qabs_wd. Qed.
#[global] Instance Equal_proper : Proper ((≡) ==> (≡) ==> eq) Equal.
Proof.
  intros a a' Ha b b' Hb. eapply bool_reflects; [apply Equal_spec..|].
  unfold base.equiv, dec_equiv in *. split; lra.
Qed.
#[global] Instance LessThan_proper : Proper ((≡) ==> (≡) ==> eq) LessThan.
Proof.
  intros a a' Ha b b' Hb. eapply bool_reflects; [apply LessThan_spec..|].
  unfold base.equiv, dec_equiv in *. split; lra.
Qed.
#[global] Instance GreaterThan_proper : Proper ((≡) ==> (≡) ==> eq) GreaterThan.
Proof.
  intros a a' Ha b b' Hb. eapply bool_reflects; [apply GreaterThan_spec..|].
  unfold base.equiv, dec_equiv in *. split; lra.
Qed.
#[global] Instance IsZero_proper : Proper ((≡) ==> eq) IsZero.
Proof.
  intros a a' Ha. eapply bool_reflects; [apply IsZero_spec..|].
  unfold base.equiv, dec_equiv in *. split; lra.
Qed.

Lemma Equal_refl a : Equal a a = true.
Proof. by apply Equal_spec. Qed.
Lemma Equal_equiv a b : Equal a b = true <-> a ≡ b.
Proof. apply Equal_spec. Qed.
Lemma IsZero_false a : IsZero a = false <-> ~ dval a == 0.
Proof. rewrite <- IsZero_spec. by destruct (IsZero a). Qed.
Lemma IsNegative_false a : IsNegative a = false <-> 0 <= dval a.
Proof.
  rewrite <- not_true_iff_false, IsNegative_spec. split; intros; lra.
Qed.
Lemma IsPositive_false a : IsPositive a = false <-> dval a <= 0.
Proof.
  rewrite <- not_true_iff_false, IsPositive_spec. split; intros; lra.
Qed.
Lemma Div_Some a b : ~ dval b == 0 -> exists r, Div a b = Some r.
Proof.
  intros Hb. destruct (Div a b) as [r|] eqn:E; [by eauto|].
  by apply Div_panic in E.
Qed.
End Laws.

#[export] Hint Resolve Equal_refl : lapua.
