(* ===== verification/QDecimal.v ===== *)
(** * A concrete decimal type

    An instance of the interface of [Decimal.v] that evaluates: decimals are
    reduced rationals, division rounds to sixteen decimals as the package's
    default precision does, and texts are [digits], [digits.digits] or, for the
    numbers that have no finite decimal notation, [digits/digits].  It shows
    that the laws are satisfiable and it runs the examples. *)

From S2P Require Import Prelude GoStd Decimal.
From Stdlib Require Import DecimalString DecimalZ.
Local Open Scope Q_scope.

(** Round to the nearest multiple of [10^-16]. *)
Definition round16 (q : Q) : Q :=
  Qred (inject_Z (Qfloor (q * inject_Z (10 ^ 16) + (1 # 2))) * / inject_Z (10 ^ 16)).

(** [split_at c s]: what stands before and after the first [c] of [s]. *)
Fixpoint split_at (c : ascii) (s : string) : option (string * string) :=
  match s with
  | EmptyString => None
  | String x s' =>
      if Ascii.eqb x c then Some (EmptyString, s')
      else prod_map (String x) id <$> split_at c s'
  end.

Definition Z_of_string (s : string) : option Z := Z.of_int <$> NilZero.int_of_string s.

Definition Q_of_string (s : string) : option Q :=
  match split_at "/" s with
  | Some (n, d) =>
      n ← Z_of_string n; d ← Z_of_string d;
      if (0 <? d)%Z then Some (n # Z.to_pos d) else None
  | None =>
      match split_at "." s with
      | Some (i, f) =>
          n ← Z_of_string (i +:+ f);
          Some (Qred (n # Z.to_pos (10 ^ Z.of_nat (String.length f))))
      | None => inject_Z <$> Z_of_string s
      end
  end.

Definition Q_to_string (q : Q) : string :=
  (FormatInt (Qnum q) +:+ "/" +:+ FormatInt (Zpos (Qden q)))%string.

#[export] Instance QDecimal : Decimal := {|
  dec := Q;
  dval := id;
  Zero := 0;
  NewFromInt := inject_Z;
  NewFromFloat f := Qred (inject_Z (mant f) * Qpower 10 (exp10 f));
  Add a b := Qred (a + b);
  Sub a b := Qred (a - b);
  Mul a b := Qred (a * b);
  Div a b := if Qeq_bool b 0 then None else Some (round16 (a / b));
  Neg a := - a;
  Abs := Qabs;
  Truncate a _ := inject_Z (Qtrunc a);
  Equal := Qeq_bool;
  GreaterThan a b := negb (Qle_bool a b);
  LessThan a b := negb (Qle_bool b a);
  LessThanOrEqual := Qle_bool;
  IsZero a := Qeq_bool a 0;
  IsPositive a := negb (Qle_bool a 0);
  IsNegative a := negb (Qle_bool 0 a);
  dString := Q_to_string;
  NewFromString := Q_of_string
|}.

Lemma Qle_bool_false a b : negb (Qle_bool a b) = true <-> b < a.
Proof.
  rewrite negb_true_iff, <- not_true_iff_false, Qle_bool_iff. split; lra.
Qed.

Lemma floor_half q : inject_Z (Qfloor (q + (1 # 2))) - (1 # 2) <= q /\
                     q <= inject_Z (Qfloor (q + (1 # 2))) + (1 # 2).
Proof.
  pose proof (Qfloor_le (q + (1 # 2))). pose proof (Qlt_floor (q + (1 # 2))) as H'.
  rewrite inject_Z_plus in H'. change (inject_Z 1) with (1 # 1) in H'. lra.
Qed.

Lemma round16_close q : Qabs (round16 q - q) <= half_ulp.
Proof.
  unfold round16, half_ulp. rewrite Qred_correct.
  pose proof (floor_half (q * inject_Z (10 ^ 16))) as [H1 H2].
  set (n := inject_Z (Qfloor _)) in *. change (inject_Z (10 ^ 16)) with (10000000000000000 # 1) in *.
  apply Qabs_Qle_condition. change (/ (10000000000000000 # 1)) with (1 # 10000000000000000).
  lra.
Qed.

Lemma round16_exact q z : q * inject_Z (10 ^ 16) == inject_Z z -> round16 q == q.
Proof.
  intros H. unfold round16. rewrite Qred_correct, H.
  assert (Qfloor (inject_Z z + (1 # 2)) = z) as ->.
  { pose proof (Qfloor_le (inject_Z z + (1 # 2))) as H1.
    pose proof (Qlt_floor (inject_Z z + (1 # 2))) as H2.
    assert (inject_Z (Qfloor (inject_Z z + (1 # 2))) < inject_Z (z + 1)) as H3
      by (rewrite inject_Z_plus; change (inject_Z 1) with (1 # 1); lra).
    assert (inject_Z z < inject_Z (Qfloor (inject_Z z + (1 # 2)) + 1)) as H4 by lra.
    apply Zlt_Qlt in H3 || rewrite <- Zlt_Qlt in H3.
    rewrite <- Zlt_Qlt in H4. lia. }
  rewrite <- H. field. discriminate.
Qed.

(** ** Texts *)

Fixpoint lacks (c : ascii) (s : string) : bool :=
  match s with
  | EmptyString => true
  | String x s' => negb (Ascii.eqb x c) && lacks c s'
  end.

Lemma split_at_lacks c s1 s2 :
  lacks c s1 = true -> split_at c (s1 +:+ String c s2) = Some (s1, s2).
Proof.
  induction s1 as [|x s1 IH]; simpl; [by rewrite Ascii.eqb_refl|].
  intros [Hx Hs]%andb_prop. apply negb_true_iff in Hx. rewrite Hx.
  change (split_at c (s1 +:+ String c s2)) with (split_at c (s1 +:+ String c s2)).
  by rewrite (IH Hs).
Qed.

Lemma lacks_uint u : lacks "/" (NilEmpty.string_of_uint u) = true.
Proof. by induction u. Qed.

Lemma lacks_FormatInt z : lacks "/" (FormatInt z) = true.
Proof.
  unfold FormatInt. destruct (Z.to_int z) as [u|u]; destruct u; try done; apply lacks_uint.
Qed.

Lemma Z_of_FormatInt z : Z_of_string (FormatInt z) = Some z.
Proof.
  unfold Z_of_string, FormatInt. rewrite NilZero.isi.
  - cbn. by rewrite DecimalZ.of_to.
  - destruct z; simpl; try done. intros [= H]. by apply DecimalPos.Unsigned.to_uint_nonnil in H.
  - destruct z; simpl; try done. intros [= H]. by apply DecimalPos.Unsigned.to_uint_nonnil in H.
Qed.

Lemma Q_of_to_string q : Q_of_string (Q_to_string q) = Some q.
Proof.
  unfold Q_of_string, Q_to_string. simpl.
  rewrite (split_at_lacks "/" _ (FormatInt (Zpos (Qden q)))) by apply lacks_FormatInt.
  rewrite Z_of_FormatInt. cbn. rewrite Z_of_FormatInt. cbn. by destruct q.
Qed.

#[export] Instance QDecimal_laws : DecimalLaws QDecimal.
Proof.
  split; cbn.
  all: try (intros; rewrite ?Qred_correct; reflexivity).
  - intros a b. rewrite <- Qeq_bool_iff. by destruct (Qeq_bool b 0).
  - intros a b r. destruct (Qeq_bool b 0); intros [= <-]. apply round16_close.
  - intros a b r z. destruct (Qeq_bool b 0); intros [= <-]. apply round16_exact.
  - intros a b. apply Qeq_bool_iff.
  - intros a b. apply Qle_bool_false.
  - intros a b. apply Qle_bool_false.
  - intros a b. apply Qle_bool_iff.
  - intros a. apply Qeq_bool_iff.
  - intros a. apply Qle_bool_false.
  - intros a. apply Qle_bool_false.
  - intros a. exists a. split; [apply Q_of_to_string|reflexivity].
Qed.

Example parse_text : Q_of_string "101.50" = Some (203 # 2) /\ Q_of_string "abc" = None.
Proof. split; reflexivity. Qed.
