(* ===== verification/Domains.v ===== *)
(** * Sides, order types and assets (domains/commons.go, domains/asset.go)

    Go's integer enumerations become inductive types with one constructor per
    constant; the integer behind a constant is its position. *)

From S2P Require Import Prelude GoStd Decimal.
Local Open Scope Z_scope.

Inductive Side := SideNone | SideBuy | SideSell.

#[export] Instance Side_eq_dec : EqDecision Side.
Proof. solve_decision. Defined.

Definition SideString (s : Side) : string :=
  match s with
  | SideBuy => "BUY"
  | SideSell => "SELL"
  | _ => "NONE"
  end.

Definition Opposite (s : Side) : Side :=
  match s with
  | SideBuy => SideSell
  | SideSell => SideBuy
  | _ => SideNone
  end.

Definition Sign (s : Side) : Z :=
  match s with
  | SideBuy => 1
  | SideSell => -1
  | _ => 0
  end.

Definition DecimalSign `{Decimal} (s : Side) : dec := NewFromInt (Sign s).

Inductive BookSide := BookSideNone | BookSideBid | BookSideAsk.

#[export] Instance BookSide_eq_dec : EqDecision BookSide.
Proof. solve_decision. Defined.

Inductive OrderType :=
  | OrderTypeUnknown
  | OrderTypeMarket
  | OrderTypeLimit
  | OrderTypeLimitFOK
  | OrderTypeLimitIOC
  | OrderTypeLimitMaker.

#[export] Instance OrderType_eq_dec : EqDecision OrderType.
Proof. solve_decision. Defined.

Definition IsTaker (o : OrderType) : bool :=
  bool_decide (o = OrderTypeMarket) || bool_decide (o = OrderTypeLimitFOK)
  || bool_decide (o = OrderTypeLimitIOC).

Definition IsMaker (o : OrderType) : bool :=
  bool_decide (o = OrderTypeLimitMaker) || bool_decide (o = OrderTypeLimit).

Definition IsAmenable (o : OrderType) : bool :=
  bool_decide (o = OrderTypeLimitMaker) || bool_decide (o = OrderTypeLimit).

Definition IsPricable (o : OrderType) : bool :=
  bool_decide (o = OrderTypeLimit) || bool_decide (o = OrderTypeLimitFOK)
  || bool_decide (o = OrderTypeLimitIOC) || bool_decide (o = OrderTypeLimitMaker).

Definition OrderTypeString (o : OrderType) : string :=
  match o with
  | OrderTypeMarket => "MARKET"
  | OrderTypeLimit => "LIMIT"
  | OrderTypeLimitFOK => "LIMIT_FOK"
  | OrderTypeLimitIOC => "LIMIT_IOC"
  | OrderTypeLimitMaker => "LIMIT_MAKER"
  | _ => "UNKNOWN"
  end.

Inductive Asset := AssetUnknown | AssetBTC | AssetUSDT | AssetUSDC.

#[export] Instance Asset_eq_dec : EqDecision Asset.
Proof. solve_decision. Defined.

Definition AssetString (c : Asset) : string :=
  match c with
  | AssetBTC => "BTC"
  | AssetUSDT => "USDT"
  | AssetUSDC => "USDC"
  | _ => "Unknown"
  end.

(** ** Facts *)

Lemma Opposite_involutive s : Opposite (Opposite s) = s.
Proof. by destruct s. Qed.

Lemma Sign_Opposite s : Sign (Opposite s) = - Sign s.
Proof. by destruct s. Qed.

(** Every known type is a taker or a maker, never both; exactly the makers can be
    amended and exactly the market order has no price. *)
Lemma order_type_partition o :
  o <> OrderTypeUnknown ->
  IsTaker o = negb (IsMaker o) /\ IsAmenable o = IsMaker o /\
  IsPricable o = negb (bool_decide (o = OrderTypeMarket)).
Proof. by destruct o. Qed.
