(* ===== verification/Symbol.v ===== *)
(** * The symbol registry (domains/symbol.go, domains/master_symbols.go)

    [newSymbol] fills two package-level maps while the package's variables are
    initialised.  A pointer to a [Symbol] is modelled by its index in the order
    of creation: the maps hold indices and the heap is the list of symbols. *)

From S2P Require Import Prelude GoStd Decimal Domains.

Definition ExchangeUnknown : string := "Unknown".
Definition ExchangeCoinEx : string := "CoinEx".
Definition ExchangeBybit : string := "Bybit".
Definition ProductUnknown : string := "Unknown".
Definition ProductFutures : string := "futures".
Definition ProductLinear : string := "linear".

Section Symbol.
  Context {D : Decimal}.

(** The Go struct [Symbol]; [symbol_ptr] stands for [*Symbol]. *)
Record Symbol := MkSymbol {
  id : string;
  exchange : string;
  product : string;
  name : string;
  tickSize : dec;
  minOrderQty : dec;
  baseAsset : Asset
}.

#[local] Abbreviation symbol_ptr := nat (only parsing).

(** The package's state: the symbols created and the two maps over them. *)
Record registry := Registry {
  symbols : list Symbol;
  symbolMapByID : gmap string symbol_ptr;
  symbolMapByName : gmap string symbol_ptr
}.

Definition empty_registry : registry := Registry [] ∅ ∅.

Definition newSymbol (exchange' product' name' : string) (tickSize' minOrderQty' : float64)
    (baseAsset' : Asset) (r : registry) : registry :=
  let s := {|
    id := exchange' +:+ "_" +:+ product' +:+ "_" +:+ name';
    exchange := exchange';
    product := product';
    name := name';
    tickSize := NewFromFloat tickSize';
    minOrderQty := NewFromFloat minOrderQty';
    baseAsset := baseAsset'
  |} in
  let p := length (symbols r) in
  {| symbols := symbols r ++ [s];
     symbolMapByID := <[id s := p]> (symbolMapByID r);
     symbolMapByName := <[name s := p]> (symbolMapByName r) |}.

(** [SymbolUnknown] is the first variable of the initialisation. *)
Definition SymbolUnknown : symbol_ptr := 0.

Definition GetSymbol (r : registry) (id' : string) : symbol_ptr :=
  match symbolMapByID r !! id' with
  | Some s => s
  | None => SymbolUnknown
  end.

Definition ID (s : Symbol) : string := id s.
Definition Exchange (s : Symbol) : string := exchange s.
Definition Product (s : Symbol) : string := product s.
Definition Name (s : Symbol) : string := name s.
Definition TickSize (s : Symbol) : dec := tickSize s.
Definition MinOrderQty (s : Symbol) : dec := minOrderQty s.
Definition BaseAsset (s : Symbol) : Asset := baseAsset s.

(** The package variables, in the order they are written. *)
Definition master_symbols : registry :=
  newSymbol ExchangeBybit ProductLinear "XRPUSDT" (Float 1 (-4)) (Float 10 0) AssetUSDT (
  newSymbol ExchangeBybit ProductLinear "SOLUSDT" (Float 1 (-3)) (Float 1 (-1)) AssetUSDT (
  newSymbol ExchangeBybit ProductLinear "ETHUSDT" (Float 1 (-2)) (Float 1 (-2)) AssetUSDT (
  newSymbol ExchangeBybit ProductLinear "BTCUSDT" (Float 1 (-1)) (Float 1 (-3)) AssetUSDT (
  newSymbol ExchangeCoinEx ProductFutures "SOLUSDT" (Float 1 (-2)) (Float 5 (-2)) AssetUSDT (
  newSymbol ExchangeCoinEx ProductFutures "XRPUSDT" (Float 1 (-4)) (Float 5 0) AssetUSDT (
  newSymbol ExchangeCoinEx ProductFutures "ETHUSDT" (Float 1 (-2)) (Float 5 (-3)) AssetUSDT (
  newSymbol ExchangeCoinEx ProductFutures "BTCUSDT" (Float 1 (-2)) (Float 1 (-4)) AssetUSDT (
  newSymbol ExchangeUnknown ProductUnknown "Unknown" (Float 0 0) (Float 0 0) AssetUnknown
    empty_registry)))))))).

(** ** Facts *)

(** Every symbol of the registry is found by its own id. *)
Definition registered (r : registry) : Prop :=
  (forall i s, symbols r !! i = Some s -> symbolMapByID r !! id s = Some i) /\
  (forall k p, symbolMapByID r !! k = Some p -> exists s, symbols r !! p = Some s /\ id s = k).

Lemma empty_registered : registered empty_registry.
Proof. split; intros *; simpl; [by rewrite lookup_nil | by rewrite lookup_empty]. Qed.

Lemma newSymbol_registered ex pr nm ts mq ba r :
  registered r -> symbolMapByID r !! (ex +:+ "_" +:+ pr +:+ "_" +:+ nm) = None ->
  registered (newSymbol ex pr nm ts mq ba r).
Proof.
  intros [H1 H2] Hfresh. split; simpl.
  - intros i s [Hi|[Hi Hs]]%lookup_app_Some.
    + rewrite lookup_insert_ne; [by apply H1|]. intros E.
      apply H1 in Hi. change (ex +:+ "_" +:+ pr +:+ "_" +:+ nm = id s) in E.
      congruence.
    + destruct (i - length (symbols r)) as [|n] eqn:E; simpl in Hs; [|by destruct n].
      simplify_eq/=. rewrite lookup_insert_eq. f_equal. lia.
  - intros k p. rewrite lookup_insert. case_decide; intros Hp; simplify_eq.
    + rewrite lookup_app_r, Nat.sub_diag by lia. eexists; by split.
    + destruct (H2 _ _ Hp) as (s & Hs & Hk). exists s. split; [|done].
      apply lookup_app_l_Some; done.
Qed.

Lemma master_registered : registered master_symbols.
Proof. repeat (apply newSymbol_registered; [|reflexivity]). apply empty_registered. Qed.

End Symbol.
