(* ===== verification/MutexFlag.v ===== *)
(** * mutex.Flag (mutex/flag.go)

    Every method holds the flag's mutex for its whole body, so each is one
    atomic step on the value. *)

From S2P Require Import Prelude.

Record Flag := { v : bool }.

Definition NewFlag (v : bool) : Flag := {| v := v |}.

Definition Get (f : Flag) : bool := v f.

Definition Set' (f : Flag) (v : bool) : Flag := {| v := v |}.

Lemma Get_Set f b : Get (Set' f b) = b.
Proof. done. Qed.
