(* ===== verification/MutexMap.v ===== *)
(** * mutex.Map (mutex/map.go)

    The map of [Map[K, V]] is a finite map [gmap K V]; every method holds the
    mutex for its whole body.  The methods that range over the Go map take the
    number [n] of the loop, which selects the unspecified iteration order of the
    runtime ([shuffle n], GoStd.v).  A method that returns Go's zero value for a
    missing key returns [inhabitant] here. *)

From S2P Require Import Prelude GoStd.

Section Map.
  Context `{RT : GoRuntime} `{Countable K} {V : Type}.

Definition NewMap (m : option (gmap K V)) : gmap K V :=
  match m with
  | None => ∅
  | Some m => m
  end.

Definition entries (n : nat) (m : gmap K V) : list (K * V) := shuffle n (map_to_list m).

Definition GetKeys (n : nat) (m : gmap K V) : list K := (entries n m).*1.

Definition Values (n : nat) (m : gmap K V) : list V := (entries n m).*2.

Definition Set' (m : gmap K V) (key : K) (value : V) : gmap K V := <[key := value]> m.

Definition SetIfAbsent `{Inhabited V} (m : gmap K V) (key : K) (value : V) :
    gmap K V * (V * bool) :=
  match m !! key with
  | Some existing => (m, (existing, true))
  | None => (<[key := value]> m, (inhabitant, false))
  end.

Definition Get `{Inhabited V} (m : gmap K V) (key : K) : V * bool :=
  match m !! key with
  | Some value => (value, true)
  | None => (inhabitant, false)
  end.

Definition Gets `{Inhabited V} (m : gmap K V) (keys : list K) : list V :=
  (fun k => default inhabitant (m !! k)) <$> keys.

Definition Delete (m : gmap K V) (key : K) : gmap K V := delete key m.

Definition BulkDelete (m : gmap K V) (keys : list K) : gmap K V :=
  foldl (fun m k => delete k m) m keys.

Definition Len (m : gmap K V) : nat := size m.

(** [Range f]: [f] also threads the variables its closure assigns. *)
Fixpoint range_loop {S} (f : S -> K -> V -> S * bool) (l : list (K * V)) (s : S) : S :=
  match l with
  | [] => s
  | (k, v) :: l => let '(s', continue) := f s k v in if continue then range_loop f l s' else s'
  end.

Definition Range {S} (n : nat) (m : gmap K V) (f : S -> K -> V -> S * bool) (s : S) : S :=
  range_loop f (entries n m) s.

(** ** Facts *)

Lemma entries_perm n m : entries n m ≡ₚ map_to_list m.
Proof. apply shuffle_perm. Qed.

Lemma elem_of_entries n m k v : (k, v) ∈ entries n m <-> m !! k = Some v.
Proof. unfold entries. rewrite shuffle_elem. apply elem_of_map_to_list. Qed.

Lemma elem_of_GetKeys n m k : k ∈ GetKeys n m <-> is_Some (m !! k).
Proof.
  unfold GetKeys. rewrite list_elem_of_fmap. split.
  - intros ([k' v] & -> & Hin%elem_of_entries). by eexists.
  - intros [v Hv]. exists (k, v). by rewrite elem_of_entries.
Qed.

Lemma NoDup_GetKeys n m : NoDup (GetKeys n m).
Proof. unfold GetKeys. rewrite entries_perm. apply NoDup_fst_map_to_list. Qed.

Lemma lookup_BulkDelete m ks k :
  BulkDelete m ks !! k = if decide (k ∈ ks) then None else m !! k.
Proof.
  unfold BulkDelete. revert m. induction ks as [|x ks IH]; intros m; simpl.
  - done.
  - rewrite IH, lookup_delete. repeat case_decide; try done; set_solver.
Qed.

Lemma Len_GetKeys n m : length (GetKeys n m) = Len m.
Proof.
  unfold GetKeys, Len. rewrite length_fmap, entries_perm. apply length_map_to_list.
Qed.

(** A [Range] whose closure never stops visits every entry once. *)
Lemma range_loop_all {S} (f : S -> K -> V -> S) l s :
  range_loop (fun s k v => (f s k v, true)) l s = foldl (fun s '(k, v) => f s k v) s l.
Proof. revert s. induction l as [|[k v] l IH]; intros s; simpl; [done|apply IH]. Qed.

End Map.
