(* ===== verification/MutexSlice.v ===== *)
(** * mutex.Slice (mutex/slice.go)

    [Slice[T]] is a list with a maximal length (0 or less: no limit).  Indices
    are machine integers, negative ones included, so they are [Z]; an access out
    of range panics, which is [None].  The in-place [copy] of [drop] and [drops]
    is written out on the list. *)

From S2P Require Import Prelude GoStd.
From stdpp Require Import sorting.
Local Open Scope Z_scope.

Section Slice.
  Context {T : Type} `{Inhabited T}.

Record Slice := MkSlice {
  maxLen : Z;
  a : list T
}.

Definition len (l : list T) : Z := Z.of_nat (length l).

Definition NewSlice (src : list T) (maxLen' : Z) : Slice :=
  let dst := src in
  let dst := if (0 <? maxLen') && (maxLen' <? len dst)
             then take (Z.to_nat maxLen') dst else dst in
  {| a := dst; maxLen := maxLen' |}.

(** [copy(s[i:], s[i+1:])]: shift the tail one place to the left, in place; the
    last element stays where it was. *)
Definition copy_left (l : list T) (i : nat) : list T :=
  take i l ++ (drop (S i) l ++ drop (length l - 1) l).

(** The body shared by [drop] and [drops]: shift, clear the last element, cut it. *)
Definition drop_at (l : list T) (i : nat) : list T :=
  let l := copy_left l i in
  let l := <[(length l - 1)%nat := inhabitant]> l in
  take (length l - 1) l.

Definition drop_unlocked (s : Slice) (i : Z) : Slice :=
  {| maxLen := maxLen s; a := drop_at (a s) (Z.to_nat i) |}.

Definition AppendHead (s : Slice) (item : T) : Slice :=
  let s := if (0 <? maxLen s) && (maxLen s <=? len (a s))
           then drop_unlocked s (len (a s) - 1) else s in
  {| maxLen := maxLen s; a := item :: a s |}.

Definition Append (s : Slice) (item : T) : Slice :=
  let s := if (0 <? maxLen s) && (maxLen s <=? len (a s))
           then drop_unlocked s 0 else s in
  {| maxLen := maxLen s; a := a s ++ [item] |}.

Definition Merge (s s2 : Slice) : Slice :=
  let tmp := a s2 in
  let l := a s ++ tmp in
  let l := if (0 <? maxLen s) && (maxLen s <? len l)
           then drop (Z.to_nat (len l - maxLen s)) l else l in
  {| maxLen := maxLen s; a := l |}.

(** [Range f]: [f] also threads the variables its closure assigns. *)
Fixpoint range_from {S} (f : S -> nat -> T -> S * bool) (i : nat) (l : list T) (st : S) : S :=
  match l with
  | [] => st
  | item :: l =>
      let '(st, continue) := f st i item in
      if continue then range_from f (i + 1)%nat l st else st
  end.

Definition Range {S} (s : Slice) (f : S -> nat -> T -> S * bool) (st : S) : S :=
  range_from f 0 (a s) st.

Definition Drop (s : Slice) (i : Z) : Slice * bool :=
  if (i <? 0) || (len (a s) <=? i) then (s, false)
  else (drop_unlocked s i, true).

(** [uniqueSorted]: sort a copy, then keep each element that differs from the one
    before it. *)
Fixpoint keep_changes (previous : option Z) (l : list Z) : list Z :=
  match l with
  | [] => []
  | idx :: l =>
      if bool_decide (previous = Some idx) then keep_changes (Some idx) l
      else idx :: keep_changes (Some idx) l
  end.

Definition uniqueSorted (indices : list Z) : list Z :=
  keep_changes None (merge_sort (≤) indices).

(** The loop of [drops]: [removed] is the position in the list of indices. *)
Fixpoint drops_loop (removed : Z) (unique : list Z) (l : list T) : list T :=
  match unique with
  | [] => l
  | idx :: unique =>
      let adj := idx - removed in
      if (adj <? 0) || (len l <=? adj) then drops_loop (removed + 1) unique l
      else drops_loop (removed + 1) unique (drop_at l (Z.to_nat adj))
  end.

Definition drops (s : Slice) (indices : list Z) : Slice :=
  let unique := uniqueSorted indices in
  {| maxLen := maxLen s; a := drops_loop 0 unique (a s) |}.

Definition Drops (s : Slice) (indices : list Z) : Slice := drops s indices.

Definition Len (s : Slice) : Z := len (a s).

Definition Get (s : Slice) (i : Z) : option T :=
  let i := if i <? 0 then len (a s) + i else i in
  if i <? 0 then None else a s !! Z.to_nat i.

(** ** The bound on the length *)

Definition bounded (s : Slice) : Prop := 0 < maxLen s -> len (a s) <= maxLen s.

Lemma drop_at_delete l i : (i < length l)%nat -> drop_at l i = delete i l.
Proof.
  intros Hi. unfold drop_at, copy_left.
  assert (length (drop (length l - 1) l) = 1%nat) as Hlast by (rewrite length_drop; lia).
  destruct (drop (length l - 1) l) as [|x [|]] eqn:E; simplify_eq/=.
  rewrite length_insert, app_assoc, !length_app.
  assert (length (take i l) + length (drop (S i) l) = length l - 1)%nat as Hlen
    by (rewrite length_take, length_drop; lia).
  simpl. rewrite Hlen, Nat.add_sub.
  rewrite take_insert_ge by done. rewrite take_app_length'; [by rewrite delete_take_drop|].
  by rewrite length_app.
Qed.

Lemma length_drop_at l i : (i < length l)%nat -> length (drop_at l i) = (length l - 1)%nat.
Proof.
  intros Hi. rewrite drop_at_delete, length_delete by (done || by apply lookup_lt_is_Some).
  lia.
Qed.

Lemma NewSlice_bounded src n : bounded (NewSlice src n).
Proof.
  unfold bounded, NewSlice, len. simpl. intros Hn.
  destruct (Z.ltb_spec 0 n), (Z.ltb_spec n (Z.of_nat (length src))); simpl; try lia.
  rewrite length_take. lia.
Qed.

Lemma Append_bounded s x : bounded s -> bounded (Append s x).
Proof.
  unfold bounded, Append, len. intros Hb.
  destruct (Z.ltb_spec 0 (maxLen s)), (Z.leb_spec (maxLen s) (Z.of_nat (length (a s))));
    simpl; rewrite ?length_app; simpl; intros; try lia.
  rewrite length_drop_at; lia.
Qed.

Lemma AppendHead_bounded s x : bounded s -> bounded (AppendHead s x).
Proof.
  unfold bounded, AppendHead, len. intros Hb.
  destruct (Z.ltb_spec 0 (maxLen s)), (Z.leb_spec (maxLen s) (Z.of_nat (length (a s))));
    simpl; intros; try lia.
  rewrite length_drop_at; lia.
Qed.

Lemma Merge_bounded s s2 : bounded (Merge s s2).
Proof.
  unfold bounded, Merge, len. simpl. intros Hb.
  destruct (Z.ltb_spec 0 (maxLen s)); [|lia].
  destruct (Z.ltb_spec (maxLen s) (Z.of_nat (length (a s ++ a s2)))); simpl; [|lia].
  rewrite length_drop. lia.
Qed.

(** The operations that change a slice, as data. *)
Inductive slice_op :=
  | OpAppendHead (item : T)
  | OpAppend (item : T)
  | OpMerge (s2 : Slice)
  | OpDrop (i : Z)
  | OpDrops (indices : list Z).

Definition apply_op (s : Slice) (o : slice_op) : Slice :=
  match o with
  | OpAppendHead x => AppendHead s x
  | OpAppend x => Append s x
  | OpMerge s2 => Merge s s2
  | OpDrop i => (Drop s i).1
  | OpDrops js => Drops s js
  end.

Lemma drops_loop_length unique removed l :
  (length (drops_loop removed unique l) <= length l)%nat.
Proof.
  revert removed l. induction unique as [|idx u IH]; intros r l; simpl; [done|].
  case_match eqn:E; [apply IH|]. unfold len in E.
  etransitivity; [apply IH|]. rewrite length_drop_at by lia. lia.
Qed.

Lemma apply_op_bounded s o : bounded s -> bounded (apply_op s o).
Proof.
  intros Hb. destruct o as [x|x|s2|i|js]; simpl.
  - by apply AppendHead_bounded.
  - by apply Append_bounded.
  - apply Merge_bounded.
  - unfold Drop. case_match eqn:E; [done|]. unfold bounded, len in *. simpl. intros Hm.
    specialize (Hb Hm). rewrite length_drop_at by lia. lia.
  - unfold bounded, Drops, drops, len in *. simpl. intros Hm. specialize (Hb Hm).
    pose proof (drops_loop_length (uniqueSorted js) 0 (a s)). lia.
Qed.

(** ** Sliding window *)

Definition last_n (n : nat) (l : list T) : list T := drop (length l - n) l.

Lemma last_n_snoc n l x :
  (0 < n)%nat -> last_n n (last_n n l ++ [x]) = last_n n (l ++ [x]).
Proof.
  intros Hn. unfold last_n. rewrite !length_app, length_drop. simpl.
  destruct (decide (length l <= n - 1)%nat).
  - replace (length l - n)%nat with 0%nat by lia. by rewrite Nat.sub_0_r.
  - rewrite !drop_app_le by (rewrite ?length_drop; lia). rewrite drop_drop.
    f_equal. f_equal. lia.
Qed.

Lemma Append_window n s x :
  maxLen s = Z.of_nat n -> (0 < n)%nat -> bounded s ->
  a (Append s x) = last_n n (a s ++ [x]) /\ maxLen (Append s x) = maxLen s.
Proof.
  unfold bounded, Append, len. intros Hm Hn Hb. specialize (Hb ltac:(lia)). split; [|by case_match].
  unfold last_n. rewrite length_app. simpl.
  destruct (Z.ltb_spec 0 (maxLen s)), (Z.leb_spec (maxLen s) (Z.of_nat (length (a s))));
    simpl; try lia.
  - rewrite drop_at_delete by lia. rewrite drop_app_le by lia.
    replace (length (a s) + 1 - n)%nat with 1%nat by lia. by destruct (a s).
  - by replace (length (a s) + 1 - n)%nat with 0%nat by lia.
Qed.

(** ** Dropping several elements *)

(** Reference: the elements of [l], the first at position [i], whose position is
    not among [js]. *)
Fixpoint keep_except (js : list Z) (i : Z) (l : list T) : list T :=
  match l with
  | [] => []
  | x :: l => if bool_decide (i ∈ js) then keep_except js (i + 1) l
              else x :: keep_except js (i + 1) l
  end.

Lemma elem_keep_changes (p : option Z) l x :
  Sorted (≤) l -> (forall y, p = Some y -> Forall (Z.le y) l) ->
  x ∈ keep_changes p l <-> x ∈ l /\ p <> Some x.
Proof.
  revert p. induction l as [|y l IH]; intros p Hs Hp; simpl.
  { rewrite elem_of_nil. tauto. }
  assert (StronglySorted Z.le (y :: l)) as HS
    by (apply Sorted_StronglySorted; [intros ???; lia|done]).
  apply StronglySorted_inv in HS as [_ Hall]. apply Sorted_inv in Hs as [Hs _].
  assert (forall z, Some y = Some z -> Forall (Z.le z) l) as Hnext by congruence.
  specialize (IH (Some y) Hs Hnext). rewrite elem_of_cons.
  case_bool_decide as Hc; subst.
  { rewrite IH. split; [tauto|]. intros [[->|?] ?]; [done|tauto]. }
  rewrite elem_of_cons, IH. split; [|intros [[->|?] ?]; [tauto|]].
  2: { destruct (decide (x = y)) as [->|]; [tauto|]. right. split; [done|congruence]. }
  intros [->|[Hx Hne]]; [tauto|]. split; [tauto|]. intros ->.
  specialize (Hp _ eq_refl). apply Forall_cons in Hp as [Hxy _].
  rewrite Forall_forall in Hall. specialize (Hall _ Hx). assert (x = y) by lia. congruence.
Qed.

Lemma keep_changes_sorted (p : option Z) l :
  Sorted (≤) l -> (forall y, p = Some y -> Forall (Z.le y) l) ->
  StronglySorted Z.lt (keep_changes p l).
Proof.
  revert p. induction l as [|y l IH]; intros p Hs Hp; simpl; [constructor|].
  assert (StronglySorted Z.le (y :: l)) as HS
    by (apply Sorted_StronglySorted; [intros ???; lia|done]).
  apply StronglySorted_inv in HS as [_ Hall]. apply Sorted_inv in Hs as [Hs _].
  assert (forall z, Some y = Some z -> Forall (Z.le z) l) as Hnext by congruence.
  case_bool_decide; [by apply IH|]. constructor; [by apply IH|].
  apply Forall_forall. intros x Hx. apply (elem_keep_changes (Some y)) in Hx as [Hx Hne]; [|done..].
  rewrite Forall_forall in Hall. specialize (Hall _ Hx). assert (x <> y) by congruence. lia.
Qed.

Lemma elem_uniqueSorted js x : x ∈ uniqueSorted js <-> x ∈ js.
Proof.
  unfold uniqueSorted. rewrite elem_keep_changes.
  - rewrite merge_sort_Permutation. intuition congruence.
  - apply Sorted_merge_sort. intros y z. lia.
  - done.
Qed.

Lemma uniqueSorted_sorted js : StronglySorted Z.lt (uniqueSorted js).
Proof. apply keep_changes_sorted; [|done]. apply Sorted_merge_sort. intros y z. lia. Qed.

Lemma keep_except_ext js js' i l :
  (forall x, x ∈ js <-> x ∈ js') -> keep_except js i l = keep_except js' i l.
Proof.
  intros He. revert i. induction l as [|y l IH]; intros i; simpl; [done|].
  rewrite IH, (bool_decide_ext _ _ (He i)). done.
Qed.

(** Indices left of the list never matter to [keep_except]. *)
Lemma keep_except_skip j js i l : j < i -> keep_except (j :: js) i l = keep_except js i l.
Proof.
  revert i. induction l as [|y l IH]; intros i Hji; simpl; [done|].
  rewrite IH by lia. rewrite (bool_decide_ext (i ∈ j :: js) (i ∈ js)); [done|].
  rewrite elem_of_cons. intuition lia.
Qed.

Lemma drops_loop_out u r l :
  StronglySorted Z.lt u -> Forall (fun x => r + len l <= x) u -> drops_loop r u l = l.
Proof.
  revert r. induction u as [|x u IH]; intros r Hs Hf; simpl; [done|].
  apply Forall_cons in Hf as [Hx Hf]. apply StronglySorted_inv in Hs as [Hs Hlt].
  rewrite (proj2 (Z.leb_le _ _)) by lia. rewrite orb_true_r. apply IH; [done|].
  eapply Forall_impl; [exact Hlt|]. simpl. lia.
Qed.

Lemma drops_loop_spec suf u r pre :
  StronglySorted Z.lt u -> Forall (fun x => r + len pre <= x) u ->
  drops_loop r u (pre ++ suf) = pre ++ keep_except u (r + len pre) suf.
Proof.
  revert u r pre. induction suf as [|y suf IH]; intros u r pre Hs Hf.
  { rewrite app_nil_r. simpl. by rewrite app_nil_r, drops_loop_out. }
  assert (len (pre ++ [y]) = len pre + 1) as Hlen
    by (unfold len; rewrite length_app; simpl; lia).
  destruct u as [|x u]; [|destruct (decide (x = r + len pre)) as [->|Hne]].
  - specialize (IH [] r (pre ++ [y])). rewrite <- app_assoc, Hlen in IH. simpl in *.
    rewrite IH by constructor. rewrite <- app_assoc. simpl. by rewrite Z.add_assoc.
  - apply StronglySorted_inv in Hs as [Hs Hlt]. apply Forall_cons in Hf as [_ Hf]. simpl.
    replace (r + len pre - r) with (len pre) by lia.
    rewrite bool_decide_eq_true_2 by (rewrite elem_of_cons; tauto).
    assert ((len pre <? 0) || (len (pre ++ y :: suf) <=? len pre) = false) as ->
      by (unfold len; rewrite length_app; cbn [length]; apply orb_false_intro;
          [apply Z.ltb_ge | apply Z.leb_gt]; lia).
    rewrite drop_at_delete by (unfold len; rewrite length_app; cbn [length]; lia).
    unfold len at 1. rewrite Nat2Z.id, delete_middle.
    rewrite keep_except_skip by lia. replace (r + len pre + 1) with (r + 1 + len pre) by lia.
    apply IH; [done|]. eapply Forall_impl; [exact Hlt|]. simpl. lia.
  - assert (Forall (fun z => r + len (pre ++ [y]) <= z) (x :: u)) as Hf'.
    { rewrite Hlen. apply StronglySorted_inv in Hs as [_ Hlt].
      apply Forall_cons in Hf as [Hx Hf]. apply Forall_cons. split; [lia|].
      eapply Forall_impl; [exact Hlt|]. simpl. lia. }
    specialize (IH (x :: u) r (pre ++ [y]) Hs Hf').
    rewrite <- app_assoc in IH. simpl app in IH. rewrite IH, <- app_assoc. simpl.
    rewrite bool_decide_eq_false_2; [by rewrite Hlen, Z.add_assoc|].
    rewrite Forall_forall in Hf'. intros Hin%Hf'. lia.
Qed.

(** ** Properties *)

(** Whatever sequence of operations is applied to a slice built by
    [NewSlice] with a positive limit, its length never exceeds the limit. *)
Theorem slice_length_bounded src n ops :
  0 < n -> Len (foldl apply_op (NewSlice src n) ops) <= n.
Proof.
  intros Hn.
  assert (forall s, maxLen s = n -> bounded s ->
    maxLen (foldl apply_op s ops) = n /\ bounded (foldl apply_op s ops)) as Hops.
  { induction ops as [|o ops IH]; intros s Hs Hb; [done|]. simpl. apply IH.
    - destruct o; simpl; unfold AppendHead, Append, Drop; simpl; repeat case_match; done.
    - by apply apply_op_bounded. }
  destruct (Hops (NewSlice src n) eq_refl (NewSlice_bounded src n)) as [Hm Hb].
  unfold Len, bounded in *. rewrite Hm in Hb. by apply Hb.
Qed.

(** A slice with limit [n] that starts empty and is only appended to holds
    the last [n] items appended, oldest first. *)
Theorem append_keeps_most_recent n xs :
  (0 < n)%nat -> a (foldl Append (NewSlice [] (Z.of_nat n)) xs) = last_n n xs.
Proof.
  intros Hn.
  assert (a (foldl Append (NewSlice [] (Z.of_nat n)) xs) = last_n n xs /\
          maxLen (foldl Append (NewSlice [] (Z.of_nat n)) xs) = Z.of_nat n /\
          bounded (foldl Append (NewSlice [] (Z.of_nat n)) xs)) as [H1 _]; [|done].
  induction xs as [|x xs IH] using rev_ind.
  - split; [|split; [done|apply NewSlice_bounded]]. unfold NewSlice, last_n. simpl.
    case_match; by rewrite ?take_nil.
  - rewrite foldl_snoc. destruct IH as (IHa & IHm & IHb).
    destruct (Append_window n (foldl Append (NewSlice [] (Z.of_nat n)) xs) x IHm Hn IHb) as [Ha Hm].
    split; [|split; [congruence|by apply Append_bounded]].
    by rewrite Ha, IHa, last_n_snoc.
Qed.

(** [Drops] with non-negative indices, in any order and with repetitions,
    removes exactly the elements at those positions; positions past the end are
    ignored. *)
Theorem drops_removes_positions s js :
  Forall (fun j => 0 <= j) js -> a (Drops s js) = keep_except js 0 (a s).
Proof.
  intros Hjs. unfold Drops, drops. simpl.
  change (a s) with ([] ++ a s) at 1. rewrite drops_loop_spec; [simpl|..].
  - apply keep_except_ext, elem_uniqueSorted.
  - apply uniqueSorted_sorted.
  - rewrite Forall_forall in *. intros x Hx. rewrite elem_uniqueSorted in Hx.
    specialize (Hjs x Hx). unfold len. simpl. lia.
Qed.

End Slice.
Arguments Slice : clear implicits.

(** A negative index, which [drops] means to skip, still counts as one
    removed element, so the next index deletes its left neighbour. *)
Theorem drops_negative_shifts :
  a (Drops (MkSlice 0 [10; 20; 30]%nat) [-1; 1]) = [20; 30]%nat /\
  keep_except [-1; 1] 0 [10; 20; 30]%nat = [10; 30]%nat.
Proof. split; reflexivity. Qed.

Lemma slice_length_bounded_witness :
  0 < 2 /\ Len (foldl apply_op (NewSlice [1; 2; 3]%nat 2)
    [OpAppend 4%nat; OpAppendHead 5%nat; OpMerge (NewSlice [6; 7]%nat 0); OpDrop 0; OpDrops [7; 0]]) <= 2.
Proof. split; [lia | apply (slice_length_bounded [1; 2; 3]%nat 2); lia]. Defined.

Lemma append_keeps_most_recent_witness :
  (0 < 2)%nat /\ a (foldl Append (NewSlice [] 2) [1; 2; 3]%nat) = [2; 3]%nat.
Proof. split; [lia | apply (append_keeps_most_recent 2 [1; 2; 3]%nat); lia]. Defined.

Lemma drops_removes_positions_witness :
  Forall (fun j => 0 <= j) [2; 0; 2; 9] /\
  a (Drops (MkSlice 0 [10; 20; 30]%nat) [2; 0; 2; 9]) = [20]%nat.
Proof.
  assert (Forall (fun j => 0 <= j) [2; 0; 2; 9]) as H by (repeat constructor; lia).
  split; [exact H | exact (drops_removes_positions (MkSlice 0 [10; 20; 30]%nat) _ H)].
Defined.
