(* ===== verification/Errors.v ===== *)
(** * Errors of the dealing domain (domains/deals/errors.go)

    A Go [error] is one of the package's sentinel values, an error made on the
    spot, or an error wrapping another ([%w]); [errors.Is] walks the chain. *)

From S2P Require Import Prelude.

(** The package variables. *)
Inductive sentinel :=
  | ServerTimeoutError
  | ParameterError
  | PriceSettingError
  | AuthError
  | ExecLateLimitError
  | LateLimitError
  | InsufficientBalanceError
  | AccountLockError
  | HttpRequestError
  | InfoError
  | WarnError
  | OtherError
  | OrderIsNotExists
  | DealingErrorOrderIsAlreadyExists
  | DealingErrorOrderNotReadyForOperation
  | DealingErrorOrderNotFound
  | DealingErrorOrderIsNotAmendable.

#[export] Instance sentinel_eq_dec : EqDecision sentinel.
Proof. solve_decision. Defined.

Inductive error :=
  | Sentinel (s : sentinel)
  (** [errors.New(msg)], or [fmt.Errorf] without a wrapped error *)
  | NewError (msg : string)
  (** [fmt.Errorf("%w: %v", err, ...)] *)
  | Wrap (err : error) (msg : string).

#[export] Instance error_eq_dec : EqDecision error.
Proof. solve_decision. Defined.

(** [errors.Is(err, target)] for a sentinel target. *)
Fixpoint Is (err : error) (target : sentinel) : bool :=
  match err with
  | Sentinel s => bool_decide (s = target)
  | NewError _ => false
  | Wrap err _ => Is err target
  end.

Definition Error (err : error) (msg : string) : error := Wrap err msg.

Lemma Is_Error err msg s : Is (Error err msg) s = Is err s.
Proof. done. Qed.
