(* ===== verification/Order.v ===== *)
(** * Orders (domains/deals/order.go)

    The Go struct [Order] is a record with the same fields; its mutex [mu] only
    makes each of the methods below atomic, so every method is one pure function
    on the record, and its operation lock [muOpe] is part of the world of
    [World.v].  A pointer [*Order] is a location, a natural number.  A nil pointer
    field is [None]. *)

From S2P Require Import Prelude GoStd Decimal QDecimal Domains.
Local Open Scope Z_scope.

(** [*Order] *)
Abbreviation loc := nat (only parsing).

Inductive OrderDoneReason :=
  | OrderDoneReasonUnknown
  | OrderDoneReasonFilled
  | OrderDoneReasonPartiallyFilledAndCanceled
  | OrderDoneReasonCanceled
  | OrderDoneReasonAmended
  | OrderDoneReasonRejected
  | OrderDoneReasonAbandoned.

#[export] Instance OrderDoneReason_eq_dec : EqDecision OrderDoneReason.
Proof. solve_decision. Defined.

Definition OrderDoneReasonString (r : OrderDoneReason) : string :=
  match r with
  | OrderDoneReasonFilled => "Filled"
  | OrderDoneReasonCanceled => "Canceled"
  | OrderDoneReasonAmended => "Amended"
  | _ => "Unknown"
  end.

Inductive OrderStatus :=
  | OrderStatusUnknown
  | OrderStatusBorn
  | OrderStatusSending
  | OrderStatusPending
  | OrderStatusCanceling
  | OrderStatusAmending
  | OrderStatusDone.

#[export] Instance OrderStatus_eq_dec : EqDecision OrderStatus.
Proof. solve_decision. Defined.

Definition OrderStatusString (s : OrderStatus) : string :=
  match s with
  | OrderStatusBorn => "Born"
  | OrderStatusSending => "Sending"
  | OrderStatusPending => "Pending"
  | OrderStatusCanceling => "Canceling"
  | OrderStatusAmending => "Amending"
  | OrderStatusDone => "Done"
  | _ => "Unknown"
  end.

Section Order.
  Context {D : Decimal}.

Record AmendDetail := MkAmendDetail {
  Price : dec;
  Qty : dec
}.

(** The functions registered with an order.  [CbUser n] is a function of the
    strategy, opaque; the other two are the closures that [AmendOrder] and
    [CancelOrder(s)] of the dealer register, with the variables they capture. *)
Inductive OrderCallback :=
  | CbUser (n : nat)
  | CbDeferredAmend (order : loc) (detail : AmendDetail)
  | CbDeferredCancel.

Record Order := MkOrder {
  id : string;
  publicID : string;
  hide : bool;
  memo : string;
  orderType : OrderType;
  price : dec;
  qty : dec;
  side : Side;
  sentAt : option time;
  arrivedAt : option time;
  confirmedAt : option time;
  lastOperatedAt : option time;
  status : OrderStatus;
  filledAt : option time;
  avgPrice : dec;
  execQty : dec;
  fee : dec;
  orderDoneReason : option OrderDoneReason;
  createCallbacks : list OrderCallback;
  amendCallbacks : list OrderCallback;
  fillCallbacks : list OrderCallback;
  partiallyFillCallBacks : list OrderCallback;
  cancelCallbacks : list OrderCallback;
  createRejectCallbacks : list OrderCallback;
  amendRejectCallbacks : list OrderCallback;
  amendRejectOrderNotExistCallbacks : list OrderCallback;
  cancelRejectCallbacks : list OrderCallback;
  amendingDetail : option AmendDetail;
  amendCount : Z
}.

#[export] Instance eta_Order : Eta Order := fun o =>
  MkOrder (id o) (publicID o) (hide o) (memo o) (orderType o) (price o) (qty o) (side o)
    (sentAt o) (arrivedAt o) (confirmedAt o) (lastOperatedAt o) (status o) (filledAt o)
    (avgPrice o) (execQty o) (fee o) (orderDoneReason o) (createCallbacks o)
    (amendCallbacks o) (fillCallbacks o) (partiallyFillCallBacks o) (cancelCallbacks o)
    (createRejectCallbacks o) (amendRejectCallbacks o)
    (amendRejectOrderNotExistCallbacks o) (cancelRejectCallbacks o)
    (amendingDetail o) (amendCount o).

(** The zero value of the struct. *)
Definition zero_Order : Order :=
  MkOrder "" "" false "" OrderTypeUnknown Zero Zero SideNone None None None None
    OrderStatusUnknown None Zero Zero Zero None [] [] [] [] [] [] [] [] [] None 0.

(** ** Sizes *)

Definition ToSize (side : Side) (qty : dec) : dec :=
  match side with
  | SideBuy => qty
  | SideSell => Neg qty
  | _ => Zero
  end.

Definition ToQty (size : dec) : dec * Side :=
  let side := if IsNegative size then SideSell
              else if IsPositive size then SideBuy else SideNone in
  (Abs size, side).

(** ** Getters *)

Definition GetID (o : Order) : string := id o.
Definition GetPublicID (o : Order) : string := publicID o.
Definition IsHide (o : Order) : bool := hide o.
Definition GetMemo (o : Order) : string := memo o.
Definition GetOrderType (o : Order) : OrderType := orderType o.
Definition GetPrice (o : Order) : dec := price o.
Definition GetQty (o : Order) : dec := qty o.
Definition GetSize (o : Order) : dec := ToSize (side o) (GetQty o).
Definition GetSide (o : Order) : Side := side o.
Definition GetSentAt (o : Order) : option time := sentAt o.
Definition GetArrivedAt (o : Order) : option time := arrivedAt o.
Definition GetConfirmedAt (o : Order) : option time := confirmedAt o.
Definition GetFilledAt (o : Order) : option time := filledAt o.
Definition GetAvgPrice (o : Order) : dec := avgPrice o.
Definition GetExecQty (o : Order) : dec := execQty o.
Definition GetFee (o : Order) : dec := fee o.
Definition GetOrderDoneReason (o : Order) : option OrderDoneReason := orderDoneReason o.
Definition GetStatus (o : Order) : OrderStatus := status o.
Definition getLastOperatedTimestamp (o : Order) : option time := lastOperatedAt o.
Definition GetAmendingDetail (o : Order) : option AmendDetail := amendingDetail o.

Fixpoint IsOneOfStatus (o : Order) (statuses : list OrderStatus) : bool :=
  match statuses with
  | [] => false
  | s :: statuses => if decide (status o = s) then true else IsOneOfStatus o statuses
  end.

Definition isConfirmed (o : Order) : bool := bool_decide (is_Some (confirmedAt o)).

(** ** Setters *)

Definition setPublicID (id' : string) (o : Order) : Order := o <| publicID := id' |>.
Definition SetMemo (memo' : string) (o : Order) : Order := o <| memo := memo' |>.
Definition setFilledAt (filledAt' : option time) (o : Order) : Order := o <| filledAt := filledAt' |>.
Definition setAvgPrice (avgPrice' : dec) (o : Order) : Order := o <| avgPrice := avgPrice' |>.
Definition setExecQty (execQty' : dec) (o : Order) : Order := o <| execQty := execQty' |>.
Definition setFee (fee' : dec) (o : Order) : Order := o <| fee := fee' |>.

(** [now] is the value of [time.Now()]. *)
Definition recordLastOperatedTimestamp (now : time) (o : Order) : Order :=
  o <| lastOperatedAt := Some now |>.

Definition setSentTimestamp (orderingAt : option time) (o : Order) : Order :=
  match orderingAt with
  | Some _ => o <| sentAt := orderingAt |>
  | None => o
  end.

Definition setConfirmTimestamps (arrivedAt' confirmedAt' : option time) (o : Order) : Order :=
  let o := match arrivedAt' with Some _ => o <| arrivedAt := arrivedAt' |> | None => o end in
  match confirmedAt' with Some _ => o <| confirmedAt := confirmedAt' |> | None => o end.

Definition amend (detail : AmendDetail) (o : Order) : Order :=
  o <| price := Price detail |> <| qty := Qty detail |>.

Definition setOrderDoneReason (reason : OrderDoneReason) (o : Order) : Order :=
  o <| orderDoneReason := Some reason |>.

Definition setStatus (status' : OrderStatus) (o : Order) : Order := o <| status := status' |>.

Definition setAmendingDetail (detail : option AmendDetail) (o : Order) : Order :=
  o <| amendingDetail := detail |>.

Definition incAmendCount (o : Order) : Order :=
  o <| amendCount := wrap64 (amendCount o + 1) |>.

(** ** Callbacks *)

Definition SetCreateCallback (callback : OrderCallback) (o : Order) : Order :=
  if IsTaker (GetOrderType o) then o
  else o <| createCallbacks := createCallbacks o ++ [callback] |>.

Definition SetCreateRejectCallback (callback : OrderCallback) (o : Order) : Order :=
  o <| createRejectCallbacks := createRejectCallbacks o ++ [callback] |>.

Definition SetCancelCallback (callback : OrderCallback) (o : Order) : Order :=
  o <| cancelCallbacks := cancelCallbacks o ++ [callback] |>.

Definition SetCancelRejectCallback (callback : OrderCallback) (o : Order) : Order :=
  o <| cancelRejectCallbacks := cancelRejectCallbacks o ++ [callback] |>.

Definition SetAmendCallback (callback : OrderCallback) (o : Order) : Order :=
  if negb (IsAmenable (GetOrderType o)) then o
  else o <| amendCallbacks := amendCallbacks o ++ [callback] |>.

Definition SetAmendRejectCallback (callback : OrderCallback) (o : Order) : Order :=
  o <| amendRejectCallbacks := amendRejectCallbacks o ++ [callback] |>.

Definition SetAmendRejectOrderNotExistCallback (callback : OrderCallback) (o : Order) : Order :=
  o <| amendRejectOrderNotExistCallbacks := amendRejectOrderNotExistCallbacks o ++ [callback] |>.

Definition SetFillCallback (callback : OrderCallback) (o : Order) : Order :=
  o <| fillCallbacks := fillCallbacks o ++ [callback] |>.

Definition SetPartiallyFillCallback (callback : OrderCallback) (o : Order) : Order :=
  o <| partiallyFillCallBacks := partiallyFillCallBacks o ++ [callback] |>.

Definition ReplaceCreateCallbacks (callback : OrderCallback) (o : Order) : Order :=
  o <| createCallbacks := [callback] |>.

Definition ReplaceAmendCallbacks (callback : OrderCallback) (o : Order) : Order :=
  o <| amendCallbacks := [callback] |>.

(** ** Amendability *)

(** [None]: the nil dereference of [o.amendingDetail]. *)
Definition isNeedToAmend (o : Order) (detail : AmendDetail) : option bool :=
  let oDiff := negb (Equal (price o) (Price detail)) || negb (Equal (qty o) (Qty detail)) in
  match status o with
  | OrderStatusPending => Some oDiff
  | OrderStatusAmending =>
      ad ← amendingDetail o;
      let aDiff := negb (Equal (Price ad) (Price detail)) || negb (Equal (Qty ad) (Qty detail)) in
      Some (oDiff && aDiff)
  | _ => Some false
  end.

Definition limitNOfAmend : Z := 9500.

Definition isAmendAble (o : Order) : bool := amendCount o <? limitNOfAmend.

(** ** Durations *)

Definition OutboundDuration (o : Order) : option duration :=
  arrived ← arrivedAt o; sent ← sentAt o; Some (time_Sub arrived sent).

Definition ReturnDuration (o : Order) : option duration :=
  arrived ← arrivedAt o; confirmed ← confirmedAt o; Some (time_Sub confirmed arrived).

Definition RoundTripDuration (o : Order) : option duration :=
  sent ← sentAt o; confirmed ← confirmedAt o; Some (time_Sub confirmed sent).

(** ** Constructors: [xid] is the fresh identifier [xid.New().String()] *)

Definition NewLimitOrder (xid : string) (price' qty' : dec) (side' : Side) (hide' : bool)
    (memo' : string) : Order :=
  zero_Order <| id := xid |> <| orderType := OrderTypeLimit |> <| price := price' |>
    <| qty := qty' |> <| side := side' |> <| status := OrderStatusBorn |>
    <| hide := hide' |> <| memo := memo' |>.

Definition NewLimitOrderBySize (xid : string) (price' size : dec) (hide' : bool)
    (memo' : string) : Order :=
  let '(qty, side) := ToQty size in NewLimitOrder xid price' qty side hide' memo'.

Definition NewLimitFOKOrder (xid : string) (price' qty' : dec) (side' : Side)
    (memo' : string) : Order :=
  zero_Order <| id := xid |> <| orderType := OrderTypeLimitFOK |> <| price := price' |>
    <| qty := qty' |> <| side := side' |> <| status := OrderStatusBorn |>
    <| hide := false |> <| memo := memo' |>.

Definition NewLimitFOKOrderBySize (xid : string) (price' size : dec) (memo' : string) : Order :=
  let '(qty, side) := ToQty size in NewLimitFOKOrder xid price' qty side memo'.

Definition NewLimitIOCOrder (xid : string) (price' arrowSlippage qty' : dec) (side' : Side)
    (memo' : string) : Order :=
  let adjustedPrice := match side' with
                       | SideSell => Sub price' arrowSlippage
                       | SideBuy => Add price' arrowSlippage
                       | SideNone => price'
                       end in
  zero_Order <| id := xid |> <| orderType := OrderTypeLimitIOC |> <| price := adjustedPrice |>
    <| qty := qty' |> <| side := side' |> <| status := OrderStatusBorn |>
    <| hide := false |> <| memo := memo' |>.

Definition NewLimitIOCOrderBySize (xid : string) (price' arrowSlippage size : dec)
    (memo' : string) : Order :=
  let '(qty, side) := ToQty size in NewLimitIOCOrder xid price' arrowSlippage qty side memo'.

Definition NewLimitMakerOrder (xid : string) (price' qty' : dec) (side' : Side) (hide' : bool)
    (memo' : string) : Order :=
  zero_Order <| id := xid |> <| orderType := OrderTypeLimitMaker |> <| price := price' |>
    <| qty := qty' |> <| side := side' |> <| status := OrderStatusBorn |>
    <| hide := hide' |> <| memo := memo' |>.

Definition NewLimitMakerOrderBySize (xid : string) (price' size : dec) (hide' : bool)
    (memo' : string) : Order :=
  let '(qty, side) := ToQty size in NewLimitMakerOrder xid price' qty side hide' memo'.

Definition NewMarketOrder (xid : string) (qty' : dec) (side' : Side) (memo' : string) : Order :=
  zero_Order <| id := xid |> <| orderType := OrderTypeMarket |> <| price := Zero |>
    <| qty := qty' |> <| side := side' |> <| status := OrderStatusBorn |>
    <| hide := false |> <| memo := memo' |>.

Definition NewMarketOrderBySize (xid : string) (size : dec) (memo' : string) : Order :=
  let '(qty, side) := ToQty size in NewMarketOrder xid qty side memo'.

(** ** Facts *)

Context {DL : DecimalLaws D}.

Lemma ToSize_ToQty size : ToSize (ToQty size).2 (ToQty size).1 ≡ size.
Proof.
  unfold ToQty. destruct (IsNegative size) eqn:Hn; simpl.
  - apply IsNegative_spec in Hn. dval_simpl. rewrite Qabs_neg; lra.
  - destruct (IsPositive size) eqn:Hp; simpl; dval_simpl.
    + apply IsPositive_spec in Hp. rewrite Qabs_pos; lra.
    + apply IsNegative_false in Hn. apply IsPositive_false in Hp. lra.
Qed.

(** ** Properties *)

(** An order made from a signed size has that size: its quantity is the
    absolute value, its side the sign, for all five constructors. *)
Theorem by_size_keeps_size xid p slip size h m :
  let orders := [NewLimitOrderBySize xid p size h m; NewLimitFOKOrderBySize xid p size m;
                 NewLimitIOCOrderBySize xid p slip size m;
                 NewLimitMakerOrderBySize xid p size h m; NewMarketOrderBySize xid size m] in
  Forall (fun o => GetSize o ≡ size /\ (0 <= dval (GetQty o))%Q /\
                   GetStatus o = OrderStatusBorn /\ GetID o = xid) orders.
Proof.
  assert ((0 <= dval (Abs size))%Q) as Habs by (dval_simpl; apply Qabs_nonneg).
  pose proof (ToSize_ToQty size) as Hsize.
  repeat constructor; simpl; done.
Qed.

(** An immediate-or-cancel order gives the market the slippage: a buy is
    priced above the given price by it, a sell below, and an order without a side
    at the price itself. *)
Theorem ioc_price_concedes_slippage xid p slip q s m :
  (dval (GetPrice (NewLimitIOCOrder xid p slip q s m)) ==
   dval p + inject_Z (Sign s) * dval slip)%Q.
Proof. destruct s; simpl; dval_simpl; [ring | change (inject_Z 1) with 1%Q; ring|
  change (inject_Z (-1)) with (-1)%Q; ring]. Qed.

End Order.

(** ** The properties over the rationals *)

Lemma by_size_keeps_size_witness :
  GetSize (NewMarketOrderBySize (D := QDecimal) "x" (-3)%Q "") ≡ (-3)%Q.
Proof.
  pose proof (by_size_keeps_size (D := QDecimal) "x" 100%Q 1%Q (-3)%Q false "") as H.
  simpl in H. rewrite !Forall_cons in H. apply H.
Defined.

Lemma ioc_price_concedes_slippage_witness :
  (dval (GetPrice (NewLimitIOCOrder (D := QDecimal) "x" 100%Q 2%Q 1%Q SideSell "")) ==
   100 + inject_Z (Sign SideSell) * 2)%Q.
Proof. apply (ioc_price_concedes_slippage (D := QDecimal) "x" 100%Q 2%Q 1%Q SideSell ""). Defined.
