(* ===== verification/OrderData.v ===== *)
(** * Messages of the dealing domain
    (domains/deals/order_data.go, order_resps.go, position_data.go)

    The data that the exchange gateways hand to a dealer: order and position
    updates from the private web socket, and responses of the REST calls. *)

From S2P Require Import Prelude GoStd Decimal Domains Errors MutexMap Order.

Inductive OrderDataStatus :=
  | OrderDataStatusUnknown
  | OrderDataStatusOpened
  | OrderDataStatusCanceled
  | OrderDataStatusFilled
  | OrderDataStatusPartiallyFilled
  | OrderDataStatusRejected.

#[export] Instance OrderDataStatus_eq_dec : EqDecision OrderDataStatus.
Proof. solve_decision. Defined.

Inductive PositionMode :=
  | PositionModeUnknown
  | PositionModeOneWay
  | PositionModeHedgeOfBuySide
  | PositionModeHedgeOfSellSide.

#[export] Instance PositionMode_eq_dec : EqDecision PositionMode.
Proof. solve_decision. Defined.

Section OrderData.
  Context {D : Decimal}.

Record OrderData := MkOrderData {
  ID : string;
  PublicID : string;
  Side : Domains.Side;
  Price : dec;
  Qty : dec;
  AvgExecPrice : dec;
  CumFee : dec;
  CumExecQty : dec;
  Status : OrderDataStatus;
  ArrivedAt : option time;
  ConfirmedAt : option time
}.

Definition isDone (o : OrderData) : bool :=
  bool_decide (Status o = OrderDataStatusFilled) ||
  bool_decide (Status o = OrderDataStatusCanceled) ||
  bool_decide (Status o = OrderDataStatusRejected).

Definition isUnrelated (o : OrderData) : bool := bool_decide (ID o = ""%string).

Definition DoneReason (o : OrderData) : OrderDoneReason :=
  match Status o with
  | OrderDataStatusFilled => OrderDoneReasonFilled
  | OrderDataStatusCanceled => OrderDoneReasonCanceled
  | OrderDataStatusRejected => OrderDoneReasonRejected
  | _ => OrderDoneReasonUnknown
  end.

Record PositionData := MkPositionData {
  Timestamp : time;
  posMode : PositionMode;
  posSide : Domains.Side;
  posQty : dec
}.

Record CreateOrderResp := MkCreateOrderResp {
  cr_OrderID : string;
  cr_PublicID : string;
  cr_ArrivedAt : option time;
  cr_ConfirmedAt : option time;
  cr_Err : option error
}.

Record AmendOrderResp := MkAmendOrderResp {
  ar_OrderID : string;
  ar_Detail : option AmendDetail;
  ar_ArrivedAt : option time;
  ar_ConfirmedAt : option time;
  ar_Err : option error
}.

Record CancelOrderResp := MkCancelOrderResp {
  xr_OrderID : string;
  xr_Err : option error
}.

Lemma isDone_DoneReason o : isDone o = true <-> DoneReason o <> OrderDoneReasonUnknown.
Proof. unfold isDone, DoneReason. by destruct (Status o). Qed.

End OrderData.

(** The batch responses: maps from order id to a response, [None] for a nil pointer. *)
Abbreviation CreateOrdersRespMap := (gmap string (option CreateOrderResp)).
Abbreviation CancelOrdersRespMap := (gmap string (option CancelOrderResp)).
Abbreviation AmendOrdersRespMap := (gmap string (option AmendOrderResp)).

Definition CreateIDs `{GoRuntime} (n : nat) (m : CreateOrdersRespMap) : list string :=
  GetKeys n m.
Definition CancelIDs `{GoRuntime} (n : nat) (m : CancelOrdersRespMap) : list string :=
  GetKeys n m.
Definition AmendIDs `{Decimal, GoRuntime} (n : nat) (m : AmendOrdersRespMap) : list string :=
  GetKeys n m.
