(* ===== verification/Position.v ===== *)
(** * The current position (domains/deals/position.go) *)

From S2P Require Import Prelude GoStd Decimal Domains.

Section Position.
  Context {D : Decimal}.

Record Position := MkPosition {
  value : dec;
  lastUpdateAt : time
}.

Definition PosSide (pos : dec) : Side :=
  if IsPositive pos then SideBuy
  else if IsNegative pos then SideSell
  else SideNone.

Definition NewPosition (now : time) : Position := MkPosition Zero now.

Definition Get (p : Position) : dec := value p.

Definition GetQty (p : Position) : Side * dec := (PosSide (Get p), Abs (Get p)).

Definition GetSide (p : Position) : Side := PosSide (Get p).

Definition getLastUpdateAt (p : Position) : time := lastUpdateAt p.

Definition update (p : Position) (timestamp : time) (value : dec) : Position :=
  {| value := value; lastUpdateAt := timestamp |}.

Context {DL : DecimalLaws D}.

(** Side and quantity determine the signed position. *)
Lemma GetQty_signed p :
  (dval (value p) == inject_Z (Sign (GetQty p).1) * dval (GetQty p).2)%Q.
Proof.
  unfold GetQty, PosSide, Get. simpl.
  destruct (IsPositive (value p)) eqn:Hp; [|destruct (IsNegative (value p)) eqn:Hn];
    simpl; dval_simpl.
  - apply IsPositive_spec in Hp. change (inject_Z 1) with 1%Q. rewrite Qabs_pos; lra.
  - apply IsNegative_spec in Hn. change (inject_Z (-1)) with (-1)%Q. rewrite Qabs_neg; lra.
  - apply IsPositive_false in Hp. apply IsNegative_false in Hn.
    change (inject_Z 0) with 0%Q. lra.
Qed.

End Position.
