(* ===== verification/World.v ===== *)
(** * The state of a dealer and the programs that run on it

    The handlers of [domains/deals] share mutable state: the orders, reached
    through pointers from the dealer's maps and from the strategy, the dealer's
    own fields, and one operation lock per order.  [World] is that state.  A Go
    method that touches it is a [prog]: a tree whose nodes are atomic accesses
    ([Act], one method call under [mu] or under the mutex of a mutex.Map,
    mutex.Slice or mutex.Flag) and the acquisition and release of operation
    locks.

    Programs have two semantics: [run] executes one program to its end and is a
    function, for evaluation and for the functional theorems; [cstep] interleaves
    the nodes of several programs.  The effects on the outside are recorded in
    the world: calls of the agent, errors given to [onError], goroutines started. *)

From S2P Require Import Prelude GoStd Decimal Domains Errors MutexFlag MutexMap MutexSlice Order.
From S2P Require Import OrderData Position.

Section World.
  Context {D : Decimal}.

(** The fields of [DealerImpl] (domains/deals/dealer.go).  The agent, the error
    callback and the symbol are references; pointers to orders are locations. *)
Record DealerImpl := MkDealer {
  acceptOrder : Flag;
  onError : nat;
  agent : nat;
  Symbol : nat;
  LivingOrders : gmap string loc;
  UnrelatedOrders : gmap string loc;
  amendingDetailMap : gmap string AmendDetail;
  doneOrders : Slice loc;
  CurrentPosition : Position;
  posUpdatedHandlers : list nat
}.

#[export] Instance eta_DealerImpl : Eta DealerImpl := fun d =>
  MkDealer (acceptOrder d) (onError d) (agent d) (Symbol d) (LivingOrders d)
    (UnrelatedOrders d) (amendingDetailMap d) (doneOrders d) (CurrentPosition d)
    (posUpdatedHandlers d).

(** The calls a dealer makes to its agent (domains/deals/agent.go). *)
Inductive AgentCall :=
  | CallSendOrder (order : loc)
  | CallSendOrders (orders : list loc)
  | CallAmendOrder (order : loc) (detail : AmendDetail)
  | CallCancelOrder (order : loc)
  | CallCancelOrders (orders : list loc).

Record World := MkWorld {
  heap : gmap loc Order;
  held : gset loc;
  dealer : DealerImpl;
  calls : list AgentCall;
  notices : list error;
  spawned : list (OrderCallback * loc);
  positionCalls : list (nat * list PositionData);
  clock : time;
  loops : nat
}.

#[export] Instance eta_World : Eta World := fun w =>
  MkWorld (heap w) (held w) (dealer w) (calls w) (notices w) (spawned w)
    (positionCalls w) (clock w) (loops w).

(** What an agent answers to a call, given the calls before it: [None] when the
    request was accepted for sending.  The response arrives later, as an event. *)
Class Agent := agent_reply : list AgentCall -> AgentCall -> option error.

(** ** Programs *)

Inductive prog (A : Type) : Type :=
  | Ret (x : A)
  | Lock (l : loc) (k : prog A)
  | Unlock (l : loc) (k : prog A)
  (** [None]: a nil dereference *)
  | Act {X : Type} (f : World -> option (World * X)) (k : X -> prog A).

#[global] Arguments Ret {A} _.
#[global] Arguments Lock {A} _ _.
#[global] Arguments Unlock {A} _ _.
#[global] Arguments Act {A X} _ _.

Fixpoint bind {A B} (p : prog A) (k : A -> prog B) : prog B :=
  match p with
  | Ret x => k x
  | Lock l p => Lock l (bind p k)
  | Unlock l p => Unlock l (bind p k)
  | Act f p => Act f (fun x => bind (p x) k)
  end.

Definition load {X} (l : loc) (f : Order -> X) : prog X :=
  Act (fun w => o ← heap w !! l; Some (w, f o)) Ret.

Definition store (l : loc) (f : Order -> Order) : prog unit :=
  Act (fun w => o ← heap w !! l; Some (w <| heap := <[l := f o]> (heap w) |>, tt)) Ret.

Definition alloc (o : Order) : prog loc :=
  Act (fun w => let l := fresh (dom (heap w)) in
                Some (w <| heap := <[l := o]> (heap w) |>, l)) Ret.

Definition dget {X} (f : DealerImpl -> X) : prog X :=
  Act (fun w => Some (w, f (dealer w))) Ret.

Definition dmod (f : DealerImpl -> DealerImpl) : prog unit :=
  Act (fun w => Some (w <| dealer := f (dealer w) |>, tt)) Ret.

Definition now : prog time := Act (fun w => Some (w, clock w)) Ret.

Definition panic {A} : prog A := Act (X := Empty_set) (fun _ => None) (Empty_set_rect (fun _ => prog A)).

(** A nil-checked dereference. *)
Definition deref {X} (p : option X) : prog X :=
  match p with Some x => Ret x | None => panic end.

Definition call_agent `{Agent} (c : AgentCall) : prog (option error) :=
  Act (fun w => Some (w <| calls := calls w ++ [c] |>, agent_reply (calls w) c)) Ret.

(** [go cb(o)] for every [cb] of a list. *)
Definition go_all (cbs : list OrderCallback) (l : loc) : prog unit :=
  Act (fun w => Some (w <| spawned := spawned w ++ ((fun cb => (cb, l)) <$> cbs) |>, tt)) Ret.

Definition notify (err : error) : prog unit :=
  Act (fun w => Some (w <| notices := notices w ++ [err] |>, tt)) Ret.

Definition call_position_handlers (hs : list nat) (datas : list PositionData) : prog unit :=
  Act (fun w => Some (w <| positionCalls := positionCalls w ++ ((fun h => (h, datas)) <$> hs) |>, tt)) Ret.

(** One loop over a Go map, in the order the runtime picks for it. *)
Definition range_keys `{GoRuntime} {V} (m : gmap string V) : prog (list string) :=
  Act (fun w => Some (w <| loops := S (loops w) |>, GetKeys (loops w) m)) Ret.

Definition range_values `{GoRuntime} {V} (m : gmap string V) : prog (list V) :=
  Act (fun w => Some (w <| loops := S (loops w) |>, Values (loops w) m)) Ret.

(** [for i := range xs { body }] *)
Fixpoint for_each {X} (xs : list X) (body : X -> prog unit) : prog unit :=
  match xs with
  | [] => Ret tt
  | x :: xs => bind (body x) (fun _ => for_each xs body)
  end.

(** ** Sequential execution *)

Inductive outcome (A : Type) :=
  | Done (w : World) (x : A)
  | Deadlock (w : World)
  | Panic (w : World).
#[global] Arguments Done {A} _ _.
#[global] Arguments Deadlock {A} _.
#[global] Arguments Panic {A} _.

Definition acquire (l : loc) (w : World) : World := w <| held := {[l]} ∪ held w |>.
Definition release (l : loc) (w : World) : World := w <| held := held w ∖ {[l]} |>.

Fixpoint run {A} (p : prog A) (w : World) : outcome A :=
  match p with
  | Ret x => Done w x
  | Lock l p => if decide (l ∈ held w) then Deadlock w else run p (acquire l w)
  | Unlock l p => run p (release l w)
  | Act f p => match f w with Some (w', x) => run (p x) w' | None => Panic w end
  end.

(** Evaluation by a boolean: [p] ends, and [f] holds of the result. *)
Definition run_check {A} (p : prog A) (w : World) (f : World -> A -> bool) : bool :=
  match run p w with Done w' x => f w' x | _ => false end.

Lemma run_check_sound {A} (p : prog A) w f :
  run_check p w f = true -> exists w' x, run p w = Done w' x /\ f w' x = true.
Proof. unfold run_check. destruct (run p w); naive_solver. Qed.

(** ** Weakest preconditions: [p] ends normally, in a state that satisfies [Q] *)

Fixpoint wp {A} (p : prog A) (w : World) (Q : World -> A -> Prop) : Prop :=
  match p with
  | Ret x => Q w x
  | Lock l p => l ∉ held w /\ wp p (acquire l w) Q
  | Unlock l p => wp p (release l w) Q
  | Act f p => match f w with Some (w', x) => wp (p x) w' Q | None => False end
  end.

Lemma wp_run {A} (p : prog A) w Q :
  wp p w Q <-> exists w' x, run p w = Done w' x /\ Q w' x.
Proof.
  revert w. induction p as [x|l p IH|l p IH|X f p IH]; intros w; simpl.
  - split; [eauto|]. by intros (? & ? & [= <- <-] & H).
  - case_decide as Hl; [|by rewrite IH; intuition eauto].
    split; [tauto|]. by intros (? & ? & ? & ?).
  - apply IH.
  - destruct (f w) as [[w' x]|]; [apply IH|]. split; [done|]. by intros (? & ? & ? & ?).
Qed.

Lemma run_unit_wp (p : prog unit) w (P : World -> Prop) :
  wp p w (fun w' _ => P w') -> exists w', run p w = Done w' tt /\ P w'.
Proof. intros (w' & [] & Hr & HP)%wp_run. eauto. Qed.

Lemma wp_mono {A} (p : prog A) w Q Q' :
  wp p w Q -> (forall w' x, Q w' x -> Q' w' x) -> wp p w Q'.
Proof.
  rewrite !wp_run. intros (w' & x & Hr & HQ) Himpl. exists w', x. auto.
Qed.

(** Execution is deterministic: two postconditions hold together. *)
Lemma wp_and {A} (p : prog A) w Q Q' :
  wp p w Q -> wp p w Q' -> wp p w (fun w' x => Q w' x /\ Q' w' x).
Proof.
  rewrite !wp_run. intros (w' & x & Hr & HQ) (w2 & x2 & Hr2 & HQ2).
  rewrite Hr in Hr2. injection Hr2 as <- <-. eauto.
Qed.

Lemma wp_bind {A B} (p : prog A) (k : A -> prog B) w Q :
  wp (bind p k) w Q <-> wp p w (fun w' x => wp (k x) w' Q).
Proof.
  revert w. induction p as [x|l p IH|l p IH|X f p IH]; intros w; simpl; [done|..].
  - by rewrite IH.
  - by rewrite IH.
  - destruct (f w) as [[w' x]|]; [apply IH|done].
Qed.

Lemma wp_load {X} l (f : Order -> X) w o Q :
  heap w !! l = Some o -> Q w (f o) -> wp (load l f) w Q.
Proof. intros Hl HQ. simpl. by rewrite Hl. Qed.

Lemma wp_store l f w o (Q : World -> unit -> Prop) :
  heap w !! l = Some o -> Q (w <| heap := <[l := f o]> (heap w) |>) tt -> wp (store l f) w Q.
Proof. intros Hl HQ. simpl. by rewrite Hl. Qed.

(** The invariant of a loop is about the elements still to visit. *)
Lemma wp_for_each {X} (I : list X -> World -> Prop) (xs : list X) body w :
  I xs w -> (forall x xs w, I (x :: xs) w -> wp (body x) w (fun w' _ => I xs w')) ->
  wp (for_each xs body) w (fun w' _ => I [] w').
Proof.
  intros Hw Hbody. revert w Hw. induction xs as [|x xs IH]; intros w Hw; [done|]. simpl.
  rewrite wp_bind. eapply wp_mono; [by apply Hbody|]. intros w' u Hw'. by apply IH.
Qed.

(** ** Interleaving *)

Definition step1 {A} (p : prog A) (w : World) : option (prog A * World) :=
  match p with
  | Ret _ => None
  | Lock l p => if decide (l ∈ held w) then None else Some (p, acquire l w)
  | Unlock l p => Some (p, release l w)
  | Act f p => '(w', x) ← f w; Some (p x, w')
  end.

Definition config : Type := World * list (prog unit).

Definition sched (i : nat) (c : config) : option config :=
  p ← c.2 !! i; '(p', w') ← step1 p c.1; Some (w', <[i := p']> c.2).

Inductive cstep : config -> config -> Prop :=
  | cstep_sched i c c' : sched i c = Some c' -> cstep c c'.

(** Reflexive and transitive closure. *)
Inductive csteps : config -> config -> Prop :=
  | csteps_refl c : csteps c c
  | csteps_step c1 c2 c3 : cstep c1 c2 -> csteps c2 c3 -> csteps c1 c3.

Fixpoint schedule (js : list nat) (c : config) : option config :=
  match js with
  | [] => Some c
  | i :: js => c' ← sched i c; schedule js c'
  end.

Definition finished {A} (p : prog A) : bool := match p with Ret _ => true | _ => false end.

(** Some program has not ended and none can move. *)
Definition stuck (c : config) : Prop :=
  existsb (fun p => negb (finished p)) c.2 = true /\ forall c', ~ cstep c c'.

Definition stuckb (c : config) : bool :=
  existsb (fun p => negb (finished p)) c.2 &&
  forallb (fun i => match sched i c with None => true | Some _ => false end) (seq 0 (length c.2)).

Lemma schedule_csteps js c c' : schedule js c = Some c' -> csteps c c'.
Proof.
  revert c. induction js as [|i js IH]; intros c; simpl; [intros [= ->]; constructor|].
  intros (c1 & H1 & H2)%bind_Some. econstructor; [by econstructor|by apply IH].
Qed.

Lemma schedule_check js c f :
  match schedule js c with Some c' => f c' | None => false end = true ->
  exists c', csteps c c' /\ f c' = true.
Proof. destruct (schedule js c) eqn:E; [|done]. eauto using schedule_csteps. Qed.

Lemma stuckb_stuck c : stuckb c = true -> stuck c.
Proof.
  unfold stuckb. intros [H1 H2]%andb_true_iff. split; [done|].
  intros c' Hc. inversion Hc as [i ? ? Hi]; subst. rewrite forallb_forall in H2.
  assert (i < length c.2)%nat as Hlt.
  { unfold sched in Hi. apply bind_Some in Hi as (p & Hp & _). by apply lookup_lt_Some in Hp. }
  specialize (H2 i). rewrite Hi in H2. discriminate H2. apply in_seq. lia.
Qed.

End World.

(** ** Notation for programs *)

Declare Scope prog_scope.
Delimit Scope prog_scope with prog.
Notation "x <- p ;; q" := (bind p (fun x => q))
  (at level 100, p at next level, right associativity) : prog_scope.
Notation "p ;; q" := (bind p (fun _ => q))
  (at level 100, right associativity) : prog_scope.
