(* ===== verification/Interleaving.v ===== *)
(** * Interleaved programs under locks

    A logic for the programs of [World.v] when several of them run at once: every
    node of one may be preceded by nodes of the others.  [rg] is a weakest
    precondition with interference: between two nodes of a program that holds the
    locks [H] the world may change along [R H] as long as [Inv] holds.  The class
    [Interference] says what such an invariant and such a relation have to satisfy.

    The logic is sound for a pool of threads, each holding its own locks
    ([pool_step]): no node of theirs panics ([pool_no_panic]), they cannot wait for
    each other in a circle if at most one of them takes a lock while it holds
    another ([pool_not_stuck]), and they all end ([cstep_wf], [pool_ends]). *)

From Stdlib Require Import Relation_Operators Wellfounded.
From S2P Require Import Prelude GoStd Decimal Domains Errors MutexFlag MutexMap MutexSlice Order.
From S2P Require Import OrderData Position World.

(** ** Termination: a program is a finite tree *)

Section Termination.
  Context {D : Decimal}.

(** [p'] is what is left of [p] after a node. *)
Definition rest_of (p' p : prog unit) : Prop := exists w w', step1 p w = Some (p', w').

Lemma rest_of_wf : well_founded rest_of.
Proof.
  intros p. induction p as [x|l p IH|l p IH|X f p IH]; constructor; intros p' (w & w' & Hs); simpl in Hs.
  - done.
  - case_decide; [done|]. by injection Hs as <- _.
  - by injection Hs as <- _.
  - destruct (f w) as [[w1 x]|]; simplify_eq/=. apply IH.
Qed.

(** One thread of a pool moves. *)
Definition one_moves (ps' ps : list (prog unit)) : Prop :=
  exists i p p', ps !! i = Some p /\ rest_of p' p /\ ps' = <[i := p']> ps.

Lemma one_moves_wf : well_founded one_moves.
Proof.
  intros ps. induction ps as [|p ps IH]; [constructor; intros ps' (i & p & p' & Hi & _); done|].
  enough (forall c, Acc (symprod _ _ rest_of one_moves) c -> Acc one_moves (c.1 :: c.2)) as H.
  { apply (H (p, ps)). by apply Acc_symprod; [apply rest_of_wf|]. }
  clear. induction 1 as [[p ps] _ IH]. constructor. intros ps' ([|i] & q & q' & Hi & Hr & ->); simplify_eq/=.
  - apply (IH (q', ps)). by left.
  - apply (IH (p, <[i := q']> ps)). right. by exists i, q, q'.
Qed.

Lemma sched_moves i c c' : sched i c = Some c' -> one_moves c'.2 c.2.
Proof.
  unfold sched. intros (p & Hp & ([p' w'] & Hs & [= <-])%bind_Some)%bind_Some. simpl.
  exists i, p, p'. split; [done|]. split; [|done]. by exists c.1, w'.
Qed.

(** Every schedule of a pool ends. *)
Lemma cstep_wf : well_founded (fun c' c => cstep c c').
Proof.
  apply (wf_incl _ _ (fun c' c => one_moves c'.2 c.2)); [|apply wf_inverse_image, one_moves_wf].
  intros c' c [i]. by eapply sched_moves.
Qed.

End Termination.

(** ** Interference *)

Class Interference `{D : Decimal} := {
  Inv : World -> Prop;
  R : gset loc -> World -> World -> Prop;
  R_refl H w : R H w w;
  R_trans H w1 w2 w3 : R H w1 w2 -> R H w2 w3 -> R H w1 w3;
  (** taking a lock disturbs nobody, giving it back disturbs only its holder *)
  R_acquire H w l : R H w (acquire l w);
  R_release H w l : l ∉ H -> R H w (release l w);
  Inv_acquire w l : Inv w -> Inv (acquire l w)
}.

Section Logic.
  Context {D : Decimal} {I : Interference}.

(** A thread that holds [H] is at [p] in the world [w]; [multi]: it may take a lock while it
    holds another.  [Q] holds of what it ends with. *)
Fixpoint rg {A} (multi : bool) (p : prog A) (H : gset loc) (w : World)
    (Q : gset loc -> World -> A -> Prop) : Prop :=
  match p with
  | Ret x => Q H w x
  | Lock l p =>
      l ∉ H /\ (multi = true \/ H = ∅) /\
      (l ∉ held w -> forall w', R ({[l]} ∪ H) (acquire l w) w' -> Inv w' -> rg multi p ({[l]} ∪ H) w' Q)
  | Unlock l p =>
      l ∈ H /\ Inv (release l w) /\
      (forall w', R (H ∖ {[l]}) (release l w) w' -> Inv w' -> rg multi p (H ∖ {[l]}) w' Q)
  | Act f p =>
      exists w1 x, f w = Some (w1, x) /\ Inv w1 /\ held w1 = held w /\
      (forall H', H' ## H -> R H' w w1) /\
      (forall w', R H w1 w' -> Inv w' -> rg multi (p x) H w' Q)
  end.

Lemma rg_mono {A} m (p : prog A) H w Q Q' :
  rg m p H w Q -> (forall H w x, Q H w x -> Q' H w x) -> rg m p H w Q'.
Proof.
  intros Hp HQ. revert H w Hp. induction p as [x|l p IH|l p IH|X f p IH]; intros H w; simpl; [apply HQ|..].
  - intros (H1 & H2 & H3). repeat split; eauto.
  - intros (H1 & H2 & H3). repeat split; eauto.
  - intros (w1 & x & H1 & H2 & H3 & H4 & H5). exists w1, x. repeat split; eauto.
Qed.

Lemma rg_bind {A B} m (p : prog A) (k : A -> prog B) H w Q :
  rg m p H w (fun H' w' x => rg m (k x) H' w' Q) -> rg m (bind p k) H w Q.
Proof.
  revert H w. induction p as [x|l p IH|l p IH|X f p IH]; intros H w; simpl; [done|..].
  - intros (H1 & H2 & H3). repeat split; eauto.
  - intros (H1 & H2 & H3). repeat split; eauto.
  - intros (w1 & x & H1 & H2 & H3 & H4 & H5). exists w1, x. repeat split; eauto.
Qed.

(** ** A pool of threads *)

(** A thread with its [multi]; it ends without locks. *)
Notation thread := (bool * prog unit)%type.

Definition thread_ok (t : thread) (H : gset loc) (w : World) : Prop :=
  forall w', R H w w' -> Inv w' -> rg t.1 t.2 H w' (fun H' _ _ => H' = ∅).

(** The threads hold the locks [Hs], each its own. *)
Record pool_ok (w : World) (ts : list thread) (Hs : list (gset loc)) : Prop := {
  po_inv : Inv w;
  po_held : forall l, l ∈ held w <-> exists i H, Hs !! i = Some H /\ l ∈ H;
  po_disjoint : forall i j Hi Hj, Hs !! i = Some Hi -> Hs !! j = Some Hj -> i <> j -> Hi ## Hj;
  po_threads : Forall2 (fun t H => thread_ok t H w) ts Hs
}.

Lemma thread_ok_now t H w : thread_ok t H w -> Inv w -> rg t.1 t.2 H w (fun H' _ _ => H' = ∅).
Proof. intros Ht Hw. apply Ht; [apply R_refl|done]. Qed.

Lemma thread_ok_R t H w w' : thread_ok t H w -> R H w w' -> thread_ok t H w'.
Proof. intros Ht HR w'' HR'. apply Ht. by eapply R_trans. Qed.

Lemma po_thread w ts Hs i t :
  pool_ok w ts Hs -> ts !! i = Some t ->
  exists H, Hs !! i = Some H /\ rg t.1 t.2 H w (fun H' _ _ => H' = ∅).
Proof.
  intros Hp Hi. destruct (Forall2_lookup_l _ _ _ _ _ (po_threads _ _ _ Hp) Hi) as (H & HH & Ht).
  exists H. split; [done|]. apply thread_ok_now; [done|apply Hp].
Qed.

(** A step of thread [i] that changes its locks to [H']. *)
Lemma pool_update w ts Hs i t' H H' w' :
  pool_ok w ts Hs -> Hs !! i = Some H -> Inv w' ->
  (forall l, l ∈ held w' <-> l ∈ H' \/ (l ∈ held w /\ l ∉ H)) ->
  (forall j Hj, Hs !! j = Some Hj -> j <> i -> Hj ## H') ->
  (forall j Hj, Hs !! j = Some Hj -> j <> i -> R Hj w w') ->
  thread_ok t' H' w' -> pool_ok w' (<[i := t']> ts) (<[i := H']> Hs).
Proof.
  intros [Hw Hh Hd Ht] Hi Hw' Hheld Hdis HR Ht'. pose proof (lookup_lt_Some _ _ _ Hi) as Hlt.
  constructor; [done|..].
  - intros l. rewrite Hheld. split.
    + intros [Hl|[(j & Hj & Hj1 & Hl)%Hh Hn]].
      * exists i, H'. by rewrite list_lookup_insert_eq.
      * exists j, Hj. rewrite list_lookup_insert_ne; [done|]. intros <-. congruence.
    + intros (j & Hj & [(<- & <- & _)|[Hne Hj1]]%list_lookup_insert_Some & Hl); [by left|right].
      split; [apply Hh; by exists j, Hj|]. pose proof (Hd i j _ _ Hi Hj1 Hne). set_solver.
  - intros j1 j2 H1 H2 [(<- & <- & _)|[Hne1 Hj1]]%list_lookup_insert_Some
      [(<- & <- & _)|[Hne2 Hj2]]%list_lookup_insert_Some Hne; try done.
    + symmetry. by eapply Hdis.
    + by eapply Hdis.
    + by eapply Hd.
  - apply Forall2_same_length_lookup. rewrite !length_insert.
    split; [by eapply Forall2_length|].
    intros j t Hj [(<- & <- & _)|[Hne Hj1]]%list_lookup_insert_Some [(He & <- & _)|[Hne2 Hj2]]%list_lookup_insert_Some; try done.
    apply (thread_ok_R _ _ w); [by eapply (Forall2_lookup_lr _ _ _ _ _ _ Ht)|by eapply HR].
Qed.

Lemma pool_step w ts Hs i m p p' w' :
  pool_ok w ts Hs -> ts !! i = Some (m, p) -> step1 p w = Some (p', w') ->
  exists Hs', pool_ok w' (<[i := (m, p')]> ts) Hs'.
Proof.
  intros Hp Hi Hs1. destruct (po_thread _ _ _ _ _ Hp Hi) as (H & HH & Hrg). simpl in Hrg.
  pose proof (fun j Hj Hj1 Hne => po_disjoint _ _ _ Hp j i Hj H Hj1 HH Hne) as Hdis.
  pose proof (po_held _ _ _ Hp) as Hheld.
  assert (forall l, l ∈ H -> l ∈ held w) as Hmine by (intros l Hl; apply Hheld; by exists i, H).
  destruct p as [x|l p|l p|X f p]; simpl in *; [done|..].
  - destruct Hrg as (Hn & Hm & Hrg). case_decide as Hl; [done|]. injection Hs1 as <- <-.
    exists (<[i := {[l]} ∪ H]> Hs).
    eapply pool_update; [done|done|by apply Inv_acquire, Hp|..].
    + intros l2. simpl. rewrite !elem_of_union. destruct (decide (l2 ∈ H)); naive_solver.
    + intros j Hj Hj1 Hne. assert (l ∉ Hj) by (intros Hlj; apply Hl, Hheld; by exists j, Hj).
      specialize (Hdis j Hj Hj1 Hne). set_solver.
    + intros. apply R_acquire.
    + intros w3. by apply Hrg.
  - destruct Hrg as (Hin & Hinv & Hrg). injection Hs1 as <- <-.
    exists (<[i := H ∖ {[l]}]> Hs).
    eapply pool_update; [done|done|done|..].
    + intros l2. simpl. destruct (decide (l2 ∈ H)); set_solver.
    + intros j Hj Hj1 Hne. specialize (Hdis j Hj Hj1 Hne). set_solver.
    + intros j Hj Hj1 Hne. apply R_release. specialize (Hdis j Hj Hj1 Hne). set_solver.
    + exact Hrg.
  - destruct Hrg as (w1 & x & Hf & Hinv & Hh & HR & Hrg). rewrite Hf in Hs1. injection Hs1 as <- <-.
    exists (<[i := H]> Hs).
    eapply pool_update; [done|done|done|..].
    + intros l2. rewrite Hh. destruct (decide (l2 ∈ H)); naive_solver.
    + exact Hdis.
    + intros j Hj Hj1 Hne. by apply HR, (Hdis j).
    + exact Hrg.
Qed.

Lemma pool_new w ts Hs t : pool_ok w ts Hs -> thread_ok t ∅ w -> pool_ok w (ts ++ [t]) (Hs ++ [∅]).
Proof.
  intros [Hw Hh Hd Ht] Hn.
  assert (forall i H, (Hs ++ [∅]) !! i = Some H -> Hs !! i = Some H \/ H = ∅) as Hsnoc.
  { intros i H [Hi|[_ Hi]]%lookup_app_Some; [by left|right].
    by apply list_lookup_singleton_Some in Hi as [_ ->]. }
  constructor; [done|..].
  - intros l. rewrite Hh. split; intros (i & H & Hi & Hl).
    + exists i, H. split; [by apply lookup_app_l_Some|done].
    + destruct (Hsnoc _ _ Hi) as [Hi'| ->]; [by exists i, H|set_solver].
  - intros i j Hi Hj H1 H2 Hne. destruct (Hsnoc _ _ H1) as [H1'| ->], (Hsnoc _ _ H2) as [H2'| ->]; [|set_solver..].
    by eapply Hd.
  - apply Forall2_app; [done|]. by constructor.
Qed.

(** The world changes in a way that disturbs nobody. *)
Lemma pool_world w w' ts Hs :
  pool_ok w ts Hs -> Inv w' -> held w' = held w -> (forall H, R H w w') -> pool_ok w' ts Hs.
Proof.
  intros [Hw Hh Hd Ht] Hi Hheld HR. constructor; [done|by rewrite Hheld|done|].
  eapply Forall2_impl; [exact Ht|]. intros t H Hok. eapply thread_ok_R; [exact Hok|apply HR].
Qed.

Lemma pool_empty w : Inv w -> held w = ∅ -> pool_ok w [] [].
Proof.
  intros Hi Hh. constructor; [done| |done|constructor]. intros l. rewrite Hh. split; [set_solver|].
  by intros (i & H & HH & _).
Qed.

(** A step of the scheduler is a step of a thread. *)
Lemma sched_thread w (ts : list thread) i w' ps :
  sched i (w, ts.*2) = Some (w', ps) ->
  exists m p p', ts !! i = Some (m, p) /\ step1 p w = Some (p', w') /\ ps = (<[i := (m, p')]> ts).*2.
Proof.
  unfold sched. intros (p & Hi & ([p' w2] & Hs1 & [= <- <-])%bind_Some)%bind_Some. simpl in *.
  rewrite list_lookup_fmap in Hi. apply fmap_Some in Hi as ([m p2] & Hi & ->).
  exists m, p2, p'. by rewrite list_fmap_insert.
Qed.

(** ** What a pool does *)

Definition panics (w : World) (p : prog unit) : Prop :=
  match p with Act f _ => f w = None | _ => False end.

Lemma pool_no_panic w ts Hs t : pool_ok w ts Hs -> t ∈ ts -> ~ panics w t.2.
Proof.
  intros Hp [i Hi]%list_elem_of_lookup. destruct (po_thread _ _ _ _ _ Hp Hi) as (H & _ & Hrg).
  destruct t as [m [x|l p|l p|X f p]]; simpl in *; try (by intros []).
  destruct Hrg as (w1 & x & -> & _). done.
Qed.

(** At most one of the threads that have not ended may take a lock while it holds another. *)
Definition one_multi (ts : list thread) : Prop :=
  forall i j ti tj, ts !! i = Some ti -> ts !! j = Some tj -> ti.1 = true -> tj.1 = true ->
    finished ti.2 = false -> finished tj.2 = false -> i = j.

(** A thread of a pool that is stuck waits for a lock. *)
Lemma stuck_waits w ts Hs i t :
  pool_ok w ts Hs -> (forall c', ~ cstep (w, ts.*2) c') -> ts !! i = Some t ->
  exists H, Hs !! i = Some H /\
    ((finished t.2 = true /\ H = ∅) \/
     (finished t.2 = false /\ (t.1 = true \/ H = ∅) /\ exists l, l ∈ held w /\ l ∉ H)).
Proof.
  intros Hp Hno Hi. destruct (po_thread _ _ _ _ _ Hp Hi) as (H & HH & Hrg). exists H. split; [done|].
  assert (step1 t.2 w = None) as Hstep.
  { destruct (step1 t.2 w) as [[p' w']|] eqn:Hs1; [|done]. destruct (Hno (w', <[i := p']> ts.*2)).
    apply (cstep_sched i). unfold sched. simpl. rewrite list_lookup_fmap, Hi. simpl. by rewrite Hs1. }
  destruct t as [m [x|l p|l p|X f p]]; simpl in *.
  - left. done.
  - right. case_decide as Hl; [|done]. destruct Hrg as (H1 & H2 & _). eauto.
  - done.
  - destruct Hrg as (w1 & x & Hf & _). by rewrite Hf in Hstep.
Qed.

Lemma pool_not_stuck w ts Hs : pool_ok w ts Hs -> one_multi ts -> ~ stuck (w, ts.*2).
Proof.
  intros Hp Hone [Hex Hno]. simpl in Hex. apply existsb_exists in Hex as (p & Hin & Hfin).
  apply list_elem_of_In, list_elem_of_fmap in Hin as (t & -> & [i Hi]%list_elem_of_lookup).
  apply negb_true_iff in Hfin.
  (* who holds a lock has not ended, waits and is the one that takes several *)
  assert (forall l, l ∈ held w -> exists j tj Hj, ts !! j = Some tj /\ Hs !! j = Some Hj /\ l ∈ Hj /\
    tj.1 = true /\ finished tj.2 = false /\ exists l', l' ∈ held w /\ l' ∉ Hj) as Hholder.
  { intros l (j & Hj & Hj1 & Hl)%(po_held _ _ _ Hp).
    destruct (Forall2_lookup_r _ _ _ _ _ (po_threads _ _ _ Hp) Hj1) as (tj & Htj & _).
    exists j, tj, Hj. destruct (stuck_waits _ _ _ _ _ Hp Hno Htj) as (H & HH & Hcase).
    rewrite Hj1 in HH. injection HH as <-. destruct Hcase as [[_ ->]|(H1 & H2 & H3)]; [set_solver|].
    destruct H2 as [H2| ->]; [done|set_solver]. }
  destruct (stuck_waits _ _ _ _ _ Hp Hno Hi) as (H & _ & [[Hf _]|(_ & _ & l & Hl & _)]); [congruence|].
  destruct (Hholder l Hl) as (j & tj & Hj & Htj & HHj & _ & Hm & Hf & l' & Hl' & Hn).
  destruct (Hholder l' Hl') as (k & tk & Hk & Htk & HHk & Hin & Hm' & Hf' & _).
  assert (j = k) as <- by by eapply Hone. congruence.
Qed.

Lemma one_multi_step w w' ts i m p p' :
  ts !! i = Some (m, p) -> step1 p w = Some (p', w') -> one_multi ts -> one_multi (<[i := (m, p')]> ts).
Proof.
  intros Hi Hs Hone. assert (finished p = false) as Hf by by destruct p.
  assert (forall j t2, <[i := (m, p')]> ts !! j = Some t2 -> finished t2.2 = false ->
    exists t3, ts !! j = Some t3 /\ t3.1 = t2.1 /\ finished t3.2 = false) as Hback.
  { intros j t2 [(<- & <- & _)|[_ Hj]]%list_lookup_insert_Some H2; eauto. }
  intros j k tj tk Hj Hk Hmj Hmk Hfj Hfk.
  destruct (Hback _ _ Hj Hfj) as (t3 & H3 & E3 & F3), (Hback _ _ Hk Hfk) as (t4 & H4 & E4 & F4).
  by eapply (Hone j k t3 t4); try congruence.
Qed.

Lemma finished_held w ts Hs : pool_ok w ts Hs -> forallb finished ts.*2 = true -> held w = ∅.
Proof.
  intros Hp Hall. apply set_eq. intros l. split; [|set_solver]. intros (i & H & HH & Hl)%(po_held _ _ _ Hp).
  destruct (Forall2_lookup_r _ _ _ _ _ (po_threads _ _ _ Hp) HH) as (t & Hi & Ht%thread_ok_now); [|apply Hp].
  rewrite forallb_forall in Hall. specialize (Hall t.2).
  destruct (finished t.2) eqn:Hf; [destruct t as [m p]; destruct p; simpl in *; by subst|].
  assert (false = true) as [=]. apply Hall, list_elem_of_In, list_elem_of_fmap.
  exists t. split; [done|]. by eapply list_elem_of_lookup_2.
Qed.

Lemma not_stuck_moves c : forallb finished c.2 = false -> ~ stuck c -> exists i c', sched i c = Some c'.
Proof.
  intros Hall Hno. destruct (stuckb c) eqn:Hb; [by apply stuckb_stuck in Hb|].
  unfold stuckb in Hb. apply andb_false_iff in Hb as [Hb|Hb].
  - clear Hno. induction c.2 as [|p ps IH]; [done|]. simpl in *. destruct (finished p); [by apply IH|done].
  - induction (seq 0 (length c.2)) as [|i js IH]; [done|]. simpl in Hb.
    destruct (sched i c) as [c'|] eqn:Hi; [by exists i, c'|by apply IH].
Qed.

(** Every schedule can be, and only finitely long not be, one where all threads have ended and
    given their locks back. *)
Lemma pool_ends w ts Hs c' :
  pool_ok w ts Hs -> one_multi ts -> csteps (w, ts.*2) c' ->
  exists c'', csteps c' c'' /\ forallb finished c''.2 = true /\ held c''.1 = ∅.
Proof.
  intros Hp Hone Hsteps. remember (w, ts.*2) as c eqn:Hc. revert w ts Hs Hp Hone Hc.
  induction Hsteps as [c|c c1 c' Hst _ IH]; intros w ts Hs Hp Hone ->; cycle 1.
  { inversion Hst as [i c2 c3 Hs1]; subst. destruct c1 as [w1 ps1].
    destruct (sched_thread _ _ _ _ _ Hs1) as (m & p & p' & Hi & Hst1 & ->).
    destruct (pool_step _ _ _ _ _ _ _ _ Hp Hi Hst1) as (Hs' & Hp').
    apply (IH w1 _ Hs' Hp'); [by eapply one_multi_step|done]. }
  remember (w, ts.*2) as c eqn:Hc. revert w ts Hs Hp Hone Hc.
  induction (cstep_wf c) as [c _ IH]. intros w ts Hs Hp Hone ->.
  destruct (forallb finished ts.*2) eqn:Hall.
  - exists (w, ts.*2). split; [constructor|]. split; [done|]. by eapply finished_held.
  - destruct (not_stuck_moves (w, ts.*2)) as (i & [w1 ps1] & Hs1); [done|by eapply pool_not_stuck|].
    destruct (sched_thread _ _ _ _ _ Hs1) as (m & p & p' & Hi & Hst1 & ->).
    destruct (pool_step _ _ _ _ _ _ _ _ Hp Hi Hst1) as (Hs' & Hp').
    destruct (IH _ (cstep_sched _ _ _ Hs1) w1 _ Hs' Hp') as (c2 & Hc2 & H2); [by eapply one_multi_step|done|].
    exists c2. split; [|done]. eapply csteps_step; [by eapply cstep_sched|done].
Qed.

End Logic.
