(* ===== verification/Dealer.v ===== *)
(** * The dealer (domains/deals/dealer.go, domains/deals/dealing_handlers.go)

    The methods of [DealerImpl] as programs on the world of [World.v], call by
    call: each access of a shared field, each agent call and each operation lock
    is a node of its own.  The maps of orders ([OrdersMutexMap]) and the lock
    helpers of order.go are here too, because they work through pointers.

    Logging is not modelled.  [onError], the agent's calls and the goroutines
    started for callbacks are recorded in the world. *)

From S2P Require Import Prelude GoStd Decimal Domains Errors MutexFlag MutexMap MutexSlice Order.
From S2P Require Import OrderData Position World.
Local Open Scope prog_scope.

Section Dealer.
  Context {D : Decimal} {RT : GoRuntime} {AG : Agent}.

(** ** Operation locks and callback lists (order.go) *)

Definition WithOpLock {A} (o : loc) (f : prog A) : prog A :=
  Lock o (x <- f ;; Unlock o (Ret x)).

Definition OrderMap : Type := gmap string loc.

(** The map built by [Orders.Unique]: for each id, the last order that has it. *)
Fixpoint unique_map (os : list loc) (unique : gmap string loc) : prog (gmap string loc) :=
  match os with
  | [] => Ret unique
  | o :: os => oid <- load o GetID ;; unique_map os (<[oid := o]> unique)
  end.

Definition Unique (os : list loc) : prog (list loc) :=
  unique <- unique_map os ∅ ;; range_values unique.

Definition lock_all (os : list loc) : prog unit := for_each os (fun o => Lock o (Ret tt)).
Definition unlock_all (os : list loc) : prog unit := for_each os (fun o => Unlock o (Ret tt)).

Definition WithOpeLocks {A} (orders : list loc) (f : prog A) : prog A :=
  orders <- Unique orders ;;
  lock_all orders ;;
  x <- f ;;
  unlock_all orders ;;
  Ret x.

Definition execCreateCallbacks (o : loc) : prog unit :=
  cbs <- load o createCallbacks ;; go_all cbs o.
Definition execAmendCallbacks (o : loc) : prog unit :=
  cbs <- load o amendCallbacks ;; go_all cbs o.
Definition execFillCallbacks (o : loc) : prog unit :=
  cbs <- load o fillCallbacks ;; go_all cbs o.
Definition execPartiallyFillCallbacks (o : loc) : prog unit :=
  cbs <- load o partiallyFillCallBacks ;; go_all cbs o.
Definition execCancelCallbacks (o : loc) : prog unit :=
  cbs <- load o cancelCallbacks ;; go_all cbs o.
Definition execCreateRejectCallbacks (o : loc) : prog unit :=
  cbs <- load o createRejectCallbacks ;; go_all cbs o.
Definition execAmendRejectCallbacks (o : loc) : prog unit :=
  cbs <- load o amendRejectCallbacks ;; go_all cbs o.
Definition execAmendRejectOrderNotExistCallbacks (o : loc) : prog unit :=
  cbs <- load o amendRejectOrderNotExistCallbacks ;; go_all cbs o.
Definition execCancelRejectCallbacks (o : loc) : prog unit :=
  cbs <- load o cancelRejectCallbacks ;; go_all cbs o.

(** ** OrdersMutexMap and OrderMutexSlice (order.go) *)

Definition NewOrderMuArray (s : list loc) : Slice loc := NewSlice s 0.

Definition NewOrdersMap (m : option (gmap string loc)) : gmap string loc := NewMap m.

Definition getOrder (m : DealerImpl -> gmap string loc) (orderID : string) : prog (option loc) :=
  dget (fun d => m d !! orderID).

(** [m.Get(orderID)] followed by the status test of the order found. *)
Definition get_if (m : DealerImpl -> gmap string loc) (s : OrderStatus) (orderID : string) :
    prog (option loc) :=
  o <- getOrder m orderID ;;
  match o with
  | None => Ret None
  | Some order =>
      st <- load order GetStatus ;;
      Ret (if decide (st = s) then Some order else None)
  end.

(** The filter of the [get...Orders] methods over the result of [m.Gets]. *)
Fixpoint filter_status (s : OrderStatus) (found : list (option loc)) : prog (list loc) :=
  match found with
  | [] => Ret []
  | None :: found => filter_status s found
  | Some order :: found =>
      st <- load order GetStatus ;;
      os <- filter_status s found ;;
      Ret (if decide (st = s) then order :: os else os)
  end.

Definition gets_if (m : DealerImpl -> gmap string loc) (s : OrderStatus)
    (orderIDs : list string) : prog (list loc) :=
  found <- dget (fun d => map (fun k => m d !! k) orderIDs) ;;
  filter_status s found.

Definition getAmendingOrders m ids := gets_if m OrderStatusAmending ids.
Definition getAmendingOrder m oid := get_if m OrderStatusAmending oid.
Definition getSendingOrders m ids := gets_if m OrderStatusSending ids.
Definition getSendingOrder m oid := get_if m OrderStatusSending oid.
Definition getCancelingOrders m ids := gets_if m OrderStatusCanceling ids.
Definition getCancelingOrder m oid := get_if m OrderStatusCanceling oid.
Definition getPendingOrder m oid := get_if m OrderStatusPending oid.

Fixpoint sum_sizes (orders : list loc) (sum : dec) : prog dec :=
  match orders with
  | [] => Ret sum
  | order :: orders => s <- load order GetSize ;; sum_sizes orders (Add sum s)
  end.

Definition sumSize (m : gmap string loc) : prog dec :=
  orders <- range_values m ;; sum_sizes orders Zero.

(** ** The registry of dealers *)

(** [dealerInstances]: one instance per symbol; instances and symbols are
    references, an instance its index in the order of creation. *)
Record dealer_registry := DealerRegistry {
  instances : list DealerImpl;
  dealerInstances : gmap nat nat
}.

Definition NewDealer (symbol agent' onError' : nat) (t : time) (r : dealer_registry) :
    dealer_registry * nat :=
  match dealerInstances r !! symbol with
  | Some ins => (r, ins)
  | None =>
      let ins := {|
        acceptOrder := NewFlag true;
        onError := onError';
        agent := agent';
        Symbol := symbol;
        LivingOrders := NewOrdersMap None;
        UnrelatedOrders := NewOrdersMap None;
        amendingDetailMap := NewMap None;
        doneOrders := NewOrderMuArray [];
        CurrentPosition := NewPosition t;
        posUpdatedHandlers := []
      |} in
      let p := length (instances r) in
      ({| instances := instances r ++ [ins];
          dealerInstances := <[symbol := p]> (dealerInstances r) |}, p)
  end.

Definition GetSymbol (d : DealerImpl) : nat := Symbol d.
Definition GetLivingOrders (d : DealerImpl) : gmap string loc := LivingOrders d.
Definition GetUnrelatedOrders (d : DealerImpl) : gmap string loc := UnrelatedOrders d.
Definition GetCurrentPosition (d : DealerImpl) : Position := CurrentPosition d.

(** ** Transitions shared by the operations and the handlers *)

Definition setStatus (s : OrderStatus) (o : loc) : prog unit := store o (Order.setStatus s).

Definition recordLastOperatedTimestamp (o : loc) : prog unit :=
  t <- now ;; store o (Order.recordLastOperatedTimestamp t).

Definition living_set (o : loc) : prog unit :=
  oid <- load o GetID ;; dmod (fun d => d <| LivingOrders ::= insert oid o |>).

Definition living_delete (o : loc) : prog unit :=
  oid <- load o GetID ;; dmod (fun d => d <| LivingOrders ::= delete oid |>).

Definition done_append (o : loc) : prog unit :=
  dmod (fun d => d <| doneOrders ::= fun s => Append s o |>).

Definition detail_delete (o : loc) : prog unit :=
  oid <- load o GetID ;; dmod (fun d => d <| amendingDetailMap ::= delete oid |>).

(** [order.setSentTimestamp(order.getLastOperatedTimestamp())] *)
Definition mark_sent (o : loc) : prog unit :=
  t <- load o getLastOperatedTimestamp ;; store o (setSentTimestamp t).

(** [noticeError]: information is dropped, warnings and HTTP failures are
    reported, everything else also stops the dealer from accepting orders. *)
Definition noticeError (err : error) : prog unit :=
  if Is err InfoError then Ret tt
  else if Is err WarnError || Is err HttpRequestError then notify err
  else
    dmod (fun d => d <| acceptOrder ::= fun f => MutexFlag.Set' f false |>) ;;
    notify err.

Definition acceptFilled (order : loc) : prog unit :=
  setStatus OrderStatusDone order ;;
  store order (setOrderDoneReason OrderDoneReasonFilled) ;;
  living_delete order ;;
  done_append order ;;
  execFillCallbacks order.

Definition acceptPartiallyFilled (order : loc) : prog unit :=
  ty <- load order GetOrderType ;;
  if decide (ty = OrderTypeLimitIOC) then
    setStatus OrderStatusDone order ;;
    store order (setOrderDoneReason OrderDoneReasonPartiallyFilledAndCanceled) ;;
    living_delete order ;;
    done_append order ;;
    execPartiallyFillCallbacks order
  else Ret tt.

Definition acceptAmend (order : loc) (detail : option AmendDetail)
    (arrivedAt confirmedAt : option time) : prog unit :=
  setStatus OrderStatusPending order ;;
  store order (setAmendingDetail None) ;;
  detail <- deref detail ;;
  store order (amend detail) ;;
  mark_sent order ;;
  store order (setConfirmTimestamps arrivedAt confirmedAt) ;;
  execAmendCallbacks order.

Definition acceptCreate (order : loc) (publicID : string)
    (arrivedAt confirmedAt : option time) : prog unit :=
  setStatus OrderStatusPending order ;;
  (if decide (publicID <> ""%string) then store order (setPublicID publicID) else Ret tt) ;;
  mark_sent order ;;
  store order (setConfirmTimestamps arrivedAt confirmedAt) ;;
  execCreateCallbacks order.

Definition acceptCancel (order : loc) : prog unit :=
  setStatus OrderStatusDone order ;;
  store order (setOrderDoneReason OrderDoneReasonCanceled) ;;
  living_delete order ;;
  done_append order ;;
  execCancelCallbacks order.

Definition rejectAmend (order : loc) : prog unit :=
  setStatus OrderStatusPending order ;;
  store order (setAmendingDetail None) ;;
  execAmendRejectCallbacks order.

Definition rejectAmends (orders : list loc) : prog unit :=
  for_each orders (fun order => WithOpLock order (rejectAmend order)).

Definition rejectCreate (order : loc) : prog unit :=
  setStatus OrderStatusDone order ;;
  store order (setOrderDoneReason OrderDoneReasonRejected) ;;
  living_delete order ;;
  done_append order ;;
  execCreateRejectCallbacks order.

Definition rejectCreates (orders : list loc) : prog unit :=
  for_each orders (fun order => WithOpLock order (rejectCreate order)).

Definition rejectCancel (order : loc) : prog unit :=
  setStatus OrderStatusPending order ;;
  execCancelRejectCallbacks order.

Definition rejectCancels (orders : list loc) : prog unit :=
  for_each orders (fun order => WithOpLock order (rejectCancel order)).

Definition abandonOrder (order : loc) : prog unit :=
  setStatus OrderStatusDone order ;;
  store order (setOrderDoneReason OrderDoneReasonAbandoned) ;;
  mark_sent order ;;
  living_delete order ;;
  done_append order.

Definition setOrderFillInfo (order : loc) (data : OrderData) : prog unit :=
  store order (setFilledAt (ArrivedAt data)) ;;
  store order (setAvgPrice (AvgExecPrice data)) ;;
  store order (setExecQty (CumExecQty data)) ;;
  store order (setFee (CumFee data)) ;;
  ty <- load order GetOrderType ;;
  if decide (ty = OrderTypeMarket) then
    mark_sent order ;;
    store order (setConfirmTimestamps (ArrivedAt data) (ConfirmedAt data))
  else Ret tt.

Definition setOrderPartiallyFillInfo (order : loc) (data : OrderData) : prog unit :=
  store order (setFilledAt (ArrivedAt data)) ;;
  store order (setAvgPrice (AvgExecPrice data)) ;;
  store order (setExecQty (CumExecQty data)) ;;
  store order (setFee (CumFee data)).

(** ** Operations (dealer.go) *)

Definition SendOrder (order : loc) : prog (option error) :=
  accept <- dget (fun d => MutexFlag.Get (acceptOrder d)) ;;
  if negb accept then Ret (Some (NewError "dealer does not accept order")) else
  oid <- load order GetID ;;
  o <- getOrder LivingOrders oid ;;
  match o with
  | Some _ => Ret (Some (Sentinel DealingErrorOrderIsAlreadyExists))
  | None =>
      err <- WithOpLock order (
        living_set order ;;
        setStatus OrderStatusSending order ;;
        recordLastOperatedTimestamp order ;;
        call_agent (CallSendOrder order)) ;;
      match err with
      | Some err => WithOpLock order (rejectCreate order) ;; Ret (Some err)
      | None => Ret None
      end
  end.

(** The first loop of [SendOrders]: is some order already living? *)
Fixpoint any_living (orders : list loc) : prog bool :=
  match orders with
  | [] => Ret false
  | order :: orders =>
      oid <- load order GetID ;;
      o <- getOrder LivingOrders oid ;;
      match o with Some _ => Ret true | None => any_living orders end
  end.

Definition SendOrders (orders : list loc) : prog (option error) :=
  accept <- dget (fun d => MutexFlag.Get (acceptOrder d)) ;;
  if negb accept then Ret (Some (NewError "dealer does not accept order")) else
  exists' <- any_living orders ;;
  if (exists' : bool) then Ret (Some (Sentinel DealingErrorOrderIsAlreadyExists)) else
  for_each orders (fun order => WithOpLock order (
    living_set order ;;
    setStatus OrderStatusSending order ;;
    recordLastOperatedTimestamp order)) ;;
  err <- call_agent (CallSendOrders orders) ;;
  match err with
  | Some err => rejectCreates orders ;; Ret (Some err)
  | None => Ret None
  end.

Definition AmendOrders (details : list (loc * AmendDetail)) : prog (option error) := Ret None.

Definition amendOrder (order : loc) (detail : AmendDetail) : prog (option error) :=
  oid <- load order GetID ;;
  o <- getOrder LivingOrders oid ;;
  match o with
  | None => execAmendRejectOrderNotExistCallbacks order ;; Ret None
  | Some _ =>
      err <- WithOpLock order (
        able <- load order isAmendAble ;;
        if negb able then Ret (Some (Sentinel DealingErrorOrderIsNotAmendable)) else
        need <- load order (fun o => isNeedToAmend o detail) ;;
        need <- deref need ;;
        if negb need then Ret None else
        st <- load order GetStatus ;;
        if negb (bool_decide (st = OrderStatusPending)) then
          st <- load order GetStatus ;;
          Ret (Some (Error (Sentinel DealingErrorOrderNotReadyForOperation)
                           ("(order status: " +:+ OrderStatusString st +:+ ")")))
        else
        setStatus OrderStatusAmending order ;;
        store order (setAmendingDetail (Some detail)) ;;
        recordLastOperatedTimestamp order ;;
        call_agent (CallAmendOrder order detail)) ;;
      match err with
      | Some err => WithOpLock order (rejectAmend order) ;; Ret (Some err)
      | None => Ret None
      end
  end.

(** What [AmendOrder] does under the operation lock: the error it sets, and
    whether the order was pending. *)
Definition amend_or_defer (order : loc) (detail : AmendDetail) : prog (option error * bool) :=
  oid <- load order GetID ;;
  st <- load order GetStatus ;;
  match st with
  | OrderStatusDone => execAmendRejectOrderNotExistCallbacks order ;; Ret (None, false)
  | OrderStatusPending => Ret (None, true)
  | OrderStatusSending =>
      m <- dget amendingDetailMap ;;
      (if decide (m !! oid = None)
       then store order (SetCreateCallback (CbDeferredAmend order detail)) else Ret tt) ;;
      dmod (fun d => d <| amendingDetailMap ::= insert oid detail |>) ;;
      Ret (None, false)
  | OrderStatusAmending =>
      m <- dget amendingDetailMap ;;
      (if decide (m !! oid = None)
       then store order (SetAmendCallback (CbDeferredAmend order detail)) else Ret tt) ;;
      dmod (fun d => d <| amendingDetailMap ::= insert oid detail |>) ;;
      Ret (None, false)
  | _ => Ret (Some (Sentinel DealingErrorOrderNotReadyForOperation), false)
  end.

Definition AmendOrder (order : loc) (detail : AmendDetail) : prog (option error) :=
  accept <- dget (fun d => MutexFlag.Get (acceptOrder d)) ;;
  if negb accept then Ret (Some (NewError "dealer does not accept order")) else
  r <- WithOpLock order (amend_or_defer order detail) ;;
  let '(err, pending) := (r : option error * bool) in
  if pending then amendOrder order detail else Ret err.

Definition cancelOrder (order : loc) : prog (option error) :=
  st <- load order GetStatus ;;
  if decide (st = OrderStatusCanceling) then Ret None else
  st <- load order GetStatus ;;
  if decide (st <> OrderStatusPending)
  then Ret (Some (Sentinel DealingErrorOrderNotReadyForOperation)) else
  setStatus OrderStatusCanceling order ;;
  recordLastOperatedTimestamp order ;;
  err <- call_agent (CallCancelOrder order) ;;
  match err with
  | Some err => rejectCancel order ;; Ret (Some err)
  | None => Ret None
  end.

(** Deferring a cancellation to the answer of the operation in flight. *)
Definition defer_cancel (replace : OrderCallback -> Order -> Order) (order : loc) : prog unit :=
  detail_delete order ;;
  store order (replace CbDeferredCancel).

Definition CancelOrder (order : loc) : prog (option error) :=
  WithOpLock order (
    st <- load order GetStatus ;;
    match st with
    | OrderStatusPending => cancelOrder order ;; Ret tt
    | OrderStatusSending => defer_cancel ReplaceCreateCallbacks order
    | OrderStatusAmending => defer_cancel ReplaceAmendCallbacks order
    | _ => Ret tt
    end) ;;
  Ret None.

(** The classification loop of [CancelOrders]; the result is [cancelTargets]. *)
Fixpoint cancel_targets (orders : list loc) : prog (list loc) :=
  match orders with
  | [] => Ret []
  | order :: orders =>
      st <- load order GetStatus ;;
      match st with
      | OrderStatusPending => targets <- cancel_targets orders ;; Ret (order :: targets)
      | OrderStatusSending =>
          defer_cancel ReplaceCreateCallbacks order ;; cancel_targets orders
      | OrderStatusAmending =>
          defer_cancel ReplaceAmendCallbacks order ;; cancel_targets orders
      | _ => cancel_targets orders
      end
  end.

Definition CancelOrders (orders : list loc) : prog (option error) :=
  orders <- Unique orders ;;
  err <- WithOpeLocks orders (
    cancelTargets <- cancel_targets orders ;;
    match cancelTargets with
    | [] => Ret None
    | _ =>
        for_each cancelTargets (fun order =>
          setStatus OrderStatusCanceling order ;;
          recordLastOperatedTimestamp order) ;;
        call_agent (CallCancelOrders cancelTargets)
    end) ;;
  match (err : option error) with
  | Some _ => rejectCancels orders ;; Ret None
  | None => Ret None
  end.

(** One step for the reading of the pointer, its replacement and the return: an order that a
    handler appends in between goes to the slice that is returned, as one before the swap does. *)
Definition ExportDoneOrders : prog (Slice loc) :=
  Act (fun w => Some (w <| dealer ::= fun d => d <| doneOrders := NewOrderMuArray [] |> |>,
                      doneOrders (dealer w))) Ret.

Definition SetPosUpdatedHandler (handler : nat) : prog unit :=
  dmod (fun d => d <| posUpdatedHandlers ::= fun hs => hs ++ [handler] |>).

(** The package functions that take a dealer and log the error. *)
Definition pkg_SendOrder (order : loc) : prog unit := SendOrder order ;; Ret tt.
Definition pkg_SendOrders (orders : list loc) : prog unit := SendOrders orders ;; Ret tt.
Definition pkg_AmendOrder (order : option loc) (detail : AmendDetail) : prog unit :=
  match order with None => Ret tt | Some order => AmendOrder order detail ;; Ret tt end.
Definition pkg_CancelOrder (order : option loc) : prog unit :=
  match order with None => Ret tt | Some order => CancelOrder order ;; Ret tt end.
Definition pkg_CancelOrders (orders : list loc) : prog unit :=
  match orders with [] => Ret tt | _ => CancelOrders orders ;; Ret tt end.

(** The body of a callback, run with the order it was registered for. *)
Definition run_callback (cb : OrderCallback) (o : loc) : prog unit :=
  match cb with
  | CbUser _ => Ret tt
  | CbDeferredAmend order detail =>
      oid <- load o GetID ;;
      m <- dget amendingDetailMap ;;
      dmod (fun d => d <| amendingDetailMap ::= delete oid |>) ;;
      amendOrder order (default detail (m !! oid)) ;;
      Ret tt
  | CbDeferredCancel => cancelOrder o ;; Ret tt
  end.

(** ** Handlers of REST responses (dealing_handlers.go) *)

(** [err]: the error argument of the handler. *)
Definition handleSendOrderResp (resp : CreateOrderResp) (err : option error) : prog unit :=
  order <- getSendingOrder LivingOrders (cr_OrderID resp) ;;
  match order with
  | None => Ret tt
  | Some order =>
      WithOpLock order (
        match err with
        | Some err => rejectCreate order ;; noticeError err
        | None =>
        match cr_Err resp with
        | Some err => rejectCreate order ;; noticeError err
        | None =>
            st <- load order GetStatus ;;
            if decide (st = OrderStatusSending) then
              orderType <- load order GetOrderType ;;
              match orderType with
              | OrderTypeLimit | OrderTypeLimitFOK | OrderTypeLimitIOC | OrderTypeLimitMaker =>
                  acceptCreate order (cr_PublicID resp) (cr_ArrivedAt resp) (cr_ConfirmedAt resp)
              | _ => Ret tt
              end
            else Ret tt
        end end)
  end.

(** The loop of the batch handlers: the response of each order found. *)
Definition each_response {R} (orders : list loc) (resps : gmap string (option R))
    (handle : R -> prog unit) : prog unit :=
  for_each orders (fun order =>
    oid <- load order GetID ;;
    resp <- deref (default None (resps !! oid)) ;;
    handle resp).

Definition handleSendOrdersResp (resps : CreateOrdersRespMap) (err : option error) : prog unit :=
  ids <- range_keys resps ;;
  orders <- getSendingOrders LivingOrders ids ;;
  match err with
  | Some err => rejectCreates orders ;; noticeError err
  | None => each_response orders resps (fun resp => handleSendOrderResp resp None)
  end.

Definition handleAmendOrderResp (resp : AmendOrderResp) (err : option error) : prog unit :=
  order <- getAmendingOrder LivingOrders (ar_OrderID resp) ;;
  match order with
  | None => Ret tt
  | Some order =>
      WithOpLock order (
        match err with
        | Some err => if Is err OrderIsNotExists then abandonOrder order
                      else rejectAmend order ;; noticeError err
        | None =>
        match ar_Err resp with
        | Some err => if Is err OrderIsNotExists then abandonOrder order
                      else rejectAmend order ;; noticeError err
        | None => acceptAmend order (ar_Detail resp) (ar_ArrivedAt resp) (ar_ConfirmedAt resp)
        end end)
  end.

Definition handleAmendOrdersResp (resps : AmendOrdersRespMap) (err : option error) : prog unit :=
  ids <- range_keys resps ;;
  orders <- getAmendingOrders LivingOrders ids ;;
  match err with
  | Some err => rejectAmends orders ;; noticeError err
  | None => each_response orders resps (fun resp => handleAmendOrderResp resp None)
  end.

Definition handleCancelOrderResp (resp : CancelOrderResp) (err : option error) : prog unit :=
  order <- getCancelingOrder LivingOrders (xr_OrderID resp) ;;
  match order with
  | None => Ret tt
  | Some order =>
      WithOpLock order (
        match err with
        | Some err => if Is err OrderIsNotExists then abandonOrder order
                      else rejectCancel order ;; noticeError err
        | None =>
        match xr_Err resp with
        | Some err => if Is err OrderIsNotExists then abandonOrder order
                      else rejectCancel order ;; noticeError err
        | None => acceptCancel order
        end end)
  end.

Definition handleCancelOrdersResp (resps : CancelOrdersRespMap) (err : option error) : prog unit :=
  ids <- range_keys resps ;;
  orders <- getCancelingOrders LivingOrders ids ;;
  match err with
  | Some err => rejectCancels orders ;; noticeError err
  | None => each_response orders resps (fun resp => handleCancelOrderResp resp None)
  end.

(** ** Handlers of the private web socket (dealing_handlers.go) *)

(** The order of someone else: tracked from its opening to its end. *)
Definition track_unrelated (data : OrderData) : prog unit :=
  if negb (isUnrelated data) then Ret tt else
  (if decide (Status data = OrderDataStatusOpened) then
     o <- alloc (setConfirmTimestamps (ArrivedAt data) (ConfirmedAt data)
                   (zero_Order <| publicID := PublicID data |>)) ;;
     dmod (fun d => d <| UnrelatedOrders ::= insert (PublicID data) o |>)
   else Ret tt) ;;
  if isDone data then
    order <- getOrder UnrelatedOrders (PublicID data) ;;
    match order with
    | Some order =>
        WithOpLock order (
          done_append order ;;
          dmod (fun d => d <| UnrelatedOrders ::= delete (PublicID data) |>))
    | None => Ret tt
    end
  else Ret tt.

Definition fill_order (order : loc) (data : OrderData) : prog unit :=
  WithOpLock order (setOrderFillInfo order data ;; acceptFilled order).

Definition partially_fill_order (order : loc) (data : OrderData) : prog unit :=
  WithOpLock order (setOrderPartiallyFillInfo order data ;; acceptPartiallyFilled order).

(** One element of the loop of [HandleOrderData]. *)
Definition handle_order_datum (data : OrderData) : prog unit :=
  track_unrelated data ;;
  order <- getOrder LivingOrders (ID data) ;;
  match Status data, order with
  | OrderDataStatusFilled, Some order => fill_order order data
  | _, _ =>
      order <- getOrder LivingOrders (ID data) ;;
      match Status data, order with
      | OrderDataStatusPartiallyFilled, Some order => partially_fill_order order data
      | _, _ => Ret tt
      end
  end.

Definition HandleOrderData (datas : list OrderData) : prog unit :=
  for_each datas handle_order_datum.

Definition extractPositionData (datas : list PositionData) : PositionData + error :=
  let oneWay data := bool_decide (posMode data = PositionModeOneWay) in
  let oneWayDatas := List.filter oneWay datas in
  let invalidDatas := List.filter (fun data => negb (oneWay data)) datas in
  if (0 <? length invalidDatas)%nat
  then inr (NewError "invalid position data: include invalid position data")
  else if (2 <=? length oneWayDatas)%nat
  then inr (NewError "invalid position data: more than one one-way position data")
  else match oneWayDatas with
       | [] => inr (NewError "invalid position data: no one-way position data")
       | data :: _ => inl data
       end.

Definition HandlePositionData (datas : list PositionData) : prog unit :=
  match extractPositionData datas with
  | inr _ => Ret tt
  | inl data =>
      lastUpdateAt <- dget (fun d => getLastUpdateAt (CurrentPosition d)) ;;
      if time_After (Timestamp data) lastUpdateAt || time_Equal (Timestamp data) lastUpdateAt then
        let size := Zero in
        let size := if decide (posSide data = SideBuy) then posQty data else size in
        let size := if decide (posSide data = SideSell) then Neg (posQty data) else size in
        dmod (fun d => d <| CurrentPosition ::= fun p => update p (Timestamp data) size |>) ;;
        hs <- dget posUpdatedHandlers ;;
        call_position_handlers hs datas
      else Ret tt
  end.

End Dealer.
