(* ===== verification/DealerInv.v ===== *)
(** * The invariant of a dealer and the rules of its blocks

    [WF] relates the dealer's maps, the orders of the heap and the goroutines
    waiting to run; [edge] is the life cycle of an order.  The lemmas give, for
    each accept and reject block of [Dealer.v], what it changes, and show that a
    change of one of three shapes (update, open, close) keeps [WF] and follows
    the life cycle.  The properties are in [DealerProps.v].

    A [CancelOrders] that the agent refuses makes every order of its argument pending,
    also those that are not active.  The invariant is relative to the set of the orders
    that were revived in this way ([Revived]): they are active and not living, stay so
    for ever, and are the only exceptions to what the invariant says of the others. *)

From S2P Require Import Prelude GoStd Decimal Domains Errors MutexFlag MutexMap MutexSlice Order.
From S2P Require Import OrderData Position World Dealer.
Local Open Scope prog_scope.

(** The orders that must be in [LivingOrders]. *)
Definition active (s : OrderStatus) : bool :=
  match s with
  | OrderStatusSending | OrderStatusPending | OrderStatusCanceling | OrderStatusAmending => true
  | _ => false
  end.

(** The life cycle of an order.  [Sending -> Done]: rejected, or filled before the
    response; [Amending -> Pending] and [Canceling -> Pending]: answered or rejected. *)
Inductive edge : OrderStatus -> OrderStatus -> Prop :=
  | edge_send : edge OrderStatusBorn OrderStatusSending
  | edge_accept : edge OrderStatusSending OrderStatusPending
  | edge_amend : edge OrderStatusPending OrderStatusAmending
  | edge_amended : edge OrderStatusAmending OrderStatusPending
  | edge_cancel : edge OrderStatusPending OrderStatusCanceling
  | edge_cancel_rejected : edge OrderStatusCanceling OrderStatusPending
  | edge_done s : active s = true -> edge s OrderStatusDone.

(** The orders revived so far.  Where there are none the set is inferred. *)
Class Revived := revived : gset loc.

#[export] Instance none_revived : Revived | 100 := (∅ : gset loc).

Section Invariant.
  Context {D : Decimal} {Rv : Revived}.

Definition all_callbacks (o : Order) : list OrderCallback :=
  createCallbacks o ++ amendCallbacks o ++ fillCallbacks o ++ partiallyFillCallBacks o ++
  cancelCallbacks o ++ createRejectCallbacks o ++ amendRejectCallbacks o ++
  amendRejectOrderNotExistCallbacks o ++ cancelRejectCallbacks o.

(** The pointers a callback captured are pointers to orders. *)
Definition cb_ok (w : World) (cb : OrderCallback) : Prop :=
  match cb with CbDeferredAmend l _ => is_Some (heap w !! l) | _ => True end.

(** What stays true of every order and of every callback. *)
Definition order_ok (w : World) (o : Order) : Prop :=
  (status o = OrderStatusAmending -> is_Some (amendingDetail o)) /\
  amendCount o = 0%Z /\
  (status o = OrderStatusBorn -> id o <> ""%string) /\
  (forall cb, cb ∈ all_callbacks o -> cb_ok w cb).

(** The orders that have ended: [exported] before, the others still held. *)
Definition ended (exported : list loc) (w : World) : list loc :=
  exported ++ a (doneOrders (dealer w)).

Record WF (exported : list loc) (w : World) : Prop := {
  wf_living : forall k l, LivingOrders (dealer w) !! k = Some l ->
    l ∉ revived /\ exists o, heap w !! l = Some o /\ id o = k /\ active (status o) = true;
  wf_active : forall l o, l ∉ revived -> heap w !! l = Some o -> active (status o) = true ->
    LivingOrders (dealer w) !! id o = Some l;
  wf_revived : forall l, l ∈ revived -> exists o, heap w !! l = Some o /\ active (status o) = true;
  wf_unrelated : forall k l, UnrelatedOrders (dealer w) !! k = Some l ->
    l ∉ ended exported w /\
    exists o, heap w !! l = Some o /\ publicID o = k /\ (status o = OrderStatusUnknown \/ l ∈ revived);
  wf_ended : forall l, l ∈ ended exported w ->
    exists o, heap w !! l = Some o /\
      (status o = OrderStatusDone \/ status o = OrderStatusUnknown \/ l ∈ revived);
  wf_done : forall l o, heap w !! l = Some o -> status o = OrderStatusDone -> l ∈ ended exported w;
  wf_nodup : NoDup (ended exported w);
  wf_ids : forall l1 l2 o1 o2, heap w !! l1 = Some o1 -> heap w !! l2 = Some o2 ->
    id o1 = id o2 -> id o1 <> ""%string -> l1 = l2;
  wf_orders : forall l o, heap w !! l = Some o -> order_ok w o;
  wf_spawned : forall cb l, (cb, l) ∈ spawned w -> cb_ok w cb /\ is_Some (heap w !! l);
  wf_unbounded : maxLen (doneOrders (dealer w)) = 0%Z
}.

(** Orders keep their identity and, unless they were revived, move along the life cycle. *)
Definition evolves (w w' : World) : Prop :=
  forall l o, heap w !! l = Some o ->
  exists o', heap w' !! l = Some o' /\ id o' = id o /\
    (l ∉ revived -> rtc edge (status o) (status o')).

Lemma evolves_refl w : evolves w w.
Proof. intros l o Hl. exists o. by repeat split. Qed.

Lemma evolves_trans w1 w2 w3 : evolves w1 w2 -> evolves w2 w3 -> evolves w1 w3.
Proof.
  intros H1 H2 l o Hl. destruct (H1 _ _ Hl) as (o2 & Hl2 & Hid2 & Hs2).
  destruct (H2 _ _ Hl2) as (o3 & Hl3 & Hid3 & Hs3). exists o3.
  split; [done|]. split; [congruence|]. intros Hn. etrans; auto.
Qed.

(** ** Changes of one order *)

(** [w'] is [w] with the order at [l] replaced by [o'] and goroutines started for
    callbacks of it. *)
Record changes (l : loc) (o o' : Order) (w w' : World) : Prop := {
  ch_heap : heap w' = <[l := o']> (heap w);
  ch_held : held w' = held w;
  ch_id : id o' = id o;
  ch_count : amendCount o' = amendCount o;
  ch_public : status o = OrderStatusUnknown \/ l ∈ revived -> publicID o' = publicID o;
  ch_callbacks : forall cb, cb ∈ all_callbacks o' ->
    cb ∈ all_callbacks o \/ cb = CbDeferredCancel \/ (exists n, cb = CbUser n) \/
    exists detail, cb = CbDeferredAmend l detail;
  ch_spawned : exists cbs, spawned w' = spawned w ++ ((fun cb => (cb, l)) <$> cbs) /\
    forall cb, cb ∈ cbs -> cb ∈ all_callbacks o
}.

Record same_maps (d d' : DealerImpl) : Prop := {
  sm_living : LivingOrders d' = LivingOrders d;
  sm_unrelated : UnrelatedOrders d' = UnrelatedOrders d;
  sm_done : doneOrders d' = doneOrders d
}.

Record close_maps (k : string) (l : loc) (d d' : DealerImpl) : Prop := {
  cm_living : LivingOrders d' = delete k (LivingOrders d);
  cm_unrelated : UnrelatedOrders d' = UnrelatedOrders d;
  cm_done : doneOrders d' = Append (doneOrders d) l
}.

Record open_maps (k : string) (l : loc) (d d' : DealerImpl) : Prop := {
  om_living : LivingOrders d' = <[k := l]> (LivingOrders d);
  om_unrelated : UnrelatedOrders d' = UnrelatedOrders d;
  om_done : doneOrders d' = doneOrders d
}.

Lemma Append_unbounded (s : Slice loc) l : maxLen s = 0%Z -> Append s l = MkSlice 0%Z (a s ++ [l]).
Proof. intros Hm. unfold Append. rewrite Hm. simpl. by rewrite Hm. Qed.

Lemma changes_lookup {l o o' w w'} (Hc : changes l o o' w w') l2 o2 :
  heap w' !! l2 = Some o2 ->
  (l2 = l /\ o2 = o') \/ (l2 <> l /\ heap w !! l2 = Some o2).
Proof.
  rewrite (ch_heap _ _ _ _ _ Hc). intros [[<- <-]|[Hne H]]%lookup_insert_Some; auto.
Qed.

Lemma changes_here {l o o' w w'} (Hc : changes l o o' w w') : heap w' !! l = Some o'.
Proof. by rewrite (ch_heap _ _ _ _ _ Hc), lookup_insert_eq. Qed.

Lemma changes_there {l o o' w w'} (Hc : changes l o o' w w') l2 : l2 <> l -> heap w' !! l2 = heap w !! l2.
Proof. intros H. rewrite (ch_heap _ _ _ _ _ Hc). by apply lookup_insert_ne. Qed.

Lemma changes_here_or_there {l o o' w w'} (Hc : changes l o o' w w') l2 o2 :
  heap w !! l2 = Some o2 -> (l2 = l /\ heap w' !! l = Some o') \/ heap w' !! l2 = Some o2.
Proof.
  intros H2. destruct (decide (l2 = l)) as [->|Hne]; [left|right].
  - split; [done|apply (changes_here Hc)].
  - by rewrite (changes_there Hc).
Qed.

Lemma changes_is_Some {l o o' w w'} (Hc : changes l o o' w w') l2 : is_Some (heap w !! l2) -> is_Some (heap w' !! l2).
Proof. rewrite (ch_heap _ _ _ _ _ Hc), lookup_insert_is_Some'. auto. Qed.

Lemma changes_cb_ok {l o o' w w'} (Hc : changes l o o' w w') cb : cb_ok w cb -> cb_ok w' cb.
Proof. destruct cb; simpl; [done|apply (changes_is_Some Hc)|done]. Qed.

Lemma changes_evolves {l o o' w w'} (Hl : heap w !! l = Some o) (Hc : changes l o o' w w') :
  (l ∉ revived -> rtc edge (status o) (status o')) -> evolves w w'.
Proof.
  intros Hs l2 o2 H2. destruct (decide (l2 = l)) as [->|Hne].
  - exists o'. rewrite (changes_here Hc). simplify_eq. by rewrite (ch_id _ _ _ _ _ Hc).
  - exists o2. by rewrite (changes_there Hc).
Qed.

Lemma changes_ids {E l o o' w w'} (Hwf : WF E w) (Hl : heap w !! l = Some o)
    (Hc : changes l o o' w w') l1 l2 o1 o2 :
  heap w' !! l1 = Some o1 -> heap w' !! l2 = Some o2 -> id o1 = id o2 ->
  id o1 <> ""%string -> l1 = l2.
Proof.
  intros [[-> ->]|[_ H1]]%(changes_lookup Hc) [[-> ->]|[_ H2]]%(changes_lookup Hc);
    rewrite ?(ch_id _ _ _ _ _ Hc); intros; try done; by eapply (wf_ids _ _ Hwf).
Qed.

Lemma changes_orders_ok {E l o o' w w'} (Hwf : WF E w) (Hl : heap w !! l = Some o)
    (Hc : changes l o o' w w') :
  (status o' = OrderStatusAmending -> is_Some (amendingDetail o')) ->
  (status o' = status o \/ status o' <> OrderStatusBorn) ->
  forall l2 o2, heap w' !! l2 = Some o2 -> order_ok w' o2.
Proof.
  intros Had Hun l2 o2 [[-> ->]|[_ H2]]%(changes_lookup Hc).
  - destruct (wf_orders _ _ Hwf _ _ Hl) as (_ & Hn & Hid & Hcb). repeat split; [done|..].
    + by rewrite (ch_count _ _ _ _ _ Hc).
    + intros Hst. rewrite (ch_id _ _ _ _ _ Hc). apply Hid. destruct Hun; congruence.
    + intros cb [H|[->|[[n ->]|[detail ->]]]]%(ch_callbacks _ _ _ _ _ Hc); simpl; auto.
      * by apply (changes_cb_ok Hc), Hcb.
      * by rewrite (changes_here Hc).
  - destruct (wf_orders _ _ Hwf _ _ H2) as (H & Hn & Hid & Hcb). repeat split; [done..|].
    intros cb Hin. by apply (changes_cb_ok Hc), Hcb.
Qed.

Lemma changes_spawned_ok {E l o o' w w'} (Hwf : WF E w) (Hl : heap w !! l = Some o)
    (Hc : changes l o o' w w') cb l2 :
  (cb, l2) ∈ spawned w' -> cb_ok w' cb /\ is_Some (heap w' !! l2).
Proof.
  destruct (ch_spawned _ _ _ _ _ Hc) as (cbs & -> & Hcbs).
  intros [Hin|(cb' & [= <- <-] & Hin)%list_elem_of_fmap]%elem_of_app.
  - apply (wf_spawned _ _ Hwf) in Hin as [H1 H2]. split; [by apply (changes_cb_ok Hc)|by apply (changes_is_Some Hc)].
  - split; [|rewrite (changes_here Hc); eauto].
    apply (changes_cb_ok Hc), (wf_orders _ _ Hwf _ _ Hl). auto.
Qed.

(** An update: the order stays active, or keeps its status. *)
Lemma WF_update {E l o o' w w'} (Hwf : WF E w) (Hl : heap w !! l = Some o)
    (Hc : changes l o o' w w') :
  same_maps (dealer w) (dealer w') ->
  status o' = status o \/ (active (status o) = true /\ active (status o') = true) ->
  (status o' = OrderStatusAmending -> is_Some (amendingDetail o')) ->
  WF E w'.
Proof.
  intros [Hm1 Hm2 Hm3] Hs Had.
  assert (ended E w' = ended E w) as He by (unfold ended; by rewrite Hm3).
  assert (active (status o') = active (status o)) as Hact by (destruct Hs as [->|[-> ->]]; done).
  constructor; rewrite ?He, ?Hm1, ?Hm2, ?Hm3.
  - intros k l2 H2. destruct (wf_living _ _ Hwf _ _ H2) as (Hr & o2 & Hl2 & Hid & Ha). split; [done|].
    destruct (changes_here_or_there Hc l2 o2 Hl2) as [(-> & H')|H']; [|by exists o2].
    exists o'. simplify_eq. by rewrite (ch_id _ _ _ _ _ Hc), Hact.
  - intros l2 o2 Hr [[-> ->]|[_ H2]]%(changes_lookup Hc) Ha.
    + rewrite (ch_id _ _ _ _ _ Hc). apply (wf_active _ _ Hwf); congruence.
    + by apply (wf_active _ _ Hwf).
  - intros l2 (o2 & Hl2 & Ha)%(wf_revived _ _ Hwf).
    destruct (changes_here_or_there Hc l2 o2 Hl2) as [(-> & H')|H']; [exists o'|by exists o2].
    simplify_eq. by rewrite Hact.
  - intros k l2 H2. destruct (wf_unrelated _ _ Hwf _ _ H2) as (Hn & o2 & Hl2 & Hp & Hst).
    split; [done|]. destruct (changes_here_or_there Hc l2 o2 Hl2) as [(-> & H')|H']; [|by exists o2].
    exists o'. simplify_eq. rewrite (ch_public _ _ _ _ _ Hc) by done. split; [done|]. split; [done|].
    destruct Hst as [Hst|]; [left|by right]. destruct Hs as [->|[Hs _]]; [done|]. by rewrite Hst in Hs.
  - intros l2 H2. destruct (wf_ended _ _ Hwf _ H2) as (o2 & Hl2 & Hst).
    destruct (changes_here_or_there Hc l2 o2 Hl2) as [(-> & H')|H']; [|by exists o2].
    exists o'. simplify_eq. split; [done|]. destruct Hs as [->|[Hs _]]; [done|].
    destruct Hst as [Hst|[Hst|Hst]]; [by rewrite Hst in Hs..|auto].
  - intros l2 o2 [[-> ->]|[_ H2]]%(changes_lookup Hc) Hst; [|by apply (wf_done _ _ Hwf) in H2].
    apply (wf_done _ _ Hwf _ _ Hl). destruct Hs as [<-|[_ Hs]]; [done|]. by rewrite Hst in Hs.
  - apply Hwf.
  - apply (changes_ids Hwf Hl Hc).
  - apply (changes_orders_ok Hwf Hl Hc); [done|].
    destruct Hs as [|[_ Hs]]; [by left|right; intros E2; by rewrite E2 in Hs].
  - apply (changes_spawned_ok Hwf Hl Hc).
  - apply Hwf.
Qed.

(** Opening: a born order becomes active and living. *)
Lemma WF_open {E l o o' w w'} (Hwf : WF E w) (Hl : heap w !! l = Some o)
    (Hc : changes l o o' w w') :
  open_maps (id o) l (dealer w) (dealer w') ->
  status o = OrderStatusBorn -> status o' = OrderStatusSending ->
  LivingOrders (dealer w) !! id o = None ->
  WF E w'.
Proof.
  intros [Hm1 Hm2 Hm3] Hs Hs' Hnone.
  assert (ended E w' = ended E w) as He by (unfold ended; by rewrite Hm3).
  assert (l ∉ revived) as Hrv.
  { intros (o2 & Hl2 & Ha)%(wf_revived _ _ Hwf). simplify_eq. by rewrite Hs in Ha. }
  assert (forall l2 o2, heap w !! l2 = Some o2 -> status o2 <> OrderStatusBorn -> heap w' !! l2 = Some o2) as Hold.
  { intros l2 o2 H2 Hne. rewrite (changes_there Hc); [done|]. intros ->. congruence. }
  constructor; rewrite ?He, ?Hm1, ?Hm2, ?Hm3.
  - intros k l2 [[<- <-]|[Hk H2]]%lookup_insert_Some.
    + split; [done|]. exists o'. by rewrite (changes_here Hc), (ch_id _ _ _ _ _ Hc), Hs'.
    + destruct (wf_living _ _ Hwf _ _ H2) as (Hr & o2 & Hl2 & Hid & Ha). split; [done|]. exists o2.
      split; [|done]. apply Hold; [done|]. intros E2. by rewrite E2 in Ha.
  - intros l2 o2 Hr [[-> ->]|[Hn H2]]%(changes_lookup Hc) Ha.
    + by rewrite (ch_id _ _ _ _ _ Hc), lookup_insert_eq.
    + apply (wf_active _ _ Hwf _ _ Hr H2) in Ha. rewrite lookup_insert_ne; [done|]. congruence.
  - intros l2 (o2 & Hl2 & Ha)%(wf_revived _ _ Hwf). exists o2. split; [|done].
    apply Hold; [done|]. intros E2. by rewrite E2 in Ha.
  - intros k l2 H2. destruct (wf_unrelated _ _ Hwf _ _ H2) as (Hn & o2 & Hl2 & Hp & Hst).
    split; [done|]. exists o2. rewrite (changes_there Hc); [done|]. intros ->.
    destruct Hst; [congruence|done].
  - intros l2 H2. destruct (wf_ended _ _ Hwf _ H2) as (o2 & Hl2 & Hst).
    exists o2. rewrite (changes_there Hc); [done|]. intros ->. destruct Hst as [Hst|[Hst|Hst]]; congruence.
  - intros l2 o2 [[-> ->]|[_ H2]]%(changes_lookup Hc) Hst; [congruence|]. by apply (wf_done _ _ Hwf) in H2.
  - apply Hwf.
  - apply (changes_ids Hwf Hl Hc).
  - apply (changes_orders_ok Hwf Hl Hc); [congruence|right; congruence].
  - apply (changes_spawned_ok Hwf Hl Hc).
  - apply Hwf.
Qed.

(** Closing: an active order is done, leaves the living orders and is retained. *)
Lemma WF_close {E l o o' w w'} (Hwf : WF E w) (Hl : heap w !! l = Some o)
    (Hc : changes l o o' w w') :
  close_maps (id o) l (dealer w) (dealer w') ->
  l ∉ revived -> active (status o) = true -> status o' = OrderStatusDone ->
  WF E w'.
Proof.
  intros [Hm1 Hm2 Hm3] Hrv Hs Hs'.
  assert (ended E w' = ended E w ++ [l]) as He.
  { unfold ended. rewrite Hm3, Append_unbounded by apply Hwf. simpl. by rewrite app_assoc. }
  assert (l ∉ ended E w) as Hnew.
  { intros H2. destruct (wf_ended _ _ Hwf _ H2) as (o2 & Hl2 & Hst). simplify_eq.
    destruct Hst as [Hst|[Hst|Hst]]; by rewrite ?Hst in Hs. }
  pose proof (wf_active _ _ Hwf _ _ Hrv Hl Hs) as Hliv.
  constructor; rewrite ?He, ?Hm1, ?Hm2, ?Hm3.
  - intros k l2 [Hk H2]%lookup_delete_Some.
    destruct (wf_living _ _ Hwf _ _ H2) as (Hr & o2 & Hl2 & Hid & Ha). split; [done|]. exists o2.
    rewrite (changes_there Hc); [done|]. intros ->. congruence.
  - intros l2 o2 Hr [[-> ->]|[Hn H2]]%(changes_lookup Hc) Ha; [by rewrite Hs' in Ha|].
    apply (wf_active _ _ Hwf _ _ Hr H2) in Ha. rewrite lookup_delete_ne; [done|]. congruence.
  - intros l2 Hr. destruct (wf_revived _ _ Hwf _ Hr) as (o2 & Hl2 & Ha). exists o2.
    rewrite (changes_there Hc); [done|]. by intros ->.
  - intros k l2 H2. destruct (wf_unrelated _ _ Hwf _ _ H2) as (Hn & o2 & Hl2 & Hp & Hst).
    assert (l2 <> l) as Hne. { intros ->. simplify_eq. destruct Hst as [Hst|]; [by rewrite Hst in Hs|done]. }
    split; [rewrite elem_of_app, list_elem_of_singleton; tauto|].
    exists o2. by rewrite (changes_there Hc).
  - intros l2 [H2| ->%list_elem_of_singleton]%elem_of_app.
    + destruct (wf_ended _ _ Hwf _ H2) as (o2 & Hl2 & Hst). exists o2.
      rewrite (changes_there Hc); [done|]. by intros ->.
    + exists o'. rewrite (changes_here Hc). auto.
  - intros l2 o2 [[-> ->]|[_ H2]]%(changes_lookup Hc) Hst; rewrite elem_of_app.
    + right. by apply list_elem_of_singleton.
    + left. by eapply (wf_done _ _ Hwf).
  - apply list.NoDup_app. split; [apply Hwf|]. split; [|apply NoDup_singleton].
    intros x Hx ->%list_elem_of_singleton. done.
  - apply (changes_ids Hwf Hl Hc).
  - apply (changes_orders_ok Hwf Hl Hc); [congruence|right; congruence].
  - apply (changes_spawned_ok Hwf Hl Hc).
  - rewrite Append_unbounded by apply Hwf. done.
Qed.

(** ** Moves: the three shapes together *)

Inductive moves (l : loc) (o : Order) (w w' : World) : Prop :=
  | mv_update o' : changes l o o' w w' -> same_maps (dealer w) (dealer w') ->
      status o' = status o \/ (active (status o) = true /\ active (status o') = true) ->
      (status o' = OrderStatusAmending -> is_Some (amendingDetail o')) ->
      rtc edge (status o) (status o') -> moves l o w w'
  | mv_open o' : changes l o o' w w' -> open_maps (id o) l (dealer w) (dealer w') ->
      status o = OrderStatusBorn -> status o' = OrderStatusSending ->
      LivingOrders (dealer w) !! id o = None -> moves l o w w'
  | mv_close o' : changes l o o' w w' -> close_maps (id o) l (dealer w) (dealer w') ->
      l ∉ revived -> active (status o) = true -> status o' = OrderStatusDone -> moves l o w w'.

(** What every event does to a world that satisfies the invariant. *)
Record ok (E : list loc) (w w' : World) : Prop := {
  ok_wf : WF E w';
  ok_evolves : evolves w w';
  ok_held : held w' = held w
}.

Lemma ok_refl E w : WF E w -> ok E w w.
Proof. intros H. constructor; [done|apply evolves_refl|done]. Qed.

Lemma ok_trans E w1 w2 w3 : ok E w1 w2 -> ok E w2 w3 -> ok E w1 w3.
Proof.
  intros [_ He1 Hh1] [Hw He2 Hh2]. constructor; [done| |congruence].
  by eapply evolves_trans.
Qed.

Lemma moves_ok E l o w w' :
  WF E w -> heap w !! l = Some o -> moves l o w w' -> ok E w w'.
Proof.
  intros Hwf Hl [o' Hc Hm Hs Had Hr|o' Hc Hm Hs Hs' Hn|o' Hc Hm Hr Hs Hs'].
  - constructor; [by eapply WF_update|by eapply changes_evolves|apply Hc].
  - constructor; [by eapply WF_open| |apply Hc].
    eapply changes_evolves; [done..|]. intros _. rewrite Hs, Hs'. apply rtc_once. constructor.
  - constructor; [by eapply WF_close| |apply Hc].
    eapply changes_evolves; [done..|]. intros _. rewrite Hs'. apply rtc_once. by constructor.
Qed.

(** Only the order moved changes. *)
Lemma moves_other l o w w' l2 : moves l o w w' -> l2 <> l -> heap w' !! l2 = heap w !! l2.
Proof. intros [] Hne; by eapply changes_there. Qed.

(** Reports and the switch of [acceptOrder] leave the orders alone. *)
Record quiet (w w' : World) : Prop := {
  q_heap : heap w' = heap w;
  q_held : held w' = held w;
  q_spawned : spawned w' = spawned w;
  q_maps : same_maps (dealer w) (dealer w')
}.

Lemma quiet_refl w : quiet w w.
Proof. by repeat constructor. Qed.

Lemma changes_quiet l o o' w w1 w2 : changes l o o' w w1 -> quiet w1 w2 -> changes l o o' w w2.
Proof.
  intros [] [Hh Hl Hs _]. constructor; try done; [congruence..|]. by rewrite Hs.
Qed.

Lemma moves_quiet l o w w1 w2 : moves l o w w1 -> quiet w1 w2 -> moves l o w w2.
Proof.
  intros Hm Hq. pose proof (q_maps _ _ Hq) as [H1 H2 H3].
  destruct Hm as [o' Hc []|o' Hc []|o' Hc []];
    pose proof (changes_quiet _ _ _ _ _ _ Hc Hq);
    [eapply mv_update|eapply mv_open|eapply mv_close]; eauto; constructor; congruence.
Qed.

Lemma quiet_ok E w w' : WF E w -> quiet w w' -> ok E w w'.
Proof.
  intros [] [Hh Hl Hs [H1 H2 H3]].
  assert (ended E w' = ended E w) as He by (unfold ended; by rewrite H3).
  constructor; [|intros l o Ho; exists o; rewrite Hh; by repeat split|done].
  constructor; rewrite ?He, ?Hh, ?Hs, ?H1, ?H2, ?H3; try done.
  - intros l o Ho. destruct (wf_orders0 _ _ Ho) as (Ha & Hb & Hid & Hcb). repeat split; [done..|].
    intros cb Hin. specialize (Hcb cb Hin). destruct cb; simpl in *; by rewrite ?Hh.
  - intros cb l Hin. destruct (wf_spawned0 _ _ Hin) as [Hcb Hl2]. split; [|done].
    destruct cb; simpl in *; by rewrite ?Hh.
Qed.

Lemma changes_unlock l l2 o o' w w' :
  l2 ∉ held w -> changes l o o' (acquire l2 w) w' -> changes l o o' w (release l2 w').
Proof.
  intros Hn []. constructor; try done. simpl in *. rewrite ch_held0. set_solver.
Qed.

Lemma moves_unlock l l2 o w w' :
  l2 ∉ held w -> moves l o (acquire l2 w) w' -> moves l o w (release l2 w').
Proof.
  intros Hn [o' Hc Hm|o' Hc Hm|o' Hc Hm]; apply changes_unlock in Hc; try done;
    [eapply mv_update|eapply mv_open|eapply mv_close]; eauto.
Qed.

End Invariant.

(** ** Symbolic execution *)

(** Run the nodes of a program whose order is known; stop where a case is open. *)
Ltac wp_sym :=
  simpl; repeat (first
    [ rewrite lookup_insert_eq
    | match goal with H : heap ?w !! ?l = Some _ |- context [heap ?w !! ?l] => rewrite H end ];
    simpl).

Ltac solve_changes :=
  constructor; simpl; rewrite ?insert_insert_eq; try done;
  [ by left
  | first [ by exists []; rewrite app_nil_r; split; [|intros ? []%not_elem_of_nil]
          | eexists; split; [reflexivity|];
            unfold all_callbacks; simpl; intros cb Hcb; rewrite !elem_of_app; tauto ] ].

(** The optional timestamps of an order, by cases. *)
Ltac split_times :=
  unfold setSentTimestamp, setConfirmTimestamps, getLastOperatedTimestamp; simpl;
  repeat (case_match; simpl).

Ltac callbacks_ok :=
  unfold all_callbacks; simpl; intros cb Hcb; repeat rewrite ?elem_of_cons, ?elem_of_app, ?elem_of_nil in *;
  intuition eauto.

Lemma edge_pending s : active s = true -> rtc edge s OrderStatusPending.
Proof. destruct s; try done; intros _; repeat econstructor. Qed.

Ltac to_pending Ha :=
  eapply mv_update; [solve_changes|done|by right|done|by apply edge_pending].

Section Blocks.
  Context {D : Decimal} {RT : GoRuntime} {AG : Agent} {Rv : Revived}.

Lemma wp_WithOpLock {A} (f : prog A) l w Q :
  l ∉ held w ->
  wp f (acquire l w) (fun w' x => Q (release l w') x) -> wp (WithOpLock l f) w Q.
Proof. intros Hl Hf. simpl. split; [done|]. by rewrite wp_bind. Qed.

(** Blocks that close an active order. *)

Lemma rejectCreate_wp l w o :
  heap w !! l = Some o -> l ∉ revived -> active (status o) = true ->
  wp (rejectCreate l) w (fun w' _ => moves l o w w').
Proof. intros Hl Hr Ha. wp_sym. eapply mv_close; [solve_changes|done..]. Qed.

Lemma acceptCancel_wp l w o :
  heap w !! l = Some o -> l ∉ revived -> active (status o) = true ->
  wp (acceptCancel l) w (fun w' _ => moves l o w w').
Proof. intros Hl Hr Ha. wp_sym. eapply mv_close; [solve_changes|done..]. Qed.

Lemma abandonOrder_wp l w o :
  heap w !! l = Some o -> l ∉ revived -> active (status o) = true ->
  wp (abandonOrder l) w (fun w' _ => moves l o w w').
Proof.
  intros Hl Hr Ha. wp_sym. split_times; (eapply mv_close; [solve_changes|done..]).
Qed.

Lemma fill_body_wp l w o data :
  heap w !! l = Some o -> l ∉ revived -> active (status o) = true ->
  wp (setOrderFillInfo l data ;; acceptFilled l) w (fun w' _ => moves l o w w').
Proof.
  intros Hl Hr Ha. wp_sym. case_decide; wp_sym; split_times;
    (eapply mv_close; [solve_changes|done..]).
Qed.

Lemma partial_body_wp l w o data :
  heap w !! l = Some o -> l ∉ revived -> active (status o) = true -> order_ok w o ->
  wp (setOrderPartiallyFillInfo l data ;; acceptPartiallyFilled l) w (fun w' _ => moves l o w w').
Proof.
  intros Hl Hr Ha [Had _]. wp_sym. case_decide; wp_sym; [eapply mv_close; [solve_changes|done..]|].
  eapply mv_update; [solve_changes|done|by left|exact Had|apply rtc_refl].
Qed.

(** Blocks that bring an active order back to pending. *)

Lemma acceptCreate_wp l w o pid t1 t2 :
  heap w !! l = Some o -> l ∉ revived -> active (status o) = true ->
  wp (acceptCreate l pid t1 t2) w (fun w' _ => moves l o w w').
Proof.
  intros Hl Hr Ha. assert (~ (status o = OrderStatusUnknown \/ l ∈ revived)) by (intros [E|]; [by rewrite E in Ha|done]).
  wp_sym. case_decide; wp_sym; split_times; to_pending Ha.
Qed.

Lemma acceptAmend_wp l w o detail t1 t2 :
  heap w !! l = Some o -> active (status o) = true ->
  wp (acceptAmend l (Some detail) t1 t2) w (fun w' _ => moves l o w w').
Proof. intros Hl Ha. wp_sym. split_times; to_pending Ha. Qed.

Lemma rejectAmend_wp l w o :
  heap w !! l = Some o -> active (status o) = true ->
  wp (rejectAmend l) w (fun w' _ => moves l o w w').
Proof. intros Hl Ha. wp_sym. to_pending Ha. Qed.

Lemma rejectCancel_wp l w o :
  heap w !! l = Some o -> active (status o) = true ->
  wp (rejectCancel l) w (fun w' _ => moves l o w w').
Proof. intros Hl Ha. wp_sym. to_pending Ha. Qed.

Lemma noticeError_wp w err : wp (noticeError err) w (fun w' _ => quiet w w').
Proof. unfold noticeError. by repeat case_match. Qed.

(** A block, then a report. *)
Lemma wp_then_notice (p : prog unit) err w l o :
  wp p w (fun w' _ => moves l o w w') ->
  wp (p ;; noticeError err) w (fun w' _ => moves l o w w').
Proof.
  intros Hp. rewrite wp_bind. eapply wp_mono; [exact Hp|]. intros w1 [] H1. simpl.
  eapply wp_mono; [apply noticeError_wp|]. intros w2 [] H2. by eapply moves_quiet.
Qed.

End Blocks.
