(* ===== verification/DealerSteps.v ===== *)
(** * Every operation and handler of the dealer keeps its invariant

    For each method of [Dealer.v], one lemma: started without held locks in a
    world that satisfies [WF], the method ends, and [ok] relates the two worlds
    (the invariant holds again, orders moved along the life cycle, all locks are
    released).  The exceptional inputs the code does not guard against are
    hypotheses, gathered as [valid] in [DealerEvents.v]. *)

From S2P Require Import Prelude GoStd Decimal Domains Errors MutexFlag MutexMap MutexSlice Order.
From S2P Require Import OrderData Position World Dealer DealerInv.
Local Open Scope prog_scope.

Section Steps.
  Context {D : Decimal} {RT : GoRuntime} {AG : Agent} {Rv : Revived}.

(** ** Generic rules *)

Lemma moves_refl w l o : heap w !! l = Some o -> order_ok w o -> moves l o w w.
Proof.
  intros Hl (Had & _). apply (mv_update _ _ _ _ o); [|done|by left|done|apply rtc_refl].
  constructor; try done; [by rewrite insert_id|by left|].
  exists []. rewrite app_nil_r. split; [done|by intros ? []%not_elem_of_nil].
Qed.

(** A locked block that moves its order keeps the invariant. *)
Lemma locked_moves_ok {A} (f : prog A) E w l o (P : World -> A -> Prop) :
  WF E w -> heap w !! l = Some o -> l ∉ held w ->
  wp f (acquire l w) (fun w' x => moves l o (acquire l w) w' /\ P w' x) ->
  wp (WithOpLock l f) w (fun w' x => ok E w w' /\ exists w1, w' = release l w1 /\ P w1 x).
Proof.
  intros Hwf Hl Hn Hf. apply wp_WithOpLock; [done|]. eapply wp_mono; [exact Hf|].
  intros w' x [Hm HP]. split; [|by exists w'].
  eapply moves_ok; [done|done|by apply moves_unlock].
Qed.

Lemma locked_ok (f : prog unit) E w l o :
  WF E w -> heap w !! l = Some o -> held w = ∅ ->
  wp f (acquire l w) (fun w' _ => moves l o (acquire l w) w') ->
  wp (WithOpLock l f) w (fun w' _ => ok E w w').
Proof.
  intros Hwf Hl Hn Hf. eapply wp_mono.
  - apply (locked_moves_ok f E w l o (fun _ _ => True)); try done; [by rewrite Hn|].
    eapply wp_mono; [exact Hf|]. auto.
  - intros w' x [H _]. exact H.
Qed.

Lemma wp_ok_trans {A} (p : prog A) E w0 w :
  ok E w0 w -> wp p w (fun w' _ => ok E w w') -> wp p w (fun w' _ => ok E w0 w').
Proof. intros H0 Hp. eapply wp_mono; [exact Hp|]. intros w' x H. by eapply ok_trans. Qed.

Lemma ok_heap E w w' l : ok E w w' -> is_Some (heap w !! l) -> is_Some (heap w' !! l).
Proof. intros [_ He _] [o Ho]. destruct (He _ _ Ho) as (o' & Ho' & _). eauto. Qed.

Lemma noticeError_ok E w err : WF E w -> wp (noticeError err) w (fun w' _ => ok E w w').
Proof.
  intros Hwf. eapply wp_mono; [apply noticeError_wp|]. intros w' x. by apply quiet_ok.
Qed.

(** A loop of locked blocks over distinct active orders. *)
Lemma for_each_locked_ok (body : loc -> prog unit) E w orders :
  (forall l w o, heap w !! l = Some o -> l ∉ revived -> active (status o) = true ->
    wp (body l) w (fun w' _ => moves l o w w')) ->
  WF E w -> held w = ∅ -> NoDup orders -> (forall l, l ∈ orders -> l ∉ revived) ->
  (forall l, l ∈ orders -> exists o, heap w !! l = Some o /\ active (status o) = true) ->
  wp (for_each orders (fun l => WithOpLock l (body l))) w (fun w' _ => ok E w w').
Proof.
  intros Hbody Hwf Hn Hnd Hrv Hact.
  eapply wp_mono.
  - apply (wp_for_each (fun rest w' => ok E w w' /\ NoDup rest /\
      forall l, l ∈ rest -> l ∉ revived /\ exists o, heap w' !! l = Some o /\ active (status o) = true)).
    { split; [by apply ok_refl|]. split; [done|auto]. }
    intros l rest w1 (Hok & [Hnin Hnd1]%NoDup_cons & Hact1).
    destruct (Hact1 l) as (Hr & o & Hl & Ha); [left|]. eapply wp_mono.
    + apply (locked_moves_ok (body l) E w1 l o (fun w2 _ => moves l o (acquire l w1) w2)).
      * apply Hok.
      * done.
      * rewrite (ok_held _ _ _ Hok), Hn. apply not_elem_of_empty.
      * eapply wp_mono; [by apply Hbody|]. auto.
    + intros w2 [] (Hok2 & w3 & -> & Hm). split; [by eapply ok_trans|]. split; [done|].
      intros l2 Hl2. destruct (Hact1 l2) as (Hr2 & o2 & Hl2' & Ha2); [by right|]. split; [done|].
      exists o2. split; [|done]. simpl. rewrite (moves_other _ _ _ _ _ Hm); [done|]. congruence.
  - intros w' x (H & _). exact H.
Qed.

Lemma rejectCreates_ok E w orders :
  WF E w -> held w = ∅ -> NoDup orders -> (forall l, l ∈ orders -> l ∉ revived) ->
  (forall l, l ∈ orders -> exists o, heap w !! l = Some o /\ active (status o) = true) ->
  wp (rejectCreates orders) w (fun w' _ => ok E w w').
Proof. apply for_each_locked_ok. apply rejectCreate_wp. Qed.

Lemma rejectAmends_ok E w orders :
  WF E w -> held w = ∅ -> NoDup orders -> (forall l, l ∈ orders -> l ∉ revived) ->
  (forall l, l ∈ orders -> exists o, heap w !! l = Some o /\ active (status o) = true) ->
  wp (rejectAmends orders) w (fun w' _ => ok E w w').
Proof. apply for_each_locked_ok. intros l w0 o Hl _. by apply rejectAmend_wp. Qed.

Lemma rejectCancels_ok E w orders :
  WF E w -> held w = ∅ -> NoDup orders -> (forall l, l ∈ orders -> l ∉ revived) ->
  (forall l, l ∈ orders -> exists o, heap w !! l = Some o /\ active (status o) = true) ->
  wp (rejectCancels orders) w (fun w' _ => ok E w w').
Proof. apply for_each_locked_ok. intros l w0 o Hl _. by apply rejectCancel_wp. Qed.

(** ** Lookups *)

(** An order a lookup with status [s] may return. *)
Definition found (w : World) (s : OrderStatus) (k : string) (l : loc) : Prop :=
  exists o, LivingOrders (dealer w) !! k = Some l /\ heap w !! l = Some o /\
            id o = k /\ status o = s.

Lemma get_if_wp E w s k (Q : World -> option loc -> Prop) :
  WF E w ->
  ((forall l, ~ found w s k l) -> Q w None) -> (forall l, found w s k l -> Q w (Some l)) ->
  wp (get_if LivingOrders s k) w Q.
Proof.
  intros Hwf HN HS. simpl. destruct (LivingOrders (dealer w) !! k) as [l|] eqn:Hk; cycle 1.
  { apply HN. intros l (o & Hl & _). congruence. }
  destruct (wf_living _ _ Hwf _ _ Hk) as (_ & o & Hl & Hid & Ha). wp_sym.
  case_decide as Hs; [apply HS; by exists o|]. apply HN.
  intros l' (o' & Hk' & Hl' & _ & Hs'). apply Hs. unfold GetStatus. congruence.
Qed.

Lemma filter_status_wp E w s ks (Q : World -> list loc -> Prop) :
  WF E w -> NoDup ks ->
  (forall os, NoDup os -> (forall l, l ∈ os <-> exists k, k ∈ ks /\ found w s k l) -> Q w os) ->
  wp (filter_status s (map (fun k => LivingOrders (dealer w) !! k) ks)) w Q.
Proof.
  intros Hwf. revert Q. induction ks as [|k ks IH]; intros Q Hnd HQ.
  { simpl. apply HQ; [constructor|]. intros l. split; [by intros Hl%not_elem_of_nil|].
    by intros (k & Hk%not_elem_of_nil & _). }
  apply NoDup_cons in Hnd as [Hk Hnd]. cbn [map filter_status].
  assert (forall os : list loc, (forall l, l ∈ os <-> exists k2, k2 ∈ ks /\ found w s k2 l) ->
    (forall l, ~ found w s k l) -> forall l, l ∈ os <-> exists k2, k2 ∈ k :: ks /\ found w s k2 l) as Hskip.
  { intros os Hin Hno l. rewrite Hin. split; intros (k2 & Hk2 & Hf); exists k2; [split; [by right|done]|].
    apply elem_of_cons in Hk2 as [->|Hk2]; [by destruct (Hno l)|done]. }
  destruct (LivingOrders (dealer w) !! k) as [l|] eqn:Hl.
  - destruct (wf_living _ _ Hwf _ _ Hl) as (_ & o & Ho & Hid & Ha). wp_sym. rewrite wp_bind.
    apply IH; [done|]. intros os Hos Hin. simpl. case_decide as Hs; apply HQ; try done.
    + apply NoDup_cons. split; [|done]. intros (k2 & Hk2 & o2 & _ & Ho2 & Hid2 & _)%Hin. congruence.
    + intros l2. rewrite elem_of_cons, Hin. split.
      * intros [->|(k2 & H1 & H2)]; [exists k; split; [left|by exists o]|].
        exists k2. split; [by right|done].
      * intros (k2 & [->|H1]%elem_of_cons & H2); [|right; by exists k2]. left.
        destruct H2 as (o2 & H2 & _). congruence.
    + apply Hskip; [done|]. intros l2 (o2 & Hl2 & Ho2 & _ & Hs2). apply Hs. unfold GetStatus. congruence.
  - apply IH; [done|]. intros os Hos Hin. apply HQ; [done|]. apply Hskip; [done|].
    intros l2 (o2 & Hl2 & _). congruence.
Qed.

(** The batch lookup over the keys of a response map. *)
Lemma range_gets_wp {V} E w s (resps : gmap string V) (Q : World -> list loc -> Prop) :
  WF E w ->
  (let w' := w <| loops := S (loops w) |> in
   forall os, NoDup os ->
     (forall l, l ∈ os <-> exists k, is_Some (resps !! k) /\ found w' s k l) -> Q w' os) ->
  wp (range_keys resps) w (fun w' ids => wp (gets_if LivingOrders s ids) w' Q).
Proof.
  intros Hwf HQ. set (w' := w <| loops := S (loops w) |>).
  assert (quiet w w') as Hq by by repeat constructor.
  change (wp (filter_status s (map (fun k => LivingOrders (dealer w') !! k)
                                 (GetKeys (loops w) resps))) w' Q).
  apply (filter_status_wp E).
  - by eapply ok_wf, quiet_ok.
  - apply NoDup_GetKeys.
  - intros os Hnd Hin. apply HQ; [done|].
    intros l. rewrite Hin. by setoid_rewrite elem_of_GetKeys.
Qed.

Lemma found_active w s k l :
  active s = true -> found w s k l -> exists o, heap w !! l = Some o /\ active (status o) = true.
Proof. intros Hs (o & _ & Hl & _ & <-). eauto. Qed.

(** An order that was never sent was not revived. *)
Lemma born_fresh E w l o : WF E w -> heap w !! l = Some o -> status o = OrderStatusBorn -> l ∉ revived.
Proof. intros Hwf Hl Hs (o2 & Hl2 & Ha)%(wf_revived _ _ Hwf). simplify_eq. by rewrite Hs in Ha. Qed.

Lemma found_fresh E w s k l : WF E w -> found w s k l -> l ∉ revived.
Proof. intros Hwf (o & Hl & _). by destruct (wf_living _ _ Hwf _ _ Hl). Qed.

Lemma wf_order_ok E w l o : WF E w -> heap w !! l = Some o -> order_ok w o.
Proof. intros Hwf. apply (wf_orders _ _ Hwf). Qed.

(** ** Handlers of REST responses *)

Lemma handleSendOrderResp_ok E w resp err :
  WF E w -> held w = ∅ -> wp (handleSendOrderResp resp err) w (fun w' _ => ok E w w').
Proof.
  intros Hwf Hn. unfold handleSendOrderResp. rewrite wp_bind.
  apply (get_if_wp E); [done|intros _; by apply ok_refl|]. intros l Hf.
  pose proof (found_fresh _ _ _ _ _ Hwf Hf) as Hr. destruct Hf as (o & Hk & Hl & Hid & Hs).
  assert (active (status o) = true) as Ha by by rewrite Hs.
  eapply locked_ok; [done..|].
  destruct err as [err|]; [eapply wp_then_notice; by apply rejectCreate_wp|].
  destruct (cr_Err resp) as [err|]; [eapply wp_then_notice; by apply rejectCreate_wp|].
  assert (moves l o (acquire l w) (acquire l w)) as Hrefl.
  { apply moves_refl; [done|]. exact (wf_orders _ _ Hwf _ _ Hl). }
  wp_sym. case_decide; [|done]. wp_sym.
  destruct (GetOrderType o); try done; by apply acceptCreate_wp.
Qed.

Lemma handleAmendOrderResp_ok E w resp err :
  WF E w -> held w = ∅ -> (err = None -> ar_Err resp = None -> is_Some (ar_Detail resp)) ->
  wp (handleAmendOrderResp resp err) w (fun w' _ => ok E w w').
Proof.
  intros Hwf Hn Hdet. unfold handleAmendOrderResp. rewrite wp_bind.
  apply (get_if_wp E); [done|intros _; by apply ok_refl|]. intros l Hf.
  pose proof (found_fresh _ _ _ _ _ Hwf Hf) as Hr. destruct Hf as (o & Hk & Hl & Hid & Hs).
  assert (active (status o) = true) as Ha by by rewrite Hs.
  eapply locked_ok; [done..|].
  destruct err as [err|]; [|destruct (ar_Err resp) as [err|]].
  3: { destruct Hdet as [detail ->]; [done..|]. by apply acceptAmend_wp. }
  all: case_match; [by apply abandonOrder_wp|eapply wp_then_notice; by apply rejectAmend_wp].
Qed.

Lemma handleCancelOrderResp_ok E w resp err :
  WF E w -> held w = ∅ -> wp (handleCancelOrderResp resp err) w (fun w' _ => ok E w w').
Proof.
  intros Hwf Hn. unfold handleCancelOrderResp. rewrite wp_bind.
  apply (get_if_wp E); [done|intros _; by apply ok_refl|]. intros l Hf.
  pose proof (found_fresh _ _ _ _ _ Hwf Hf) as Hr. destruct Hf as (o & Hk & Hl & Hid & Hs).
  assert (active (status o) = true) as Ha by by rewrite Hs.
  eapply locked_ok; [done..|].
  destruct err as [err|]; [|destruct (xr_Err resp) as [err|]].
  3: by apply acceptCancel_wp.
  all: case_match; [by apply abandonOrder_wp|eapply wp_then_notice; by apply rejectCancel_wp].
Qed.

(** The batch handlers, for any handler of one response. *)
Lemma each_response_ok {R} (handle : R -> prog unit) E w s orders (resps : gmap string (option R)) :
  (forall w resp, WF E w -> held w = ∅ -> (exists k, resps !! k = Some (Some resp)) ->
     wp (handle resp) w (fun w' _ => ok E w w')) ->
  WF E w -> held w = ∅ ->
  (forall k r, resps !! k = Some r -> is_Some r) ->
  (forall l, l ∈ orders -> exists k, is_Some (resps !! k) /\ found w s k l) ->
  wp (each_response orders resps handle) w (fun w' _ => ok E w w').
Proof.
  intros Hh Hwf Hn Hnil Hf. eapply wp_mono.
  - apply (wp_for_each (fun rest w' => ok E w w' /\ forall l, l ∈ rest -> l ∈ orders)).
    { split; [by apply ok_refl|done]. }
    intros l rest w1 (Hok & Hin).
    destruct (Hf l) as (k & [r Hr] & o & _ & Ho & Hid & _); [apply Hin; left|].
    destruct (Hnil _ _ Hr) as [resp ->].
    destruct (ok_evolves _ _ _ Hok _ _ Ho) as (o1 & Ho1 & Hid1 & _).
    assert (resps !! GetID o1 = Some (Some resp)) as Hget.
    { unfold GetID. by rewrite Hid1, Hid. }
    wp_sym. rewrite Hget. simpl. eapply wp_mono.
    + apply wp_ok_trans with (w0 := w) (w := w1); [done|]. apply Hh; [apply Hok| |by eexists].
      by rewrite (ok_held _ _ _ Hok).
    + intros w2 [] Hok2. split; [done|]. intros l2 Hl2. apply Hin. by right.
  - intros w' x (H & _). exact H.
Qed.

(** The three batch handlers: look up, then reject all or answer each. *)
Lemma batch_ok {R} (handle : R -> prog unit) (reject : list loc -> prog unit) E w s
    (resps : gmap string (option R)) (err : option error) :
  active s = true ->
  (forall w orders, WF E w -> held w = ∅ -> NoDup orders -> (forall l, l ∈ orders -> l ∉ revived) ->
     (forall l, l ∈ orders -> exists o, heap w !! l = Some o /\ active (status o) = true) ->
     wp (reject orders) w (fun w' _ => ok E w w')) ->
  (forall w resp, WF E w -> held w = ∅ -> (exists k, resps !! k = Some (Some resp)) ->
     wp (handle resp) w (fun w' _ => ok E w w')) ->
  WF E w -> held w = ∅ ->
  (err = None -> forall k r, resps !! k = Some r -> is_Some r) ->
  wp (ids <- range_keys resps ;;
      orders <- gets_if LivingOrders s ids ;;
      match err with
      | Some err => reject orders ;; noticeError err
      | None => each_response orders resps handle
      end) w (fun w' _ => ok E w w').
Proof.
  intros Hs Hrej Hh Hwf Hn Hnil.
  rewrite wp_bind. eapply wp_mono; [|intros w1 ids H; rewrite wp_bind; exact H].
  apply (range_gets_wp E); [done|]. intros w1 orders Hnd Hf.
  assert (quiet w w1) as Hq by by repeat constructor.
  pose proof (quiet_ok _ _ _ Hwf Hq) as Hok.
  assert (held w1 = ∅) as Hn1 by by rewrite (ok_held _ _ _ Hok).
  apply (wp_ok_trans _ E w w1); [done|]. destruct err as [err|].
  - rewrite wp_bind. eapply wp_mono.
    + apply Hrej; [apply Hok|done|done|..]; intros l (k & _ & Hl)%Hf; [|by eapply found_active].
      eapply found_fresh; [apply Hok|exact Hl].
    + intros w2 [] Hok2. apply (wp_ok_trans _ E w1 w2); [done|]. apply noticeError_ok, Hok2.
  - eapply each_response_ok; [done|apply Hok|done|by apply Hnil|intros l; apply Hf].
Qed.

Lemma handleSendOrdersResp_ok E w resps err :
  WF E w -> held w = ∅ ->
  (err = None -> forall k r, resps !! k = Some r -> is_Some r) ->
  wp (handleSendOrdersResp resps err) w (fun w' _ => ok E w w').
Proof.
  intros Hwf Hn Hnil. apply batch_ok; try done; [apply rejectCreates_ok|].
  intros; by apply handleSendOrderResp_ok.
Qed.

Lemma handleAmendOrdersResp_ok E w resps err :
  WF E w -> held w = ∅ ->
  (err = None -> forall k r, resps !! k = Some r ->
     exists resp, r = Some resp /\ (ar_Err resp = None -> is_Some (ar_Detail resp))) ->
  wp (handleAmendOrdersResp resps err) w (fun w' _ => ok E w w').
Proof.
  intros Hwf Hn Hnil. destruct err as [err|].
  - apply (batch_ok (fun _ => Ret tt) _ _ _ _ _ (Some err)); try done; [apply rejectAmends_ok|].
    intros; by apply ok_refl.
  - apply batch_ok; try done; [apply rejectAmends_ok| |].
    + intros w1 resp Hw1 Hn1 [k Hk]. apply handleAmendOrderResp_ok; [done..|].
      intros _. destruct (Hnil eq_refl _ _ Hk) as (r & [= <-] & H). done.
    + intros _ k r Hk. destruct (Hnil eq_refl _ _ Hk) as (resp & -> & _). eauto.
Qed.

Lemma handleCancelOrdersResp_ok E w resps err :
  WF E w -> held w = ∅ ->
  (err = None -> forall k r, resps !! k = Some r -> is_Some r) ->
  wp (handleCancelOrdersResp resps err) w (fun w' _ => ok E w w').
Proof.
  intros Hwf Hn Hnil. apply batch_ok; try done; [apply rejectCancels_ok|].
  intros; by apply handleCancelOrderResp_ok.
Qed.

(** ** Operations *)

Lemma send_body_wp (call : AgentCall) w l o :
  heap w !! l = Some o -> status o = OrderStatusBorn -> LivingOrders (dealer w) !! id o = None ->
  wp (living_set l ;; setStatus OrderStatusSending l ;; recordLastOperatedTimestamp l ;;
      call_agent call) w
    (fun w' x => moves l o w w' /\ exists o', heap w' !! l = Some o' /\ status o' = OrderStatusSending).
Proof.
  intros Hl Hs Hnone. wp_sym. split.
  - eapply mv_open; [solve_changes|done..].
  - by eexists.
Qed.

Lemma SendOrder_ok E w l o :
  WF E w -> held w = ∅ -> heap w !! l = Some o -> status o = OrderStatusBorn ->
  wp (SendOrder l) w (fun w' _ => ok E w w').
Proof.
  intros Hwf Hn Hl Hs. unfold SendOrder. rewrite wp_bind. simpl.
  case_match; [by apply ok_refl|]. wp_sym.
  destruct (LivingOrders (dealer w) !! GetID o) eqn:Hnone; [by apply ok_refl|].
  change (wp (err <- WithOpLock l (living_set l ;; setStatus OrderStatusSending l ;;
                recordLastOperatedTimestamp l ;; call_agent (CallSendOrder l)) ;;
              match err with
              | Some err => WithOpLock l (rejectCreate l) ;; Ret (Some err)
              | None => Ret None
              end) w (fun w' _ => ok E w w')).
  rewrite wp_bind. eapply wp_mono.
  { eapply locked_moves_ok; [done|exact Hl|by rewrite Hn|]. by apply send_body_wp. }
  intros w1 err (Hok & w2 & -> & o' & Hl' & Hs'). destruct err as [err|]; [|done].
  rewrite wp_bind. apply (wp_ok_trans _ E w (release l w2)); [done|]. eapply wp_mono.
  - eapply locked_ok; [apply Hok|exact Hl'|by rewrite (ok_held _ _ _ Hok)|].
    apply rejectCreate_wp; [done|by eapply born_fresh|by rewrite Hs'].
  - intros w' []. done.
Qed.

Lemma any_living_wp w orders (Q : World -> bool -> Prop) :
  (forall l, l ∈ orders -> is_Some (heap w !! l)) ->
  Q w true ->
  ((forall l o, l ∈ orders -> heap w !! l = Some o -> LivingOrders (dealer w) !! id o = None) ->
     Q w false) ->
  wp (any_living orders) w Q.
Proof.
  intros Hin HT HF. revert HF. induction orders as [|l orders IH]; intros HF.
  { apply HF. by intros l o Hl%not_elem_of_nil. }
  destruct (Hin l) as [o Ho]; [left|]. wp_sym.
  destruct (LivingOrders (dealer w) !! GetID o) eqn:Hl; [done|].
  apply IH; [intros; apply Hin; by right|].
  intros Hr. apply HF. intros l2 o2 [->|H2]%elem_of_cons Ho2; [|by eapply Hr].
  by simplify_eq.
Qed.

(** The loop of [SendOrders]: the orders visited are being sent, the others still born. *)
Definition sending_loop (E : list loc) (orders : list loc) (w : World) (rest : list loc) (w' : World) : Prop :=
  ok E w w' /\ NoDup rest /\
  (forall l, l ∈ rest -> exists o, heap w' !! l = Some o /\ status o = OrderStatusBorn /\
                                LivingOrders (dealer w') !! id o = None) /\
  (forall l, l ∈ orders -> l ∈ rest \/
     exists o, heap w' !! l = Some o /\ status o = OrderStatusSending).

Lemma sending_loop_step E orders w l rest w1 :
  held w = ∅ -> sending_loop E orders w (l :: rest) w1 ->
  wp (WithOpLock l (living_set l ;; setStatus OrderStatusSending l ;;
                    recordLastOperatedTimestamp l)) w1
    (fun w' _ => sending_loop E orders w rest w').
Proof.
  intros Hn (Hok & [Hnin Hnd]%NoDup_cons & Hborn & Hall).
  destruct (Hborn l) as (o & Ho & Hs & Hnone); [left|]. eapply wp_mono.
  - apply (locked_moves_ok _ E w1 l o (fun w2 _ => moves l o (acquire l w1) w2 /\
      LivingOrders (dealer w2) = <[id o := l]> (LivingOrders (dealer w1)) /\
      exists o', heap w2 !! l = Some o' /\ status o' = OrderStatusSending)); [apply Hok|done| |].
    { rewrite (ok_held _ _ _ Hok), Hn. apply not_elem_of_empty. }
    wp_sym. assert (forall P Q : Prop, P -> Q -> P /\ P /\ Q) as Hdup by tauto.
    apply Hdup; [eapply mv_open; [solve_changes|done..]|].
    split; [done|]. by eexists.
  - intros w2 [] (Hok2 & w3 & -> & Hm & Hliv & o' & Ho' & Hs').
    pose proof (ok_wf _ _ _ Hok) as Hwf1.
    split; [by eapply ok_trans|]. split; [done|]. split.
    + intros l2 H2. assert (l2 <> l) as Hne by (intros ->; done).
      destruct (Hborn l2) as (o2 & Ho2 & Hs2 & Hnone2); [by right|].
      exists o2. simpl. rewrite (moves_other _ _ _ _ _ Hm), Hliv by done.
      split; [done|]. split; [done|]. rewrite lookup_insert_ne; [done|].
      intros Hid. apply Hne. symmetry. eapply (wf_ids _ _ Hwf1); [exact Ho|exact Ho2|done|].
      destruct (wf_orders _ _ Hwf1 _ _ Ho) as (_ & _ & Hne0 & _). by apply Hne0.
    + intros l2 H2. destruct (decide (l2 = l)) as [->|Hne]; [right; by exists o'|].
      destruct (Hall l2 H2) as [Hr|(o2 & Ho2 & Hs2)].
      * left. apply elem_of_cons in Hr as [->|Hr]; done.
      * right. exists o2. simpl. by rewrite (moves_other _ _ _ _ _ Hm).
Qed.

Lemma SendOrders_ok E w orders :
  WF E w -> held w = ∅ -> NoDup orders ->
  (forall l, l ∈ orders -> exists o, heap w !! l = Some o /\ status o = OrderStatusBorn) ->
  wp (SendOrders orders) w (fun w' _ => ok E w w').
Proof.
  intros Hwf Hn Hnd Hborn. unfold SendOrders. rewrite wp_bind. simpl.
  case_match; [by apply ok_refl|]. rewrite wp_bind. apply any_living_wp.
  { intros l (o & Ho & _)%Hborn. eauto. }
  { simpl. by apply ok_refl. }
  intros Hnone. rewrite wp_bind. eapply wp_mono.
  - apply (wp_for_each (sending_loop E orders w)).
    + split; [by apply ok_refl|]. split; [done|]. split; [|by left].
      intros l Hl. destruct (Hborn l Hl) as (o & Ho & Hs). exists o. eauto.
    + intros l rest w1. by apply sending_loop_step.
  - intros w1 [] (Hok & _ & _ & Hall). simpl.
    set (w2 := w1 <| calls := calls w1 ++ [CallSendOrders orders] |>).
    assert (quiet w1 w2) as Hq by by repeat constructor.
    pose proof (quiet_ok _ _ _ (ok_wf _ _ _ Hok) Hq) as Hok2.
    assert (ok E w w2) as Hok3 by by eapply ok_trans.
    destruct (agent_reply _ _); [|done]. rewrite wp_bind.
    apply (wp_ok_trans _ E w w2); [done|]. eapply wp_mono.
    + apply rejectCreates_ok; [apply Hok3|by rewrite (ok_held _ _ _ Hok3)|done|..]; intros l Hl.
      { destruct (Hborn l Hl) as (o & Ho & Hs). by eapply born_fresh. }
      destruct (Hall l Hl) as [H2%not_elem_of_nil|(o & Ho & Hs)]; [done|].
      exists o. by rewrite Hs.
    + by intros w' [].
Qed.

Lemma not_exist_callbacks_wp w l o :
  heap w !! l = Some o -> order_ok w o ->
  wp (execAmendRejectOrderNotExistCallbacks l) w (fun w' _ => moves l o w w').
Proof.
  intros Hl (Had & _). wp_sym.
  eapply (mv_update _ _ _ _ o); [|done|by left|done|apply rtc_refl].
  constructor; simpl; try done; [by rewrite insert_id|by left|].
  eexists. split; [reflexivity|]. unfold all_callbacks. intros cb Hcb. rewrite !elem_of_app. tauto.
Qed.

(** The locked body of [amendOrder]; an error leaves an active order. *)
Lemma amend_body_wp w l o detail :
  heap w !! l = Some o -> order_ok w o ->
  wp (able <- load l isAmendAble ;;
      if negb able then Ret (Some (Sentinel DealingErrorOrderIsNotAmendable)) else
      need <- load l (fun o => isNeedToAmend o detail) ;;
      need <- deref need ;;
      if negb need then Ret None else
      st <- load l GetStatus ;;
      if negb (bool_decide (st = OrderStatusPending)) then
        st <- load l GetStatus ;;
        Ret (Some (Error (Sentinel DealingErrorOrderNotReadyForOperation)
                         ("(order status: " +:+ OrderStatusString st +:+ ")")))
      else
      setStatus OrderStatusAmending l ;;
      store l (setAmendingDetail (Some detail)) ;;
      recordLastOperatedTimestamp l ;;
      call_agent (CallAmendOrder l detail)) w
    (fun w' x => moves l o w w' /\
       (is_Some x -> exists o', heap w' !! l = Some o' /\ active (status o') = true)).
Proof.
  intros Hl Hok. pose proof (moves_refl _ _ _ Hl Hok) as Hrefl.
  destruct Hok as (Had & Hcount & _). wp_sym. unfold isAmendAble. rewrite Hcount. simpl. wp_sym.
  assert (forall w', moves l o w w' -> moves l o w w' /\ (is_Some (@None error) ->
    exists o', heap w' !! l = Some o' /\ active (status o') = true)) as HN.
  { intros w' Hm. split; [done|]. by intros []. }
  unfold isNeedToAmend. destruct (status o) eqn:Hs; simpl; try by apply HN.
  - destruct (_ || _); simpl; [|by apply HN]. wp_sym. unfold GetStatus. rewrite Hs. simpl. wp_sym.
    split.
    + eapply mv_update; [solve_changes|done|right; by rewrite Hs|by eexists|].
      rewrite Hs. apply rtc_once. constructor.
    + intros _. eexists. split; [done|]. done.
  - destruct Had as [ad ->]; [done|]. simpl. destruct (_ && _); simpl; [|by apply HN]. wp_sym.
    unfold GetStatus. rewrite Hs. simpl. wp_sym. split; [done|]. intros _. exists o. by rewrite Hs.
Qed.

Lemma amendOrder_ok E w l detail :
  WF E w -> held w = ∅ -> is_Some (heap w !! l) ->
  wp (amendOrder l detail) w (fun w' _ => ok E w w').
Proof.
  intros Hwf Hn [o Hl]. pose proof (wf_orders _ _ Hwf _ _ Hl) as Hoo.
  unfold amendOrder. rewrite wp_bind. eapply wp_load; [exact Hl|].
  rewrite wp_bind. unfold getOrder, dget. cbn [wp].
  destruct (LivingOrders (dealer w) !! GetID o); cycle 1.
  { rewrite wp_bind. eapply wp_mono; [by apply not_exist_callbacks_wp|].
    intros w' [] Hm. by eapply moves_ok. }
  rewrite wp_bind. eapply wp_mono.
  { eapply locked_moves_ok; [done|exact Hl|by rewrite Hn|]. by apply amend_body_wp. }
  intros w1 err (Hok & w2 & -> & Herr). destruct err as [err|]; [|done].
  destruct Herr as (o2 & Hl2 & Ha2); [by eexists|].
  rewrite wp_bind. apply (wp_ok_trans _ E w (release l w2)); [done|]. eapply wp_mono.
  - eapply locked_ok; [apply Hok|exact Hl2|by rewrite (ok_held _ _ _ Hok)|].
    by apply rejectAmend_wp.
  - by intros w' [].
Qed.

(** Registering a callback, or recording the detail of a deferred amendment. *)
Lemma moves_callbacks w w' l o o' :
  heap w !! l = Some o -> order_ok w o -> heap w' = <[l := o']> (heap w) ->
  held w' = held w -> spawned w' = spawned w -> same_maps (dealer w) (dealer w') ->
  id o' = id o -> amendCount o' = amendCount o -> publicID o' = publicID o ->
  status o' = status o -> amendingDetail o' = amendingDetail o ->
  (forall cb, cb ∈ all_callbacks o' -> cb ∈ all_callbacks o \/ cb = CbDeferredCancel \/
     (exists n, cb = CbUser n) \/ exists detail, cb = CbDeferredAmend l detail) ->
  moves l o w w'.
Proof.
  intros Hl (Had & _) Hheap Hheld Hsp Hmaps Hid Hcnt Hpub Hst Hdet Hcb.
  apply (mv_update _ _ _ _ o'); [|done|by left|by rewrite Hst, Hdet|rewrite Hst; apply rtc_refl].
  constructor; try done. exists []. rewrite app_nil_r, Hsp. split; [done|by intros ? []%not_elem_of_nil].
Qed.

Lemma amend_or_defer_wp w l o detail :
  heap w !! l = Some o -> order_ok w o ->
  wp (amend_or_defer l detail) w (fun w' _ => moves l o w w').
Proof.
  intros Hl Hok. pose proof (moves_refl _ _ _ Hl Hok) as Hrefl.
  unfold amend_or_defer. wp_sym. change (GetStatus o) with (status o).
  assert (forall w', heap w' = heap w -> held w' = held w -> spawned w' = spawned w ->
    same_maps (dealer w) (dealer w') -> moves l o w w') as Hsame.
  { intros w' Hh ???. eapply moves_callbacks with (o' := o); try done;
      [by rewrite Hh, insert_id|by left]. }
  destruct (status o) eqn:Hs; simpl; try done.
  - case_decide; wp_sym; [|by apply Hsame].
    unfold SetCreateCallback. case_match; (eapply moves_callbacks; try done; []); callbacks_ok.
  - case_decide; wp_sym; [|by apply Hsame].
    unfold SetAmendCallback. case_match; (eapply moves_callbacks; try done; []); callbacks_ok.
  - pose proof (not_exist_callbacks_wp w l o Hl Hok) as H. revert H. wp_sym. done.
Qed.

Lemma AmendOrder_ok E w l detail :
  WF E w -> held w = ∅ -> is_Some (heap w !! l) ->
  wp (AmendOrder l detail) w (fun w' _ => ok E w w').
Proof.
  intros Hwf Hn [o Hl]. unfold AmendOrder. rewrite wp_bind. simpl.
  case_match; [by apply ok_refl|].
  change (wp (r <- WithOpLock l (amend_or_defer l detail) ;;
              (let '(err, pending) := r in
               if pending then amendOrder l detail else Ret err)) w (fun w' _ => ok E w w')).
  rewrite wp_bind. eapply wp_mono.
  - apply (locked_moves_ok _ E w l o (fun _ _ => True)); [done|done|by rewrite Hn|].
    eapply wp_mono; [apply amend_or_defer_wp; [done|exact (wf_orders _ _ Hwf _ _ Hl)]|]. auto.
  - intros w1 [err pending] [Hok _]. destruct pending; [|done].
    eapply wp_ok_trans; [done|]. apply amendOrder_ok; [apply Hok|by rewrite (ok_held _ _ _ Hok)|].
    eapply ok_heap; eauto.
Qed.

Lemma cancelOrder_wp w l o :
  heap w !! l = Some o -> order_ok w o ->
  wp (cancelOrder l) w (fun w' _ => moves l o w w').
Proof.
  intros Hl Hok. pose proof (moves_refl _ _ _ Hl Hok) as Hrefl.
  unfold cancelOrder. wp_sym. change (GetStatus o) with (status o).
  case_decide; [done|]. wp_sym. change (GetStatus o) with (status o).
  case_decide as Hp; [done|wp_sym].
  assert (active (status o) = true) as Ha by by rewrite Hp.
  destruct (agent_reply _ _); wp_sym.
  - to_pending Ha.
  - eapply mv_update; [solve_changes|done|by right|done|].
    rewrite Hp. apply rtc_once. constructor.
Qed.

Lemma defer_cancel_wp w l o (replace : OrderCallback -> Order -> Order) :
  replace = ReplaceCreateCallbacks \/ replace = ReplaceAmendCallbacks ->
  heap w !! l = Some o -> order_ok w o ->
  wp (defer_cancel replace l) w (fun w' _ => moves l o w w' /\
    exists o', heap w' !! l = Some o' /\ status o' = status o).
Proof.
  intros [-> | ->] Hl Hok; wp_sym; (split; [|by eexists]);
    (eapply moves_callbacks; try done; []); callbacks_ok.
Qed.

Lemma CancelOrder_ok E w l :
  WF E w -> held w = ∅ -> is_Some (heap w !! l) ->
  wp (CancelOrder l) w (fun w' _ => ok E w w').
Proof.
  intros Hwf Hn [o Hl]. pose proof (wf_orders _ _ Hwf _ _ Hl) as Hoo.
  unfold CancelOrder. rewrite wp_bind. eapply (wp_mono _ _ (fun w' _ => ok E w w')); [|done].
  eapply locked_ok; [done..|]. rewrite wp_bind. eapply wp_load; [exact Hl|].
  change (GetStatus o) with (status o).
  assert (moves l o (acquire l w) (acquire l w)) as Hrefl by by apply moves_refl.
  destruct (status o); try done.
  - eapply wp_mono; [apply defer_cancel_wp; [by left|done|done]|]. by intros ?? [].
  - rewrite wp_bind. eapply wp_mono; [by apply cancelOrder_wp|]. done.
  - eapply wp_mono; [apply defer_cancel_wp; [by right|done|done]|]. by intros ?? [].
Qed.

Lemma run_callback_ok E w cb l :
  WF E w -> held w = ∅ -> cb_ok w cb -> is_Some (heap w !! l) ->
  wp (run_callback cb l) w (fun w' _ => ok E w w').
Proof.
  intros Hwf Hn Hcb [o Hl]. destruct cb as [n|order detail|]; [by apply ok_refl| |].
  - unfold run_callback. rewrite wp_bind. eapply wp_load; [exact Hl|].
    do 2 (rewrite wp_bind; unfold dget, dmod; cbn [wp]). rewrite wp_bind.
    set (w1 := w <| dealer := _ |>).
    assert (ok E w w1) as Hok by by apply quiet_ok.
    apply (wp_ok_trans _ E w w1); [done|]. eapply wp_mono.
    + apply amendOrder_ok; [apply Hok|done|exact Hcb].
    + by intros w' x.
  - unfold run_callback. rewrite wp_bind. eapply wp_mono.
    + apply cancelOrder_wp; [done|exact (wf_orders _ _ Hwf _ _ Hl)].
    + intros w' x Hm. by eapply moves_ok.
Qed.

(** *** CancelOrders *)

Lemma unique_map_wp (P : loc -> Prop) w os m (Q : World -> gmap string loc -> Prop) :
  let good m := forall k l, m !! k = Some l -> P l /\ exists o, heap w !! l = Some o /\ id o = k in
  (forall l, l ∈ os -> P l /\ is_Some (heap w !! l)) -> good m ->
  (forall m', good m' -> Q w m') ->
  wp (unique_map os m) w Q.
Proof.
  intros good. revert m. induction os as [|l os IH]; intros m Hos Hm HQ; [by apply HQ|].
  destruct (Hos l) as [HP [o Ho]]; [left|]. wp_sym. apply IH; [intros; apply Hos; by right| |done].
  intros k l2 [[<- <-]|[_ H2]]%lookup_insert_Some; [|by apply Hm]. split; [done|by exists o].
Qed.

(** [Unique] keeps one order per id, and changes nothing. *)
Lemma Unique_wp w os (Q : World -> list loc -> Prop) :
  (forall l, l ∈ os -> is_Some (heap w !! l)) ->
  (forall os', NoDup os' -> (forall l, l ∈ os' -> l ∈ os) ->
     Q (w <| loops := S (loops w) |>) os') ->
  wp (Unique os) w Q.
Proof.
  intros Hos HQ. unfold Unique. rewrite wp_bind. apply (unique_map_wp (fun l => l ∈ os)).
  { auto. } { intros k l. by rewrite lookup_empty. }
  intros m Hm. simpl. apply HQ.
  - unfold Values. apply NoDup_fmap_2_strong.
    + intros [k1 l1] [k2 l2] H1%elem_of_entries H2%elem_of_entries. simpl. intros ->.
      destruct (Hm _ _ H1) as (_ & o1 & Ho1 & <-), (Hm _ _ H2) as (_ & o2 & Ho2 & <-).
      by simplify_eq.
    + rewrite entries_perm. apply NoDup_map_to_list.
  - intros l ([k l'] & -> & Hin%elem_of_entries)%list_elem_of_fmap. by apply Hm in Hin as [? _].
Qed.

Lemma lock_all_wp w os (Q : World -> unit -> Prop) :
  NoDup os -> (forall l, l ∈ os -> l ∉ held w) ->
  Q (w <| held := list_to_set os ∪ held w |>) tt -> wp (lock_all os) w Q.
Proof.
  revert w. induction os as [|l os IH]; intros w Hnd Hfree HQ.
  - simpl in *. replace (∅ ∪ held w) with (held w) in HQ by set_solver. by destruct w.
  - apply NoDup_cons in Hnd as [Hnin Hnd]. simpl. split; [apply Hfree; left|].
    apply IH; [done| |].
    + intros l2 H2. simpl. assert (l2 ∉ held w) by (apply Hfree; by right). set_solver.
    + simpl in *. by replace (list_to_set os ∪ ({[l]} ∪ held w))
        with ({[l]} ∪ list_to_set os ∪ held w) by set_solver.
Qed.

Lemma unlock_all_wp w os (Q : World -> unit -> Prop) :
  Q (w <| held := held w ∖ list_to_set os |>) tt -> wp (unlock_all os) w Q.
Proof.
  revert w. induction os as [|l os IH]; intros w HQ.
  - simpl in *. replace (held w ∖ ∅) with (held w) in HQ by set_solver. by destruct w.
  - simpl. apply IH. simpl in *. by replace (held w ∖ {[l]} ∖ list_to_set os)
      with (held w ∖ ({[l]} ∪ list_to_set os)) by set_solver.
Qed.

(** No order becomes active, none ends. *)
Definition keeps_active (w w' : World) : Prop :=
  forall l o, heap w !! l = Some o ->
  exists o', heap w' !! l = Some o' /\ active (status o') = active (status o).

Lemma keeps_active_trans w1 w2 w3 : keeps_active w1 w2 -> keeps_active w2 w3 -> keeps_active w1 w3.
Proof.
  intros H1 H2 l o Hl. destruct (H1 _ _ Hl) as (o2 & Hl2 & <-). destruct (H2 _ _ Hl2) as (o3 & Hl3 & <-). eauto.
Qed.

Lemma moves_keeps_active w w' l o o' :
  moves l o w w' -> heap w !! l = Some o -> heap w' !! l = Some o' ->
  active (status o') = active (status o) -> keeps_active w w'.
Proof.
  intros Hm Hl Hl' Ha l2 o2 Hl2. destruct (decide (l2 = l)) as [->|Hne].
  - simplify_eq. eauto.
  - exists o2. by rewrite (moves_other _ _ _ _ _ Hm).
Qed.

(** The result of the classification: the targets are pending, orders outside the
    list are untouched. *)
Record targets_post (E : list loc) (orders : list loc) (w w' : World) (ts : list loc) : Prop := {
  tp_ok : ok E w w';
  tp_keeps : keeps_active w w';
  tp_others : forall l, l ∉ orders -> heap w' !! l = heap w !! l;
  tp_nodup : NoDup ts;
  tp_targets : forall l, l ∈ ts -> l ∈ orders /\
    exists o, heap w' !! l = Some o /\ status o = OrderStatusPending
}.

Lemma targets_skip E orders l w w1 w2 ts :
  ok E w w1 -> keeps_active w w1 -> (forall l2, l2 <> l -> heap w1 !! l2 = heap w !! l2) ->
  targets_post E orders w1 w2 ts -> targets_post E (l :: orders) w w2 ts.
Proof.
  intros Hok Hk Hoth []. constructor; [by eapply ok_trans|by eapply keeps_active_trans| |done|].
  - intros l2 [Hne Hn]%not_elem_of_cons. by rewrite tp_others0, Hoth.
  - intros l2 [Hl2 H]%tp_targets0. split; [by right|done].
Qed.

Lemma targets_take E orders l o w w' ts :
  l ∉ orders -> heap w !! l = Some o -> status o = OrderStatusPending ->
  targets_post E orders w w' ts -> targets_post E (l :: orders) w w' (l :: ts).
Proof.
  intros Hnin Hl Hs []. constructor; try done.
  - intros l2 [_ Hn]%not_elem_of_cons. by apply tp_others0.
  - apply NoDup_cons. split; [|done]. by intros [Hl2 _]%tp_targets0.
  - intros l2 [->|Hl2]%elem_of_cons.
    + split; [left|]. exists o. by rewrite tp_others0.
    + destruct (tp_targets0 _ Hl2) as [H6 H7]. split; [by right|done].
Qed.

Lemma cancel_targets_wp E w orders :
  WF E w -> NoDup orders -> (forall l, l ∈ orders -> is_Some (heap w !! l)) ->
  wp (cancel_targets orders) w (targets_post E orders w).
Proof.
  revert w. induction orders as [|l orders IH]; intros w Hwf Hnd Hin.
  { simpl. constructor; [by apply ok_refl|intros l o; eauto|done|constructor|].
    by intros l Hl%not_elem_of_nil. }
  apply NoDup_cons in Hnd as [Hnin Hnd]. destruct (Hin l) as [o Hl]; [left|].
  pose proof (wf_orders _ _ Hwf _ _ Hl) as Hoo.
  assert (forall w1, ok E w w1 -> wp (cancel_targets orders) w1 (targets_post E orders w1)) as Hrest.
  { intros w1 Hok1. apply IH; [apply Hok1|done|].
    intros l2 H2. eapply ok_heap; [done|]. apply Hin. by right. }
  assert (ok E w w) as Hrefl by by apply ok_refl.
  assert (forall replace, replace = ReplaceCreateCallbacks \/ replace = ReplaceAmendCallbacks ->
    wp (defer_cancel replace l ;; cancel_targets orders) w (targets_post E (l :: orders) w)) as Hdefer.
  { intros replace Hr. rewrite wp_bind. eapply wp_mono; [by apply defer_cancel_wp|].
    intros w1 [] (Hm & o' & Hl' & Hs').
    assert (ok E w w1) as Hok1 by by eapply moves_ok.
    eapply wp_mono; [by apply Hrest|]. intros w2 ts. eapply targets_skip; [done| |].
    - eapply moves_keeps_active; [done..|]. by rewrite Hs'.
    - intros l2 Hne. by eapply moves_other. }
  cbn [cancel_targets]. rewrite wp_bind. eapply wp_load; [exact Hl|].
  change (GetStatus o) with (status o). destruct (status o) eqn:Hs.
  3, 6: apply Hdefer; auto.
  3: { rewrite wp_bind. eapply wp_mono; [by apply Hrest|]. intros w2 ts H. by eapply targets_take. }
  all: eapply wp_mono; [by apply Hrest|]; intros w2 ts; apply targets_skip; try done.
  all: intros ? ?; eauto.
Qed.

(** Marking the targets as canceling. *)
Lemma mark_canceling_wp E w targets :
  WF E w -> NoDup targets ->
  (forall l, l ∈ targets -> exists o, heap w !! l = Some o /\ status o = OrderStatusPending) ->
  wp (for_each targets (fun order =>
        setStatus OrderStatusCanceling order ;; recordLastOperatedTimestamp order)) w
    (fun w' _ => ok E w w' /\ keeps_active w w').
Proof.
  intros Hwf Hnd Hin. eapply wp_mono.
  - apply (wp_for_each (fun rest w' => (ok E w w' /\ keeps_active w w') /\ NoDup rest /\
      forall l, l ∈ rest -> exists o, heap w' !! l = Some o /\ status o = OrderStatusPending)).
    { split; [|done]. split; [by apply ok_refl|intros ? ?; eauto]. }
    intros l rest w1 ([Hok Hk] & [Hnin Hnd1]%NoDup_cons & Hpend).
    destruct (Hpend l) as (o & Hl & Hs); [left|].
    assert (wp (setStatus OrderStatusCanceling l ;; recordLastOperatedTimestamp l) w1
      (fun w2 _ => moves l o w1 w2 /\ exists o', heap w2 !! l = Some o' /\ active (status o') = active (status o))) as H.
    { wp_sym. split; [|rewrite Hs; by eexists].
      eapply mv_update; [solve_changes|done|right; by rewrite Hs|done|].
      rewrite Hs. apply rtc_once. constructor. }
    eapply wp_mono; [exact H|]. intros w2 [] (Hm & o' & Hl' & Ha').
    split; [split|split; [done|]].
    + eapply ok_trans; [done|]. eapply moves_ok; [apply Hok|done..].
    + eapply keeps_active_trans; [done|]. by eapply moves_keeps_active.
    + intros l2 H2. destruct (Hpend l2) as (o2 & Ho2 & Hs2); [by right|].
      exists o2. rewrite (moves_other _ _ _ _ _ Hm); [done|]. by intros ->.
  - intros w' x (H & _). exact H.
Qed.

Lemma quiet_keeps w w' : quiet w w' -> keeps_active w w'.
Proof. intros [Hh _ _ _] l o. rewrite Hh. eauto. Qed.

(** The locked body of [CancelOrders]. *)
Lemma cancel_body_wp E w orders :
  WF E w -> NoDup orders -> (forall l, l ∈ orders -> is_Some (heap w !! l)) ->
  wp (cancelTargets <- cancel_targets orders ;;
      match cancelTargets with
      | [] => Ret None
      | _ =>
          for_each cancelTargets (fun order =>
            setStatus OrderStatusCanceling order ;; recordLastOperatedTimestamp order) ;;
          call_agent (CallCancelOrders cancelTargets)
      end) w (fun w' err => ok E w w' /\ keeps_active w w' /\
        (is_Some err -> exists cs os, is_Some (agent_reply cs (CallCancelOrders os)))).
Proof.
  intros Hwf Hnd Hin. rewrite wp_bind. eapply wp_mono; [by apply cancel_targets_wp|].
  intros w1 targets [Hok Hk _ Hndt Hts]. destruct targets as [|t ts].
  { simpl. split; [done|]. split; [done|]. by intros []. }
  rewrite wp_bind. eapply wp_mono.
  - apply (mark_canceling_wp E); [apply Hok|done|]. by intros l [_ H]%Hts.
  - intros w2 [] [Hok2 Hk2]. simpl.
    set (w3 := w2 <| calls := calls w2 ++ [CallCancelOrders (t :: ts)] |>).
    assert (quiet w2 w3) as Hq by by repeat constructor.
    split; [|split].
    + eapply ok_trans; [done|]. eapply ok_trans; [done|]. apply quiet_ok; [apply Hok2|done].
    + eapply keeps_active_trans; [done|]. eapply keeps_active_trans; [done|]. by apply quiet_keeps.
    + intros H. by exists (calls w2), (t :: ts).
Qed.

(** Held locks are no part of the invariant. *)
Lemma WF_held E w h : WF E w -> WF E (w <| held := h |>).
Proof. intros []. by constructor. Qed.

Lemma ok_held_change E w w' h h' :
  ok E w w' -> WF E (w' <| held := h' |>) /\ evolves (w <| held := h |>) (w' <| held := h' |>).
Proof. intros [Hw He _]. split; [by apply WF_held|exact He]. Qed.

Lemma WithOpeLocks_ok {A} E w orders (f : prog A) (P : A -> Prop) :
  WF E w -> held w = ∅ -> (forall l, l ∈ orders -> is_Some (heap w !! l)) ->
  (forall w1, WF E w1 -> heap w1 = heap w ->
     wp f w1 (fun w2 x => ok E w1 w2 /\ keeps_active w1 w2 /\ P x)) ->
  wp (WithOpeLocks orders f) w (fun w' x => ok E w w' /\ keeps_active w w' /\ P x).
Proof.
  intros Hwf Hn Hin Hf. unfold WithOpeLocks. rewrite wp_bind. apply Unique_wp; [done|].
  intros os Hnd Hos. rewrite wp_bind. apply lock_all_wp; [done|simpl; rewrite Hn; set_solver|].
  rewrite wp_bind. set (w1 := w <| loops := _ |> <| held := _ |>).
  assert (WF E w1) as Hwf1.
  { apply WF_held. eapply ok_wf, quiet_ok; [exact Hwf|by repeat constructor]. }
  eapply wp_mono; [by apply Hf|]. intros w2 x (Hok & Hk & HP).
  rewrite wp_bind. apply unlock_all_wp. simpl. split; [|split; [exact Hk|done]].
  constructor; [apply WF_held, Hok|exact (ok_evolves _ _ _ Hok)|].
  simpl. rewrite (ok_held _ _ _ Hok). simpl. rewrite Hn. set_solver.
Qed.

End Steps.

Section Revival.
  Context {D : Decimal} {RT : GoRuntime} {AG : Agent}.

(** *** A refused batch *)

(** The orders that are known and not active, and those that are active. *)
Definition active_in (w : World) (l : loc) : bool :=
  match heap w !! l with Some o => active (status o) | None => false end.

Definition inactive_in (w : World) (l : loc) : bool :=
  match heap w !! l with Some o => negb (active (status o)) | None => false end.

(** The orders of [ls] that [CancelOrders] brought back: not active before, active after. *)
Definition revived_in (ls : list loc) (w w' : World) : gset loc :=
  list_to_set (List.filter (fun l => inactive_in w l && active_in w' l) ls).

Lemma elem_of_revived_in ls w w' l :
  l ∈ revived_in ls w w' <-> l ∈ ls /\ inactive_in w l = true /\ active_in w' l = true.
Proof.
  unfold revived_in. rewrite elem_of_list_to_set, list_elem_of_In, List.filter_In, <- list_elem_of_In, andb_true_iff. done.
Qed.

Lemma keeps_inactive w w' l :
  keeps_active w w' -> is_Some (heap w !! l) -> inactive_in w' l = inactive_in w l /\ active_in w' l = active_in w l.
Proof.
  intros Hk [o Ho]. destruct (Hk l o Ho) as (o' & Ho' & Ha). unfold inactive_in, active_in. by rewrite Ho, Ho', Ha.
Qed.

Lemma inactive_not_active w l : inactive_in w l = true -> active_in w l = false.
Proof. unfold inactive_in, active_in. case_match; [by intros ->%negb_true_iff|done]. Qed.

(** More exceptions. *)
Lemma evolves_mono (Rv Rv' : gset loc) w w' : Rv ⊆ Rv' -> evolves (Rv := Rv) w w' -> evolves (Rv := Rv') w w'.
Proof.
  intros Hsub He l o Hl. destruct (He l o Hl) as (o' & Hl' & Hid & Hr). exists o'.
  split; [done|]. split; [done|]. intros Hn. apply Hr. unfold revived in *. set_solver.
Qed.

Lemma ok_same (Rv Rv' : gset loc) E w w' : Rv = Rv' -> ok (Rv := Rv) E w w' -> ok (Rv := Rv') E w w'.
Proof. by intros ->. Qed.

(** An order that is not active becomes pending. *)
Lemma WF_revive {Rv : Revived} E w w' l o o' :
  WF E w -> heap w !! l = Some o -> active (status o) = false -> changes l o o' w w' ->
  same_maps (dealer w) (dealer w') -> status o' = OrderStatusPending -> WF (Rv := {[l]} ∪ revived) E w'.
Proof.
  intros Hwf Hl Hna Hc [Hm1 Hm2 Hm3] Hs.
  assert (ended E w' = ended E w) as He by (unfold ended; by rewrite Hm3).
  assert (l ∉ revived) as Hr.
  { intros (o2 & Hl2 & Ha)%(wf_revived _ _ Hwf). congruence. }
  assert (forall l2 o2, heap w !! l2 = Some o2 -> active (status o2) = true -> l2 <> l /\ heap w' !! l2 = Some o2) as Hact.
  { intros l2 o2 H2 Ha2. assert (l2 <> l) by (intros ->; congruence). by rewrite (changes_there Hc). }
  constructor; rewrite ?He, ?Hm1, ?Hm2, ?Hm3; change (@revived ({[l]} ∪ @revived Rv)) with ({[l]} ∪ @revived Rv).
  - intros k l2 H2. destruct (wf_living _ _ Hwf _ _ H2) as (Hr2 & o2 & Hl2 & Hid & Ha).
    destruct (Hact l2 o2 Hl2 Ha) as [Hne H']. split; [set_solver|by exists o2].
  - intros l2 o2 Hn [[-> ->]|[_ H2]]%(changes_lookup Hc) Ha; [set_solver|].
    apply (wf_active _ _ Hwf); [set_solver|done..].
  - intros l2 [->%elem_of_singleton|Hr2]%elem_of_union.
    + exists o'. by rewrite (changes_here Hc), Hs.
    + destruct (wf_revived _ _ Hwf _ Hr2) as (o2 & Hl2 & Ha). exists o2. by edestruct Hact.
  - intros k l2 H2. destruct (wf_unrelated _ _ Hwf _ _ H2) as (Hn & o2 & Hl2 & Hp & Hst). split; [done|].
    destruct (changes_here_or_there Hc l2 o2 Hl2) as [(-> & H')|H']; [exists o'|exists o2]; (split; [done|]).
    + simplify_eq. rewrite (ch_public _ _ _ _ _ Hc) by done. split; [done|]. right. set_solver.
    + split; [done|]. destruct Hst; [by left|right; set_solver].
  - intros l2 H2. destruct (wf_ended _ _ Hwf _ H2) as (o2 & Hl2 & Hst).
    destruct (changes_here_or_there Hc l2 o2 Hl2) as [(-> & H')|H']; [exists o'|exists o2]; (split; [done|]).
    + right. right. set_solver.
    + destruct Hst as [|[|]]; [by left|by right; left|right; right; set_solver].
  - intros l2 o2 [[-> ->]|[_ H2]]%(changes_lookup Hc) Hst; [congruence|]. by apply (wf_done _ _ Hwf) in H2.
  - apply Hwf.
  - apply (changes_ids Hwf Hl Hc).
  - apply (changes_orders_ok Hwf Hl Hc); [congruence|right; congruence].
  - apply (changes_spawned_ok Hwf Hl Hc).
  - apply Hwf.
Qed.

(** [rejectCancel] of an order, active or not. *)
Definition revive_one (Rv : gset loc) (w : World) (l : loc) : gset loc :=
  if inactive_in w l then {[l]} ∪ Rv else Rv.

Lemma rejectCancel_any (Rv : gset loc) E w l :
  WF (Rv := Rv) E w -> held w = ∅ -> is_Some (heap w !! l) ->
  wp (WithOpLock l (rejectCancel l)) w (fun w' _ =>
    ok (Rv := revive_one Rv w l) E w w' /\ active_in w' l = true /\
    forall l2, l2 <> l -> heap w' !! l2 = heap w !! l2).
Proof.
  intros Hwf Hn [o Hl]. unfold revive_one, inactive_in. rewrite Hl.
  apply wp_WithOpLock; [rewrite Hn; set_solver|]. wp_sym.
  match goal with |- context [release l ?x] => set (w1 := x) end.
  assert (exists o', status o' = OrderStatusPending /\ changes (Rv := Rv) l o o' (acquire l w) w1) as (o' & Hs & Hc).
  { eexists. split; [|solve_changes]; done. }
  apply changes_unlock in Hc; [|rewrite Hn; set_solver].
  split; [|split; [|intros l2 Hne; by apply (changes_there Hc)]].
  2: { unfold active_in. by rewrite (changes_here Hc), Hs. }
  destruct (active (status o)) eqn:Ha; simpl.
  - eapply (moves_ok (Rv := Rv)); [done..|]. eapply mv_update; [exact Hc|done|right; by rewrite Hs|by rewrite Hs|].
    rewrite Hs. by apply edge_pending.
  - constructor; [by eapply WF_revive| |by apply Hc]. intros l2 o2 H2.
    destruct (changes_here_or_there Hc l2 o2 H2) as [(-> & H')|H']; [exists o'|exists o2; by repeat split].
    simplify_eq. split; [done|]. split; [apply Hc|]. unfold revived. set_solver.
Qed.

(** The loop over the batch: the orders of [os] visited are active, the others as they were. *)
Record reject_loop (Rv : gset loc) (E os : list loc) (w : World) (rest : list loc) (w' : World) : Prop := {
  rl_ok : ok (Rv := Rv ∪ revived_in os w w') E w w';
  rl_nodup : NoDup rest;
  rl_sub : forall l, l ∈ rest -> l ∈ os;
  rl_same : forall l, l ∈ rest \/ l ∉ os -> heap w' !! l = heap w !! l
}.

Lemma revived_step os w w1 w2 l :
  l ∈ os -> heap w1 !! l = heap w !! l -> active_in w2 l = true ->
  (forall l2, l2 <> l -> heap w2 !! l2 = heap w1 !! l2) ->
  forall Rv, revive_one (Rv ∪ revived_in os w w1) w1 l = Rv ∪ revived_in os w w2.
Proof.
  intros Hin Hsame Hact Hoth Rv. apply set_eq. intros x.
  assert (inactive_in w1 l = inactive_in w l /\ active_in w1 l = active_in w l) as [Hi Ha].
  { unfold inactive_in, active_in. by rewrite Hsame. }
  assert (x <> l -> active_in w2 x = active_in w1 x) as Hx by (intros Hne; unfold active_in; by rewrite Hoth).
  unfold revive_one. rewrite Hi. destruct (inactive_in w l) eqn:Hil.
  - rewrite !elem_of_union, elem_of_singleton, !elem_of_revived_in. destruct (decide (x = l)) as [->|Hne].
    + rewrite Hact. tauto.
    + rewrite (Hx Hne). tauto.
  - rewrite !elem_of_union, !elem_of_revived_in. destruct (decide (x = l)) as [->|Hne].
    + rewrite Hil. intuition discriminate.
    + by rewrite (Hx Hne).
Qed.

Lemma revived_none os w : revived_in os w w = ∅.
Proof.
  apply elem_of_equiv_empty_L. intros l (_ & Hi%inactive_not_active & Ha)%elem_of_revived_in. congruence.
Qed.

Lemma rejectCancels_any (Rv : gset loc) E w os :
  WF (Rv := Rv) E w -> held w = ∅ -> NoDup os -> (forall l, l ∈ os -> is_Some (heap w !! l)) ->
  wp (rejectCancels os) w (fun w' _ => ok (Rv := Rv ∪ revived_in os w w') E w w' /\
    forall l, l ∉ os -> heap w' !! l = heap w !! l).
Proof.
  intros Hwf Hn Hnd Hin. eapply wp_mono.
  - apply (wp_for_each (reject_loop Rv E os w)).
    + constructor; [rewrite revived_none; eapply ok_same, ok_refl; [|exact Hwf]; set_solver|done..].
    + intros l rest w1 [Hok [Hnin Hnd1]%NoDup_cons Hsub Hsame].
      assert (l ∈ os) as Hlos by (apply Hsub; left).
      assert (heap w1 !! l = heap w !! l) as Hl1 by (apply Hsame; left; left).
      eapply wp_mono.
      * apply rejectCancel_any; [apply Hok|by rewrite (ok_held _ _ _ Hok)|]. rewrite Hl1. by apply Hin.
      * intros w2 [] (Hok2 & Hact & Hoth). pose proof (revived_step os w w1 w2 l Hlos Hl1 Hact Hoth Rv) as Heq.
        rewrite Heq in Hok2. constructor; [|done|intros; apply Hsub; by right|].
        -- destruct Hok as [_ He Hh]. destruct Hok2 as [Hw2 He2 Hh2]. constructor; [done| |congruence].
           eapply evolves_trans; [|exact He2]. eapply evolves_mono; [|exact He].
           rewrite <- Heq. unfold revive_one. case_match; set_solver.
        -- intros l2 Hl2. assert (l2 <> l) by (intros ->; by destruct Hl2).
           rewrite Hoth by done. apply Hsame. destruct Hl2; [left; by right|by right].
  - intros w' [] [Hok _ _ Hsame]. split; [exact Hok|]. intros l Hl. apply Hsame. by right.
Qed.

(** What is done before the loop, and the orders outside of it, do not count. *)
Lemma revived_through orders os w w2 w' :
  keeps_active w w2 -> (forall l, l ∈ orders -> is_Some (heap w !! l)) -> (forall l, l ∈ os -> l ∈ orders) ->
  (forall l, l ∉ os -> heap w' !! l = heap w2 !! l) -> revived_in orders w w' = revived_in os w2 w'.
Proof.
  intros Hkeep Hin Hos Hsame. apply set_eq. intros l. rewrite !elem_of_revived_in. split.
  - intros (Hl & Hi & Ha). destruct (keeps_inactive _ _ l Hkeep (Hin _ Hl)) as [Hi2 Ha2]. rewrite Hi2.
    split; [|done]. destruct (decide (l ∈ os)) as [|Hno]; [done|].
    assert (active_in w' l = active_in w2 l) as E2 by (unfold active_in; by rewrite Hsame).
    apply inactive_not_active in Hi. congruence.
  - intros (Hl & Hi & Ha). destruct (keeps_inactive _ _ l Hkeep (Hin _ (Hos _ Hl))) as [Hi2 _].
    rewrite <- Hi2. auto.
Qed.

Lemma CancelOrders_ok (Rv : gset loc) E w orders :
  WF (Rv := Rv) E w -> held w = ∅ -> (forall l, l ∈ orders -> is_Some (heap w !! l)) ->
  wp (CancelOrders orders) w (fun w' _ =>
    ok (Rv := Rv ∪ revived_in orders w w') E w w' /\
    (revived_in orders w w' <> ∅ -> exists cs os, is_Some (agent_reply cs (CallCancelOrders os)))).
Proof.
  intros Hwf Hn Hin. unfold CancelOrders. rewrite wp_bind. apply Unique_wp; [done|].
  intros os Hnd Hos. set (w1 := w <| loops := _ |>).
  assert (ok (Rv := Rv) E w w1) as Hok1 by (apply quiet_ok; [done|by repeat constructor]).
  rewrite wp_bind. eapply wp_mono.
  - eapply (WithOpeLocks_ok (Rv := Rv)); [apply Hok1|done|intros l Hl; by apply Hin, Hos|].
    intros w2 Hw2 Hh2. apply cancel_body_wp; [done|done|].
    intros l Hl. rewrite Hh2. by apply Hin, Hos.
  - intros w2 err (Hok & Hk & Herr). pose proof (ok_trans _ _ _ _ Hok1 Hok) as Hok2.
    assert (keeps_active w w2) as Hkeep by (intros l o; apply Hk).
    assert (forall w', (forall l, l ∉ os -> heap w' !! l = heap w2 !! l) ->
      revived_in orders w w' = revived_in os w2 w') as Hset by (intros w'; by apply revived_through).
    destruct err as [err|]; cycle 1.
    + cbn [wp]. rewrite Hset, revived_none by done. split; [|done]. eapply ok_same, Hok2. set_solver.
    + rewrite wp_bind. eapply wp_mono.
      * apply rejectCancels_any; [apply Hok2|by rewrite (ok_held _ _ _ Hok2)|done|].
        intros l Hl. eapply (ok_heap (Rv := Rv)); [exact Hok2|]. by apply Hin, Hos.
      * intros w3 [] [Hok3 Hsame]. rewrite <- Hset in Hok3 by done. split; [|intros _; apply Herr; by eexists].
        destruct Hok2 as [_ He Hh], Hok3 as [Hw3 He3 Hh3]. constructor; [done| |congruence].
        eapply evolves_trans; [|exact He3]. eapply evolves_mono; [|exact He]. set_solver.
Qed.

End Revival.

Section Handlers.
  Context {D : Decimal} {RT : GoRuntime} {AG : Agent} {Rv : Revived}.

(** ** Web socket handlers *)

Lemma WF_alloc E w o :
  WF E w -> (forall l, heap w !! l = None -> order_ok (w <| heap := <[l := o]> (heap w) |>) o) ->
  active (status o) = false -> status o <> OrderStatusDone ->
  (id o = ""%string \/ forall l o', heap w !! l = Some o' -> id o' <> id o) ->
  let l := fresh (dom (heap w)) in
  heap w !! l = None /\ ok E w (w <| heap := <[l := o]> (heap w) |>).
Proof.
  intros Hwf Hoo Hna Hnd Hid l. assert (heap w !! l = None) as Hl.
  { apply not_elem_of_dom, is_fresh. }
  assert (forall l2 o2, heap w !! l2 = Some o2 -> <[l := o]> (heap w) !! l2 = Some o2) as Hold.
  { intros l2 o2 H2. rewrite lookup_insert_ne; [done|]. intros <-. congruence. }
  assert (forall cb, cb_ok w cb -> cb_ok (w <| heap := <[l := o]> (heap w) |>) cb) as Hcb.
  { intros [n|l2 d|]; simpl; try done. intros [o2 H2]. eauto. }
  split; [done|]. constructor;
    [|intros l2 o2 H2; exists o2; split; [by apply Hold|by repeat split]|done].
  destruct Hwf as [Wliv Wact Wrev Wun Wend Wdone Wnd Wids Word Wsp Wunb]. constructor; simpl; try done.
  - intros k l2 (Hr & o2 & H2 & H)%Wliv. eauto.
  - intros l2 o2 Hr [[<- <-]|[_ H2]]%lookup_insert_Some Ha; [congruence|by apply Wact].
  - intros l2 (o2 & H2 & H)%Wrev. eauto.
  - intros k l2 (Hn & o2 & H2 & H)%Wun. eauto.
  - intros l2 (o2 & H2 & H)%Wend. eauto.
  - intros l2 o2 [[<- <-]|[_ H2]]%lookup_insert_Some Hs; [congruence|by eapply Wdone].
  - intros l1 l2 o1 o2 [[<- <-]|[_ H1]]%lookup_insert_Some [[<- <-]|[_ H2]]%lookup_insert_Some;
      intros He Hne; try done; [| |by eapply Wids]; destruct Hid as [Hid|Hid]; try congruence.
    + exfalso. eapply Hid; eauto.
    + exfalso. eapply Hid; eauto.
  - intros l2 o2 [[<- <-]|[_ H2]]%lookup_insert_Some; [by apply Hoo|].
    destruct (Word _ _ H2) as (H & Hn & Hi & Hc). repeat split; auto.
  - intros cb l2 H2. destruct (Wsp _ _ H2) as [Hc [o2 Ho2]]. split; eauto.
Qed.

(** The end of an unrelated order: it is retained and no longer tracked. *)
Lemma WF_unrelated_end E w k l :
  WF E w -> UnrelatedOrders (dealer w) !! k = Some l ->
  ok E w (w <| dealer ::= fun d => d <| doneOrders ::= fun s => Append s l |>
                                     <| UnrelatedOrders ::= delete k |> |>).
Proof.
  intros Hwf Hk. destruct (wf_unrelated _ _ Hwf _ _ Hk) as (Hnin & o & Ho & Hp & Hs).
  set (w' := w <| dealer ::= _ |>).
  assert (ended E w' = ended E w ++ [l]) as He.
  { change (E ++ a (Append (doneOrders (dealer w)) l) = ended E w ++ [l]). rewrite Append_unbounded by apply Hwf.
    unfold ended. simpl. by rewrite app_assoc. }
  constructor; [|exact (evolves_refl w)|done].
  constructor; rewrite ?He; try exact (wf_living _ _ Hwf); try apply Hwf; unfold w'; simpl.
  - intros k2 l2 [Hne H2]%lookup_delete_Some.
    destruct (wf_unrelated _ _ Hwf _ _ H2) as (Hn2 & o2 & Ho2 & Hp2 & Hs2).
    split; [|by exists o2]. rewrite elem_of_app, list_elem_of_singleton.
    intros [H| ->]; [done|]. simplify_eq.
  - intros l2 [H2| ->%list_elem_of_singleton]%elem_of_app; [by apply (wf_ended _ _ Hwf)|].
    exists o. auto.
  - intros l2 o2 H2 Hs2. apply elem_of_app. left. by eapply (wf_done _ _ Hwf).
  - apply NoDup_app. split; [apply Hwf|]. split; [|apply NoDup_singleton].
    by intros x Hx ->%list_elem_of_singleton.
  - change (maxLen (Append (doneOrders (dealer w)) l) = 0%Z).
    rewrite Append_unbounded by apply Hwf. done.
Qed.

(** The tracking of a new unrelated order. *)
Lemma WF_unrelated_new E w k l o :
  WF E w -> heap w !! l = Some o -> publicID o = k -> status o = OrderStatusUnknown ->
  l ∉ ended E w ->
  ok E w (w <| dealer ::= fun d => d <| UnrelatedOrders ::= insert k l |> |>).
Proof.
  intros Hwf Ho Hp Hs Hn. constructor; [|exact (evolves_refl w)|done].
  constructor; try apply Hwf. simpl. intros k2 l2 [[<- <-]|[_ H2]]%lookup_insert_Some.
  - split; [done|exists o; auto].
  - by apply (wf_unrelated _ _ Hwf).
Qed.

Lemma track_opened_ok E w data :
  WF E w ->
  wp (o <- alloc (setConfirmTimestamps (ArrivedAt data) (ConfirmedAt data)
                    (zero_Order <| publicID := PublicID data |>)) ;;
      dmod (fun d => d <| UnrelatedOrders ::= insert (PublicID data) o |>)) w
    (fun w' _ => ok E w w').
Proof.
  intros Hwf. set (o := setConfirmTimestamps _ _ _).
  assert (publicID o = PublicID data /\ status o = OrderStatusUnknown /\ id o = ""%string /\
          amendCount o = 0%Z /\ all_callbacks o = []) as (Hp & Hs & Hi & Hc & Hcb).
  { unfold o, setConfirmTimestamps. by destruct (ArrivedAt data), (ConfirmedAt data). }
  clearbody o. destruct (WF_alloc E w o) as [Hl Hok]; [done|..|by rewrite Hs|by rewrite Hs|by left|].
  { intros l Hl. repeat split; [by rewrite Hs|done|by rewrite Hs|].
    rewrite Hcb. by intros ? ?%not_elem_of_nil. }
  set (w1 := w <| heap := _ |>) in Hok. eapply ok_trans; [exact Hok|].
  refine (WF_unrelated_new E w1 (PublicID data) (fresh (dom (heap w))) o _ _ Hp Hs _).
  - apply Hok.
  - apply lookup_insert_eq.
  - intros (o' & Ho' & _)%(wf_ended _ _ Hwf). congruence.
Qed.

Lemma track_unrelated_ok E w data :
  WF E w -> held w = ∅ -> wp (track_unrelated data) w (fun w' _ => ok E w w').
Proof.
  intros Hwf Hn. unfold track_unrelated. case_match; [by apply ok_refl|].
  rewrite wp_bind. eapply (wp_mono _ _ (fun w' _ => ok E w w')).
  { case_decide; [by apply track_opened_ok|by apply ok_refl]. }
  intros w1 [] Hok. case_match; [|done]. apply (wp_ok_trans _ E w w1); [done|].
  pose proof (ok_wf _ _ _ Hok) as Hwf1. simpl.
  destruct (UnrelatedOrders (dealer w1) !! PublicID data) as [l|] eqn:Hl; [|by apply ok_refl].
  assert (held w1 = ∅) as Hn1 by by rewrite (ok_held _ _ _ Hok).
  simpl. split; [by rewrite Hn1|].
  destruct (WF_unrelated_end _ _ _ _ Hwf1 Hl) as [Hw He _].
  constructor; [exact (WF_held _ _ (({[l]} ∪ held w1) ∖ {[l]}) Hw)|exact He|].
  simpl. rewrite Hn1. set_solver.
Qed.

Lemma living_active E w k l :
  WF E w -> LivingOrders (dealer w) !! k = Some l ->
  l ∉ revived /\ exists o, heap w !! l = Some o /\ active (status o) = true.
Proof. intros Hwf Hk. destruct (wf_living _ _ Hwf _ _ Hk) as (Hr & o & Ho & _ & Ha). eauto. Qed.

Lemma handle_order_datum_ok E w data :
  WF E w -> held w = ∅ -> wp (handle_order_datum data) w (fun w' _ => ok E w w').
Proof.
  intros Hwf Hn. unfold handle_order_datum. rewrite wp_bind.
  eapply wp_mono; [by apply track_unrelated_ok|]. intros w1 [] Hok.
  apply (wp_ok_trans _ E w w1); [done|]. rewrite wp_bind. unfold getOrder, dget. cbn [wp].
  pose proof (ok_wf _ _ _ Hok) as Hwf1.
  assert (held w1 = ∅) as Hn1 by by rewrite (ok_held _ _ _ Hok).
  destruct (LivingOrders (dealer w1) !! ID data) as [l|] eqn:Hl; cycle 1.
  { destruct (Status data); simpl; rewrite ?Hl; by apply ok_refl. }
  destruct (living_active _ _ _ _ Hwf1 Hl) as (Hr & o & Ho & Ha).
  destruct (Status data); try (simpl; rewrite ?Hl; by apply ok_refl).
  - eapply locked_ok; [done..|]. by apply fill_body_wp.
  - rewrite wp_bind. cbn [wp]. rewrite Hl. eapply locked_ok; [done..|].
    apply partial_body_wp; [done..|exact (wf_orders _ _ Hwf1 _ _ Ho)].
Qed.

Lemma HandleOrderData_ok E w datas :
  WF E w -> held w = ∅ -> wp (HandleOrderData datas) w (fun w' _ => ok E w w').
Proof.
  intros Hwf Hn. eapply wp_mono.
  - apply (wp_for_each (fun _ w' => ok E w w')); [by apply ok_refl|].
    intros data _ w1 Hok. apply (wp_ok_trans _ E w w1); [done|].
    apply handle_order_datum_ok; [apply Hok|by rewrite (ok_held _ _ _ Hok)].
  - done.
Qed.

Lemma HandlePositionData_ok E w datas :
  WF E w -> wp (HandlePositionData datas) w (fun w' _ => ok E w w').
Proof.
  intros Hwf. unfold HandlePositionData.
  destruct (extractPositionData datas); [|by apply ok_refl]. simpl.
  case_match; simpl; [|by apply ok_refl]. by apply quiet_ok.
Qed.

Lemma SetPosUpdatedHandler_ok E w h :
  WF E w -> wp (SetPosUpdatedHandler h) w (fun w' _ => ok E w w').
Proof. intros Hwf. by apply quiet_ok. Qed.

(** Exporting moves the ended orders to the caller. *)
Lemma ExportDoneOrders_ok E w :
  WF E w ->
  wp ExportDoneOrders w (fun w' s => WF (E ++ a s) w' /\ evolves w w' /\ held w' = held w).
Proof.
  intros Hwf. simpl. set (w' := w <| dealer ::= _ |>).
  assert (ended (E ++ a (doneOrders (dealer w))) w' = ended E w) as He.
  { unfold ended, w'. simpl. by rewrite app_nil_r. }
  split; [|split; [exact (evolves_refl w)|done]].
  constructor; rewrite ?He; try apply Hwf. done.
Qed.

End Handlers.
