(* ===== verification/DealerEvents.v ===== *)
(** * A dealer under events: reachable states

    Everything that happens to a dealer is an event: a call by the strategy, a
    REST response, a message of the private web socket, a started callback that
    runs, time passing.  [event_prog] is the program of an event and [dstep] the
    step relation; an exported slice of ended orders is collected beside the
    world.  [valid] lists what the callers must respect.  The theorems are about
    every sequence of events that run one after the other: each event ends, the
    invariant of [DealerInv.v] holds after it, and orders follow their life cycle.

    [gstep] is [dstep] with the orders that refused batches of cancellations revived so
    far; [spares] says of an event that it is no such batch. *)

From S2P Require Import Prelude GoStd Decimal QDecimal Domains Errors MutexFlag MutexMap MutexSlice.
From S2P Require Import Order OrderData Position World Dealer DealerInv DealerSteps.
Local Open Scope prog_scope.

Section Events.
  Context {D : Decimal} {RT : GoRuntime} {AG : Agent}.

(** The registrations of callbacks by a strategy. *)
Inductive registration :=
  | OnCreate | OnCreateReject | OnCancel | OnCancelReject | OnAmend | OnAmendReject
  | OnAmendRejectNotExist | OnFill | OnPartialFill.

Definition register (r : registration) : OrderCallback -> Order -> Order :=
  match r with
  | OnCreate => SetCreateCallback
  | OnCreateReject => SetCreateRejectCallback
  | OnCancel => SetCancelCallback
  | OnCancelReject => SetCancelRejectCallback
  | OnAmend => SetAmendCallback
  | OnAmendReject => SetAmendRejectCallback
  | OnAmendRejectNotExist => SetAmendRejectOrderNotExistCallback
  | OnFill => SetFillCallback
  | OnPartialFill => SetPartiallyFillCallback
  end.

Inductive Event :=
  | EvNewOrder (o : Order)
  | EvRegister (r : registration) (order : loc) (callback : nat)
  | EvSendOrder (order : loc)
  | EvSendOrders (orders : list loc)
  | EvAmendOrder (order : loc) (detail : AmendDetail)
  | EvCancelOrder (order : loc)
  | EvCancelOrders (orders : list loc)
  | EvSendResp (resp : CreateOrderResp) (err : option error)
  | EvSendResps (resps : CreateOrdersRespMap) (err : option error)
  | EvAmendResp (resp : AmendOrderResp) (err : option error)
  | EvAmendResps (resps : AmendOrdersRespMap) (err : option error)
  | EvCancelResp (resp : CancelOrderResp) (err : option error)
  | EvCancelResps (resps : CancelOrdersRespMap) (err : option error)
  | EvOrderData (datas : list OrderData)
  | EvPositionData (datas : list PositionData)
  | EvCallback (i : nat)
  | EvSetPosHandler (handler : nat)
  | EvExport
  | EvTick (t : time).

(** A goroutine that was started runs: any of them, in any order. *)
Definition run_spawned (i : nat) : prog unit :=
  x <- Act (fun w => x ← spawned w !! i; Some (w <| spawned ::= delete i |>, x)) Ret ;;
  run_callback x.1 x.2.

(** The orders returned are those the event exported. *)
Definition event_prog (ev : Event) : prog (list loc) :=
  match ev with
  | EvNewOrder o => alloc o ;; Ret []
  | EvRegister r o n => WithOpLock o (store o (register r (CbUser n))) ;; Ret []
  | EvSendOrder o => SendOrder o ;; Ret []
  | EvSendOrders os => SendOrders os ;; Ret []
  | EvAmendOrder o d => AmendOrder o d ;; Ret []
  | EvCancelOrder o => CancelOrder o ;; Ret []
  | EvCancelOrders os => CancelOrders os ;; Ret []
  | EvSendResp r e => handleSendOrderResp r e ;; Ret []
  | EvSendResps m e => handleSendOrdersResp m e ;; Ret []
  | EvAmendResp r e => handleAmendOrderResp r e ;; Ret []
  | EvAmendResps m e => handleAmendOrdersResp m e ;; Ret []
  | EvCancelResp r e => handleCancelOrderResp r e ;; Ret []
  | EvCancelResps m e => handleCancelOrdersResp m e ;; Ret []
  | EvOrderData ds => HandleOrderData ds ;; Ret []
  | EvPositionData ds => HandlePositionData ds ;; Ret []
  | EvCallback i => run_spawned i ;; Ret []
  | EvSetPosHandler h => SetPosUpdatedHandler h ;; Ret []
  | EvExport => s <- ExportDoneOrders ;; Ret (a s)
  | EvTick t => Act (fun w => Some (w <| clock := t |>, tt)) Ret ;; Ret []
  end.

(** ** What the callers respect *)

(** An order as the constructors of order.go make it, with an identifier that no
    other order has. *)
Definition new_order (w : World) (o : Order) : Prop :=
  status o = OrderStatusBorn /\ amendCount o = 0%Z /\ all_callbacks o = [] /\
  id o <> ""%string /\ forall l o', heap w !! l = Some o' -> id o' <> id o.

Definition born (w : World) (l : loc) : Prop :=
  exists o, heap w !! l = Some o /\ status o = OrderStatusBorn.

Definition no_nil {R} (P : R -> Prop) (resps : gmap string (option R)) : Prop :=
  forall k r, resps !! k = Some r -> exists resp, r = Some resp /\ P resp.

Definition valid (w : World) (ev : Event) : Prop :=
  match ev with
  | EvNewOrder o => new_order w o
  | EvRegister _ l _ | EvAmendOrder l _ | EvCancelOrder l => is_Some (heap w !! l)
  (* an order is sent once *)
  | EvSendOrder l => born w l
  | EvSendOrders ls => NoDup ls /\ forall l, l ∈ ls -> born w l
  | EvCancelOrders ls => forall l, l ∈ ls -> is_Some (heap w !! l)
  (* a success carries the detail that was amended; batch responses hold no nil *)
  | EvAmendResp r e => e = None -> ar_Err r = None -> is_Some (ar_Detail r)
  | EvSendResps m e => e = None -> no_nil (fun _ => True) m
  | EvCancelResps m e => e = None -> no_nil (fun _ => True) m
  | EvAmendResps m e => e = None -> no_nil (fun r => ar_Err r = None -> is_Some (ar_Detail r)) m
  | EvCallback i => is_Some (spawned w !! i)
  | _ => True
  end.

(** The event revives no order: a batch of cancellations is one that the agent takes, or
    each of its orders is active. *)
Definition spares (w : World) (ev : Event) : Prop :=
  match ev with
  | EvCancelOrders ls =>
      (forall cs os, agent_reply cs (CallCancelOrders os) = None) \/
      (forall l, l ∈ ls -> exists o, heap w !! l = Some o /\ active (status o) = true)
  | _ => True
  end.

(** The orders that the event revived. *)
Definition revives (ev : Event) (w w' : World) : gset loc :=
  match ev with EvCancelOrders ls => revived_in ls w w' | _ => ∅ end.

(** ** Steps and reachable states *)

Inductive dstep : World * list loc -> World * list loc -> Prop :=
  | dstep_event w E ev w' xs :
      valid w ev -> run (event_prog ev) w = Done w' xs -> dstep (w, E) (w', E ++ xs).

(** The same step, with the orders revived so far. *)
Inductive gstep : gset loc * (World * list loc) -> gset loc * (World * list loc) -> Prop :=
  | gstep_event Rv w E ev w' xs :
      valid w ev -> run (event_prog ev) w = Done w' xs ->
      gstep (Rv, (w, E)) (Rv ∪ revives ev w w', (w', E ++ xs)).

(** A dealer just made by [NewDealer], no orders yet. *)
Definition initial_world (symbol agent' onError' : nat) (t : time) : World :=
  let '(r, i) := NewDealer symbol agent' onError' t (DealerRegistry [] ∅) in
  MkWorld ∅ ∅ (nth i (instances r) (MkDealer (NewFlag false) 0 0 0 ∅ ∅ ∅ (NewOrderMuArray [])
    (NewPosition t) [])) [] [] [] [] t 0.

Definition reachable (c : World * list loc) : Prop :=
  exists symbol agent' onError' t, rtc dstep (initial_world symbol agent' onError' t, []) c.

(** A state that a run can reach in which the orders of [Rv] were revived. *)
Definition reaches (Rv : gset loc) (c : World * list loc) : Prop :=
  exists symbol agent' onError' t, rtc gstep (∅, (initial_world symbol agent' onError' t, [])) (Rv, c).

Lemma dstep_gstep Rv c c' : dstep c c' -> exists Rv', gstep (Rv, c) (Rv', c').
Proof. intros [w E ev w' xs Hv Hr]. eexists. by econstructor. Qed.

Lemma reachable_reaches c : reachable c -> exists Rv, reaches Rv c.
Proof.
  intros (s & ag & oe & t & Hs). unfold reaches.
  assert (forall Rv c0, rtc dstep c0 c -> exists Rv', rtc gstep (Rv, c0) (Rv', c)) as H.
  { clear. intros Rv c0 H. revert Rv. induction H as [c|c1 c2 c3 H12 _ IH]; intros Rv; [by exists Rv|].
    destruct (dstep_gstep Rv _ _ H12) as [Rv2 H2]. destruct (IH Rv2) as [Rv3 H3]. exists Rv3. by eapply rtc_l. }
  destruct (H ∅ _ Hs) as [Rv HRv]. by exists Rv, s, ag, oe, t.
Qed.

Lemma initial_WF s ag oe t : WF [] (initial_world s ag oe t).
Proof.
  constructor; unfold ended; simpl; try done.
  - intros l H. by apply not_elem_of_nil in H.
  - constructor.
  - intros cb l H. by apply not_elem_of_nil in H.
Qed.

(** ** Every event keeps the invariant *)

(** What an event does, when the orders of [Rv] were revived before. *)
Definition kept (Rv : gset loc) (E : list loc) (w : World) (ev : Event) (w' : World) (xs : list loc) : Prop :=
  let Rv' := Rv ∪ revives ev w w' in
  WF (Rv := Rv') (E ++ xs) w' /\ evolves (Rv := Rv') w w' /\ held w' = held w /\
  (revives ev w w' <> ∅ -> exists cs os, is_Some (agent_reply cs (CallCancelOrders os))).

Lemma kept_event Rv E w ev w' xs :
  (forall w', revives ev w w' = ∅) ->
  WF (Rv := Rv) (E ++ xs) w' /\ evolves (Rv := Rv) w w' /\ held w' = held w -> kept Rv E w ev w' xs.
Proof.
  intros Hno H. unfold kept. rewrite Hno, (right_id_L ∅ (∪)).
  destruct H as (H1 & H2 & H3). by split; [exact H1|split; [exact H2|split]].
Qed.

Lemma ret_nil {A} Rv (p : prog A) E w ev :
  (forall w', revives ev w w' = ∅) -> wp p w (fun w' _ => ok (Rv := Rv) E w w') ->
  wp (p ;; Ret []) w (fun w' xs => kept Rv E w ev w' xs).
Proof.
  intros Hno Hp. rewrite wp_bind. eapply wp_mono; [exact Hp|].
  intros w' x [H1 H2 H3]. cbn [wp]. apply kept_event; [done|]. by rewrite app_nil_r.
Qed.

Lemma register_ok {Rv : Revived} E w r l n :
  WF E w -> held w = ∅ -> is_Some (heap w !! l) ->
  wp (WithOpLock l (store l (register r (CbUser n)))) w (fun w' _ => ok E w w').
Proof.
  intros Hwf Hn [o Hl]. eapply locked_ok; [done..|].
  pose proof (wf_orders _ _ Hwf _ _ Hl) as Hoo.
  wp_sym. destruct r; simpl; unfold SetCreateCallback, SetAmendCallback; repeat case_match;
    (eapply moves_callbacks; try done; []); callbacks_ok.
Qed.

Lemma alloc_ok {Rv : Revived} E w o :
  WF E w -> new_order w o -> wp (alloc o) w (fun w' _ => ok E w w').
Proof.
  intros Hwf (Hs & Hc & Hcb & Hid & Hfresh).
  apply (WF_alloc E w o); [done|..|by rewrite Hs|by rewrite Hs|by right].
  intros l _. repeat split; [by rewrite Hs|done|done|]. rewrite Hcb. by intros ? ?%not_elem_of_nil.
Qed.

Lemma WF_spawned_delete {Rv : Revived} E w i : WF E w -> WF E (w <| spawned ::= delete i |>).
Proof.
  intros [Wliv Wact Wrev Wun Wend Wdone Wnd Wids Word Wsp Wunb]. constructor; try done.
  intros cb2 l2 H2. apply Wsp. exact (list_elem_of_delete_inv _ _ _ H2).
Qed.

Lemma run_spawned_ok {Rv : Revived} E w i :
  WF E w -> held w = ∅ -> is_Some (spawned w !! i) ->
  wp (run_spawned i) w (fun w' _ => ok E w w').
Proof.
  intros Hwf Hn [[cb l] Hi]. unfold run_spawned. rewrite wp_bind. cbn [wp]. rewrite Hi. simpl.
  set (w1 := w <| spawned ::= delete i |>).
  assert (WF E w1) as Hwf1 by exact (WF_spawned_delete _ _ _ Hwf).
  destruct (wf_spawned _ _ Hwf cb l) as [Hcb Hl]; [by eapply list_elem_of_lookup_2|].
  eapply wp_mono; [by apply (run_callback_ok E w1)|]. intros w' x [H1 H2 H3]. by constructor.
Qed.

Lemma event_ok Rv E w ev :
  WF (Rv := Rv) E w -> held w = ∅ -> valid w ev -> wp (event_prog ev) w (kept Rv E w ev).
Proof.
  intros Hwf Hn Hv.
  assert (forall R (P : R -> Prop) m (e : option error), (e = None -> no_nil P m) ->
    e = None -> forall k (r : option R), m !! k = Some r -> is_Some r) as Hnil.
  { intros R P m e Hm He k r Hr. destruct (Hm He _ _ Hr) as (x & -> & _). eauto. }
  destruct ev; simpl in Hv; unfold event_prog; try (apply ret_nil; [done|]).
  - by apply alloc_ok.
  - by apply register_ok.
  - destruct Hv as (o & Ho & Hs). by eapply SendOrder_ok.
  - destruct Hv as [Hnd Hb]. by apply SendOrders_ok.
  - by apply AmendOrder_ok.
  - by apply CancelOrder_ok.
  - rewrite wp_bind. eapply wp_mono; [by apply CancelOrders_ok|]. intros w' x [[H1 H2 H3] H4]. cbn [wp].
    split; [by rewrite app_nil_r|done].
  - by apply handleSendOrderResp_ok.
  - apply handleSendOrdersResp_ok; [done..|]. by eapply Hnil.
  - by apply handleAmendOrderResp_ok.
  - by apply handleAmendOrdersResp_ok.
  - by apply handleCancelOrderResp_ok.
  - apply handleCancelOrdersResp_ok; [done..|]. by eapply Hnil.
  - by apply HandleOrderData_ok.
  - by apply HandlePositionData_ok.
  - by apply run_spawned_ok.
  - by apply SetPosUpdatedHandler_ok.
  - rewrite wp_bind. eapply wp_mono; [by apply (ExportDoneOrders_ok (Rv := Rv))|]. intros w' x. by apply kept_event.
  - apply (quiet_ok E); [done|by repeat constructor].
Qed.

(** An event that spares the orders that are not active revives none. *)
Lemma spares_none Rv E w ev w' xs :
  spares w ev -> kept Rv E w ev w' xs ->
  WF (Rv := Rv) (E ++ xs) w' /\ evolves (Rv := Rv) w w' /\ held w' = held w.
Proof.
  intros Hs (H1 & H2 & H3 & Href). assert (revives ev w w' = ∅) as Hno; [|rewrite Hno, (right_id_L ∅ (∪)) in *; done].
  destruct (decide (revives ev w w' = ∅)) as [|Hne]; [done|]. destruct (Href Hne) as (cs & os & e & He).
  destruct ev; try done. destruct Hs as [Hs|Hs]; [by rewrite Hs in He|].
  apply elem_of_equiv_empty_L. intros l (Hl & Hi & _)%elem_of_revived_in. destruct (Hs l Hl) as (o & Ho & Ha).
  unfold inactive_in in Hi. by rewrite Ho, Ha in Hi.
Qed.

Lemma event_spares E w ev :
  WF E w -> held w = ∅ -> valid w ev -> spares w ev ->
  wp (event_prog ev) w (fun w' xs => WF (E ++ xs) w' /\ evolves w w' /\ held w' = held w).
Proof.
  intros Hwf Hn Hv Hs. eapply wp_mono; [by apply event_ok|]. intros w' xs. by apply spares_none.
Qed.

(** ** Every run keeps the invariant *)

Lemma gstep_kept (g g' : gset loc * (World * list loc)) :
  WF (Rv := g.1) g.2.2 g.2.1 -> held g.2.1 = ∅ -> gstep g g' ->
  g.1 ⊆ g'.1 /\ WF (Rv := g'.1) g'.2.2 g'.2.1 /\ held g'.2.1 = ∅ /\ evolves (Rv := g'.1) g.2.1 g'.2.1 /\
  (g'.1 <> g.1 -> exists cs os, is_Some (agent_reply cs (CallCancelOrders os))).
Proof.
  intros Hwf Hn Hd. inversion Hd as [Rv w E ev w' xs Hv Hr]; subst; simpl in *.
  pose proof (event_ok _ _ _ _ Hwf Hn Hv) as Hwp. apply wp_run in Hwp as (w2 & ys & Hr2 & H1 & H2 & H3 & H4).
  rewrite Hr in Hr2. injection Hr2 as <- <-. split; [set_solver|]. split; [done|]. split; [congruence|].
  split; [done|]. intros Hne. apply H4. set_solver.
Qed.

Lemma gsteps_kept (g g' : gset loc * (World * list loc)) :
  WF (Rv := g.1) g.2.2 g.2.1 -> held g.2.1 = ∅ -> rtc gstep g g' ->
  g.1 ⊆ g'.1 /\ WF (Rv := g'.1) g'.2.2 g'.2.1 /\ held g'.2.1 = ∅ /\ evolves (Rv := g'.1) g.2.1 g'.2.1 /\
  (g'.1 <> g.1 -> exists cs os, is_Some (agent_reply cs (CallCancelOrders os))).
Proof.
  intros Hwf Hn Hs. revert Hwf Hn. induction Hs as [g|g g1 g' H1 _ IH]; intros Hwf Hn.
  { split; [done|]. split; [done|]. split; [done|]. split; [apply evolves_refl|done]. }
  destruct (gstep_kept _ _ Hwf Hn H1) as (Hs1 & Hwf1 & Hn1 & He1 & Hr1).
  destruct (IH Hwf1 Hn1) as (Hs2 & Hwf2 & Hn2 & He2 & Hr2). split; [by etrans|]. split; [done|]. split; [done|].
  split; [eapply evolves_trans; [|exact He2]; by eapply evolves_mono|].
  intros Hne. destruct (decide (g1.1 = g.1)) as [E1|]; [apply Hr2; congruence|auto].
Qed.

Lemma reaches_ok (Rv : gset loc) c :
  reaches Rv c -> WF (Rv := Rv) c.2 c.1 /\ held c.1 = ∅ /\
    (Rv <> ∅ -> exists cs os, is_Some (agent_reply cs (CallCancelOrders os))).
Proof.
  intros (s & ag & oe & t & Hs).
  by destruct (gsteps_kept (∅, (_, [])) (Rv, c) (initial_WF s ag oe t) eq_refl Hs) as (_ & H1 & H2 & _ & H3).
Qed.

Lemma reachable_ok c : reachable c -> exists Rv, WF (Rv := Rv) c.2 c.1 /\ held c.1 = ∅.
Proof. intros [Rv (H1 & H2 & _)%reaches_ok]%reachable_reaches. by exists Rv. Qed.

Lemma done_final s : rtc edge OrderStatusDone s -> s = OrderStatusDone.
Proof.
  intros H. remember OrderStatusDone as d eqn:Hd. revert Hd.
  induction H as [|x y z Hxy _ IH]; intros ->; [done|]. by inversion Hxy; subst.
Qed.

(** ** Evaluating a run *)

Definition world_after (ev : Event) (w : World) : World :=
  match run (event_prog ev) w with Done w' _ | Deadlock w' | Panic w' => w' end.

Lemma reachable_after E w ev :
  reachable (w, E) -> valid w ev -> run_check (event_prog ev) w (fun _ _ => true) = true ->
  exists E', reachable (world_after ev w, E') /\ dstep (w, E) (world_after ev w, E').
Proof.
  intros (s & ag & oe & t & Hs) Hv (w' & xs & Hr & _)%run_check_sound. exists (E ++ xs).
  assert (dstep (w, E) (world_after ev w, E ++ xs)) as Hd.
  { apply (dstep_event _ _ ev); [done|]. unfold world_after. by rewrite Hr. }
  split; [|done]. exists s, ag, oe, t. by eapply rtc_r.
Qed.

Lemma reaches_after (Rv : gset loc) E w ev :
  reaches Rv (w, E) -> valid w ev -> revives ev w (world_after ev w) = ∅ ->
  run_check (event_prog ev) w (fun _ _ => true) = true ->
  exists E', reaches Rv (world_after ev w, E') /\ gstep (Rv, (w, E)) (Rv, (world_after ev w, E')).
Proof.
  intros (s & ag & oe & t & Hs) Hv Hno (w' & xs & Hr & _)%run_check_sound. exists (E ++ xs).
  assert (gstep (Rv, (w, E)) (Rv, (world_after ev w, E ++ xs))) as Hd.
  { replace Rv with (Rv ∪ revives ev w (world_after ev w)) at 2 by (rewrite Hno; set_solver).
    constructor; [done|]. unfold world_after. by rewrite Hr. }
  split; [|done]. exists s, ag, oe, t. by eapply rtc_r.
Qed.

End Events.

(** ** An example: a dealer with one living order, over the rationals *)

Definition example_order (s : OrderStatus) : @Order QDecimal :=
  (NewLimitOrder "a" 100%Q 2%Q SideBuy false "") <| status := s |>.

Definition example_world (s : OrderStatus) : @World QDecimal :=
  (initial_world 1 2 3 0%Z)
    <| heap := <[0 := example_order s]> ∅ |>
    <| dealer ::= fun d => d <| LivingOrders := <["a" := 0]> ∅ |> |>.

Lemma example_heap s : heap (example_world s) !! 0 = Some (example_order s).
Proof. apply lookup_insert_eq. Qed.

Lemma example_held s : 0 ∉ held (example_world s).
Proof. apply not_elem_of_empty. Qed.

Lemma example_living s : LivingOrders (dealer (example_world s)) !! "a"%string = Some 0.
Proof. apply (lookup_insert_eq (M := gmap string)). Qed.
