(* ===== verification/DealerProps.v ===== *)
(** * Properties of the dealer

    First the properties of every sequence of events, then the functional
    behaviour of single operations, then the deferred amendments and
    cancellations, and last the schedules and traces where the code does not do
    what it means to. *)

From S2P Require Import Prelude GoStd Decimal QDecimal Domains Errors MutexFlag MutexMap MutexSlice.
From S2P Require Import Order OrderData Position World Dealer DealerInv DealerSteps DealerEvents.
Local Open Scope prog_scope.

Section Reachable.
  Context {D : Decimal} {RT : GoRuntime} {AG : Agent}.

(** C1: no event blocks or panics.  In every reachable state, every event the
    callers may raise runs to its end, releases all operation locks and leads to
    a reachable state again. *)
Theorem every_event_completes c ev :
  reachable c -> valid c.1 ev ->
  exists w' xs, run (event_prog ev) c.1 = Done w' xs /\ held w' = ∅ /\ reachable (w', c.2 ++ xs).
Proof.
  intros Hr Hv. destruct (reachable_ok _ Hr) as (Rv & Hwf & Hn).
  pose proof (event_ok _ _ _ _ Hwf Hn Hv) as Hwp.
  apply wp_run in Hwp as (w' & xs & Hrun & _ & _ & Hh & _). exists w', xs.
  split; [done|]. split; [congruence|].
  destruct Hr as (s & ag & oe & t & Hs). exists s, ag, oe, t.
  eapply rtc_r; [exact Hs|]. destruct c. by econstructor.
Qed.

(** C3: in every run of events one after the other, batches of cancellations that the agent
    refuses included: [LivingOrders] holds exactly the orders that are being sent, pending, being
    amended or being canceled, each under its own id, but for the revived ones.  These are the
    orders that a refused batch named when they were not active: each of them is active and
    under no id in [LivingOrders], and there are none when the agent refuses no batch. *)
Theorem living_orders_are_active (Rv : gset loc) c :
  reaches Rv c ->
  (forall k l, LivingOrders (dealer c.1) !! k = Some l <->
     l ∉ Rv /\ exists o, heap c.1 !! l = Some o /\ id o = k /\ active (status o) = true) /\
  (forall l, l ∈ Rv -> (exists o, heap c.1 !! l = Some o /\ active (status o) = true) /\
     forall k, LivingOrders (dealer c.1) !! k <> Some l) /\
  (Rv <> ∅ -> exists cs os, is_Some (agent_reply cs (CallCancelOrders os))).
Proof.
  intros (Hwf & _ & Href)%reaches_ok. split; [|split; [|exact Href]].
  - intros k l. split; [apply (wf_living _ _ Hwf)|].
    intros (Hr & o & Hl & <- & Ha). by apply (wf_active _ _ Hwf).
  - intros l Hr. split; [by apply (wf_revived _ _ Hwf)|]. intros k Hl. by destruct (wf_living _ _ Hwf _ _ Hl).
Qed.

(** C7: in every run of events one after the other: an order that ended is handed out exactly
    once, at one position of the exported slices followed by [doneOrders], and so is every other
    order there; none of them is living, and none is active but for those that a refused batch
    of cancellations revived. *)
Theorem ended_exactly_once (Rv : gset loc) c :
  reaches Rv c ->
  NoDup (c.2 ++ a (doneOrders (dealer c.1))) /\
  (forall l o, heap c.1 !! l = Some o -> status o = OrderStatusDone ->
     l ∈ c.2 ++ a (doneOrders (dealer c.1))) /\
  (forall l, l ∈ c.2 ++ a (doneOrders (dealer c.1)) ->
     (forall k, LivingOrders (dealer c.1) !! k <> Some l) /\
     exists o, heap c.1 !! l = Some o /\ (active (status o) = false \/ l ∈ Rv)).
Proof.
  intros (Hwf & _)%reaches_ok. split; [apply Hwf|]. split; [apply (wf_done _ _ Hwf)|].
  intros l Hl. destruct (wf_ended _ _ Hwf _ Hl) as (o & Ho & Hs). split.
  - intros k (Hr & o2 & Ho2 & _ & Ha)%(wf_living _ _ Hwf). simplify_eq.
    destruct Hs as [Hs|[Hs|Hs]]; [by rewrite Hs in Ha..|done].
  - exists o. split; [done|]. destruct Hs as [-> |[-> |Hs]]; [by left|by left|by right].
Qed.

(** C8: orders follow the life cycle: between two states of a run of events one after the other
    an order keeps its id, and unless a refused batch of cancellations revived it, its status
    moves along the edges of [edge] and an order that is done stays done. *)
Theorem orders_follow_life_cycle (Rv Rv' : gset loc) c c' l o :
  reaches Rv c -> rtc gstep (Rv, c) (Rv', c') -> heap c.1 !! l = Some o ->
  exists o', heap c'.1 !! l = Some o' /\ id o' = id o /\
    (l ∉ Rv' -> rtc edge (status o) (status o') /\
       (status o = OrderStatusDone -> status o' = OrderStatusDone)).
Proof.
  intros (Hwf & Hn & _)%reaches_ok Hs Hl.
  destruct (gsteps_kept (Rv, c) (Rv', c') Hwf Hn Hs) as (_ & _ & _ & He & _).
  destruct (He _ _ Hl) as (o' & Hl' & Hid & Hr). exists o'. split; [done|]. split; [done|].
  intros Hnr. specialize (Hr Hnr). split; [done|]. intros Hd. rewrite Hd in Hr. by apply done_final.
Qed.

(** The limit on the number of amendments of one order is never reached: no
    operation counts amendments, so every order stays amendable. *)
Theorem amend_limit_never_reached c l o :
  reachable c -> heap c.1 !! l = Some o -> isAmendAble o = true.
Proof.
  intros (Rv & Hwf & _)%reachable_ok Hl. destruct (wf_orders _ _ Hwf _ _ Hl) as (_ & Hc & _).
  unfold isAmendAble. by rewrite Hc.
Qed.

End Reachable.

(** ** A concrete dealer: the rational decimals, an agent that takes every call *)

Definition taking : @Agent QDecimal := fun _ _ => None.

Section Witnesses.
  #[local] Existing Instance QDecimal.
  #[local] Existing Instance in_order.
  #[local] Existing Instance taking.

Definition demo_order : Order := NewLimitOrder "x1" 100%Q 2%Q SideBuy false "".
Definition demo_initial : World * list loc := (initial_world 1 2 3 0, []).
Definition demo_world : World := world_after (EvNewOrder demo_order) demo_initial.1.
Definition demo_sent : World := world_after (EvSendOrder 0) demo_world.

Lemma demo_reachable : exists E, reachable (demo_world, E).
Proof.
  destruct (reachable_after [] demo_initial.1 (EvNewOrder demo_order)) as (E & Hr & _);
    [by exists 1, 2, 3, 0%Z|by repeat split|vm_compute; reflexivity|eauto].
Qed.

Lemma demo_born : born demo_world 0.
Proof.
  destruct (found_check_sound (heap demo_world !! 0) (fun o => bool_decide (status o = OrderStatusBorn)))
    as (o & Ho & Hs); [vm_compute; reflexivity|].
  exists o. split; [exact Ho|]. by apply bool_decide_eq_true in Hs.
Qed.

Lemma demo_step : exists E E', reachable (demo_world, E) /\ reachable (demo_sent, E') /\
  dstep (demo_world, E) (demo_sent, E').
Proof.
  destruct demo_reachable as [E Hr]. exists E.
  destruct (reachable_after E demo_world (EvSendOrder 0) Hr demo_born) as (E' & Hr' & Hd);
    [vm_compute; reflexivity|eauto].
Qed.

Lemma demo_run : exists E E', reaches ∅ (demo_world, E) /\ reaches ∅ (demo_sent, E') /\
  gstep (∅, (demo_world, E)) (∅, (demo_sent, E')).
Proof.
  destruct (reaches_after ∅ [] demo_initial.1 (EvNewOrder demo_order)) as (E & Hr & _);
    [by exists 1, 2, 3, 0%Z|by repeat split|done|vm_compute; reflexivity|].
  exists E. destruct (reaches_after ∅ E demo_world (EvSendOrder 0) Hr demo_born) as (E' & Hr' & Hd);
    [done|vm_compute; reflexivity|eauto].
Qed.

Lemma demo_sending : exists o, heap demo_sent !! 0 = Some o /\ id o = "x1"%string /\
  status o = OrderStatusSending.
Proof.
  destruct (found_check_sound (heap demo_sent !! 0) (fun o =>
    bool_decide (id o = "x1"%string) && bool_decide (status o = OrderStatusSending)))
    as (o & Ho & Hs); [vm_compute; reflexivity|].
  apply andb_true_iff in Hs as [H1%bool_decide_eq_true H2%bool_decide_eq_true]. eauto.
Qed.

Lemma every_event_completes_witness :
  exists E w' xs, run (event_prog (EvSendOrder 0)) demo_world = Done w' xs /\ held w' = ∅ /\
    reachable (w', E ++ xs).
Proof.
  destruct demo_reachable as [E Hr]. exists E.
  apply (every_event_completes (demo_world, E) (EvSendOrder 0) Hr). apply demo_born.
Defined.

Lemma living_orders_are_active_witness : LivingOrders (dealer demo_sent) !! "x1"%string = Some 0.
Proof.
  destruct demo_run as (E & E' & _ & Hr & _), demo_sending as (o & Ho & Hid & Hs).
  apply (living_orders_are_active ∅ (demo_sent, E') Hr). split; [apply not_elem_of_empty|]. exists o. by rewrite Hs.
Defined.

Lemma ended_exactly_once_witness : exists E,
  NoDup (E ++ a (doneOrders (dealer demo_sent))).
Proof.
  destruct demo_run as (E & E' & _ & Hr & _). exists E'.
  apply (ended_exactly_once ∅ (demo_sent, E') Hr).
Defined.

Lemma orders_follow_life_cycle_witness :
  exists o o', heap demo_world !! 0 = Some o /\ heap demo_sent !! 0 = Some o' /\
    rtc edge (status o) (status o').
Proof.
  destruct demo_run as (E & E' & Hr & _ & Hd), demo_born as (o & Ho & _). exists o.
  destruct (orders_follow_life_cycle ∅ ∅ (demo_world, E) (demo_sent, E') 0 o Hr (rtc_once _ _ Hd) Ho)
    as (o' & Ho' & _ & Hs). destruct Hs as [Hs _]; [apply not_elem_of_empty|]. by exists o'.
Defined.

Lemma amend_limit_never_reached_witness :
  exists o, heap demo_sent !! 0 = Some o /\ isAmendAble o = true.
Proof.
  destruct demo_step as (E & E' & _ & Hr & _), demo_sending as (o & Ho & _). exists o.
  split; [exact Ho|]. apply (amend_limit_never_reached (demo_sent, E') 0 o Hr Ho).
Defined.

End Witnesses.
