(* ===== verification/DealerRules.v ===== *)
(** * The dealer's blocks under interference

    The invariant and the relation that make the dealer an instance of
    [Interleaving.v].  The invariant is weaker than [WF], which a schedule can break
    ([DealerTraces]): orders keep their ids, the dealer's maps and the callbacks point
    to orders, and an order whose operation lock is free and that is being amended has
    the detail of its amendment.  [fine] and [ends] are the judgements of a thread that
    holds some locks; then rules for every access, and the blocks of [Dealer.v] that the
    operations and handlers share. *)

From S2P Require Import Prelude GoStd Decimal Domains Errors MutexFlag MutexMap MutexSlice Order.
From S2P Require Import OrderData Position World Dealer DealerInv DealerSteps Interleaving.
Local Open Scope prog_scope.

Section Threads.
  Context {D : Decimal} {RT : GoRuntime} {AG : Agent}.

(** ** The invariant and the interference *)

(** The order at [l] has the id [k]. *)
Definition sees (w : World) (l : loc) (k : string) : Prop := exists o, heap w !! l = Some o /\ id o = k.

Definition grows (w w' : World) : Prop := forall l k, sees w l k -> sees w' l k.

(** An order that is being amended has the detail of the amendment. *)
Definition detailed (o : Order) : Prop := status o = OrderStatusAmending -> is_Some (amendingDetail o).

Record threads_inv (w : World) : Prop := {
  ti_living : forall k l, LivingOrders (dealer w) !! k = Some l -> sees w l k;
  ti_unrelated : forall k l, UnrelatedOrders (dealer w) !! k = Some l -> exists k', sees w l k';
  ti_callbacks : forall l o cb, heap w !! l = Some o -> cb ∈ all_callbacks o -> cb_ok w cb;
  ti_spawned : forall cb l, (cb, l) ∈ spawned w -> cb_ok w cb /\ exists k, sees w l k;
  ti_detailed : forall l o, heap w !! l = Some o -> l ∉ held w -> detailed o
}.

(** What the others may do to the orders that a thread has locked. *)
Record disturbs (H : gset loc) (w w' : World) : Prop := {
  di_orders : forall l o, heap w !! l = Some o -> exists o', heap w' !! l = Some o' /\ id o' = id o /\
    (l ∈ H -> amendingDetail o' = amendingDetail o /\
              (status o' = OrderStatusAmending -> status o = OrderStatusAmending));
  di_held : forall l, l ∈ H -> l ∈ held w -> l ∈ held w'
}.

Lemma disturbs_same H w w' :
  heap w' = heap w -> (forall l, l ∈ H -> l ∈ held w -> l ∈ held w') -> disturbs H w w'.
Proof. intros Hh Hl. constructor; [|done]. intros l o Ho. exists o. rewrite Hh. by repeat split. Qed.

Lemma disturbs_trans H w1 w2 w3 : disturbs H w1 w2 -> disturbs H w2 w3 -> disturbs H w1 w3.
Proof.
  intros [O1 H1] [O2 H2]. constructor; [|by eauto]. intros l o Hl.
  destruct (O1 _ _ Hl) as (o2 & Hl2 & Hid2 & Hk2), (O2 _ _ Hl2) as (o3 & Hl3 & Hid3 & Hk3).
  exists o3. split; [done|]. split; [congruence|]. intros Hin.
  destruct (Hk3 Hin) as [-> S3], (Hk2 Hin) as [-> S2]. auto.
Qed.

#[export] Instance dealer_interference : Interference.
Proof.
  refine {| Inv := threads_inv; R := disturbs |}.
  - intros H w. by apply disturbs_same.
  - apply disturbs_trans.
  - intros H w l. apply disturbs_same; [done|]. simpl. set_solver.
  - intros H w l Hn. apply disturbs_same; [done|]. simpl. set_solver.
  - intros w l [I1 I2 I3 I4 I5]. constructor; try done. simpl. intros l2 o Ho Hl2. apply (I5 l2); [done|set_solver].
Defined.

(** What a thread that holds [H] knows of the world. *)
Record knows (H : gset loc) (w : World) : Prop := {
  kn_inv : threads_inv w;
  kn_held : H ⊆ held w;
  kn_detailed : forall l, l ∈ H -> exists o, heap w !! l = Some o /\ detailed o
}.

Lemma disturbs_grows H w w' : disturbs H w w' -> grows w w'.
Proof.
  intros [Ho _] l k (o & Hl & <-). destruct (Ho _ _ Hl) as (o' & Hl' & Hid & _). by exists o'.
Qed.

Lemma knows_disturbs H w w' : knows H w -> disturbs H w w' -> threads_inv w' -> knows H w'.
Proof.
  intros [Hi Hh Hd] [Ho Hl] Hi'. constructor; [done|set_solver|].
  intros l Hin. destruct (Hd l Hin) as (o & Hlo & Hdet), (Ho _ _ Hlo) as (o' & Hl' & _ & Hk).
  destruct (Hk Hin) as [Ha Hs]. exists o'. split; [done|]. intros Hst. rewrite Ha. auto.
Qed.

(** ** Programs that keep what is known *)

(** A thread that holds [H] runs [p] to its end, holds [H] again, and [P] is true then. *)
Definition fine {A} (m : bool) (H : gset loc) (w : World) (p : prog A) (P : World -> A -> Prop) : Prop :=
  rg m p H w (fun H' w' x => H' = H /\ knows H w' /\ grows w w' /\ P w' x).

Definition ends {A} (m : bool) (H : gset loc) (w : World) (p : prog A) : Prop := fine m H w p (fun _ _ => True).

Lemma grows_refl w : grows w w.
Proof. by intros l k. Qed.

Lemma grows_trans w1 w2 w3 : grows w1 w2 -> grows w2 w3 -> grows w1 w3.
Proof. intros H1 H2 l k. auto. Qed.

Lemma fine_bind {A B} m H w (p : prog A) (k : A -> prog B) P Q :
  fine m H w p P -> (forall w' x, knows H w' -> grows w w' -> P w' x -> fine m H w' (k x) Q) ->
  fine m H w (bind p k) Q.
Proof.
  intros Hp Hk. apply rg_bind. eapply rg_mono; [exact Hp|]. intros H' w' x (-> & Hkn & Hg & HP).
  eapply rg_mono; [by apply Hk|]. intros H' w'' y (-> & Hkn' & Hg' & HQ). 
  split; [done|]. split; [done|]. split; [by eapply grows_trans|done].
Qed.

Lemma fine_mono {A} m H w (p : prog A) (P Q : World -> A -> Prop) :
  fine m H w p P -> (forall w' x, knows H w' -> grows w w' -> P w' x -> Q w' x) -> fine m H w p Q.
Proof. intros Hp HPQ. eapply rg_mono; [exact Hp|]. intros H' w' x (-> & ? & ? & ?). auto. Qed.

Lemma fine_ret {A} m H w (x : A) (P : World -> A -> Prop) : knows H w -> P w x -> fine m H w (Ret x) P.
Proof. intros Hk HP. split; [done|]. split; [done|]. by split; [apply grows_refl|]. Qed.

(** One access that disturbs nobody who holds other locks. *)
Lemma fine_act {A} m H w w1 (f : World -> option (World * A)) x (P : World -> A -> Prop) :
  knows H w -> f w = Some (w1, x) -> knows H w1 -> held w1 = held w -> grows w w1 ->
  (forall H', H' ## H -> disturbs H' w w1) ->
  (forall w', knows H w' -> disturbs H w1 w' -> P w' x) -> fine m H w (Act f Ret) P.
Proof.
  intros Hk Hf Hk1 Hh Hg Hd HP. exists w1, x. split; [done|]. split; [apply Hk1|]. split; [done|]. split; [done|].
  intros w' HR Hi. pose proof (knows_disturbs _ _ _ Hk1 HR Hi) as Hk'. pose proof (disturbs_grows _ _ _ HR) as Hg'.
  split; [done|]. split; [done|]. split; [by eapply grows_trans|]. by apply HP.
Qed.

(** Taking a lock: the order at [l] is as its last holder left it. *)
Lemma rg_acquire {A} m H w l k (p : prog A) Q :
  knows H w -> sees w l k -> l ∉ H -> m = true \/ H = ∅ ->
  (forall w', knows ({[l]} ∪ H) w' -> grows w w' -> rg m p ({[l]} ∪ H) w' Q) -> rg m (Lock l p) H w Q.
Proof.
  intros Hk (o & Ho & Hid) Hn Hm Hp. split; [done|]. split; [done|]. intros Hfree w1 HR Hi.
  apply Hp; [|exact (disturbs_grows _ _ _ HR)]. destruct Hk as [Hi0 Hh Hd].
  eapply knows_disturbs; [|exact HR|exact Hi].
  constructor; [by apply (@Inv_acquire _ dealer_interference w l)|set_solver|].
  intros l2 [->%elem_of_singleton|H2]%elem_of_union; [|by apply Hd].
  exists o. split; [done|]. by eapply (ti_detailed _ Hi0).
Qed.

Lemma rg_release {A} m H w l (p : prog A) Q :
  knows H w -> l ∈ H ->
  (forall w', knows (H ∖ {[l]}) w' -> grows w w' -> rg m p (H ∖ {[l]}) w' Q) -> rg m (Unlock l p) H w Q.
Proof.
  intros [[I1 I2 I3 I4 I5] Hh Hd] Hin Hp.
  assert (threads_inv (release l w)) as Hi.
  { constructor; try done. simpl. intros l2 o Ho Hl2. destruct (decide (l2 = l)) as [->|]; [|apply (I5 l2); set_solver].
    destruct (Hd l Hin) as (o2 & Ho2 & Hdet). by simplify_eq. }
  split; [done|]. split; [done|]. intros w' HR Hi'. apply Hp; [|exact (disturbs_grows _ _ _ HR)].
  eapply knows_disturbs; [|exact HR|exact Hi']. constructor; [done|set_solver|]. intros l2 Hl2. apply Hd. set_solver.
Qed.

Lemma fine_lock {A} m w l k (p : prog A) (P : A -> Prop) :
  knows ∅ w -> sees w l k ->
  (forall w', knows {[l]} w' -> grows w w' -> sees w' l k -> fine m {[l]} w' p (fun _ => P)) ->
  fine m ∅ w (WithOpLock l p) (fun _ => P).
Proof.
  intros Hk Hs Hp. eapply rg_acquire; [done|done|set_solver|by right|]. rewrite (right_id_L ∅ (∪)).
  intros w1 Hk1 Hg1. apply rg_bind. eapply rg_mono; [by apply Hp; [..|by apply Hg1]|].
  intros H' w2 x (-> & Hk2 & Hg2 & HP). apply rg_release; [done|set_solver|].
  rewrite difference_diag_L. intros w3 Hk3 Hg3. split; [done|]. split; [done|]. split; [|done].
  eapply grows_trans; [exact Hg1|]. by eapply grows_trans.
Qed.

(** *** Accesses *)

Lemma cb_ok_grows w w' cb : grows w w' -> cb_ok w cb -> cb_ok w' cb.
Proof.
  intros Hg. destruct cb as [|l d|]; simpl; [done| |done]. intros [o Ho].
  destruct (Hg l (id o)) as (o' & Ho' & _); [by exists o|eauto].
Qed.

Lemma fine_load {X} m H w l k (f : Order -> X) (P : World -> X -> Prop) :
  knows H w -> sees w l k ->
  (forall o w', heap w !! l = Some o -> id o = k -> (l ∈ H -> detailed o) -> knows H w' -> grows w w' -> P w' (f o)) ->
  fine m H w (load l f) P.
Proof.
  intros Hk (o & Ho & Hid) HP.
  apply (fine_act _ _ _ w _ (f o)); [done|by rewrite Ho|done..|apply grows_refl|intros; by apply disturbs_same|].
  intros w' Hk' Hg%disturbs_grows. apply HP; [done..| |done|done].
  intros Hl. destruct (kn_detailed _ _ Hk l Hl) as (o2 & Ho2 & Hd). by simplify_eq.
Qed.

(** A store that keeps the id and the callbacks, and no amendment begins or ends. *)
Definition keeps (w : World) (o o' : Order) : Prop :=
  id o' = id o /\ amendingDetail o' = amendingDetail o /\
  (status o' = OrderStatusAmending -> status o = OrderStatusAmending) /\
  forall cb, cb ∈ all_callbacks o' -> cb ∈ all_callbacks o \/ cb_ok w cb.

Lemma store_grows w l o o' :
  heap w !! l = Some o -> id o' = id o -> grows w (w <| heap := <[l := o']> (heap w) |>).
Proof.
  intros Hl Hid l2 k (o2 & H2 & Hk). unfold sees. simpl. destruct (decide (l2 = l)) as [->|Hne].
  - exists o'. rewrite lookup_insert_eq. split; [done|]. congruence.
  - exists o2. by rewrite lookup_insert_ne.
Qed.

(** The invariant after a store: what it does to the order at [l] is left to show. *)
Lemma store_inv w l o o' :
  threads_inv w -> heap w !! l = Some o -> id o' = id o ->
  (forall cb, cb ∈ all_callbacks o' -> cb ∈ all_callbacks o \/ cb_ok w cb) ->
  (l ∉ held w -> detailed o') -> threads_inv (w <| heap := <[l := o']> (heap w) |>).
Proof.
  intros [I1 I2 I3 I4 I5] Hl Hid Hcb Hd. pose proof (store_grows w l o o' Hl Hid) as Hg.
  constructor; simpl.
  - intros k l2 H2. by apply Hg, I1.
  - intros k l2 (k' & H2)%I2. exists k'. by apply Hg.
  - intros l2 o2 cb [[<- <-]|[_ H2]]%lookup_insert_Some Hin; apply (cb_ok_grows _ _ _ Hg).
    + destruct (Hcb cb Hin); [|done]. by eapply I3.
    + by eapply I3.
  - intros cb l2 (H1 & k & H2)%I4. split; [by apply (cb_ok_grows _ _ _ Hg)|]. exists k. by apply Hg.
  - intros l2 o2 [[<- <-]|[_ H2]]%lookup_insert_Some Hn; [by apply Hd|by eapply I5].
Qed.

Lemma store_disturbs H w l o o' :
  heap w !! l = Some o -> id o' = id o ->
  (l ∈ H -> amendingDetail o' = amendingDetail o /\ (status o' = OrderStatusAmending -> status o = OrderStatusAmending)) ->
  disturbs H w (w <| heap := <[l := o']> (heap w) |>).
Proof.
  intros Hl Hid Hk. constructor; [|done]. simpl. intros l2 o2 H2. destruct (decide (l2 = l)) as [->|Hne].
  - simplify_eq. exists o'. by rewrite lookup_insert_eq.
  - exists o2. by rewrite lookup_insert_ne.
Qed.

Lemma fine_store m H w l k (f : Order -> Order) :
  knows H w -> sees w l k -> (forall o, heap w !! l = Some o -> keeps w o (f o)) -> ends m H w (store l f).
Proof.
  intros Hk (o & Hl & _) Hf. destruct (Hf o Hl) as (H1 & H2 & H3 & H4).
  assert (forall H', disturbs H' w (w <| heap := <[l := f o]> (heap w) |>)) as Hd by (intros; by eapply store_disturbs).
  assert (threads_inv (w <| heap := <[l := f o]> (heap w) |>)) as Hi.
  { eapply store_inv; [apply Hk|done..|]. intros Hn Hs. rewrite H2. by eapply (ti_detailed _ (kn_inv _ _ Hk)); [..|auto]. }
  eapply fine_act; [done|by rewrite Hl| |done|by eapply store_grows|by intros|done].
  by eapply knows_disturbs.
Qed.

(** A store by the holder of the order's lock. *)
Lemma fine_store_locked m H w l o (f : Order -> Order) (P : World -> unit -> Prop) :
  knows H w -> l ∈ H -> heap w !! l = Some o -> id (f o) = id o -> all_callbacks (f o) = all_callbacks o ->
  detailed (f o) ->
  (forall w' o', knows H w' -> heap w' !! l = Some o' ->
     (status o' = OrderStatusAmending -> status (f o) = OrderStatusAmending) -> P w' tt) ->
  fine m H w (store l f) P.
Proof.
  intros Hk Hin Hl Hid Hcb Hd HP. set (w1 := w <| heap := <[l := f o]> (heap w) |>).
  eapply (fine_act _ _ _ w1); [done|by rewrite Hl| |done|by eapply store_grows|..].
  - destruct Hk as [Hi Hh Hdet]. constructor; [|done|].
    + eapply store_inv; [done..| |done]. intros cb. rewrite Hcb. by left.
    + intros l2 Hl2. simpl. destruct (decide (l2 = l)) as [->|Hne].
      * exists (f o). by rewrite lookup_insert_eq.
      * rewrite lookup_insert_ne by done. by apply Hdet.
  - intros H' Hdis. eapply store_disturbs; [done..|]. set_solver.
  - intros w' Hk' [Ho _]. destruct (Ho l (f o)) as (o' & Ho' & _ & Hst); [apply lookup_insert_eq|].
    apply (HP w' o'); [done..|]. by apply Hst.
Qed.

(** Other accesses leave the orders alone. *)
Record beside (w w' : World) : Prop := {
  be_heap : heap w' = heap w;
  be_held : held w' = held w;
  be_living : forall k l, LivingOrders (dealer w') !! k = Some l -> sees w l k;
  be_unrelated : forall k l, UnrelatedOrders (dealer w') !! k = Some l -> exists k', sees w l k';
  be_spawned : forall cb l, (cb, l) ∈ spawned w' -> cb_ok w cb /\ exists k, sees w l k
}.

Lemma beside_grows w w' : heap w' = heap w -> grows w w'.
Proof. intros Hh l k (o & Ho & Hid). exists o. by rewrite Hh. Qed.

Lemma beside_knows H w w' : knows H w -> beside w w' -> knows H w'.
Proof.
  intros [[I1 I2 I3 I4 I5] Hh Hd] [B1 B2 B3 B4 B5]. pose proof (beside_grows _ _ B1) as Hg.
  constructor; [|set_solver|by rewrite B1]. constructor.
  - intros k l H1. by apply Hg, B3.
  - intros k l (k' & H1)%B4. exists k'. by apply Hg.
  - intros l o cb. rewrite B1. intros Ho Hin. apply (cb_ok_grows _ _ _ Hg). by eapply I3.
  - intros cb l (H1 & k & H2)%B5. split; [by apply (cb_ok_grows _ _ _ Hg)|]. exists k. by apply Hg.
  - intros l o. rewrite B1, B2. apply I5.
Qed.

Lemma fine_beside {A} m H w (f : World -> option (World * A)) w1 x (P : World -> A -> Prop) :
  knows H w -> f w = Some (w1, x) -> beside w w1 ->
  (forall w', knows H w' -> grows w w' -> P w' x) -> fine m H w (Act f Ret) P.
Proof.
  intros Hk Hf Hb HP. pose proof (beside_grows _ _ (be_heap _ _ Hb)) as Hg.
  eapply fine_act; [done|done|by eapply beside_knows|apply Hb|done|intros; apply disturbs_same; [apply Hb|]|].
  - intros l _. by rewrite (be_held _ _ Hb).
  - intros w' Hk' Hg'%disturbs_grows. apply HP; [done|]. by eapply grows_trans.
Qed.

Lemma beside_maps H w w' :
  knows H w -> heap w' = heap w -> held w' = held w -> spawned w' = spawned w ->
  (forall k l, LivingOrders (dealer w') !! k = Some l -> sees w l k) ->
  (forall k l, UnrelatedOrders (dealer w') !! k = Some l -> exists k', sees w l k') -> beside w w'.
Proof. intros [[I1 I2 I3 I4 I5] _ _] Hh Hl Hs H1 H2. constructor; try done. by rewrite Hs. Qed.

Lemma fine_quiet {A} m H w (f : World -> option (World * A)) w1 x (P : World -> A -> Prop) :
  knows H w -> f w = Some (w1, x) -> heap w1 = heap w -> held w1 = held w -> spawned w1 = spawned w ->
  LivingOrders (dealer w1) = LivingOrders (dealer w) -> UnrelatedOrders (dealer w1) = UnrelatedOrders (dealer w) ->
  (forall w', knows H w' -> grows w w' -> P w' x) -> fine m H w (Act f Ret) P.
Proof.
  intros Hk Hf Hh Hl Hs H1 H2 HP. eapply fine_beside; [done|done| |done].
  eapply beside_maps; [done..| |]; [rewrite H1|rewrite H2]; apply (kn_inv _ _ Hk).
Qed.

Lemma fine_dget {X} m H w (f : DealerImpl -> X) (P : World -> X -> Prop) :
  knows H w -> (forall w', knows H w' -> grows w w' -> P w' (f (dealer w))) -> fine m H w (dget f) P.
Proof. intros Hk HP. by eapply fine_quiet. Qed.

Lemma fine_dmod m H w (f : DealerImpl -> DealerImpl) :
  knows H w ->
  (forall k l, LivingOrders (f (dealer w)) !! k = Some l -> sees w l k) ->
  (forall k l, UnrelatedOrders (f (dealer w)) !! k = Some l -> exists k', sees w l k') ->
  ends m H w (dmod f).
Proof. intros Hk H1 H2. by eapply fine_beside; [|done|eapply beside_maps|]. Qed.

(** A change of fields that hold no orders. *)
Lemma fine_dmod_quiet m H w (f : DealerImpl -> DealerImpl) :
  knows H w -> LivingOrders (f (dealer w)) = LivingOrders (dealer w) ->
  UnrelatedOrders (f (dealer w)) = UnrelatedOrders (dealer w) -> ends m H w (dmod f).
Proof. intros Hk H1 H2. by eapply fine_quiet. Qed.

Lemma fine_now m H w : knows H w -> ends m H w now.
Proof. intros Hk. by eapply fine_quiet. Qed.

Lemma fine_call m H w c : knows H w -> ends m H w (call_agent c).
Proof. intros Hk. by eapply fine_quiet. Qed.

Lemma fine_notify m H w err : knows H w -> ends m H w (notify err).
Proof. intros Hk. by eapply fine_quiet. Qed.

Lemma fine_go m H w cbs l k :
  knows H w -> sees w l k -> (forall cb, cb ∈ cbs -> cb_ok w cb) -> ends m H w (go_all cbs l).
Proof.
  intros Hk Hs Hcb. eapply fine_beside; [done|done| |done]. destruct Hk as [[I1 I2 I3 I4 I5] _ _].
  constructor; try done. simpl.
  intros cb l2 [Hin|(cb2 & [= -> ->] & Hin)%list_elem_of_fmap]%elem_of_app; [by apply I4|]. split; [by apply Hcb|by exists k].
Qed.

(** The goroutines of a list of callbacks. *)
Lemma fine_exec m H w l k (f : Order -> list OrderCallback) :
  knows H w -> sees w l k -> (forall o cb, cb ∈ f o -> cb ∈ all_callbacks o) ->
  ends m H w (cbs <- load l f ;; go_all cbs l).
Proof.
  intros Hk Hs Hf. eapply fine_bind.
  - eapply (fine_load _ _ _ _ _ _ (fun w' cbs => forall cb, cb ∈ cbs -> cb_ok w' cb)); [done..|].
    intros o w' Ho _ _ _ Hg cb Hin. apply (cb_ok_grows _ _ _ Hg).
    eapply (ti_callbacks _ (kn_inv _ _ Hk)); [done|by apply Hf].
  - intros w' cbs Hk' Hg Hcb. by eapply fine_go; [|apply Hg|].
Qed.

Lemma fine_alloc m H w o :
  knows H w -> all_callbacks o = [] -> status o <> OrderStatusAmending ->
  fine m H w (alloc o) (fun w' l => sees w' l (id o)).
Proof.
  intros Hk Hcb Hst. pose proof (is_fresh (dom (heap w))) as Hf%not_elem_of_dom.
  set (l := fresh (dom (heap w))) in *. set (w1 := w <| heap := <[l := o]> (heap w) |>).
  assert (forall l2 o2, heap w !! l2 = Some o2 -> heap w1 !! l2 = Some o2) as Hold.
  { intros l2 o2 H2. unfold w1. simpl. rewrite lookup_insert_ne; [done|]. congruence. }
  assert (grows w w1) as Hg by (intros l2 k (o2 & H2 & <-); exists o2; auto).
  assert (forall H', disturbs H' w w1) as Hd by (intros H'; constructor; [intros l2 o2 H2; exists o2; auto|done]).
  eapply (fine_act _ _ _ w1 _ l); [done|done| |done|done|by intros|].
  - eapply knows_disturbs; [done|done|]. destruct Hk as [[I1 I2 I3 I4 I5] _ _]. constructor.
    + intros k l2 H2. by apply Hg, I1.
    + intros k l2 (k' & H2)%I2. exists k'. by apply Hg.
    + intros l2 o2 cb. unfold w1. simpl. intros [[<- <-]|[_ H2]]%lookup_insert_Some Hin; [rewrite Hcb in Hin; by apply not_elem_of_nil in Hin|].
      apply (cb_ok_grows _ _ _ Hg). by eapply I3.
    + intros cb l2 (H1 & k & H2)%I4. split; [by apply (cb_ok_grows _ _ _ Hg)|]. exists k. by apply Hg.
    + intros l2 o2. unfold w1. simpl. intros [[<- <-]|[_ H2]]%lookup_insert_Some Hn; [by intros ?%Hst|by eapply I5].
  - intros w' _ Hg'%disturbs_grows. apply Hg'. exists o. split; [apply lookup_insert_eq|done].
Qed.

Lemma fine_for_each {X} m H w (xs : list X) (body : X -> prog unit) (S : World -> X -> Prop) :
  (forall w w' x, grows w w' -> S w x -> S w' x) ->
  (forall w x, knows H w -> S w x -> ends m H w (body x)) ->
  knows H w -> (forall x, x ∈ xs -> S w x) -> ends m H w (for_each xs body).
Proof.
  intros Hmono Hbody. revert w. induction xs as [|x xs IH]; intros w Hk Hxs; [by apply fine_ret|]. simpl.
  eapply fine_bind; [apply Hbody; [done|apply Hxs; left]|]. intros w' [] Hk' Hg _. apply IH; [done|].
  intros y Hy. eapply Hmono; [done|]. apply Hxs. by right.
Qed.

(** *** Automation *)

Lemma ends_bind {A B} m H w (p : prog A) (k : A -> prog B) Q :
  ends m H w p -> (forall w' x, knows H w' -> grows w w' -> fine m H w' (k x) Q) -> fine m H w (bind p k) Q.
Proof. intros Hp Hk. eapply fine_bind; [exact Hp|]. eauto. Qed.

Lemma ends_seq {A B} m H w (p : prog A) (k : A -> prog B) :
  ends m H w p -> (forall w' x, knows H w' -> grows w w' -> ends m H w' (k x)) -> ends m H w (bind p k).
Proof. apply ends_bind. Qed.

Lemma ends_ret {A} m H w (x : A) : knows H w -> ends m H w (Ret x).
Proof. intros Hk. by apply fine_ret. Qed.

Lemma ends_load {X} m H w l k (f : Order -> X) : knows H w -> sees w l k -> ends m H w (load l f).
Proof. intros Hk Hs. by eapply fine_load. Qed.

Lemma ends_dget {X} m H w (f : DealerImpl -> X) : knows H w -> ends m H w (dget f).
Proof. intros Hk. by apply fine_dget. Qed.

Lemma fine_id m H w l k : knows H w -> sees w l k -> fine m H w (load l GetID) (fun _ x => x = k).
Proof. intros Hk Hs. by eapply fine_load. Qed.

Lemma ends_mono {A} m H w (p : prog A) P : fine m H w p P -> ends m H w p.
Proof. intros Hp. by eapply fine_mono. Qed.

End Threads.

(** What was known of the world before is known now. *)
Ltac settle :=
  intros; cbv beta; repeat match goal with
  | G : grows ?w ?w', S : sees ?w _ _ |- _ => apply G in S
  | G : grows ?w ?w', S : cb_ok ?w _ |- _ => apply (cb_ok_grows _ _ _ G) in S
  end.

Ltac keeps_order :=
  intros ? _; try split_times; repeat split; try done; by left.

(** One access of a straight-line program. *)
Ltac access :=
  first
  [ apply ends_ret; eassumption
  | eapply ends_load; eassumption
  | apply ends_dget; eassumption
  | eapply fine_store; [eassumption|eassumption|keeps_order]
  | apply fine_now; eassumption
  | apply fine_call; eassumption
  | apply fine_notify; eassumption
  | apply fine_dmod_quiet; [eassumption|done|done]
  | eapply fine_exec; [eassumption|eassumption|unfold all_callbacks; intros; rewrite !elem_of_app; tauto] ].

Ltac accesses :=
  repeat first
  [ access
  | match goal with |- fine ?m ?H ?w ?p (fun _ _ => True) => change (ends m H w p) end
  | eapply ends_seq; [solve [access|eauto with threads]|settle]
  | case_match
  | solve [eauto with threads] ].

Create HintDb threads.

Section Blocks.
  Context {D : Decimal} {RT : GoRuntime} {AG : Agent}.

(** ** The blocks of the dealer *)

Lemma living_set_ends m H w l k : knows H w -> sees w l k -> ends m H w (living_set l).
Proof.
  intros Hk Hs. eapply fine_bind; [by eapply fine_id|]. intros w' x Hk' Hg ->.
  destruct (kn_inv _ _ Hk') as [I1 I2 _ _ _]. apply fine_dmod; [done| |done]. simpl.
  intros k2 l2 [[<- <-]|[_ H2]]%lookup_insert_Some; [by apply Hg|by apply I1].
Qed.

Lemma living_delete_ends m H w l k : knows H w -> sees w l k -> ends m H w (living_delete l).
Proof.
  intros Hk Hs. eapply ends_bind; [by eapply ends_load|]. intros w' x Hk' Hg.
  destruct (kn_inv _ _ Hk') as [I1 I2 _ _ _]. apply fine_dmod; [done| |done]. simpl.
  intros k2 l2 [_ H2]%lookup_delete_Some. by apply I1.
Qed.

Lemma done_append_ends m H w l : knows H w -> ends m H w (done_append l).
Proof. intros Hk. access. Qed.

Lemma noticeError_ends m H w err : knows H w -> ends m H w (noticeError err).
Proof. intros Hk. unfold noticeError. accesses. Qed.

#[local] Hint Resolve living_set_ends living_delete_ends done_append_ends noticeError_ends : threads.

Lemma setStatus_ends m H w l k s :
  knows H w -> sees w l k -> s <> OrderStatusAmending -> ends m H w (setStatus s l).
Proof. intros Hk Hs Hn. eapply fine_store; [done..|]. intros o _. repeat split; try done. by left. Qed.

#[local] Hint Extern 1 (ends _ _ _ (setStatus _ _)) => (eapply setStatus_ends; [eassumption|eassumption|done]) : threads.

Lemma detail_delete_ends m H w l k : knows H w -> sees w l k -> ends m H w (detail_delete l).
Proof. intros Hk Hs. unfold detail_delete. accesses. Qed.

Lemma mark_sent_ends m H w l k : knows H w -> sees w l k -> ends m H w (mark_sent l).
Proof. intros Hk Hs. unfold mark_sent. accesses. Qed.

Lemma recordLast_ends m H w l k : knows H w -> sees w l k -> ends m H w (recordLastOperatedTimestamp l).
Proof. intros Hk Hs. unfold recordLastOperatedTimestamp. accesses. Qed.

#[local] Hint Resolve detail_delete_ends mark_sent_ends recordLast_ends : threads.

Lemma acceptFilled_ends m H w l k : knows H w -> sees w l k -> ends m H w (acceptFilled l).
Proof. intros Hk Hs. unfold acceptFilled. accesses. Qed.

Lemma acceptPartiallyFilled_ends m H w l k : knows H w -> sees w l k -> ends m H w (acceptPartiallyFilled l).
Proof. intros Hk Hs. unfold acceptPartiallyFilled. accesses. Qed.

Lemma acceptCreate_ends m H w l k pid t1 t2 : knows H w -> sees w l k -> ends m H w (acceptCreate l pid t1 t2).
Proof. intros Hk Hs. unfold acceptCreate. accesses. Qed.

Lemma acceptCancel_ends m H w l k : knows H w -> sees w l k -> ends m H w (acceptCancel l).
Proof. intros Hk Hs. unfold acceptCancel. accesses. Qed.

Lemma rejectCreate_ends m H w l k : knows H w -> sees w l k -> ends m H w (rejectCreate l).
Proof. intros Hk Hs. unfold rejectCreate. accesses. Qed.

Lemma rejectCancel_ends m H w l k : knows H w -> sees w l k -> ends m H w (rejectCancel l).
Proof. intros Hk Hs. unfold rejectCancel. accesses. Qed.

Lemma abandonOrder_ends m H w l k : knows H w -> sees w l k -> ends m H w (abandonOrder l).
Proof. intros Hk Hs. unfold abandonOrder. accesses. Qed.

Lemma setOrderFillInfo_ends m H w l k data : knows H w -> sees w l k -> ends m H w (setOrderFillInfo l data).
Proof. intros Hk Hs. unfold setOrderFillInfo. accesses. Qed.

Lemma setOrderPartiallyFillInfo_ends m H w l k data :
  knows H w -> sees w l k -> ends m H w (setOrderPartiallyFillInfo l data).
Proof. intros Hk Hs. unfold setOrderPartiallyFillInfo. accesses. Qed.

(** *** Amendments: the status and the detail change in two stores *)

Lemma end_amend {A} m H w l k (p : prog A) Q :
  knows H w -> sees w l k -> l ∈ H ->
  (forall w', knows H w' -> grows w w' -> fine m H w' p Q) ->
  fine m H w (setStatus OrderStatusPending l ;; store l (setAmendingDetail None) ;; p) Q.
Proof.
  intros Hk (o & Hl & Hid) Hin Hp. eapply (fine_bind _ _ _ _ _ (fun w' _ =>
    exists o, heap w' !! l = Some o /\ status o <> OrderStatusAmending)).
  - eapply fine_store_locked; [done..|by intros Hs; simpl in Hs|].
    intros w' o' _ Hl' Hs. exists o'. split; [done|]. intros Hs'%Hs. by simpl in Hs'.
  - intros w1 [] Hk1 Hg1 (o1 & Hl1 & Hs1). eapply ends_bind.
    + eapply fine_store_locked; [done..|by intros ?%Hs1|done].
    + intros w2 [] Hk2 Hg2. apply Hp; [done|]. by eapply grows_trans.
Qed.

Lemma rejectAmend_ends m H w l k : knows H w -> sees w l k -> l ∈ H -> ends m H w (rejectAmend l).
Proof. intros Hk Hs Hl. eapply end_amend; [done..|]. settle. access. Qed.

Lemma acceptAmend_ends m H w l k d t1 t2 :
  knows H w -> sees w l k -> l ∈ H -> ends m H w (acceptAmend l (Some d) t1 t2).
Proof. intros Hk Hs Hl. eapply end_amend; [done..|]. settle. accesses. Qed.

(** The beginning: in between, the order is being amended and has no detail yet. *)
Lemma begin_amend {A} m H w l k d (p : prog A) Q :
  knows H w -> sees w l k -> l ∈ H ->
  (forall w', knows H w' -> grows w w' -> fine m H w' p Q) ->
  fine m H w (setStatus OrderStatusAmending l ;; store l (setAmendingDetail (Some d)) ;; p) Q.
Proof.
  intros Hk (o & Hl & Hid) Hin Hp. set (o1 := Order.setStatus OrderStatusAmending o).
  set (w1 := w <| heap := <[l := o1]> (heap w) |>).
  assert (forall H', H' ## H -> disturbs H' w w1) as Hd1.
  { intros H' Hdis. eapply store_disturbs; [done..|]. set_solver. }
  exists w1, tt. split; [by rewrite Hl|]. split; [|split; [done|]; split; [done|]].
  { eapply store_inv; [apply Hk|done|done|by left|]. intros []. by apply (kn_held _ _ Hk). }
  intros w2 Hd2 Hi2. pose proof (kn_held _ _ Hk) as Hheld.
  assert (forall l2 (o2 : Order), heap w1 !! l2 = Some o2 -> exists o' : Order, heap w2 !! l2 = Some o' /\ id o' = id o2 /\
    (l2 ∈ H -> amendingDetail o' = amendingDetail o2 /\
               (status o' = OrderStatusAmending -> status o2 = OrderStatusAmending))) as Ho by apply Hd2.
  destruct (Ho l o1) as (o2 & Hl2 & Hid2 & _); [apply lookup_insert_eq|].
  assert (l ∈ held w2) as Hlh by (apply (di_held _ _ _ Hd2); [done|by apply Hheld]).
  set (o3 := setAmendingDetail (Some d) o2). set (w3 := w2 <| heap := <[l := o3]> (heap w2) |>).
  assert (grows w w3) as Hg.
  { eapply grows_trans; [by eapply (store_grows w l o o1)|]. eapply grows_trans; [by eapply disturbs_grows|].
    by eapply store_grows. }
  assert (knows H w3) as Hk3.
  { constructor; [|intros l2 Hl2'; by apply (di_held _ _ _ Hd2), Hheld|].
    - eapply store_inv; [done|done|done|by left|done].
    - intros l2 Hin2. simpl. destruct (decide (l2 = l)) as [->|Hne].
      + exists o3. rewrite lookup_insert_eq. split; [done|]. by exists d.
      + rewrite lookup_insert_ne by done. destruct (kn_detailed _ _ Hk l2 Hin2) as (o4 & H4 & Hdet).
        destruct (Ho l2 o4) as (o5 & H5 & _ & Hs5); [by simpl; rewrite lookup_insert_ne|].
        destruct (Hs5 Hin2) as [Ha Hs]. exists o5. split; [done|]. intros Hst. rewrite Ha. auto. }
  exists w3, tt. split; [by rewrite Hl2|]. split; [apply Hk3|]. split; [done|]. split.
  { intros H' Hdis. eapply store_disturbs; [done..|]. set_solver. }
  intros w4 Hd4 Hi4. pose proof (knows_disturbs _ _ _ Hk3 Hd4 Hi4) as Hk4.
  assert (grows w w4) as Hg4 by (eapply grows_trans; [done|by eapply disturbs_grows]).
  eapply rg_mono; [by apply Hp|]. intros H' w5 x (-> & Hk5 & Hg5 & HQ).
  split; [done|]. split; [done|]. split; [by eapply grows_trans|done].
Qed.

#[local] Hint Resolve acceptFilled_ends acceptPartiallyFilled_ends acceptCreate_ends acceptCancel_ends rejectCreate_ends
  rejectCancel_ends abandonOrder_ends setOrderFillInfo_ends setOrderPartiallyFillInfo_ends : threads.

(** ** Lookups *)

Lemma getOrder_fine m H w oid :
  knows H w -> fine m H w (getOrder LivingOrders oid) (fun w' r => forall l, r = Some l -> sees w' l oid).
Proof. intros Hk. apply fine_dget; [done|]. intros w' _ Hg l Hl. by apply Hg, (kn_inv _ _ Hk). Qed.

Lemma get_if_fine m H w s oid :
  knows H w -> fine m H w (get_if LivingOrders s oid) (fun w' r => forall l, r = Some l -> sees w' l oid).
Proof.
  intros Hk. eapply fine_bind; [by apply getOrder_fine|]. intros w1 [l|] Hk1 _ Hs; [|by apply fine_ret].
  specialize (Hs l eq_refl). eapply fine_bind; [by eapply ends_load|]. intros w2 st Hk2 Hg _.
  apply fine_ret; [done|]. intros l2 Hl2. case_decide; simplify_eq. by apply Hg.
Qed.

(** The orders of a batch: each has the id of one of the responses. *)
Definition answered {V} (resps : gmap string V) (w : World) (l : loc) : Prop :=
  exists k, is_Some (resps !! k) /\ sees w l k.

Lemma answered_grows {V} (resps : gmap string V) w w' l : grows w w' -> answered resps w l -> answered resps w' l.
Proof. intros Hg (k & Hk & Hs). exists k. split; [done|]. by apply Hg. Qed.

Lemma filter_status_fine {V} (resps : gmap string V) m H w s found :
  knows H w -> (forall l, Some l ∈ found -> answered resps w l) ->
  fine m H w (filter_status s found) (fun w' os => forall l, l ∈ os -> answered resps w' l).
Proof.
  revert w. induction found as [|[l|] found IH]; intros w Hk Hf.
  - apply fine_ret; [done|]. by intros l ?%not_elem_of_nil.
  - destruct (Hf l) as (k & Hkey & Hs); [left|].
    eapply fine_bind; [by eapply ends_load|]. intros w1 st Hk1 Hg1 _. eapply fine_bind.
    + apply IH; [done|]. intros l2 Hl2. eapply answered_grows; [done|]. apply Hf. by right.
    + intros w2 os Hk2 Hg2 Hos. apply fine_ret; [done|]. intros l2. case_decide; [|apply Hos].
      intros [->|Hl2]%elem_of_cons; [|by apply Hos]. exists k. split; [done|]. by apply Hg2, Hg1.
  - apply IH; [done|]. intros l Hl. apply Hf. by right.
Qed.

Lemma gets_if_fine {V} (resps : gmap string V) m H w s ids :
  knows H w -> (forall k, k ∈ ids -> is_Some (resps !! k)) ->
  fine m H w (gets_if LivingOrders s ids) (fun w' os => forall l, l ∈ os -> answered resps w' l).
Proof.
  intros Hk Hids. eapply fine_bind.
  - apply (fine_dget _ _ _ _ (fun w' found => forall l, Some l ∈ found -> answered resps w' l)); [done|].
    intros w' _ Hg l (k & Hl & Hin)%list_elem_of_fmap. exists k. split; [by apply Hids|].
    by apply Hg, (kn_inv _ _ Hk).
  - intros w' found Hk' _ Hf. by apply filter_status_fine.
Qed.

Lemma range_keys_fine {V} (resps : gmap string V) m H w :
  knows H w -> fine m H w (range_keys resps) (fun _ ids => forall k, k ∈ ids -> is_Some (resps !! k)).
Proof. intros Hk. eapply fine_quiet; [done..|]. intros w' _ _ k. apply elem_of_GetKeys. Qed.

End Blocks.

#[export] Hint Resolve living_set_ends living_delete_ends done_append_ends noticeError_ends : threads.
#[export] Hint Extern 1 (ends _ _ _ (setStatus _ _)) => (eapply setStatus_ends; [eassumption|eassumption|done]) : threads.
#[export] Hint Resolve detail_delete_ends mark_sent_ends recordLast_ends : threads.
#[export] Hint Resolve acceptFilled_ends acceptPartiallyFilled_ends acceptCreate_ends acceptCancel_ends rejectCreate_ends
  rejectCancel_ends abandonOrder_ends setOrderFillInfo_ends setOrderPartiallyFillInfo_ends : threads.
