(* ===== verification/DealerThreads.v ===== *)
(** * The dealer under concurrent calls

    Strategies, responses of the agent, messages of the web socket and callbacks
    run in goroutines of their own.  [rstep] interleaves the nodes of any number
    of calls of the methods of [Dealer.v] with the arrival of new calls and the
    start of the goroutines that were spawned.  No schedule of them panics and they
    all end, unless two calls of [CancelOrders] wait for each other, as they can
    ([DealerTraces.cancel_orders_can_deadlock]). *)

From S2P Require Import Prelude GoStd Decimal QDecimal Domains Errors MutexFlag MutexMap MutexSlice.
From S2P Require Import Order OrderData Position World Dealer DealerInv DealerSteps DealerEvents DealerProps.
From S2P Require Import Interleaving DealerRules.
Local Open Scope prog_scope.

Section Calls.
  Context {D : Decimal} {RT : GoRuntime} {AG : Agent}.

(** ** The handlers of responses; a call starts without locks *)

(** A locked block of an order. *)
Lemma locked_ends m w l k (p : prog unit) :
  knows ∅ w -> sees w l k -> (forall w', knows {[l]} w' -> sees w' l k -> ends m {[l]} w' p) ->
  ends m ∅ w (WithOpLock l p).
Proof. intros Hk Hs Hp. by eapply (fine_lock _ _ _ _ _ (fun _ => True)); [..|intros; apply Hp]. Qed.

Lemma handleSendOrderResp_ends m w resp err : knows ∅ w -> ends m ∅ w (handleSendOrderResp resp err).
Proof.
  intros Hk. eapply fine_bind; [by apply get_if_fine|]. intros w1 [l|] Hk1 _ Hs; [|by apply fine_ret].
  eapply locked_ends; [done|by apply Hs|]. intros w2 Hk2 Hs2. accesses.
Qed.

Lemma handleAmendOrderResp_ends m w resp err :
  knows ∅ w -> (err = None -> ar_Err resp = None -> is_Some (ar_Detail resp)) ->
  ends m ∅ w (handleAmendOrderResp resp err).
Proof.
  intros Hk Hd. eapply fine_bind; [by apply get_if_fine|]. intros w1 [l|] Hk1 _ Hs; [|by apply fine_ret].
  eapply locked_ends; [done|by apply Hs|]. intros w2 Hk2 Hs2.
  assert (l ∈ ({[l]} : gset loc)) as Hl by set_solver.
  pose proof (rejectAmend_ends m {[l]} w2 l _ Hk2 Hs2 Hl) as Hrej.
  destruct err as [err|]; [|destruct (ar_Err resp) as [err|]]; [accesses..|].
  destruct Hd as [d ->]; [done..|]. by eapply acceptAmend_ends.
Qed.

Lemma handleCancelOrderResp_ends m w resp err : knows ∅ w -> ends m ∅ w (handleCancelOrderResp resp err).
Proof.
  intros Hk. eapply fine_bind; [by apply get_if_fine|]. intros w1 [l|] Hk1 _ Hs; [|by apply fine_ret].
  eapply locked_ends; [done|by apply Hs|]. intros w2 Hk2 Hs2. accesses.
Qed.

Lemma rejects_ends m w (reject : loc -> prog unit) orders :
  (forall w l k, knows {[l]} w -> sees w l k -> ends m {[l]} w (reject l)) ->
  knows ∅ w -> (forall l, l ∈ orders -> exists k, sees w l k) ->
  ends m ∅ w (for_each orders (fun order => WithOpLock order (reject order))).
Proof.
  intros Hr Hk Hs. apply (fine_for_each _ _ _ _ _ (fun w l => exists k, sees w l k)); [|clear -Hr|done|done].
  - intros w1 w2 l Hg [k H]. exists k. by apply Hg.
  - intros w1 l Hk1 [k H]. eapply locked_ends; [done..|]. intros w2 Hk2 Hs2. by eapply Hr.
Qed.

Lemma rejectCreates_ends m w orders :
  knows ∅ w -> (forall l, l ∈ orders -> exists k, sees w l k) -> ends m ∅ w (rejectCreates orders).
Proof. apply rejects_ends. intros. by eapply rejectCreate_ends. Qed.

Lemma rejectAmends_ends m w orders :
  knows ∅ w -> (forall l, l ∈ orders -> exists k, sees w l k) -> ends m ∅ w (rejectAmends orders).
Proof. apply rejects_ends. intros. eapply rejectAmend_ends; [done..|set_solver]. Qed.

Lemma rejectCancels_ends m w orders :
  knows ∅ w -> (forall l, l ∈ orders -> exists k, sees w l k) -> ends m ∅ w (rejectCancels orders).
Proof. apply rejects_ends. intros. by eapply rejectCancel_ends. Qed.

Lemma each_response_ends {X} m w orders (resps : gmap string (option X)) (handle : X -> prog unit) :
  (forall k r, resps !! k = Some r -> exists x, r = Some x /\ forall w, knows ∅ w -> ends m ∅ w (handle x)) ->
  knows ∅ w -> (forall l, l ∈ orders -> answered resps w l) -> ends m ∅ w (each_response orders resps handle).
Proof.
  intros Hh Hk Hs. apply (fine_for_each _ _ _ _ _ (answered resps)); [|clear w orders Hk Hs|done|done].
  { intros w1 w2 l. apply answered_grows. }
  intros w l Hk (k & [r Hr] & Hs). eapply fine_bind; [by eapply fine_id|]. intros w1 x Hk1 _ ->.
  destruct (Hh k r Hr) as (y & -> & Hy). rewrite Hr. by apply Hy.
Qed.

(** The three batch handlers. *)
Lemma batch_ends {X} m w s (resps : gmap string (option X)) err (reject : list loc -> prog unit) (handle : X -> prog unit) :
  (forall w orders, knows ∅ w -> (forall l, l ∈ orders -> exists k, sees w l k) -> ends m ∅ w (reject orders)) ->
  (err = None -> forall k r, resps !! k = Some r ->
     exists x, r = Some x /\ forall w, knows ∅ w -> ends m ∅ w (handle x)) ->
  knows ∅ w ->
  ends m ∅ w (ids <- range_keys resps ;;
              orders <- gets_if LivingOrders s ids ;;
              match err with
              | Some err => reject orders ;; noticeError err
              | None => each_response orders resps handle
              end).
Proof.
  intros Hr Hh Hk. eapply fine_bind; [by apply range_keys_fine|]. intros w1 ids Hk1 _ Hids.
  eapply fine_bind; [by apply (gets_if_fine resps)|]. intros w2 orders Hk2 _ Hos.
  destruct err as [err|]; [|by apply each_response_ends; [apply Hh|..]].
  eapply ends_bind; [apply Hr; [done|]|].
  - intros l Hl. destruct (Hos l Hl) as (k & _ & Hs). by exists k.
  - intros w3 [] Hk3 _. by apply noticeError_ends.
Qed.

Lemma handleSendOrdersResp_ends m w resps err :
  knows ∅ w -> (err = None -> no_nil (fun _ => True) resps) -> ends m ∅ w (handleSendOrdersResp resps err).
Proof.
  intros Hk Hn. apply batch_ends; [apply rejectCreates_ends| |done].
  intros He k r Hr. destruct (Hn He k r Hr) as (x & -> & _). exists x. split; [done|].
  intros w1 Hk1. by apply handleSendOrderResp_ends.
Qed.

Lemma handleAmendOrdersResp_ends m w resps err :
  knows ∅ w -> (err = None -> no_nil (fun r => ar_Err r = None -> is_Some (ar_Detail r)) resps) ->
  ends m ∅ w (handleAmendOrdersResp resps err).
Proof.
  intros Hk Hn. apply batch_ends; [apply rejectAmends_ends| |done].
  intros He k r Hr. destruct (Hn He k r Hr) as (x & -> & Hx). exists x. split; [done|].
  intros w1 Hk1. by apply handleAmendOrderResp_ends.
Qed.

Lemma handleCancelOrdersResp_ends m w resps err :
  knows ∅ w -> (err = None -> no_nil (fun _ => True) resps) -> ends m ∅ w (handleCancelOrdersResp resps err).
Proof.
  intros Hk Hn. apply batch_ends; [apply rejectCancels_ends| |done].
  intros He k r Hr. destruct (Hn He k r Hr) as (x & -> & _). exists x. split; [done|].
  intros w1 Hk1. by apply handleCancelOrderResp_ends.
Qed.

(** ** The handlers of the web socket *)

Lemma track_unrelated_ends m w data : knows ∅ w -> ends m ∅ w (track_unrelated data).
Proof.
  intros Hk. unfold track_unrelated. case_match; [by apply fine_ret|]. apply ends_seq.
  - case_decide; [|by apply fine_ret]. eapply fine_bind.
    + apply fine_alloc; [done|..]; unfold setConfirmTimestamps; by destruct (ArrivedAt data), (ConfirmedAt data).
    + intros w1 l Hk1 _ Hs. destruct (kn_inv _ _ Hk1) as [I1 I2 _ _ _]. apply fine_dmod; [done|done|]. simpl.
      intros k2 l2 [[<- <-]|[_ H2]]%lookup_insert_Some; [eexists; exact Hs|by eapply I2].
  - intros w1 [] Hk1 _. case_match; [|by apply fine_ret].
    eapply (fine_bind _ _ _ _ _ (fun w' r => forall l, r = Some l -> exists k, sees w' l k)).
    + apply fine_dget; [done|]. intros w2 _ Hg l (k & Hl)%(ti_unrelated _ (kn_inv _ _ Hk1)). exists k. by apply Hg.
    + intros w2 [l|] Hk2 _ Hs; [|by apply fine_ret]. destruct (Hs l eq_refl) as [k Hl].
      eapply locked_ends; [done..|]. intros w3 Hk3 Hl3. apply ends_seq; [by apply done_append_ends|].
      intros w4 [] Hk4 _. destruct (kn_inv _ _ Hk4) as [I1 I2 _ _ _]. apply fine_dmod; [done|done|]. simpl.
      intros k2 l2 [_ H2]%lookup_delete_Some. by eapply I2.
Qed.

Lemma handle_order_datum_ends m w data : knows ∅ w -> ends m ∅ w (handle_order_datum data).
Proof.
  intros Hk. apply ends_seq; [by apply track_unrelated_ends|]. intros w1 [] Hk1 _.
  assert (forall w, knows ∅ w -> ends m ∅ w (order <- getOrder LivingOrders (ID data) ;;
    match Status data, order with
    | OrderDataStatusPartiallyFilled, Some order => partially_fill_order order data
    | _, _ => Ret tt
    end)) as Hpartial.
  { clear w w1 Hk Hk1. intros w Hk. eapply fine_bind; [by apply getOrder_fine|]. intros w2 [l|] Hk2 _ Hs.
    - destruct (Status data); try (by apply fine_ret). eapply locked_ends; [done|by apply Hs|].
      intros w3 Hk3 Hs3. accesses.
    - destruct (Status data); by apply fine_ret. }
  eapply fine_bind; [by apply getOrder_fine|]. intros w2 [l|] Hk2 _ Hs.
  - destruct (Status data) eqn:Hst; rewrite <- ?Hst; try (by apply Hpartial).
    eapply locked_ends; [done|by apply Hs|]. intros w3 Hk3 Hs3. accesses.
  - destruct (Status data) eqn:Hst; rewrite <- ?Hst; by apply Hpartial.
Qed.

Lemma HandleOrderData_ends m w datas : knows ∅ w -> ends m ∅ w (HandleOrderData datas).
Proof.
  intros Hk. apply (fine_for_each _ _ _ _ _ (fun _ _ => True)); [done| |done|done].
  intros w1 data Hk1 _. by apply handle_order_datum_ends.
Qed.

Lemma HandlePositionData_ends m w datas : knows ∅ w -> ends m ∅ w (HandlePositionData datas).
Proof.
  intros Hk. unfold HandlePositionData. destruct (extractPositionData datas); [|by apply fine_ret].
  apply ends_seq; [by apply ends_dget|]. intros w1 last Hk1 _. case_match; [|by apply fine_ret].
  apply ends_seq; [access|]. intros w2 [] Hk2 _. apply ends_seq; [by apply ends_dget|]. intros w3 hs Hk3 _.
  by eapply fine_quiet.
Qed.

(** ** The operations *)

Lemma send_body_ends m w l k (call : AgentCall) :
  knows {[l]} w -> sees w l k ->
  ends m {[l]} w (living_set l ;; setStatus OrderStatusSending l ;; recordLastOperatedTimestamp l ;; call_agent call).
Proof. intros Hk Hs. accesses. Qed.

Lemma SendOrder_ends m w l k : knows ∅ w -> sees w l k -> ends m ∅ w (SendOrder l).
Proof.
  intros Hk Hs. apply ends_seq; [by apply ends_dget|]. intros w1 acc Hk1 Hg1. apply Hg1 in Hs.
  case_match; [by apply fine_ret|]. eapply ends_seq; [by eapply ends_load|]. intros w2 oid Hk2 Hg2. apply Hg2 in Hs.
  apply ends_seq; [by apply ends_dget|]. intros w3 [o|] Hk3 Hg3; [by apply fine_ret|]. apply Hg3 in Hs.
  apply ends_seq.
  - eapply (fine_lock _ _ _ _ _ (fun _ => True)); [done..|]. intros w4 Hk4 _ Hs4. by eapply send_body_ends.
  - intros w4 [err|] Hk4 Hg4; [|by apply fine_ret]. apply Hg4 in Hs. apply ends_seq; [|settle; access].
    eapply locked_ends; [done..|]. intros w5 Hk5 Hs5. by eapply rejectCreate_ends.
Qed.

Lemma any_living_ends m w orders :
  knows ∅ w -> (forall l, l ∈ orders -> exists k, sees w l k) -> ends m ∅ w (any_living orders).
Proof.
  revert w. induction orders as [|l orders IH]; intros w Hk Hs; [by apply fine_ret|].
  destruct (Hs l) as [k Hl]; [left|]. apply ends_seq; [by eapply ends_load|]. intros w1 oid Hk1 Hg1.
  apply ends_seq; [by apply ends_dget|]. intros w2 [o|] Hk2 Hg2; [by apply fine_ret|].
  apply IH; [done|]. intros l2 Hl2. destruct (Hs l2) as [k2 H2]; [by right|]. exists k2. by apply Hg2, Hg1.
Qed.

Lemma SendOrders_ends m w orders :
  knows ∅ w -> (forall l, l ∈ orders -> exists k, sees w l k) -> ends m ∅ w (SendOrders orders).
Proof.
  intros Hk Hs. assert (forall w', grows w w' -> forall l, l ∈ orders -> exists k, sees w' l k) as Hs'.
  { intros w' Hg l Hl. destruct (Hs l Hl) as [k H]. exists k. by apply Hg. }
  apply ends_seq; [by apply ends_dget|]. intros w1 acc Hk1 Hg1. case_match; [by apply fine_ret|].
  apply ends_seq; [by apply any_living_ends; [|apply Hs']|]. intros w2 [] Hk2 Hg2; [by apply fine_ret|].
  pose proof (grows_trans _ _ _ Hg1 Hg2) as Hg. apply ends_seq.
  - apply rejects_ends; [|done|by apply Hs']. intros w3 l k Hk3 Hs3. accesses.
  - intros w3 [] Hk3 Hg3. apply ends_seq; [access|]. intros w4 [err|] Hk4 Hg4; [|by apply fine_ret].
    apply ends_seq; [|settle; access]. apply rejectCreates_ends; [done|]. apply Hs'.
    eapply grows_trans; [exact Hg|]. by eapply grows_trans.
Qed.

Lemma amend_body_ends m w l k detail :
  knows {[l]} w -> sees w l k ->
  ends m {[l]} w (
    able <- load l isAmendAble ;;
    if negb able then Ret (Some (Sentinel DealingErrorOrderIsNotAmendable)) else
    need <- load l (fun o => isNeedToAmend o detail) ;;
    need <- deref need ;;
    if negb need then Ret None else
    st <- load l GetStatus ;;
    if negb (bool_decide (st = OrderStatusPending)) then
      st <- load l GetStatus ;;
      Ret (Some (Error (Sentinel DealingErrorOrderNotReadyForOperation)
                       ("(order status: " +:+ OrderStatusString st +:+ ")")))
    else
    setStatus OrderStatusAmending l ;;
    store l (setAmendingDetail (Some detail)) ;;
    recordLastOperatedTimestamp l ;;
    call_agent (CallAmendOrder l detail)).
Proof.
  intros Hk Hs. apply ends_seq; [by eapply ends_load|]. intros w1 able Hk1 Hg1. apply Hg1 in Hs.
  case_match; [by apply fine_ret|]. eapply (fine_bind _ _ _ _ _ (fun _ need => is_Some need)).
  { eapply fine_load; [done..|]. intros o w' _ _ Hd _ _. unfold isNeedToAmend.
    destruct (status o) eqn:Hst; try by eexists. destruct Hd as [d ->]; [set_solver|done|by eexists]. }
  intros w2 need Hk2 Hg2 [b ->]. apply Hg2 in Hs. apply ends_seq; [by apply fine_ret|]. intros w3 b' Hk3 Hg3. 
  apply Hg3 in Hs. case_match; [by apply fine_ret|]. apply ends_seq; [by eapply ends_load|].
  intros w4 st Hk4 Hg4. apply Hg4 in Hs. case_match; [apply ends_seq; [by eapply ends_load|settle; access]|].
  eapply begin_amend; [done..|set_solver|]. settle. accesses.
Qed.

Lemma amendOrder_ends m w l k detail : knows ∅ w -> sees w l k -> ends m ∅ w (amendOrder l detail).
Proof.
  intros Hk Hs. apply ends_seq; [by eapply ends_load|]. intros w1 oid Hk1 Hg1. apply Hg1 in Hs.
  apply ends_seq; [by apply ends_dget|]. intros w2 [o|] Hk2 Hg2; apply Hg2 in Hs; [|apply ends_seq; [access|settle; access]].
  apply ends_seq.
  - eapply (fine_lock _ _ _ _ _ (fun _ => True)); [done..|]. intros w3 Hk3 _ Hs3. by eapply amend_body_ends.
  - intros w3 [err|] Hk3 Hg3; [|by apply fine_ret]. apply Hg3 in Hs. apply ends_seq; [|settle; access].
    eapply locked_ends; [done..|]. intros w4 Hk4 Hs4. eapply rejectAmend_ends; [done..|set_solver].
Qed.

(** A callback that is added captures an order. *)
Lemma defer_amend_keeps w l k detail (f : OrderCallback -> Order -> Order) o :
  f = SetCreateCallback \/ f = SetAmendCallback -> sees w l k ->
  keeps w o (f (CbDeferredAmend l detail) o).
Proof.
  intros Hf (o2 & Ho & _).
  assert (cb_ok w (CbDeferredAmend l detail)) as Hok by (simpl; eauto).
  assert (forall cb, cb ∈ all_callbacks (f (CbDeferredAmend l detail) o) ->
    cb ∈ all_callbacks o \/ cb = CbDeferredAmend l detail) as Hcb.
  { destruct Hf as [-> | ->]; unfold SetCreateCallback, SetAmendCallback; case_match; callbacks_ok. }
  assert (id (f (CbDeferredAmend l detail) o) = id o /\
    amendingDetail (f (CbDeferredAmend l detail) o) = amendingDetail o /\
    status (f (CbDeferredAmend l detail) o) = status o) as (H1 & H2 & H3).
  { destruct Hf as [-> | ->]; unfold SetCreateCallback, SetAmendCallback; by case_match. }
  split; [done|]. split; [done|]. split; [congruence|]. intros cb [Hin| ->]%Hcb; auto.
Qed.

Lemma amend_or_defer_ends m w l k detail :
  knows {[l]} w -> sees w l k -> ends m {[l]} w (amend_or_defer l detail).
Proof.
  intros Hk Hs. apply ends_seq; [by eapply ends_load|]. intros w1 oid Hk1 Hg1. apply Hg1 in Hs.
  apply ends_seq; [by eapply ends_load|]. intros w2 st Hk2 Hg2. apply Hg2 in Hs.
  assert (forall f, f = SetCreateCallback \/ f = SetAmendCallback ->
    ends m {[l]} w2 (m' <- dget amendingDetailMap ;;
      (if decide (m' !! oid = None) then store l (f (CbDeferredAmend l detail)) else Ret tt) ;;
      dmod (fun d => d <| amendingDetailMap ::= insert oid detail |>) ;;
      Ret (None, false) : prog (option error * bool))) as Hdefer.
  { intros f Hf. apply ends_seq; [by apply ends_dget|]. intros w3 m' Hk3 Hg3. apply Hg3 in Hs.
    apply ends_seq; [|settle; accesses]. case_decide; [|by apply fine_ret].
    eapply fine_store; [done..|]. intros o _. by eapply defer_amend_keeps. }
  destruct st; try (by apply fine_ret); [by apply (Hdefer SetCreateCallback); left|by apply (Hdefer SetAmendCallback); right|].
  apply ends_seq; [access|settle; access].
Qed.

Lemma AmendOrder_ends m w l k detail : knows ∅ w -> sees w l k -> ends m ∅ w (AmendOrder l detail).
Proof.
  intros Hk Hs. apply ends_seq; [by apply ends_dget|]. intros w1 acc Hk1 Hg1. apply Hg1 in Hs.
  case_match; [by apply fine_ret|]. apply ends_seq.
  - eapply (fine_lock _ _ _ _ _ (fun _ => True)); [done..|]. intros w3 Hk3 _ Hs3. by eapply amend_or_defer_ends.
  - intros w2 [err []] Hk2 Hg2; [|by apply fine_ret]. eapply amendOrder_ends; [done|by apply Hg2].
Qed.

(** [cancelOrder] runs with the lock of its order, and without it when it was deferred. *)
Lemma cancelOrder_ends m H w l k : knows H w -> sees w l k -> ends m H w (cancelOrder l).
Proof.
  intros Hk Hs. apply ends_seq; [by eapply ends_load|]. intros w1 st1 Hk1 Hg1. apply Hg1 in Hs.
  case_decide; [by apply fine_ret|]. apply ends_seq; [by eapply ends_load|]. intros w2 st2 Hk2 Hg2. apply Hg2 in Hs.
  case_decide; [by apply fine_ret|]. apply ends_seq; [by eapply setStatus_ends|]. intros w3 [] Hk3 Hg3. apply Hg3 in Hs.
  apply ends_seq; [by eapply recordLast_ends|]. intros w4 [] Hk4 Hg4. apply Hg4 in Hs.
  apply ends_seq; [access|]. intros w5 [err|] Hk5 Hg5; [|by apply fine_ret]. apply Hg5 in Hs.
  apply ends_seq; [by eapply rejectCancel_ends|settle; access].
Qed.

Lemma replace_keeps w o (f : OrderCallback -> Order -> Order) :
  f = ReplaceCreateCallbacks \/ f = ReplaceAmendCallbacks -> keeps w o (f CbDeferredCancel o).
Proof.
  intros Hf. assert (forall cb, cb ∈ all_callbacks (f CbDeferredCancel o) ->
    cb ∈ all_callbacks o \/ cb = CbDeferredCancel) as Hcb by (destruct Hf as [-> | ->]; callbacks_ok).
  repeat split; [by destruct Hf as [-> | ->]..|]. intros cb [Hin| ->]%Hcb; [by left|by right].
Qed.

Lemma defer_cancel_ends m H w l k f :
  f = ReplaceCreateCallbacks \/ f = ReplaceAmendCallbacks -> knows H w -> sees w l k -> ends m H w (defer_cancel f l).
Proof.
  intros Hf Hk Hs. apply ends_seq; [by eapply detail_delete_ends|]. intros w1 [] Hk1 Hg1. apply Hg1 in Hs.
  eapply fine_store; [done..|]. intros o _. by apply replace_keeps.
Qed.

Lemma CancelOrder_ends m w l k : knows ∅ w -> sees w l k -> ends m ∅ w (CancelOrder l).
Proof.
  intros Hk Hs. apply ends_seq; [|settle; access]. eapply locked_ends; [done..|]. intros w1 Hk1 Hs1.
  apply ends_seq; [by eapply ends_load|]. intros w2 st Hk2 Hg2. apply Hg2 in Hs1.
  destruct st; try (by apply fine_ret).
  - eapply defer_cancel_ends; [by left|done..].
  - apply ends_seq; [by eapply cancelOrder_ends|settle; access].
  - eapply defer_cancel_ends; [by right|done..].
Qed.

Lemma run_callback_ends m w cb l k : knows ∅ w -> cb_ok w cb -> sees w l k -> ends m ∅ w (run_callback cb l).
Proof.
  intros Hk Hcb Hs. destruct cb as [n|l2 d|]; [by apply fine_ret| |].
  - destruct Hcb as [o2 Ho2]. assert (sees w l2 (id o2)) as Hs2 by by exists o2.
    apply ends_seq; [by eapply ends_load|]. intros w1 oid Hk1 Hg1. apply Hg1 in Hs2.
    apply ends_seq; [by apply ends_dget|]. intros w2 m' Hk2 Hg2. apply Hg2 in Hs2.
    apply ends_seq; [access|]. intros w3 [] Hk3 Hg3. apply Hg3 in Hs2.
    apply ends_seq; [by eapply amendOrder_ends|settle; access].
  - apply ends_seq; [by eapply cancelOrder_ends|settle; access].
Qed.

(** ** Batches of cancellations: many locks at once *)

Definition all_seen (w : World) (ls : list loc) : Prop := forall l, l ∈ ls -> exists k, sees w l k.

Lemma all_seen_grows w w' ls : grows w w' -> all_seen w ls -> all_seen w' ls.
Proof. intros Hg Hs l Hl. destruct (Hs l Hl) as [k H]. exists k. by apply Hg. Qed.

Lemma unique_map_fine m H w os u :
  knows H w -> all_seen w os -> (forall k l, u !! k = Some l -> sees w l k) ->
  fine m H w (unique_map os u) (fun w' u' => forall k l, u' !! k = Some l -> sees w' l k).
Proof.
  revert w u. induction os as [|l os IH]; intros w u Hk Hs Hu; [by apply fine_ret|].
  destruct (Hs l) as [k Hl]; [left|]. eapply fine_bind; [by eapply fine_id|]. intros w1 x Hk1 Hg ->. apply IH; [done|..].
  - intros l2 Hl2. destruct (Hs l2) as [k2 H2]; [by right|]. exists k2. by apply Hg.
  - intros k2 l2 [[<- <-]|[_ H2]]%lookup_insert_Some; [by apply Hg|by apply Hg, Hu].
Qed.

Lemma Unique_fine m H w os :
  knows H w -> all_seen w os -> fine m H w (Unique os) (fun w' os' => NoDup os' /\ all_seen w' os').
Proof.
  intros Hk Hs. eapply fine_bind; [by apply unique_map_fine|]. intros w1 u Hk1 _ Hu.
  eapply fine_quiet; [done..|]. intros w2 _ Hg. unfold Values. split.
  - apply NoDup_fmap_2_strong; [|rewrite entries_perm; apply NoDup_map_to_list].
    intros [k1 l1] [k2 l2] H1%elem_of_entries H2%elem_of_entries. simpl. intros ->.
    destruct (Hu _ _ H1) as (o1 & Ho1 & <-), (Hu _ _ H2) as (o2 & Ho2 & <-). by simplify_eq.
  - intros l ([k l'] & -> & Hin%elem_of_entries)%list_elem_of_fmap. exists k. by apply Hg, Hu.
Qed.

Lemma rg_lock_all {A} H w os (p : prog A) Q :
  knows H w -> all_seen w os -> NoDup os -> (forall l, l ∈ os -> l ∉ H) ->
  (forall w', knows (list_to_set os ∪ H) w' -> grows w w' -> rg true p (list_to_set os ∪ H) w' Q) ->
  rg true (lock_all os ;; p) H w Q.
Proof.
  revert H w. induction os as [|l os IH]; intros H w Hk Hs Hnd Hfree Hp.
  { simpl in *. rewrite (left_id_L ∅ (∪)) in Hp. apply Hp; [done|apply grows_refl]. }
  apply NoDup_cons in Hnd as [Hn Hnd]. destruct (Hs l) as [k Hl]; [left|].
  eapply rg_acquire; [done|done|apply Hfree; left|by left|]. intros w1 Hk1 Hg1. apply IH; [done|..].
  - eapply all_seen_grows; [done|]. intros l2 Hl2. apply Hs. by right.
  - done.
  - intros l2 Hl2. assert (l2 ∉ H) by (apply Hfree; by right). set_solver.
  - replace (list_to_set os ∪ ({[l]} ∪ H)) with (list_to_set (l :: os) ∪ H) by (simpl; set_solver).
    intros w2 Hk2 Hg2. apply Hp; [done|]. by eapply grows_trans.
Qed.

Lemma rg_unlock_all {A} m H w os (p : prog A) Q :
  knows H w -> NoDup os -> (forall l, l ∈ os -> l ∈ H) ->
  (forall w', knows (H ∖ list_to_set os) w' -> grows w w' -> rg m p (H ∖ list_to_set os) w' Q) ->
  rg m (unlock_all os ;; p) H w Q.
Proof.
  revert H w. induction os as [|l os IH]; intros H w Hk Hnd Hin Hp.
  { simpl in *. rewrite difference_empty_L in Hp. apply Hp; [done|apply grows_refl]. }
  apply NoDup_cons in Hnd as [Hn Hnd]. apply rg_release; [done|apply Hin; left|]. intros w1 Hk1 Hg1.
  apply IH; [done|done|..].
  - intros l2 Hl2. assert (l2 ∈ H) by (apply Hin; by right). set_solver.
  - replace (H ∖ {[l]} ∖ list_to_set os) with (H ∖ list_to_set (l :: os)) by (simpl; set_solver).
    intros w2 Hk2 Hg2. apply Hp; [done|]. by eapply grows_trans.
Qed.

Lemma WithOpeLocks_ends {A} w orders (f : prog A) :
  knows ∅ w -> all_seen w orders ->
  (forall H w', knows H w' -> grows w w' -> ends true H w' f) -> ends true ∅ w (WithOpeLocks orders f).
Proof.
  intros Hk Hs Hf. eapply fine_bind; [by apply Unique_fine|]. intros w1 os Hk1 Hg1 [Hnd Hos].
  apply rg_lock_all; [done..|set_solver|]. rewrite (right_id_L ∅ (∪)). intros w2 Hk2 Hg2.
  apply rg_bind. eapply rg_mono; [apply Hf; [done|by eapply grows_trans]|]. intros H' w3 x (-> & Hk3 & Hg3 & _).
  apply rg_unlock_all; [done|done|intros l; by rewrite elem_of_list_to_set|].
  rewrite difference_diag_L. intros w4 Hk4 Hg4. split; [done|]. split; [done|]. split; [|done].
  eapply grows_trans; [exact Hg2|]. by eapply grows_trans.
Qed.

Lemma cancel_targets_fine m H w orders :
  knows H w -> all_seen w orders -> fine m H w (cancel_targets orders) all_seen.
Proof.
  revert w. induction orders as [|l orders IH]; intros w Hk Hs.
  { apply fine_ret; [done|]. by intros l ?%not_elem_of_nil. }
  destruct (Hs l) as [k Hl]; [left|].
  assert (forall w', grows w w' -> all_seen w' orders) as Hrest.
  { intros w' Hg. eapply all_seen_grows; [done|]. intros l2 Hl2. apply Hs. by right. }
  eapply ends_bind; [by eapply ends_load|]. intros w1 st Hk1 Hg1. apply Hg1 in Hl.
  assert (forall f, f = ReplaceCreateCallbacks \/ f = ReplaceAmendCallbacks ->
    fine m H w1 (defer_cancel f l ;; cancel_targets orders) all_seen) as Hdefer.
  { intros f Hf. eapply ends_bind; [by eapply defer_cancel_ends|]. intros w2 [] Hk2 Hg2. apply IH; [done|].
    apply Hrest. by eapply grows_trans. }
  destruct st; try (by apply IH, Hrest); [apply Hdefer; by left| |apply Hdefer; by right].
  eapply fine_bind; [by apply IH, Hrest|]. intros w2 targets Hk2 Hg2 Ht. apply fine_ret; [done|].
  intros l2 [->|Hl2]%elem_of_cons; [|by apply Ht]. exists k. by apply Hg2.
Qed.

Lemma CancelOrders_ends w orders : knows ∅ w -> all_seen w orders -> ends true ∅ w (CancelOrders orders).
Proof.
  intros Hk Hs. eapply fine_bind; [by apply Unique_fine|]. intros w1 os Hk1 Hg1 [Hnd Hos]. apply ends_seq.
  - apply WithOpeLocks_ends; [done..|]. intros H w2 Hk2 Hg2.
    eapply fine_bind; [apply cancel_targets_fine; [done|by eapply all_seen_grows]|].
    intros w3 [|t ts] Hk3 Hg3 Ht; [by apply fine_ret|]. apply ends_seq.
    + apply (fine_for_each _ _ _ _ _ (fun w l => exists k, sees w l k)); [|clear|done|done].
      * intros w4 w5 l Hg [k Hl]. exists k. by apply Hg.
      * intros w4 l Hk4 [k Hl]. apply ends_seq; [by eapply setStatus_ends|]. settle. by eapply recordLast_ends.
    + intros w4 [] Hk4 Hg4. access.
  - intros w2 [err|] Hk2 Hg2; [|by apply fine_ret]. apply ends_seq; [|settle; access].
    apply rejectCancels_ends; [done|]. intros l Hl. destruct (Hos l Hl) as [k H]. exists k. by apply Hg2.
Qed.

Lemma ExportDoneOrders_ends m w : knows ∅ w -> ends m ∅ w ExportDoneOrders.
Proof. intros Hk. by eapply fine_quiet. Qed.

Lemma register_ends m w l k r n :
  knows ∅ w -> sees w l k -> ends m ∅ w (WithOpLock l (store l (register r (CbUser n)))).
Proof.
  intros Hk Hs. eapply locked_ends; [done..|]. intros w1 Hk1 Hs1. eapply fine_store; [done..|]. intros o _.
  assert (forall cb, cb ∈ all_callbacks (register r (CbUser n) o) -> cb ∈ all_callbacks o \/ cb = CbUser n) as Hcb.
  { destruct r; simpl; unfold SetCreateCallback, SetAmendCallback; repeat case_match; callbacks_ok. }
  assert (id (register r (CbUser n) o) = id o /\ amendingDetail (register r (CbUser n) o) = amendingDetail o /\
    status (register r (CbUser n) o) = status o) as (H1 & H2 & H3).
  { destruct r; simpl; unfold SetCreateCallback, SetAmendCallback; by repeat case_match. }
  split; [done|]. split; [done|]. split; [congruence|]. intros cb [Hin| ->]%Hcb; [by left|by right].
Qed.

(** ** A dealer in operation *)

(** What the callers of a method must respect at any time: the orders are orders of the heap, a
    successful answer carries the detail that was amended, and batches of answers hold no nil.
    (Goroutines that were spawned are no calls.) *)
Definition callable (w : World) (ev : Event) : Prop :=
  match ev with
  | EvNewOrder o => status o = OrderStatusBorn /\ all_callbacks o = []
  | EvRegister _ l _ | EvSendOrder l | EvAmendOrder l _ | EvCancelOrder l => is_Some (heap w !! l)
  | EvSendOrders ls | EvCancelOrders ls => forall l, l ∈ ls -> is_Some (heap w !! l)
  | EvAmendResp r e => e = None -> ar_Err r = None -> is_Some (ar_Detail r)
  | EvSendResps m e => e = None -> no_nil (fun _ => True) m
  | EvCancelResps m e => e = None -> no_nil (fun _ => True) m
  | EvAmendResps m e => e = None -> no_nil (fun r => ar_Err r = None -> is_Some (ar_Detail r)) m
  | EvCallback _ => False
  | _ => True
  end.

Definition is_batch (ev : Event) : bool := match ev with EvCancelOrders _ => true | _ => false end.

Definition call_prog (ev : Event) : prog unit := event_prog ev ;; Ret tt.

Lemma seen_order w l : is_Some (heap w !! l) -> exists k, sees w l k.
Proof. intros [o Ho]. exists (id o). by exists o. Qed.

Lemma seen_orders w ls : (forall l, l ∈ ls -> is_Some (heap w !! l)) -> all_seen w ls.
Proof. intros Hs l Hl. by apply seen_order, Hs. Qed.

Lemma call_ends w ev : knows ∅ w -> callable w ev -> ends (is_batch ev) ∅ w (call_prog ev).
Proof.
  intros Hk Hc. apply ends_seq; [|intros; by apply ends_ret].
  assert (forall A (p : prog A), ends (is_batch ev) ∅ w p -> ends (is_batch ev) ∅ w (p ;; Ret ([] : list loc))) as Hret.
  { intros A p Hp. apply ends_seq; [done|]. intros; by apply ends_ret. }
  destruct ev; simpl in Hc; try done; unfold event_prog; try apply Hret.
  - eapply ends_mono, fine_alloc; [done|apply Hc|by rewrite (proj1 Hc)].
  - destruct (seen_order _ _ Hc) as [k Hs]. by eapply register_ends.
  - destruct (seen_order _ _ Hc) as [k Hs]. by eapply SendOrder_ends.
  - by apply SendOrders_ends, seen_orders.
  - destruct (seen_order _ _ Hc) as [k Hs]. by eapply AmendOrder_ends.
  - destruct (seen_order _ _ Hc) as [k Hs]. by eapply CancelOrder_ends.
  - by apply CancelOrders_ends, seen_orders.
  - by apply handleSendOrderResp_ends.
  - by apply handleSendOrdersResp_ends.
  - by apply handleAmendOrderResp_ends.
  - by apply handleAmendOrdersResp_ends.
  - by apply handleCancelOrderResp_ends.
  - by apply handleCancelOrdersResp_ends.
  - by apply HandleOrderData_ends.
  - by apply HandlePositionData_ends.
  - apply fine_dmod_quiet; done.
  - apply ends_seq; [by apply ExportDoneOrders_ends|]. intros; by apply ends_ret.
  - by eapply fine_quiet.
Qed.

(** The world and the calls that run in it, those that have ended included. *)
Definition running : Type := World * list (bool * prog unit).

Inductive rstep : running -> running -> Prop :=
  (** a node of one of the calls *)
  | rstep_node i m p p' w w' ts :
      ts !! i = Some (m, p) -> step1 p w = Some (p', w') -> rstep (w, ts) (w', <[i := (m, p')]> ts)
  (** a new call *)
  | rstep_call ev w ts :
      callable w ev -> rstep (w, ts) (w, ts ++ [(is_batch ev, call_prog ev)])
  (** a goroutine that was spawned begins *)
  | rstep_go i cb l w ts :
      spawned w !! i = Some (cb, l) ->
      rstep (w, ts) (w <| spawned ::= delete i |>, ts ++ [(false, run_callback cb l)]).

Definition operates (c : running) : Prop :=
  exists symbol agent' onError' t, rtc rstep (initial_world symbol agent' onError' t, []) c.

Lemma initial_threads_inv s ag oe t : threads_inv (initial_world s ag oe t).
Proof. constructor; try done. by intros cb l ?%not_elem_of_nil. Qed.

Lemma callable_grows w w' ev : grows w w' -> callable w ev -> callable w' ev.
Proof.
  intros Hg. assert (forall l, is_Some (heap w !! l) -> is_Some (heap w' !! l)) as Hl.
  { intros l [o Ho]. destruct (Hg l (id o)) as (o' & Ho' & _); [by exists o|eauto]. }
  destruct ev; simpl; eauto.
Qed.

Lemma new_thread_ok m w (p : prog unit) :
  (forall w', grows w w' -> knows ∅ w' -> ends m ∅ w' p) -> thread_ok (m, p) ∅ w.
Proof.
  intros Hp w' HR Hi. eapply rg_mono.
  - apply Hp; [exact (disturbs_grows _ _ _ HR)|]. constructor; [done|set_solver|set_solver].
  - by intros H w2 x (-> & _).
Qed.

Lemma rstep_pool c c' Hs : pool_ok c.1 c.2 Hs -> rstep c c' -> exists Hs', pool_ok c'.1 c'.2 Hs'.
Proof.
  intros Hp Hst. destruct Hst as [i m p p' w w' ts Hi Hs1|ev w ts Hc|i cb l w ts Hi]; simpl in *.
  - by eapply pool_step.
  - exists (Hs ++ [∅]). apply pool_new; [done|]. apply new_thread_ok. intros w' Hg Hk.
    apply call_ends; [done|]. by eapply callable_grows.
  - destruct (po_inv _ _ _ Hp) as [I1 I2 I3 I4 I5]. simpl in *.
    destruct (I4 cb l) as (Hcb & k & Hl); [by eapply list_elem_of_lookup_2|].
    exists (Hs ++ [∅]). apply pool_new.
    + eapply pool_world; [done| |done|intros H; by apply disturbs_same].
      constructor; try done. intros cb2 l2 H2. apply I4. exact (list_elem_of_delete_inv _ _ _ H2).
    + apply new_thread_ok. intros w' Hg Hk.
      eapply run_callback_ends; [done|by eapply cb_ok_grows, Hcb|by apply Hg].
Qed.

Lemma operates_pool c : operates c -> exists Hs, pool_ok c.1 c.2 Hs.
Proof.
  intros (s & ag & oe & t & Hst). assert (exists Hs, pool_ok (initial_world s ag oe t) [] Hs) as H0.
  { exists []. apply pool_empty; [apply initial_threads_inv|done]. }
  change (exists Hs, pool_ok (initial_world s ag oe t, @nil (bool * prog unit)).1 (initial_world s ag oe t, @nil (bool * prog unit)).2 Hs) in H0.
  induction Hst as [c|c c1 c' H1 _ IH]; [done|]. apply IH. destruct H0 as [Hs Hp]. by eapply rstep_pool.
Qed.

(** C2: concurrent calls of a dealer end.  In every state that any number of concurrent calls,
    node by node in any order, can reach: no call panics; without new calls every schedule is
    finite; and unless two calls of [CancelOrders] are under way, whatever the calls do next,
    they can all end, with every operation lock given back. *)
Theorem concurrent_calls_end w ts :
  operates (w, ts) ->
  (forall t, t ∈ ts -> ~ panics w t.2) /\
  Acc (fun c' c => cstep c c') (w, ts.*2) /\
  (one_multi ts -> forall c', csteps (w, ts.*2) c' ->
     ~ stuck c' /\ exists c'', csteps c' c'' /\ forallb finished c''.2 = true /\ held c''.1 = ∅).
Proof.
  intros (Hs & Hp)%operates_pool. split; [|split].
  - intros t Ht. by eapply pool_no_panic.
  - apply cstep_wf.
  - intros Hone c' Hc. destruct (pool_ends _ _ _ _ Hp Hone Hc) as (c'' & Hc'' & Hfin & Hh).
    split; [|by exists c'']. intros [Hex Hno]. inversion Hc'' as [c0|c1 c2 c3 Hst]; subst; [|by eapply Hno].
    clear -Hex Hfin. induction c''.2 as [|p ps IH]; [done|]. simpl in *. destruct (finished p); [by apply IH|done].
Qed.

(** What is true of the orders in every such state: a living order is there under its own id, and
    one that is being amended and whose lock is free has the detail of its amendment. *)
Theorem concurrent_state w ts :
  operates (w, ts) ->
  (forall k l, LivingOrders (dealer w) !! k = Some l -> exists o, heap w !! l = Some o /\ id o = k) /\
  (forall l o, heap w !! l = Some o -> l ∉ held w -> status o = OrderStatusAmending -> is_Some (amendingDetail o)).
Proof. intros (Hs & [[I1 _ _ _ I5] _ _ _])%operates_pool. split; [exact I1|exact I5]. Qed.

End Calls.

(** ** An order that is sent while its fill arrives *)

Section Witnesses.
  #[local] Existing Instance QDecimal.
  #[local] Existing Instance in_order.
  #[local] Existing Instance taking.

Definition demo_fill : OrderData :=
  MkOrderData "x1" "" SideBuy 100%Q 2%Q 100%Q 0%Q 2%Q OrderDataStatusFilled None None.

Definition demo_threads (p : prog unit) : list (bool * prog unit) :=
  [(false, p); (false, call_prog (EvSendOrder 0)); (false, call_prog (EvOrderData [demo_fill]))].

Lemma demo_operates : exists w p, operates (w, demo_threads p).
Proof.
  assert (exists w1 p1, step1 (call_prog (EvNewOrder demo_order)) (initial_world 1 2 3 0%Z) = Some (p1, w1) /\
    is_Some (heap w1 !! 0)) as (w1 & p1 & Hstep & Hborn).
  { eexists _, _. split; [reflexivity|]. by eexists. }
  exists w1, p1, 1, 2, 3, 0%Z.
  eapply rtc_l; [by apply (rstep_call (EvNewOrder demo_order)); split|].
  eapply rtc_l; [by eapply (rstep_node 0)|]. simpl.
  eapply rtc_l; [by apply (rstep_call (EvSendOrder 0))|].
  eapply rtc_l; [by apply (rstep_call (EvOrderData [demo_fill]))|]. apply rtc_refl.
Qed.

Lemma concurrent_calls_end_witness : exists w p c,
  csteps (w, (demo_threads p).*2) c /\ forallb finished c.2 = true /\ held c.1 = ∅.
Proof.
  destruct demo_operates as (w & p & Ho). exists w, p.
  destruct (concurrent_calls_end w (demo_threads p) Ho) as (_ & _ & Hend).
  destruct (Hend ltac:(by intros [|[|[|]]] j ti tj Hi; simplify_eq/=) (w, (demo_threads p).*2) (csteps_refl _))
    as (_ & c & Hc). by exists c.
Defined.

End Witnesses.
