(* ===== verification/DealerSpecs.v ===== *)
(** * The functional behaviour of the dealer's operations and handlers

    For each operation, what it does on every branch: the fields of the orders
    and of the dealer, the calls of the agent, the goroutines started, the errors
    reported.  The worlds are arbitrary (no invariant is needed), except that
    the operation lock of the order is free. *)

From S2P Require Import Prelude GoStd Decimal QDecimal Domains Errors MutexFlag MutexMap MutexSlice.
From S2P Require Import Order OrderData Position World Dealer DealerInv DealerEvents.
Local Open Scope prog_scope.

Section Specs.
  Context {D : Decimal} {RT : GoRuntime} {AG : Agent}.

(** The error a response handler acts on: its argument, else the response's own. *)
Definition first_error (err resp_err : option error) : option error :=
  match err with Some e => Some e | None => resp_err end.

(** Errors after which a dealer accepts no more orders. *)
Definition critical (e : error) : bool :=
  negb (Is e InfoError || Is e WarnError || Is e HttpRequestError).

(** The notices and the switch after a report of [e]. *)
Record reported (e : error) (w w' : World) : Prop := {
  rp_accept : MutexFlag.Get (acceptOrder (dealer w')) =
              MutexFlag.Get (acceptOrder (dealer w)) && negb (critical e);
  rp_notices : notices w' = notices w ++ (if Is e InfoError then [] else [e])
}.

Lemma held_restore (w : World) l : l ∉ held w -> ({[l]} ∪ held w) ∖ {[l]} = held w.
Proof. set_solver. Qed.

Lemma wp_noticeError e w (Q : World -> unit -> Prop) :
  (forall w', quiet w w' -> calls w' = calls w -> reported e w w' ->
     dealer w' = (dealer w) <| acceptOrder := acceptOrder (dealer w') |> -> Q w' tt) ->
  wp (noticeError e) w Q.
Proof.
  intros HQ. assert (dealer w = (dealer w) <| acceptOrder := acceptOrder (dealer w) |>) as Heta.
  { by destruct (dealer w). }
  unfold noticeError. destruct (Is e InfoError) eqn:H1;
    [|destruct (Is e WarnError || Is e HttpRequestError) eqn:H2]; simpl; apply HQ; try done;
    try by repeat constructor.
  all: split; simpl; unfold critical; rewrite ?H1; simpl; rewrite ?H2, ?app_nil_r; simpl;
    by rewrite ?andb_true_r, ?andb_false_r.
Qed.

(** ** Sending *)

(** C11: [SendOrder] on every branch.  A stopped dealer and an order already living
    change nothing and give an error.  Otherwise the agent is called once; if it
    takes the order, the order is living and being sent, stamped with the time; if
    it refuses, the order is done and rejected, not living, retained, its
    create-reject callbacks run and the agent's error is returned. *)
Theorem SendOrder_spec w l o :
  heap w !! l = Some o -> l ∉ held w ->
  exists w' err, run (SendOrder l) w = Done w' err /\
  if negb (MutexFlag.Get (acceptOrder (dealer w)))
  then w' = w /\ err = Some (NewError "dealer does not accept order") else
  match LivingOrders (dealer w) !! id o with
  | Some _ => w' = w /\ err = Some (Sentinel DealingErrorOrderIsAlreadyExists)
  | None =>
      let o1 := o <| status := OrderStatusSending |> <| lastOperatedAt := Some (clock w) |> in
      calls w' = calls w ++ [CallSendOrder l] /\ held w' = held w /\
      err = agent_reply (calls w) (CallSendOrder l) /\
      match err with
      | None =>
          heap w' = <[l := o1]> (heap w) /\ spawned w' = spawned w /\
          dealer w' = (dealer w) <| LivingOrders ::= <[id o := l]> |>
      | Some _ =>
          heap w' = <[l := o1 <| status := OrderStatusDone |>
                              <| orderDoneReason := Some OrderDoneReasonRejected |>]> (heap w) /\
          spawned w' = spawned w ++ ((fun cb => (cb, l)) <$> createRejectCallbacks o) /\
          dealer w' = (dealer w) <| doneOrders ::= fun s => Append s l |>
      end
  end.
Proof.
  intros Hl Hn. apply wp_run. unfold SendOrder. simpl.
  destruct (MutexFlag.Get _); simpl; [|done]. wp_sym. change (GetID o) with (id o).
  destruct (LivingOrders (dealer w) !! id o) eqn:Hliv; [done|]. simpl.
  split; [done|]. wp_sym. destruct (agent_reply _ _) as [e|] eqn:He; wp_sym.
  - rewrite held_restore by done. split; [done|]. rewrite ?insert_insert_eq.
    rewrite held_restore by done. repeat split.
    change (GetID _) with (id o). destruct (dealer w); unfold Prelude.update; simpl in *.
    by rewrite delete_insert_id.
  - rewrite ?insert_insert_eq, held_restore by done. done.
Qed.

(** ** Responses *)

(** The order a response is about: living, with the status of its operation. *)
Definition awaiting (s : OrderStatus) (oid : string) (w : World) (l : loc) (o : Order) : Prop :=
  LivingOrders (dealer w) !! oid = Some l /\ heap w !! l = Some o /\ status o = s /\ id o = oid.

(** An order that ends: done, out of the living orders, retained; [o'] is its final state. *)
Record ends (l : loc) (o' : Order) (w w' : World) : Prop := {
  en_heap : heap w' = <[l := o']> (heap w);
  en_living : LivingOrders (dealer w') = delete (id o') (LivingOrders (dealer w));
  en_done : doneOrders (dealer w') = Append (doneOrders (dealer w)) l
}.

(** An order that goes on. *)
Record goes_on (l : loc) (o' : Order) (w w' : World) : Prop := {
  go_heap : heap w' = <[l := o']> (heap w);
  go_living : LivingOrders (dealer w') = LivingOrders (dealer w);
  go_done : doneOrders (dealer w') = doneOrders (dealer w)
}.

Definition starts (cbs : list OrderCallback) (l : loc) (w w' : World) : Prop :=
  spawned w' = spawned w ++ ((fun cb => (cb, l)) <$> cbs).

Definition unreported (w w' : World) : Prop :=
  acceptOrder (dealer w') = acceptOrder (dealer w) /\ notices w' = notices w.

Ltac report Hl :=
  apply wp_noticeError; intros ? [Hqh Hqd Hqs [Hq1 Hq2 Hq3]] Hqc [Hra Hrn] Hd; simpl in *;
  rewrite ?insert_insert_eq in *.

(** The response to a sent order.  An error ends the order as rejected and is
    reported; a success makes a limit order pending, with the exchange's id (when
    the response has one), the time it was sent and the exchange's times, and runs
    its create callbacks; a market order waits for its fill. *)
Theorem send_response_spec w l o resp err :
  awaiting OrderStatusSending (cr_OrderID resp) w l o -> l ∉ held w ->
  exists w', run (handleSendOrderResp resp err) w = Done w' tt /\ calls w' = calls w /\
  match first_error err (cr_Err resp) with
  | Some e =>
      ends l (o <| status := OrderStatusDone |>
                <| orderDoneReason := Some OrderDoneReasonRejected |>) w w' /\
      starts (createRejectCallbacks o) l w w' /\ reported e w w'
  | None =>
      unreported w w' /\
      if IsPricable (orderType o) then
        exists o', goes_on l o' w w' /\ starts (createCallbacks o) l w w' /\
          status o' = OrderStatusPending /\
          publicID o' = (if decide (cr_PublicID resp = ""%string) then publicID o else cr_PublicID resp) /\
          sentAt o' = or_else (lastOperatedAt o) (sentAt o) /\
          arrivedAt o' = or_else (cr_ArrivedAt resp) (arrivedAt o) /\
          confirmedAt o' = or_else (cr_ConfirmedAt resp) (confirmedAt o)
      else goes_on l o w w' /\ starts [] l w w'
  end.
Proof.
  intros (Hk & Hl & Hs & Hid) Hn. apply run_unit_wp. unfold handleSendOrderResp.
  simpl. rewrite Hk. wp_sym. unfold GetStatus. rewrite Hs, decide_True by done. simpl.
  split; [done|].
  assert (forall e, wp (rejectCreate l;; noticeError e) (acquire l w) (fun w' _ =>
    calls w' = calls w /\ ends l (o <| status := OrderStatusDone |>
                <| orderDoneReason := Some OrderDoneReasonRejected |>) w w' /\
      starts (createRejectCallbacks o) l w w' /\ reported e w w')) as Hrej.
  { intros e. wp_sym. report Hl. split; [done|]. split; [|by split].
    constructor; [done| |done]. rewrite Hq1. done. }
  rewrite wp_bind. destruct err as [e|]; [|destruct (cr_Err resp) as [e|]]; simpl first_error.
  1, 2: (eapply wp_mono; [apply Hrej|]; intros w' [] (H1 & [] & H2 & []); by repeat split).
  wp_sym. unfold GetStatus. rewrite Hs, decide_True by done. wp_sym.
  unfold GetOrderType. destruct (orderType o) eqn:Hty; simpl.
  1, 2: (split; [done|]; split; [done|]; split; [|by unfold starts; rewrite app_nil_r];
    constructor; simpl; [by rewrite insert_id|done|done]).
  all: wp_sym; case_decide; wp_sym; (split; [done|]); (split; [done|]).
  all: eexists; rewrite ?insert_insert_eq; (split; [by constructor|]); split.
  all: try by (unfold starts; simpl; split_times).
  all: rewrite ?decide_True, ?decide_False by naive_solver; split_times; done.
Qed.

(** How an amend or cancel response with an error ends: the order is abandoned when
    the exchange does not know it, silently, and otherwise pending again, reported. *)
Definition refused (e : error) (l : loc) (o o' : Order) (cbs : list OrderCallback)
    (w w' : World) : Prop :=
  if Is e OrderIsNotExists then
    ends l (o <| status := OrderStatusDone |>
              <| orderDoneReason := Some OrderDoneReasonAbandoned |>
              <| sentAt := or_else (lastOperatedAt o) (sentAt o) |>) w w' /\
    starts [] l w w' /\ unreported w w'
  else goes_on l o' w w' /\ starts cbs l w w' /\ reported e w w'.

Lemma abandonOrder_run l w o (Q : World -> unit -> Prop) :
  heap w !! l = Some o ->
  (forall w', ends l (o <| status := OrderStatusDone |>
              <| orderDoneReason := Some OrderDoneReasonAbandoned |>
              <| sentAt := or_else (lastOperatedAt o) (sentAt o) |>) w w' ->
     starts [] l w w' -> unreported w w' -> calls w' = calls w -> Q w' tt) ->
  wp (abandonOrder l) w Q.
Proof.
  intros Hl HQ. wp_sym. apply HQ; [|by unfold starts; rewrite app_nil_r|done|done].
  destruct o as []; simpl. constructor; rewrite ?insert_insert_eq; simpl.
  - unfold setSentTimestamp, getLastOperatedTimestamp. simpl. by destruct lastOperatedAt.
  - unfold setSentTimestamp, getLastOperatedTimestamp. simpl. by destruct lastOperatedAt.
  - done.
Qed.

(** The response to an amendment.  A success makes the order pending with the
    amended price and quantity; an error leaves price and quantity alone. *)
Theorem amend_response_spec w l o resp err detail :
  awaiting OrderStatusAmending (ar_OrderID resp) w l o -> l ∉ held w ->
  (first_error err (ar_Err resp) = None -> ar_Detail resp = Some detail) ->
  exists w', run (handleAmendOrderResp resp err) w = Done w' tt /\ calls w' = calls w /\
  match first_error err (ar_Err resp) with
  | Some e =>
      refused e l o (o <| status := OrderStatusPending |> <| amendingDetail := None |>)
        (amendRejectCallbacks o) w w'
  | None =>
      unreported w w' /\ starts (amendCallbacks o) l w w' /\
      exists o', goes_on l o' w w' /\ status o' = OrderStatusPending /\
        amendingDetail o' = None /\ price o' = Order.Price detail /\ qty o' = Order.Qty detail /\
        sentAt o' = or_else (lastOperatedAt o) (sentAt o) /\
        arrivedAt o' = or_else (ar_ArrivedAt resp) (arrivedAt o) /\
        confirmedAt o' = or_else (ar_ConfirmedAt resp) (confirmedAt o)
  end.
Proof.
  intros (Hk & Hl & Hs & Hid) Hn Hdet. apply run_unit_wp. unfold handleAmendOrderResp.
  simpl. rewrite Hk. wp_sym. unfold GetStatus. rewrite Hs, decide_True by done. simpl.
  split; [done|].
  assert (forall e, wp (if Is e OrderIsNotExists then abandonOrder l
      else rejectAmend l;; noticeError e) (acquire l w) (fun w' _ =>
    calls w' = calls w /\ refused e l o (o <| status := OrderStatusPending |>
      <| amendingDetail := None |>) (amendRejectCallbacks o) w w')) as Hrej.
  { intros e. unfold refused. destruct (Is e OrderIsNotExists).
    - apply (abandonOrder_run l (acquire l w) o); [done|].
      intros w' [] H2 [] H4. by repeat split.
    - wp_sym. report Hl. by repeat split. }
  rewrite wp_bind. destruct err as [e|]; [|destruct (ar_Err resp) as [e|]]; simpl first_error.
  1, 2: (eapply wp_mono; [apply Hrej|]; intros w' [] (H1 & H2); split; [done|];
    unfold refused in *; case_match; destruct H2 as ([] & H2 & []); by repeat split).
  rewrite Hdet by done. wp_sym. rewrite ?insert_insert_eq. split; [done|]. split; [done|].
  split; [unfold starts; simpl; by split_times|].
  eexists. split; [by constructor|]. by split_times.
Qed.

(** The response to a cancellation.  A success ends the order as canceled; an
    error makes it pending again, or abandons it. *)
Theorem cancel_response_spec w l o resp err :
  awaiting OrderStatusCanceling (xr_OrderID resp) w l o -> l ∉ held w ->
  exists w', run (handleCancelOrderResp resp err) w = Done w' tt /\ calls w' = calls w /\
  match first_error err (xr_Err resp) with
  | Some e =>
      refused e l o (o <| status := OrderStatusPending |>) (cancelRejectCallbacks o) w w'
  | None =>
      unreported w w' /\ starts (cancelCallbacks o) l w w' /\
      ends l (o <| status := OrderStatusDone |>
                <| orderDoneReason := Some OrderDoneReasonCanceled |>) w w'
  end.
Proof.
  intros (Hk & Hl & Hs & Hid) Hn. apply run_unit_wp. unfold handleCancelOrderResp.
  simpl. rewrite Hk. wp_sym. unfold GetStatus. rewrite Hs, decide_True by done. simpl.
  split; [done|].
  assert (forall e, wp (if Is e OrderIsNotExists then abandonOrder l
      else rejectCancel l;; noticeError e) (acquire l w) (fun w' _ =>
    calls w' = calls w /\ refused e l o (o <| status := OrderStatusPending |>)
      (cancelRejectCallbacks o) w w')) as Hrej.
  { intros e. unfold refused. destruct (Is e OrderIsNotExists).
    - apply (abandonOrder_run l (acquire l w) o); [done|].
      intros w' [] H2 [] H4. by repeat split.
    - wp_sym. report Hl. by repeat split. }
  rewrite wp_bind. destruct err as [e|]; [|destruct (xr_Err resp) as [e|]]; simpl first_error.
  1, 2: (eapply wp_mono; [apply Hrej|]; intros w' [] (H1 & H2); split; [done|];
    unfold refused in *; case_match; destruct H2 as ([] & H2 & []); by repeat split).
  wp_sym. rewrite ?insert_insert_eq. by repeat split.
Qed.

(** A response that comes late changes nothing: when the order is no longer
    living, or is no longer in the state the operation put it in (it was filled
    meanwhile, or answered before), every response handler leaves the world as it is. *)
Theorem late_responses_ignored w :
  let gone s oid := LivingOrders (dealer w) !! oid = None \/
    exists l o, LivingOrders (dealer w) !! oid = Some l /\ heap w !! l = Some o /\ status o <> s in
  (forall resp err, gone OrderStatusSending (cr_OrderID resp) ->
     run (handleSendOrderResp resp err) w = Done w tt) /\
  (forall resp err, gone OrderStatusAmending (ar_OrderID resp) ->
     run (handleAmendOrderResp resp err) w = Done w tt) /\
  (forall resp err, gone OrderStatusCanceling (xr_OrderID resp) ->
     run (handleCancelOrderResp resp err) w = Done w tt).
Proof.
  intros gone. repeat split; intros resp err [Hk|(l & o & Hk & Hl & Hs)]; simpl; rewrite Hk;
    simpl; rewrite ?Hl; simpl; unfold GetStatus; rewrite ?decide_False by done; done.
Qed.

(** ** Errors *)

(** Reports of errors.  Informational errors are dropped; all others are given to
    [onError], once; exactly those that are neither warnings nor HTTP failures also
    make the dealer refuse new orders.  Nothing else changes. *)
Theorem noticeError_spec w e :
  exists w', run (noticeError e) w = Done w' tt /\ quiet w w' /\ calls w' = calls w /\
    notices w' = notices w ++ (if Is e InfoError then [] else [e]) /\
    MutexFlag.Get (acceptOrder (dealer w')) =
      MutexFlag.Get (acceptOrder (dealer w)) && negb (critical e).
Proof. apply run_unit_wp, wp_noticeError. intros w' Hq Hc [] Hd. by split. Qed.

(** A dealer that was stopped refuses to send and to amend, changing nothing,
    and still cancels pending orders. *)
Theorem stopped_dealer_only_cancels w l o ls detail :
  MutexFlag.Get (acceptOrder (dealer w)) = false ->
  heap w !! l = Some o -> status o = OrderStatusPending -> l ∉ held w ->
  let refusal := Some (NewError "dealer does not accept order") in
  run (SendOrder l) w = Done w refusal /\ run (SendOrders ls) w = Done w refusal /\
  run (AmendOrder l detail) w = Done w refusal /\
  exists w', run (CancelOrder l) w = Done w' None /\ calls w' = calls w ++ [CallCancelOrder l].
Proof.
  intros Ha Hl Hs Hn refusal. simpl. rewrite Ha. split; [done|]. split; [done|]. split; [done|].
  assert (wp (CancelOrder l) w (fun w' r => r = None /\ calls w' = calls w ++ [CallCancelOrder l]))
    as (w' & x & Hr & -> & Hc)%wp_run; [|by exists w'].
  simpl. split; [done|]. wp_sym. unfold GetStatus. rewrite Hs. simpl. wp_sym.
  unfold GetStatus. rewrite Hs, decide_False by done. wp_sym.
  unfold GetStatus. rewrite Hs, decide_False by (intros H; by apply H). wp_sym.
  destruct (agent_reply _ _); wp_sym; done.
Qed.

(** ** The private web socket *)

(** The execution data of a message, in the order. *)
Definition executed (data : OrderData) (o : Order) : Order :=
  setFee (CumFee data) (setExecQty (CumExecQty data)
    (setAvgPrice (AvgExecPrice data) (setFilledAt (ArrivedAt data) o))).

(** A block that only rewrites the order at [l]. *)
Definition rewrites (l : loc) (o' : Order) (w : World) : World :=
  w <| heap := <[l := o']> (heap w) |>.

Lemma setOrderPartiallyFillInfo_run l w o data (Q : World -> unit -> Prop) :
  heap w !! l = Some o -> Q (rewrites l (executed data o) w) tt ->
  wp (setOrderPartiallyFillInfo l data) w Q.
Proof. intros Hl HQ. wp_sym. rewrite ?insert_insert_eq. exact HQ. Qed.

Lemma setOrderFillInfo_run l w o data (Q : World -> unit -> Prop) :
  heap w !! l = Some o ->
  (forall o', filledAt o' = ArrivedAt data -> avgPrice o' = AvgExecPrice data ->
     execQty o' = CumExecQty data -> fee o' = CumFee data -> id o' = id o ->
     fillCallbacks o' = fillCallbacks o ->
     sentAt o' = (if decide (orderType o = OrderTypeMarket)
                  then or_else (lastOperatedAt o) (sentAt o) else sentAt o) ->
     Q (rewrites l o' w) tt) ->
  wp (setOrderFillInfo l data) w Q.
Proof.
  intros Hl HQ. unfold setOrderFillInfo.
  change (wp (setOrderPartiallyFillInfo l data ;;
    ty <- load l GetOrderType ;;
    if decide (ty = OrderTypeMarket) then
      mark_sent l ;; store l (setConfirmTimestamps (ArrivedAt data) (ConfirmedAt data))
    else Ret tt) w Q).
  rewrite wp_bind. apply (setOrderPartiallyFillInfo_run l w o); [done|].
  remember (executed data o) as o1 eqn:Ho1.
  assert (filledAt o1 = ArrivedAt data /\ avgPrice o1 = AvgExecPrice data /\
     execQty o1 = CumExecQty data /\ fee o1 = CumFee data /\ id o1 = id o /\
     fillCallbacks o1 = fillCallbacks o /\ sentAt o1 = sentAt o /\
     orderType o1 = orderType o /\ lastOperatedAt o1 = lastOperatedAt o)
    as (H1 & H2 & H3 & H4 & H5 & H6 & H7 & H8 & H9) by by rewrite Ho1.
  clear Ho1. wp_sym. unfold GetOrderType. rewrite H8. case_decide as Hty; wp_sym;
    unfold rewrites in HQ |- *; simpl; rewrite ?insert_insert_eq;
    (apply HQ; rewrite <- ?H9, <- ?H7; split_times; congruence).
Qed.

Lemma acceptFilled_run l w o (Q : World -> unit -> Prop) :
  heap w !! l = Some o ->
  (forall w' o', o' = setOrderDoneReason OrderDoneReasonFilled (Order.setStatus OrderStatusDone o) ->
     ends l o' w w' -> starts (fillCallbacks o) l w w' -> unreported w w' -> calls w' = calls w ->
     Q w' tt) ->
  wp (acceptFilled l) w Q.
Proof.
  intros Hl HQ. wp_sym. eapply HQ; try done. constructor; by rewrite ?insert_insert_eq.
Qed.

Lemma acceptPartiallyFilled_run l w o (Q : World -> unit -> Prop) :
  heap w !! l = Some o ->
  (orderType o <> OrderTypeLimitIOC -> Q w tt) ->
  (forall w' o', orderType o = OrderTypeLimitIOC ->
     o' = setOrderDoneReason OrderDoneReasonPartiallyFilledAndCanceled (Order.setStatus OrderStatusDone o) ->
     ends l o' w w' -> starts (partiallyFillCallBacks o) l w w' -> unreported w w' ->
     calls w' = calls w -> Q w' tt) ->
  wp (acceptPartiallyFilled l) w Q.
Proof.
  intros Hl HN HQ. wp_sym. unfold GetOrderType. case_decide; [|by apply HN]. wp_sym.
  eapply HQ; try done. constructor; by rewrite ?insert_insert_eq.
Qed.

(** C15: messages about the dealer's own orders.  A fill ends the order in whatever
    state it is; a partial fill ends an immediate-or-cancel order and only updates
    the execution data of another; every other message changes nothing. *)
Theorem order_data_spec w l o data :
  LivingOrders (dealer w) !! ID data = Some l -> heap w !! l = Some o -> l ∉ held w ->
  ID data <> ""%string ->
  exists w', run (HandleOrderData [data]) w = Done w' tt /\ unreported w w' /\ calls w' = calls w /\
  match Status data with
  | OrderDataStatusFilled =>
      starts (fillCallbacks o) l w w' /\
      exists o', ends l o' w w' /\ status o' = OrderStatusDone /\ id o' = id o /\
        orderDoneReason o' = Some OrderDoneReasonFilled /\ filledAt o' = ArrivedAt data /\
        avgPrice o' = AvgExecPrice data /\ execQty o' = CumExecQty data /\ fee o' = CumFee data /\
        sentAt o' = (if decide (orderType o = OrderTypeMarket)
                     then or_else (lastOperatedAt o) (sentAt o) else sentAt o)
  | OrderDataStatusPartiallyFilled =>
      if decide (orderType o = OrderTypeLimitIOC) then
        starts (partiallyFillCallBacks o) l w w' /\
        ends l (setOrderDoneReason OrderDoneReasonPartiallyFilledAndCanceled
                  (Order.setStatus OrderStatusDone (executed data o))) w w'
      else starts [] l w w' /\ goes_on l (executed data o) w w'
  | _ => w' = w
  end.
Proof.
  intros Hk Hl Hn Hid. apply run_unit_wp.
  assert (isUnrelated data = false) as Hun by by apply bool_decide_eq_false_2.
  unfold HandleOrderData. cbn [for_each]. unfold handle_order_datum, track_unrelated.
  rewrite Hun. cbn [for_each bind negb wp getOrder dget]. rewrite Hk.
  destruct (Status data) eqn:Hst; try (simpl; rewrite ?Hk; done).
  - rewrite wp_bind. apply wp_WithOpLock; [done|]. rewrite wp_bind. apply (setOrderFillInfo_run _ _ o); [done|].
    intros o1 H1 H2 H3 H4 H5 H6 H7. apply (acceptFilled_run _ _ o1); [apply lookup_insert_eq|].
    intros w' o' -> [E1 E2 E3] E4 E5 E6. simpl in *. rewrite insert_insert_eq in E1.
    split; [done|]. split; [done|]. split; [by rewrite <- H6|].
    eexists. split; [by constructor|]. by repeat split.
  - cbn [wp bind]. rewrite Hk, wp_bind. apply wp_WithOpLock; [done|]. rewrite wp_bind.
    apply (setOrderPartiallyFillInfo_run _ _ o); [done|].
    apply (acceptPartiallyFilled_run _ _ (executed data o)); [apply lookup_insert_eq|..].
    + intros Hty. simpl. rewrite decide_False by done. split; [done|]. split; [done|].
      split; [by unfold starts; rewrite app_nil_r|by constructor].
    + intros w' o' Hty -> [E1 E2 E3] E4 E5 E6. simpl. rewrite decide_True by done.
      simpl in E1. rewrite insert_insert_eq in E1.
      split; [exact E5|]. split; [exact E6|]. split; [exact E4|].
      constructor; [exact E1|exact E2|exact E3].
Qed.

(** Position updates.  Only a message with exactly one datum, in one-way mode, is
    used, and only if it is not older than the position held; then the position is
    the signed quantity of the message and every registered handler is called with
    it, in order.  Otherwise nothing changes. *)
Theorem position_data_spec w datas :
  exists w', run (HandlePositionData datas) w = Done w' tt /\
  match datas with
  | [data] =>
      if bool_decide (posMode data = PositionModeOneWay) &&
         (lastUpdateAt (CurrentPosition (dealer w)) <=? Timestamp data)%Z
      then CurrentPosition (dealer w') =
             {| value := ToSize (posSide data) (posQty data); lastUpdateAt := Timestamp data |} /\
           positionCalls w' = positionCalls w ++
             ((fun h => (h, datas)) <$> posUpdatedHandlers (dealer w)) /\
           quiet w w'
      else w' = w
  | _ => w' = w
  end.
Proof.
  apply run_unit_wp. unfold HandlePositionData.
  assert (forall ds, length ds <> 1 \/ (exists d, ds = [d] /\ posMode d <> PositionModeOneWay) ->
    exists e, extractPositionData ds = inr e) as Hbad.
  { intros ds Hds. unfold extractPositionData. case_match; [by eexists|]. case_match; [by eexists|].
    case_match; [by eexists|]. exfalso. apply Nat.ltb_ge in H. apply Nat.leb_gt in H0.
    pose proof (List.filter_length (fun d => bool_decide (posMode d = PositionModeOneWay)) ds) as Hlen.
    simpl in *. rewrite H1 in *. simpl in *. destruct Hds as [Hds|(d & -> & Hd)]; [lia|].
    simpl in H1. by rewrite bool_decide_eq_false_2 in H1. }
  destruct datas as [|data [|d2 ds]].
  - destruct (Hbad []) as [e ->]; [by left|]. done.
  - destruct (decide (posMode data = PositionModeOneWay)) as [Hm|Hm]; cycle 1.
    { destruct (Hbad [data]) as [e ->]; [right; by exists data|].
      rewrite bool_decide_eq_false_2 by done. done. }
    unfold extractPositionData. simpl. rewrite !bool_decide_eq_true_2 by done. simpl.
    assert (time_After (Timestamp data) (getLastUpdateAt (CurrentPosition (dealer w))) ||
            time_Equal (Timestamp data) (getLastUpdateAt (CurrentPosition (dealer w))) =
            (lastUpdateAt (CurrentPosition (dealer w)) <=? Timestamp data)%Z) as ->.
    { unfold time_After, time_Equal, getLastUpdateAt. apply eq_true_iff_eq.
      rewrite orb_true_iff, Z.ltb_lt, Z.eqb_eq, Z.leb_le. lia. }
    destruct (_ <=? _)%Z; simpl; [|done]. split; [|split; [done|by repeat constructor]].
    unfold update. by destruct (posSide data).
  - destruct (Hbad (data :: d2 :: ds)) as [e ->]; [by left|]. done.
Qed.

End Specs.

(** ** The theorems at a concrete dealer *)

Definition accepting : @Agent QDecimal := fun _ _ => None.

Lemma example_awaiting s : awaiting s "a" (example_world s) 0 (example_order s).
Proof. split; [apply example_living|]. split; [apply example_heap|done]. Qed.

Lemma SendOrder_spec_witness :
  exists w' err, run (SendOrder (AG := accepting) 0) (example_world OrderStatusPending) = Done w' err /\
    err = Some (Sentinel DealingErrorOrderIsAlreadyExists).
Proof.
  destruct (SendOrder_spec (AG := accepting) (example_world OrderStatusPending) 0 _
    (example_heap _) (example_held _)) as (w' & err & Hr & H).
  exists w', err. split; [exact Hr|]. simpl in H. apply H.
Defined.

Definition no_ack : CreateOrderResp := MkCreateOrderResp "a" "42" None None None.

Lemma send_response_spec_witness :
  exists w', run (handleSendOrderResp no_ack None) (example_world OrderStatusSending) = Done w' tt /\
    exists o', heap w' !! 0 = Some o' /\ status o' = OrderStatusPending /\ publicID o' = "42"%string.
Proof.
  destruct (send_response_spec (example_world OrderStatusSending) 0 _ no_ack None
    (example_awaiting _) (example_held _)) as (w' & Hr & _ & _ & o' & [Hh _ _] & _ & Hs & Hp & _).
  exists w'. split; [exact Hr|]. exists o'. rewrite Hh, lookup_insert_eq. by repeat split.
Defined.

Definition example_detail : @AmendDetail QDecimal := MkAmendDetail 101%Q 3%Q.
Definition example_amended : AmendOrderResp :=
  MkAmendOrderResp "a" (Some example_detail) None None None.

Lemma amend_response_spec_witness :
  exists w', run (handleAmendOrderResp example_amended None) (example_world OrderStatusAmending) = Done w' tt /\
    exists o', heap w' !! 0 = Some o' /\ price o' = Order.Price example_detail.
Proof.
  destruct (amend_response_spec (example_world OrderStatusAmending) 0 _ example_amended None
    example_detail (example_awaiting _) (example_held _) (fun _ => eq_refl))
    as (w' & Hr & _ & _ & _ & o' & [Hh _ _] & _ & _ & Hp & _).
  exists w'. split; [exact Hr|]. exists o'. by rewrite Hh, lookup_insert_eq.
Defined.

Lemma cancel_response_spec_witness :
  exists w', run (handleCancelOrderResp (MkCancelOrderResp "a" (Some (Sentinel OrderIsNotExists))) None)
               (example_world OrderStatusCanceling) = Done w' tt /\
    LivingOrders (dealer w') !! "a"%string = None.
Proof.
  destruct (cancel_response_spec (example_world OrderStatusCanceling) 0 _
    (MkCancelOrderResp "a" (Some (Sentinel OrderIsNotExists))) None (example_awaiting _) (example_held _))
    as (w' & Hr & _ & [_ Hl _] & _).
  exists w'. split; [exact Hr|]. rewrite Hl. apply (lookup_delete_eq (M := gmap string)).
Defined.

Lemma late_responses_ignored_witness :
  run (handleSendOrderResp no_ack None) (example_world OrderStatusPending) =
    Done (example_world OrderStatusPending) tt.
Proof.
  apply (late_responses_ignored (example_world OrderStatusPending)). right.
  exists 0, (example_order OrderStatusPending).
  split; [apply example_living|]. split; [apply example_heap|discriminate].
Defined.

Lemma stopped_dealer_only_cancels_witness :
  let w := (example_world OrderStatusPending) <| dealer ::= fun d => d <| acceptOrder := NewFlag false |> |> in
  exists w', run (CancelOrder (AG := accepting) 0) w = Done w' None /\ calls w' = [CallCancelOrder 0].
Proof.
  intros w. apply (stopped_dealer_only_cancels (AG := accepting) w 0 (example_order OrderStatusPending) []
    example_detail eq_refl (example_heap _) eq_refl (example_held _)).
Defined.

Definition example_fill : @OrderData QDecimal :=
  MkOrderData "a" "42" SideBuy 100%Q 2%Q 100%Q 0%Q 2%Q OrderDataStatusFilled (Some 5%Z) (Some 6%Z).

Lemma order_data_spec_witness :
  exists w', run (HandleOrderData [example_fill]) (example_world OrderStatusSending) = Done w' tt /\
    doneOrders (dealer w') = Append (doneOrders (dealer (example_world OrderStatusSending))) 0.
Proof.
  destruct (order_data_spec (example_world OrderStatusSending) 0 _ example_fill (example_living _)
    (example_heap _) (example_held _)) as (w' & Hr & _ & _ & _ & o' & [_ _ Hd] & _); [done|].
  exists w'. by split.
Defined.
