(* ===== verification/DealerDefer.v ===== *)
(** * Deferred amendments and cancellations

    While an order is being sent, [AmendOrder] records the detail and registers
    one callback, and [CancelOrder] replaces the callbacks.  The theorems follow
    any number of calls up to the answer of the exchange and the callback's run. *)

From S2P Require Import Prelude GoStd Decimal QDecimal Domains Errors MutexFlag MutexMap MutexSlice.
From S2P Require Import Order OrderData Position World Dealer DealerInv DealerEvents DealerSpecs.
Local Open Scope prog_scope.

Section Defer.
  Context {D : Decimal} {RT : GoRuntime} {AG : Agent}.

(** A limit order on its way to the exchange, in a dealer that accepts orders. *)
Record in_flight (l : loc) (o : Order) (w : World) : Prop := {
  if_heap : heap w !! l = Some o;
  if_living : LivingOrders (dealer w) !! id o = Some l;
  if_status : status o = OrderStatusSending;
  if_type : IsAmenable (orderType o) = true;
  if_accept : MutexFlag.Get (acceptOrder (dealer w)) = true;
  if_held : l ∉ held w
}.

(** The amendments between [w] and [w']: the order now has the callbacks [cbs] and
    [d] is the recorded detail. *)
Record deferred (l : loc) (o : Order) (cbs : list OrderCallback) (d : option AmendDetail)
    (w w' : World) : Prop := {
  df_heap : heap w' = <[l := o <| createCallbacks := cbs |>]> (heap w);
  df_living : LivingOrders (dealer w') = LivingOrders (dealer w);
  df_accept : acceptOrder (dealer w') = acceptOrder (dealer w);
  df_detail : amendingDetailMap (dealer w') !! id o = d;
  df_held : held w' = held w;
  df_calls : calls w' = calls w;
  df_spawned : spawned w' = spawned w
}.

Lemma taker_amenable o : IsAmenable (orderType o) = true -> IsTaker (orderType o) = false.
Proof. by destruct (orderType o). Qed.

Lemma deferred_refl l o w :
  in_flight l o w -> deferred l o (createCallbacks o) (amendingDetailMap (dealer w) !! id o) w w.
Proof.
  intros []. constructor; try done. rewrite insert_id; [done|]. rewrite if_heap0. by destruct o.
Qed.

Lemma AmendOrder_defers l o cbs d0 w w1 d :
  in_flight l o w -> deferred l o cbs d0 w w1 ->
  wp (AmendOrder l d) w1 (fun w' r => r = None /\
    deferred l o (if d0 then cbs else cbs ++ [CbDeferredAmend l d]) (Some d) w w').
Proof.
  intros [] []. set (o1 := o <| createCallbacks := cbs |>) in *.
  assert (heap w1 !! l = Some o1) as Hl by by rewrite df_heap0, lookup_insert_eq.
  assert (l ∉ held w1) as Hn by by rewrite df_held0.
  assert (status o1 = OrderStatusSending) as Hs by done.
  unfold AmendOrder. simpl. rewrite df_accept0, if_accept0. simpl. split; [done|]. wp_sym.
  unfold GetStatus. rewrite ?Hs, ?if_status0. simpl. change (GetID o1) with (id o).
  assert (forall x, ({[l]} ∪ held w1) ∖ {[l]} = x -> x = held w -> held w = held w) by done.
  rewrite df_detail0. destruct d0 as [d0|].
  - rewrite decide_False by done. wp_sym. split; [done|].
    constructor; simpl; try done; [by rewrite lookup_insert_eq|]. set_solver.
  - rewrite decide_True by done. wp_sym. split; [done|].
    unfold SetCreateCallback, GetOrderType.
    change (orderType o1) with (orderType o). rewrite taker_amenable by done.
    constructor; simpl; try done; [by rewrite df_heap0, insert_insert_eq|by rewrite lookup_insert_eq|].
    set_solver.
Qed.

(** Any sequence of amendments: one callback, for the first of them, and the last
    detail. *)
Lemma amendments_defer l o w ds d :
  in_flight l o w -> amendingDetailMap (dealer w) !! id o = None ->
  wp (for_each (ds ++ [d]) (fun d => AmendOrder l d ;; Ret tt)) w (fun w' _ =>
    exists first, deferred l o (createCallbacks o ++ [CbDeferredAmend l first]) (Some d) w w').
Proof.
  intros Hif Hnone.
  assert (forall ds cbs d0 w1, deferred l o cbs (Some d0) w w1 ->
    wp (for_each ds (fun d => AmendOrder l d ;; Ret tt)) w1
      (fun w' _ => deferred l o cbs (Some (default d0 (last ds))) w w')) as Hrest.
  { clear ds d. intros ds. induction ds as [|d ds IH]; intros cbs d0 w1 Hd; [done|].
    cbn [for_each]. rewrite wp_bind. rewrite wp_bind. eapply wp_mono; [by apply (AmendOrder_defers l o cbs (Some d0) w)|].
    intros w2 r [_ H2]. cbn [wp]. eapply wp_mono; [by apply IH|].
    intros w3 [] H3. rewrite last_cons. by destruct (last ds). }
  destruct (ds ++ [d]) as [|d1 rest] eqn:E; [by destruct ds|].
  cbn [for_each]. rewrite wp_bind, wp_bind. eapply wp_mono.
  { eapply AmendOrder_defers; [done|]. by apply deferred_refl. }
  rewrite Hnone. intros w2 r [_ H2]. cbn [wp]. eapply wp_mono; [by apply Hrest|].
  intros w3 [] H3. exists d1. assert (last (d1 :: rest) = Some d) as Hlast.
  { rewrite <- E. apply last_snoc. }
  rewrite last_cons in Hlast. by destruct (last rest); simplify_eq/=.
Qed.

(** What the response then does. *)
Lemma accepted_after l o cbs d w w1 resp :
  in_flight l o w -> deferred l o cbs d w w1 ->
  cr_OrderID resp = id o -> cr_Err resp = None ->
  wp (handleSendOrderResp resp None) w1 (fun w' _ =>
    spawned w' = spawned w ++ ((fun cb => (cb, l)) <$> cbs) /\ calls w' = calls w /\
    LivingOrders (dealer w') = LivingOrders (dealer w) /\ held w' = held w /\
    amendingDetailMap (dealer w') = amendingDetailMap (dealer w1) /\
    exists o', heap w' !! l = Some o' /\ id o' = id o /\ status o' = OrderStatusPending /\
      price o' = price o /\ qty o' = qty o /\ amendCount o' = amendCount o).
Proof.
  intros [] [] Hid Herr. set (o1 := o <| createCallbacks := cbs |>) in *.
  assert (heap w1 !! l = Some o1) as Hl by by rewrite df_heap0, lookup_insert_eq.
  assert (l ∉ held w1) as Hn by by rewrite df_held0.
  unfold handleSendOrderResp. simpl. rewrite Hid, df_living0, if_living0, Herr. wp_sym.
  change (GetStatus o1) with (status o). rewrite if_status0, decide_True by done. simpl.
  split; [done|]. wp_sym. change (GetStatus o1) with (status o).
  rewrite if_status0, decide_True by done. wp_sym. change (GetOrderType o1) with (orderType o).
  assert (({[l]} ∪ held w1) ∖ {[l]} = held w) as Hh by (rewrite held_restore; done).
  destruct (orderType o); try done; wp_sym; case_decide; wp_sym.
  all: rewrite Hh, df_spawned0, df_calls0, df_living0; unfold setSentTimestamp, setConfirmTimestamps,
    getLastOperatedTimestamp; subst o1; split; [simpl; by repeat case_match|].
  all: repeat (split; [done|]); eexists; (split; [done|]); simpl; by repeat case_match.
Qed.

(** A callback that was started and has not run yet. *)
Lemma run_spawned_wp w pre cb l post (Q : World -> unit -> Prop) :
  spawned w = pre ++ (cb, l) :: post ->
  wp (run_callback cb l) (w <| spawned := pre ++ post |>) Q ->
  wp (run_spawned (length pre)) w Q.
Proof.
  intros Hs HQ. unfold run_spawned. rewrite wp_bind. cbn [wp].
  rewrite Hs, list_lookup_middle by done. simpl.
  replace (w <| spawned ::= delete (length pre) |>) with (w <| spawned := pre ++ post |>); [done|].
  unfold Prelude.update. rewrite Hs, delete_middle. done.
Qed.

(** C9: while an order is being sent, the last amendment wins.  After any number of
    amendments, the acceptance of the order and the run of the one callback they
    registered, the agent was called once, with the last detail, and the order is
    being amended to it. *)
Theorem last_amend_wins l o w ds d resp :
  in_flight l o w -> amendingDetailMap (dealer w) !! id o = None ->
  cr_OrderID resp = id o -> cr_Err resp = None -> isAmendAble o = true ->
  Equal (price o) (Order.Price d) && Equal (qty o) (Order.Qty d) = false ->
  agent_reply (calls w) (CallAmendOrder l d) = None ->
  exists w', run (for_each (ds ++ [d]) (fun d => AmendOrder l d ;; Ret tt) ;;
                  handleSendOrderResp resp None ;;
                  run_spawned (length (spawned w) + length (createCallbacks o))) w = Done w' tt /\
    calls w' = calls w ++ [CallAmendOrder l d] /\
    spawned w' = spawned w ++ ((fun cb => (cb, l)) <$> createCallbacks o) /\
    amendingDetailMap (dealer w') !! id o = None /\
    exists o', heap w' !! l = Some o' /\ status o' = OrderStatusAmending /\ amendingDetail o' = Some d.
Proof.
  intros Hif Hnone Hid Herr Hable Hneed Hag. apply run_unit_wp.
  rewrite wp_bind. eapply wp_mono; [by apply amendments_defer|]. intros w1 [] [first Hdef].
  rewrite wp_bind. eapply wp_mono; [by eapply accepted_after|].
  intros w2 [] (Hsp & Hcl & Hlv & Hhd & Hdm & o2 & Ho2 & Hid2 & Hst2 & Hp2 & Hq2 & Hc2).
  pose proof (df_detail _ _ _ _ _ _ Hdef) as Hdet. rewrite <- Hdm in Hdet.
  rewrite fmap_app in Hsp. cbn in Hsp.
  replace (length (spawned w) + length (createCallbacks o)) with
    (length (spawned w ++ ((fun cb => (cb, l)) <$> createCallbacks o)))
    by by rewrite length_app, length_fmap.
  eapply (run_spawned_wp _ _ (CbDeferredAmend l first) l []); [by rewrite <- app_assoc|].
  destruct Hif as [_ Hliv _ _ _ Hn].
  unfold run_callback. rewrite wp_bind. eapply wp_load; [exact Ho2|].
  rewrite wp_bind. cbn [wp dget]. rewrite wp_bind. cbn [wp dmod].
  change (GetID o2) with (id o2). rewrite Hid2. simpl (amendingDetailMap _). rewrite Hdet.
  simpl default. rewrite wp_bind. unfold amendOrder. simpl. rewrite Ho2. simpl.
  change (GetID o2) with (id o2). rewrite Hid2, Hlv, Hliv. simpl. rewrite Hhd.
  split; [done|]. rewrite Ho2. simpl. unfold isAmendAble. rewrite Hc2.
  unfold isAmendAble in Hable. rewrite Hable. simpl. rewrite Ho2. simpl.
  unfold isNeedToAmend. rewrite Hst2, Hp2, Hq2, <- negb_andb, Hneed. simpl. rewrite Ho2. simpl.
  unfold GetStatus. rewrite Hst2. simpl. wp_sym. rewrite Hcl, Hag. simpl.
  split; [done|]. split; [by rewrite app_nil_r|]. split; [by rewrite lookup_delete_eq|].
  rewrite lookup_insert_eq. by eexists.
Qed.

Lemma amendments_any l o w ds cbs d0 w1 :
  in_flight l o w -> deferred l o cbs d0 w w1 ->
  wp (for_each ds (fun d => AmendOrder l d ;; Ret tt)) w1
    (fun w' _ => exists cbs d0, deferred l o cbs d0 w w').
Proof.
  intros Hif. revert cbs d0 w1. induction ds as [|d ds IH]; intros cbs d0 w1 Hd; [by exists cbs, d0|].
  cbn [for_each]. rewrite wp_bind, wp_bind. eapply wp_mono.
  { by apply (AmendOrder_defers l o cbs d0 w). }
  intros w2 r [_ H2]. cbn [wp]. by eapply IH.
Qed.

Lemma CancelOrder_defers l o cbs d0 w w1 :
  in_flight l o w -> deferred l o cbs d0 w w1 ->
  wp (CancelOrder l) w1 (fun w' r => deferred l o [CbDeferredCancel] None w w').
Proof.
  intros [] []. set (o1 := o <| createCallbacks := cbs |>) in *.
  assert (heap w1 !! l = Some o1) as Hl by by rewrite df_heap0, lookup_insert_eq.
  assert (l ∉ held w1) as Hn by by rewrite df_held0.
  simpl. split; [done|]. wp_sym. unfold GetStatus. rewrite ?if_status0. simpl. wp_sym.
  change (GetID o1) with (id o).
  constructor; simpl; try done.
  - by rewrite df_heap0, insert_insert_eq.
  - apply lookup_delete_eq.
  - rewrite held_restore; done.
Qed.

(** C10: a cancellation overrides the amendments deferred before it.  After any number
    of amendments and a cancellation of an order that is being sent, its acceptance
    starts one goroutine, which cancels the order: the agent's only call is the
    cancellation, and no amendment is left behind. *)
Theorem cancel_overrides_amends l o w ds resp :
  in_flight l o w -> cr_OrderID resp = id o -> cr_Err resp = None ->
  agent_reply (calls w) (CallCancelOrder l) = None ->
  exists w', run (for_each ds (fun d => AmendOrder l d ;; Ret tt) ;; CancelOrder l ;;
                  handleSendOrderResp resp None ;; run_spawned (length (spawned w))) w = Done w' tt /\
    calls w' = calls w ++ [CallCancelOrder l] /\ spawned w' = spawned w /\
    amendingDetailMap (dealer w') !! id o = None /\
    exists o', heap w' !! l = Some o' /\ status o' = OrderStatusCanceling.
Proof.
  intros Hif Hid Herr Hag. apply run_unit_wp. rewrite wp_bind. eapply wp_mono.
  { eapply amendments_any; [done|]. by apply deferred_refl. }
  intros w1 [] (cbs & d0 & H1). rewrite wp_bind. eapply wp_mono; [by eapply CancelOrder_defers|].
  intros w2 r Hdef. rewrite wp_bind. eapply wp_mono; [eapply accepted_after; [exact Hif|exact Hdef|exact Hid|exact Herr]|].
  intros w3 [] (Hsp & Hcl & Hlv & Hhd & Hdm & o2 & Ho2 & Hid2 & Hst2 & Hp2 & Hq2 & Hc2).
  pose proof (df_detail _ _ _ _ _ _ Hdef) as Hdet. rewrite <- Hdm in Hdet.
  eapply (run_spawned_wp _ _ CbDeferredCancel l []); [exact Hsp|].
  simpl. rewrite Ho2. simpl. unfold GetStatus. rewrite Hst2, decide_False by done. simpl.
  rewrite Ho2. simpl. unfold GetStatus. rewrite Hst2, decide_False by (intros H; by apply H). wp_sym.
  rewrite Hcl, Hag. simpl. split; [done|]. split; [by rewrite app_nil_r|]. split; [done|].
  rewrite lookup_insert_eq. by eexists.
Qed.

End Defer.

(** ** The theorems at a concrete dealer *)

Lemma example_in_flight :
  in_flight 0 (example_order OrderStatusSending) (example_world OrderStatusSending).
Proof.
  constructor; [apply example_heap|apply example_living|done|done|done|apply example_held].
Qed.

Definition other_detail : @AmendDetail QDecimal := MkAmendDetail 103%Q 3%Q.

Lemma last_amend_wins_witness :
  exists w', run (for_each ([other_detail] ++ [example_detail])
                    (fun d => AmendOrder (AG := accepting) 0 d ;; Ret tt) ;;
                  handleSendOrderResp no_ack None ;; run_spawned (AG := accepting) 0)
                 (example_world OrderStatusSending) = Done w' tt /\
    calls w' = [CallAmendOrder 0 example_detail].
Proof.
  destruct (last_amend_wins (AG := accepting) 0 _ _ [other_detail] example_detail no_ack
    example_in_flight eq_refl eq_refl eq_refl eq_refl eq_refl eq_refl) as (w' & Hr & Hc & _).
  exists w'. split; [exact Hr|exact Hc].
Defined.

Lemma cancel_overrides_amends_witness :
  exists w', run (for_each [example_detail] (fun d => AmendOrder (AG := accepting) 0 d ;; Ret tt) ;;
                  CancelOrder (AG := accepting) 0 ;;
                  handleSendOrderResp no_ack None ;; run_spawned (AG := accepting) 0)
                 (example_world OrderStatusSending) = Done w' tt /\
    calls w' = [CallCancelOrder 0].
Proof.
  destruct (cancel_overrides_amends (AG := accepting) 0 _ _ [example_detail] no_ack
    example_in_flight eq_refl eq_refl eq_refl) as (w' & Hr & Hc & _).
  exists w'. split; [exact Hr|exact Hc].
Defined.
