(* ===== verification/DealerTraces.v ===== *)
(** * Traces and schedules of the dealer that go wrong

    Concrete worlds, sequences of events and interleavings, evaluated: behaviours
    of the code that its authors cannot have meant.  Each theorem is a run of the
    model of [Dealer.v]; the numbers are rationals. *)

From S2P Require Import Prelude GoStd Decimal QDecimal Domains Errors MutexFlag MutexMap MutexSlice.
From S2P Require Import Order OrderData Position World Dealer DealerInv DealerEvents DealerProps.
Local Open Scope prog_scope.

#[local] Existing Instance QDecimal.

#[export] Instance Q_eq_dec : EqDecision Q.
Proof. solve_decision. Defined.

#[export] Instance AmendDetail_eq_dec : EqDecision (@AmendDetail QDecimal).
Proof. solve_decision. Defined.

#[export] Instance AgentCall_eq_dec : EqDecision (@AgentCall QDecimal).
Proof. solve_decision. Defined.

(** Two pending limit orders "a" and "b" at 100, and an order "c" that was canceled. *)
Definition trace_order (oid : string) (s : OrderStatus) : Order :=
  (NewLimitOrder oid 100%Q 2%Q SideBuy false "") <| status := s |>.

Definition trace_world : World :=
  (initial_world 1 2 3 0%Z)
    <| heap := <[0 := trace_order "a" OrderStatusPending]> (
               <[1 := trace_order "b" OrderStatusPending]> (
               <[2 := trace_order "c" OrderStatusDone]> ∅)) |>
    <| dealer ::= fun d => d
         <| LivingOrders := <["a" := 0]> (<["b" := 1]> ∅) |>
         <| doneOrders := NewOrderMuArray [2] |> |>.

(** The agent of Bybit does not implement [CancelOrders]. *)
Definition no_batch_cancel : @Agent QDecimal := fun _ c =>
  match c with CallCancelOrders _ => Some (NewError "not implemented") | _ => None end.

Definition play `{GoRuntime, @Agent QDecimal} (evs : list Event) : prog unit :=
  for_each evs (fun ev => event_prog ev ;; Ret tt).

(** An order without its owner: pending, but neither living nor to be ended again. *)
Definition zombie (w : World) (l : loc) : bool :=
  found_check (heap w !! l) (fun o =>
    bool_decide (status o = OrderStatusPending) &&
    bool_decide (LivingOrders (dealer w) !! id o = None) &&
    bool_decide (l ∈ a (doneOrders (dealer w)))).

Lemma zombie_spec w l :
  zombie w l = true ->
  exists o, heap w !! l = Some o /\ status o = OrderStatusPending /\
    LivingOrders (dealer w) !! id o = None /\ l ∈ a (doneOrders (dealer w)).
Proof.
  intros (o & Ho & H)%found_check_sound. exists o.
  apply andb_true_iff in H as [[H1 H2]%andb_true_iff H3].
  by apply bool_decide_eq_true in H1, H2, H3.
Qed.

(** ** Interleavings *)

Definition cancel_both `{GoRuntime, @Agent QDecimal} : prog unit := CancelOrders [0; 1] ;; Ret tt.

(** Two concurrent [CancelOrders] of the same orders can deadlock:
    [WithOpeLocks] takes the operation locks in the order of a Go map, which may
    differ between the two calls. *)
Theorem cancel_orders_can_deadlock :
  let RT := alternating in let AG := taking in
  exists c, csteps (trace_world, [cancel_both; cancel_both]) c /\ stuck c.
Proof.
  intros RT AG.
  destruct (schedule_check [0;0;0;1;1;1;0;0;0;1;1;1;0;1] (trace_world, [cancel_both; cancel_both])
    stuckb) as (c & Hc & Hs); [vm_compute; reflexivity|].
  exists c. split; [exact Hc|by apply stuckb_stuck].
Qed.

Definition detail (p : Q) : AmendDetail := MkAmendDetail p 2%Q.
Definition amended (p : Q) : AmendOrderResp := MkAmendOrderResp "a" (Some (detail p)) None None None.
Definition filled : OrderData :=
  MkOrderData "a" "" SideBuy 100%Q 2%Q 100%Q 0%Q 2%Q OrderDataStatusFilled None None.

Definition amending_world : World :=
  world_after (RT := in_order) (AG := taking) (EvAmendOrder 0 (detail 101%Q)) trace_world.

(** A fill between the lookup and the lock of [handleAmendOrderResp] is undone:
    the handler does not look at the status again, so an order that was filled, left
    the living orders and is in [doneOrders] becomes pending. *)
Theorem amend_response_revives_filled_order :
  exists c o, csteps (amending_world, [handleAmendOrderResp (amended 101%Q) None;
                                       HandleOrderData [filled]]) c /\
    forallb finished c.2 = true /\ heap c.1 !! 0 = Some o /\ status o = OrderStatusPending /\
    LivingOrders (dealer c.1) !! id o = None /\ 0 ∈ a (doneOrders (dealer c.1)).
Proof.
  destruct (schedule_check (repeat 0 2 ++ repeat 1 15 ++ repeat 0 10)
    (amending_world, [handleAmendOrderResp (amended 101%Q) None; HandleOrderData [filled]])
    (fun c => forallb finished c.2 && zombie c.1 0))
    as (c & Hc & Hs); [vm_compute; reflexivity|].
  apply andb_true_iff in Hs as [Hf (o & Hz)%zombie_spec]. exists c, o. by split.
Qed.

(** ** Sequences of events *)

(** [CancelOrders] on an agent that cannot cancel in batch makes every order of the
    argument pending, whatever its state: one that was done comes back, pending, while
    it is in [doneOrders] and no longer living. *)
Theorem failed_cancel_revives_done_order :
  let RT := in_order in let AG := no_batch_cancel in
  exists w o, run (CancelOrders [0; 2]) trace_world = Done w None /\
    heap w !! 2 = Some o /\ status o = OrderStatusPending /\
    LivingOrders (dealer w) !! id o = None /\ 2 ∈ a (doneOrders (dealer w)).
Proof.
  intros RT AG. destruct (run_check_sound (CancelOrders [0; 2]) trace_world
    (fun w r => bool_decide (r = None) && zombie w 2)) as (w & r & Hr & Hc); [vm_compute; reflexivity|].
  apply andb_true_iff in Hc as [->%bool_decide_eq_true (o & Hz)%zombie_spec]. exists w, o. by split.
Qed.

(** The strategy amends "a" to 101, to 102 while that is in flight, and later to 103. *)
Definition stale_events : list Event :=
  [EvAmendOrder 0 (detail 101%Q); EvAmendOrder 0 (detail 102%Q);
   EvAmendResp (amended 101%Q) None; EvCallback 0;
   EvAmendResp (amended 102%Q) None; EvCallback 0;
   EvAmendOrder 0 (detail 103%Q);
   EvAmendResp (amended 103%Q) None; EvCallback 0].

Definition stale_calls : list AgentCall :=
  [CallAmendOrder 0 (detail 101%Q); CallAmendOrder 0 (detail 102%Q);
   CallAmendOrder 0 (detail 103%Q); CallAmendOrder 0 (detail 102%Q)].

(** A deferred amendment is run again by every later amendment, because its callback
    stays in the order: after the last answer in [stale_events], to the amendment to 103,
    the dealer amends the order back to 102. *)
Theorem stale_amendment_runs_again :
  let RT := in_order in let AG := taking in
  exists w, run (play stale_events) trace_world = Done w tt /\ calls w = stale_calls.
Proof.
  intros RT AG. destruct (run_check_sound (play stale_events) trace_world
    (fun w _ => bool_decide (calls w = stale_calls)))
    as (w & [] & Hr & Hc%bool_decide_eq_true); [vm_compute; reflexivity|].
  exists w. by split.
Qed.

(** An amendment to 102 is deferred; before its callback runs, another to 103 is sent. *)
Definition forgotten_events : list Event :=
  [EvAmendOrder 0 (detail 101%Q); EvAmendOrder 0 (detail 102%Q);
   EvAmendResp (amended 101%Q) None;
   EvAmendOrder 0 (detail 103%Q); EvCallback 0;
   EvAmendResp (amended 103%Q) None].

Definition forgotten_calls : list AgentCall :=
  [CallAmendOrder 0 (detail 101%Q); CallAmendOrder 0 (detail 103%Q)].

(** An amendment in flight can be forgotten: a deferred callback that runs meanwhile
    resets the order to pending, and the answer to that amendment is then ignored.  At
    the end of [forgotten_events] the exchange has amended "a" to 103, and the dealer
    believes in 101. *)
Theorem deferred_amendment_forgets_flight :
  let RT := in_order in let AG := taking in
  exists w o, run (play forgotten_events) trace_world = Done w tt /\ calls w = forgotten_calls /\
    heap w !! 0 = Some o /\ status o = OrderStatusPending /\ price o = 101%Q.
Proof.
  intros RT AG. destruct (run_check_sound (play forgotten_events) trace_world
    (fun w _ => bool_decide (calls w = forgotten_calls) &&
       found_check (heap w !! 0) (fun o : @Order QDecimal =>
         bool_decide (status o = OrderStatusPending) && bool_decide ((price o : Q) = 101%Q))))
    as (w & [] & Hr & Hc); [vm_compute; reflexivity|].
  apply andb_true_iff in Hc as [H1%bool_decide_eq_true (o & Ho & H2)%found_check_sound].
  apply andb_true_iff in H2 as [H2%bool_decide_eq_true H3%bool_decide_eq_true].
  exists w, o. by repeat split.
Qed.
