(* ===== verification/BTree.v ===== *)
(** * The interface of github.com/google/btree

    [BTreeG] is a dependency: an ordered set of items, given by a [less] function;
    two items of which neither is less are the same key.  A tree is known by the
    list of items that [Ascend] visits.  The laws are what the package documents,
    for a [less] that is a strict weak order; [sorted_lists] is an instance. *)

From S2P Require Import Prelude GoStd.
From stdpp Require Import sorting.

(** ** Strict weak orders *)

Class StrictWeak {T} (less : T -> T -> bool) : Prop := {
  less_irrefl x : less x x = false;
  less_trans x y z : less x y = true -> less y z = true -> less x z = true;
  less_cotrans x y z : less x y = true -> less x z = true \/ less z y = true
}.

(** The same key. *)
Definition same {T} (less : T -> T -> bool) (x y : T) : bool := negb (less x y) && negb (less y x).

Section Order.
  Context {T} (less : T -> T -> bool) `{!StrictWeak less}.

Lemma same_true x y : same less x y = true <-> less x y = false /\ less y x = false.
Proof. unfold same. by rewrite andb_true_iff, !negb_true_iff. Qed.

Lemma same_false x y : same less x y = false <-> less x y = true \/ less y x = true.
Proof. unfold same. by rewrite andb_false_iff, !negb_false_iff. Qed.

Lemma same_refl x : same less x x = true.
Proof. apply same_true. by rewrite less_irrefl. Qed.

Lemma same_sym x y : same less x y = true -> same less y x = true.
Proof. rewrite !same_true. tauto. Qed.

Lemma less_same_l x y z : same less x y = true -> less y z = true -> less x z = true.
Proof.
  intros [Hxy Hyx]%same_true Hyz. destruct (less_cotrans y z x Hyz); [congruence|done].
Qed.

Lemma less_same_r x y z : less x y = true -> same less y z = true -> less x z = true.
Proof.
  intros Hxy [Hyz Hzy]%same_true. destruct (less_cotrans x y z Hxy); [done|congruence].
Qed.

Lemma same_trans x y z : same less x y = true -> same less y z = true -> same less x z = true.
Proof.
  intros Hxy Hyz. apply same_true. split; apply not_true_is_false; intros H.
  - assert (less y z = true) by (eapply less_same_l; [by apply same_sym|done]).
    apply same_true in Hyz as []. congruence.
  - assert (less z y = true) by (eapply less_same_r; [exact H|exact Hxy]).
    apply same_true in Hyz as []. congruence.
Qed.

Lemma less_asym x y : less x y = true -> less y x = false.
Proof.
  intros H1. apply not_true_is_false. intros H2.
  pose proof (less_trans _ _ _ H1 H2) as H. by rewrite less_irrefl in H.
Qed.

End Order.

(** ** Trees *)

Class BTree := {
  BTreeG : forall {T : Type}, (T -> T -> bool) -> Type;
  NewG : forall {T} (less : T -> T -> bool), BTreeG less;
  ReplaceOrInsert : forall {T} {less : T -> T -> bool}, BTreeG less -> T -> BTreeG less;
  tDelete : forall {T} {less : T -> T -> bool}, BTreeG less -> T -> BTreeG less;
  tGet : forall {T} {less : T -> T -> bool}, BTreeG less -> T -> option T;
  tMin : forall {T} {less : T -> T -> bool}, BTreeG less -> option T;
  tLen : forall {T} {less : T -> T -> bool}, BTreeG less -> Z;
  (** the items in the order [Ascend] visits them *)
  Ascend : forall {T} {less : T -> T -> bool}, BTreeG less -> list T
}.

Abbreviation sorted_by less := (StronglySorted (fun x y => less x y = true)).

Class BTreeLaws {B : BTree} : Prop := {
  Ascend_NewG T (less : T -> T -> bool) : Ascend (NewG less) = [];
  Ascend_ReplaceOrInsert T (less : T -> T -> bool) `{!StrictWeak less} (t : BTreeG less) x :
    sorted_by less (Ascend t) ->
    sorted_by less (Ascend (ReplaceOrInsert t x)) /\
    (forall y, y ∈ Ascend (ReplaceOrInsert t x) <-> y = x \/ (y ∈ Ascend t /\ same less y x = false));
  Ascend_Delete T (less : T -> T -> bool) `{!StrictWeak less} (t : BTreeG less) x :
    sorted_by less (Ascend t) ->
    Ascend (tDelete t x) = List.filter (fun y => negb (same less y x)) (Ascend t);
  Get_Ascend T (less : T -> T -> bool) `{!StrictWeak less} (t : BTreeG less) x :
    sorted_by less (Ascend t) ->
    tGet t x = List.find (fun y => same less y x) (Ascend t);
  Min_Ascend T (less : T -> T -> bool) `{!StrictWeak less} (t : BTreeG less) :
    sorted_by less (Ascend t) -> tMin t = head (Ascend t);
  Len_Ascend T (less : T -> T -> bool) (t : BTreeG less) :
    tLen t = Z.of_nat (length (Ascend t))
}.

(** ** Sorted lists are trees *)

Fixpoint insert_sorted {T} (less : T -> T -> bool) (x : T) (l : list T) : list T :=
  match l with
  | [] => [x]
  | y :: l' =>
      if less x y then x :: l
      else if less y x then y :: insert_sorted less x l'
      else x :: l'
  end.

Section Sorted.
  Context {T} (less : T -> T -> bool) `{!StrictWeak less}.

Lemma insert_sorted_spec x l :
  sorted_by less l ->
  sorted_by less (insert_sorted less x l) /\
  (forall y, y ∈ insert_sorted less x l <-> y = x \/ (y ∈ l /\ same less y x = false)).
Proof.
  induction 1 as [|z l Hl [IH1 IH2] Hz]; simpl.
  { split; [repeat constructor|]. intros y. rewrite list_elem_of_singleton, elem_of_nil. tauto. }
  rewrite Forall_forall in Hz.
  assert (forall y, less x y = true -> same less y x = false) as Hs1.
  { intros y Hy. apply same_false. by right. }
  destruct (less x z) eqn:Hxz; [|destruct (less z x) eqn:Hzx].
  - split.
    + constructor; [constructor; [done|by apply Forall_forall]|].
      constructor; [done|]. apply Forall_forall. intros y Hy. eapply less_trans; eauto.
    + intros y. rewrite !elem_of_cons. split; [|tauto].
      intros [->|[->|Hy]]; [tauto|right..]; (split; [tauto|]); apply Hs1; [done|].
      eapply less_trans; eauto.
  - split.
    + constructor; [done|]. apply Forall_forall. intros y [->|[Hy _]]%IH2; auto.
    + intros y. rewrite !elem_of_cons, IH2. split; [|tauto].
      intros [->|[->|[Hy Hs]]]; [|tauto..]. right. split; [tauto|]. apply same_false. by left.
  - assert (same less z x = true) as Hsame by by apply same_true.
    assert (forall y, y ∈ l -> less x y = true) as Hx.
    { intros y Hy. eapply (less_same_l less); [by apply (same_sym less)|by apply Hz]. }
    split.
    + constructor; [done|]. by apply Forall_forall.
    + intros y. rewrite !elem_of_cons. split.
      * intros [->|Hy]; [tauto|]. right. split; [tauto|]. by apply Hs1, Hx.
      * intros [->|[[->|Hy] Hs]]; [tauto|congruence|tauto].
Qed.

Lemma filter_sorted (f : T -> bool) l : sorted_by less l -> sorted_by less (List.filter f l).
Proof.
  induction 1 as [|z l Hl IH Hz]; simpl; [constructor|]. destruct (f z); [|done].
  constructor; [done|]. rewrite Forall_forall in Hz |- *. intros y [Hy _]%list_elem_of_In%filter_In.
  apply Hz. by apply list_elem_of_In.
Qed.

(** At most one item of a sorted list has the key of [x]. *)
Lemma find_same_unique x y l :
  sorted_by less l -> y ∈ l -> same less y x = true ->
  List.find (fun y => same less y x) l = Some y.
Proof.
  induction 1 as [|z l Hl IH Hz]; [by intros H%elem_of_nil|].
  intros [->|Hy]%elem_of_cons Hs; simpl; [by rewrite Hs|].
  rewrite Forall_forall in Hz. specialize (Hz _ Hy).
  destruct (same less z x) eqn:E; [|by apply IH].
  apply (same_sym less) in Hs. pose proof (same_trans less _ _ _ E Hs) as H.
  apply same_true in H as []. congruence.
Qed.

(** A sorted list is determined by its items. *)
Lemma sorted_unique l1 l2 :
  sorted_by less l1 -> sorted_by less l2 -> (forall x, x ∈ l1 <-> x ∈ l2) -> l1 = l2.
Proof.
  intros H1. revert l2. induction H1 as [|x l1 Hl1 IH Hx]; intros l2 H2 Hin.
  { destruct l2 as [|y l2]; [done|]. exfalso. apply (not_elem_of_nil (A := T) y), Hin. left. }
  destruct H2 as [|y l2 Hl2 Hy]; [exfalso; apply (not_elem_of_nil (A := T) x), Hin; left|].
  rewrite Forall_forall in Hx, Hy.
  assert (x = y) as <-.
  { assert (x ∈ y :: l2) as [->|Hx2]%elem_of_cons by (apply Hin; left); [done|].
    assert (y ∈ x :: l1) as [->|Hy1]%elem_of_cons by (apply Hin; left); [done|].
    pose proof (less_asym less _ _ (Hy _ Hx2)) as H. rewrite (Hx _ Hy1) in H. done. }
  f_equal. apply IH; [done|]. intros z.
  assert (forall l : list T, (forall u, u ∈ l -> less x u = true) -> z ∈ l -> z <> x) as Hne.
  { intros l Hl Hz ->. specialize (Hl _ Hz). by rewrite less_irrefl in Hl. }
  specialize (Hin z). rewrite !elem_of_cons in Hin. split; intros Hz.
  - destruct Hin as [[->|]]; [auto|by destruct (Hne l1 Hx Hz)|done].
  - destruct Hin as [_ [->|]]; [auto|by destruct (Hne l2 Hy Hz)|done].
Qed.

End Sorted.

(** The instance. *)
Definition sorted_lists : BTree := {|
  BTreeG T _ := list T;
  NewG T _ := [];
  ReplaceOrInsert T less t x := insert_sorted less x t;
  tDelete T less t x := List.filter (fun y => negb (same less y x)) t;
  tGet T less t x := List.find (fun y => same less y x) t;
  tMin T _ t := head t;
  tLen T _ t := Z.of_nat (length t);
  Ascend T _ t := t
|}.

Lemma sorted_lists_laws : BTreeLaws (B := sorted_lists).
Proof.
  constructor; simpl; try done. intros T less SW t x Ht. by apply insert_sorted_spec.
Qed.
