(* ===== verification/PriceLevel.v ===== *)
(** * Price levels (domains/insights/price_level.go)

    One side of an order book: a B-tree of price levels, best first.  The book
    side is fixed when a map is made, so it is an index of the type.  The
    iterations thread the variables their closures assign. *)

From stdpp Require Import sorting.
From S2P Require Import Prelude GoStd Decimal QDecimal Domains BTree.
Local Open Scope Z_scope.

Section PriceLevel.
  Context {D : Decimal} {B : BTree}.

Record PriceLevel := MkPriceLevel {
  SeqID : Z;
  Price : dec;
  Volume : dec
}.

Definition isOld (r : PriceLevel) (nowID : Z) : bool := SeqID r <? nowID.

Definition Copy (r : PriceLevel) : PriceLevel :=
  {| SeqID := SeqID r; Price := Price r; Volume := Volume r |}.

(** [PriceLevel{}] and [PriceLevel{Price: price}] *)
Definition zero_PriceLevel : PriceLevel := MkPriceLevel 0 Zero Zero.
Definition at_price (price : dec) : PriceLevel := MkPriceLevel 0 price Zero.

Definition less (bookSide : BookSide) (a b : PriceLevel) : bool :=
  if decide (bookSide = BookSideBid) then GreaterThan (Price a) (Price b)
  else LessThan (Price a) (Price b).

Record PriceLevelMap (q : BookSide) := MkPriceLevelMap {
  ts : dec;
  tree : BTreeG (less q)
}.
#[global] Arguments MkPriceLevelMap {q} _ _.
#[global] Arguments ts {q} _.
#[global] Arguments tree {q} _.

Definition newPriceLevelMap (bookSide : BookSide) (tickSize : dec) : PriceLevelMap bookSide :=
  {| ts := tickSize; tree := NewG (less bookSide) |}.

Definition drop {q} (p : PriceLevelMap q) (price : dec) : PriceLevelMap q :=
  {| ts := ts p; tree := tDelete (tree p) (at_price price) |}.

Definition set {q} (p : PriceLevelMap q) (record : PriceLevel) : PriceLevelMap q :=
  if IsZero (Volume record) then
    {| ts := ts p; tree := tDelete (tree p) (at_price (Price record)) |}
  else {| ts := ts p; tree := ReplaceOrInsert (tree p) record |}.

Definition Get {q} (p : PriceLevelMap q) (price : dec) : option PriceLevel :=
  tGet (tree p) (at_price price).

Definition Len {q} (p : PriceLevelMap q) : Z := tLen (tree p).

Definition replace {q} (p r : PriceLevelMap q) : PriceLevelMap q :=
  {| ts := ts p; tree := tree r |}.

(** [Ascend(func(item) bool)]: the iteration stops when the function says [false]. *)
Fixpoint ascend_loop {S} (f : S -> dec -> PriceLevel -> S * bool) (l : list PriceLevel) (s : S) : S :=
  match l with
  | [] => s
  | item :: l =>
      let '(s', continue) := f s (Price item) item in
      if continue then ascend_loop f l s' else s'
  end.

Definition Range {q S} (p : PriceLevelMap q) (f : S -> dec -> PriceLevel -> S * bool) (s : S) : S :=
  ascend_loop f (Ascend (tree p)) s.

Definition SortedRange {q S} (p : PriceLevelMap q) (f : S -> dec -> PriceLevel -> S * bool) (s : S) : S :=
  ascend_loop f (Ascend (tree p)) s.

Definition BestLevel {q} (p : PriceLevelMap q) : PriceLevel :=
  match tMin (tree p) with
  | None => zero_PriceLevel
  | Some best => Copy best
  end.

Definition SumVolume {q} (p : PriceLevelMap q) (price : dec) : dec :=
  SortedRange p (fun sumVol itaPrice itaRecord =>
    if bool_decide (q = BookSideAsk) && GreaterThan itaPrice price then (sumVol, false)
    else if bool_decide (q = BookSideBid) && LessThan itaPrice price then (sumVol, false)
    else (Add sumVol (Volume itaRecord), true)) Zero.

(** The variables [remainingQty] and [weightedSum] of the closure. *)
Definition avg_step (s : dec * dec) (price : dec) (record : PriceLevel) : (dec * dec) * bool :=
  let '(remainingQty, weightedSum) := s in
  let nextRemainingQty := Sub remainingQty (Volume record) in
  if LessThanOrEqual nextRemainingQty Zero
  then ((remainingQty, Add weightedSum (Mul price remainingQty)), false)
  else ((nextRemainingQty, Add weightedSum (Mul price (Volume record))), true).

(** [None]: the division by a quantity of zero panics. *)
Definition AvgExecPrice {q} (p : PriceLevelMap q) (qty : dec) : option dec :=
  let '(remainingQty, weightedSum) := SortedRange p avg_step (qty, Zero) in
  Div weightedSum qty.

(** ** Facts *)

Context {DL : DecimalLaws D} {BL : BTreeLaws (B := B)}.

#[export] Instance less_StrictWeak q : StrictWeak (less q).
Proof.
  unfold less. split.
  - intros x. case_decide; apply not_true_is_false; rewrite ?GreaterThan_spec, ?LessThan_spec; lra.
  - intros x y z. case_decide; rewrite ?GreaterThan_spec, ?LessThan_spec; lra.
  - intros x y z. case_decide; rewrite ?GreaterThan_spec, ?LessThan_spec; intros Hxy.
    + destruct (Qlt_le_dec (dval (Price z)) (dval (Price x))); [by left|right; lra].
    + destruct (Qlt_le_dec (dval (Price x)) (dval (Price z))); [by left|right; lra].
Qed.

Lemma same_price q a b : same (less q) a b = Equal (Price a) (Price b).
Proof.
  apply eq_true_iff_eq. rewrite same_true, Equal_spec, <- !not_true_iff_false. unfold less.
  case_decide; rewrite ?GreaterThan_spec, ?LessThan_spec; split; [|lra| |lra].
  all: intros [H1 H2]; apply Qle_antisym; by apply Qnot_lt_le.
Qed.

(** The levels of a map, best first. *)
Definition levels {q} (p : PriceLevelMap q) : list PriceLevel := Ascend (tree p).

(** The tree of a map is sorted; no level is empty. *)
Record map_ok {q} (p : PriceLevelMap q) : Prop := {
  mo_sorted : sorted_by (less q) (levels p);
  mo_volume : forall r, r ∈ levels p -> IsZero (Volume r) = false
}.

Lemma newPriceLevelMap_ok q t : map_ok (newPriceLevelMap q t).
Proof.
  constructor; unfold levels; simpl; rewrite Ascend_NewG; [constructor|].
  by intros r H%not_elem_of_nil.
Qed.

Lemma levels_drop {q} (p : PriceLevelMap q) price :
  map_ok p -> levels (drop p price) = List.filter (fun r => negb (Equal (Price r) price)) (levels p).
Proof.
  intros [Hs _]. unfold levels, drop. simpl. rewrite (Ascend_Delete _ _ _ _ Hs).
  apply filter_ext. intros r. by rewrite same_price.
Qed.

Lemma drop_ok {q} (p : PriceLevelMap q) price : map_ok p -> map_ok (drop p price).
Proof.
  intros Hp. constructor; rewrite levels_drop by done.
  - apply filter_sorted, Hp.
  - intros r [Hr _]%list_elem_of_In%filter_In. apply (mo_volume _ Hp). by apply list_elem_of_In.
Qed.

Lemma set_zero {q} (p : PriceLevelMap q) r : IsZero (Volume r) = true -> set p r = drop p (Price r).
Proof. intros H. unfold set. by rewrite H. Qed.

Lemma set_ok {q} (p : PriceLevelMap q) r : map_ok p -> map_ok (set p r).
Proof.
  intros Hp. destruct (IsZero (Volume r)) eqn:Hz; [rewrite set_zero by done; by apply drop_ok|].
  unfold set. rewrite Hz.
  destruct (Ascend_ReplaceOrInsert _ _ (tree p) r (mo_sorted _ Hp)) as [Hs Hin].
  constructor; [done|]. intros r' [->|[Hr' _]]%Hin; [done|by apply (mo_volume _ Hp)].
Qed.

Lemma Get_find {q} (p : PriceLevelMap q) price :
  map_ok p -> Get p price = List.find (fun r => Equal (Price r) price) (levels p).
Proof.
  intros [Hs _]. unfold Get. rewrite (Get_Ascend _ _ _ _ Hs). fold (levels p). clear Hs.
  induction (levels p) as [|r l IH]; [done|]. simpl. by rewrite same_price, IH.
Qed.

Lemma Get_Some {q} (p : PriceLevelMap q) price r :
  map_ok p -> Get p price = Some r <-> r ∈ levels p /\ Equal (Price r) price = true.
Proof.
  intros Hp. split.
  - rewrite Get_find by done. intros [Hr He]%find_some. by rewrite list_elem_of_In.
  - intros [Hr He]. unfold Get. rewrite (Get_Ascend _ _ _ _ (mo_sorted _ Hp)).
    apply (find_same_unique (less q)); [apply Hp|done|]. by rewrite same_price.
Qed.

Lemma Get_None {q} (p : PriceLevelMap q) price :
  map_ok p -> Get p price = None <-> forall r, r ∈ levels p -> Equal (Price r) price = false.
Proof.
  intros Hp. split.
  - rewrite Get_find by done. intros Hn r Hr. eapply find_none in Hn; [exact Hn|]. by apply list_elem_of_In.
  - intros H. destruct (Get p price) as [r|] eqn:E; [|done].
    apply Get_Some in E as [Hr He]; [|done]. by rewrite H in He.
Qed.

Lemma Equal_sym a b : Equal a b = Equal b a.
Proof. apply eq_true_iff_eq. rewrite !Equal_spec. split; intros; lra. Qed.

Lemma Equal_trans a b c : Equal a b = true -> Equal b c = Equal a c.
Proof.
  intros H%Equal_spec. apply eq_true_iff_eq. rewrite !Equal_spec. split; intros; lra.
Qed.

(** The two laws of a map keyed by price. *)

Lemma Get_drop {q} (p : PriceLevelMap q) price price' :
  map_ok p -> Get (drop p price) price' = if Equal price price' then None else Get p price'.
Proof.
  intros Hp. rewrite !Get_find, levels_drop by (try apply drop_ok; done).
  induction (levels p) as [|r l IH]; simpl; [by destruct (Equal price price')|].
  destruct (Equal (Price r) price) eqn:E; simpl; rewrite IH.
  - rewrite (Equal_trans _ _ price' E). by destruct (Equal (Price r) price').
  - destruct (Equal (Price r) price') eqn:E2; [|done].
    replace (Equal price price') with false; [done|]. symmetry. apply not_true_is_false.
    intros E3. apply not_true_iff_false in E. apply E. rewrite Equal_spec in *. lra.
Qed.

Lemma Get_set {q} (p : PriceLevelMap q) r price :
  map_ok p ->
  Get (set p r) price =
    if Equal (Price r) price then (if IsZero (Volume r) then None else Some r) else Get p price.
Proof.
  intros Hp. destruct (IsZero (Volume r)) eqn:Hz.
  { rewrite set_zero, Get_drop by done. done. }
  pose proof (set_ok p r Hp) as Hok.
  assert (forall y, y ∈ levels (set p r) <-> y = r \/ (y ∈ levels p /\ Equal (Price y) (Price r) = false)) as Hin.
  { intros y. unfold set. rewrite Hz. unfold levels. simpl.
    destruct (Ascend_ReplaceOrInsert _ _ (tree p) r (mo_sorted _ Hp)) as [_ ->]. by rewrite same_price. }
  destruct (Equal (Price r) price) eqn:E; [apply Get_Some; [done|]; rewrite Hin; auto|].
  destruct (Get p price) as [x|] eqn:Ex.
  - apply Get_Some in Ex as [Hx He]; [|done]. apply Get_Some; [done|]. split; [|done].
    apply Hin. right. split; [done|]. apply not_true_is_false. intros E2.
    rewrite (Equal_trans _ _ price E2), He in E. done.
  - apply Get_None; [done|]. intros y [->|[Hy _]]%Hin; [done|].
    by eapply (Get_None p price).
Qed.

Lemma head_best {q} (p : PriceLevelMap q) best :
  map_ok p -> head (levels p) = Some best ->
  forall r, r ∈ levels p -> less q r best = false.
Proof.
  intros [Hs _] Hh r Hr. destruct (levels p) as [|x l]; [done|]. simplify_eq/=.
  inversion Hs as [|?? Hs' Hall]; subst. apply elem_of_cons in Hr as [->|Hr]; [apply less_irrefl|].
  rewrite Forall_forall in Hall. apply (less_asym (less q)). by apply Hall.
Qed.

Lemma BestLevel_spec {q} (p : PriceLevelMap q) :
  map_ok p ->
  BestLevel p = match levels p with [] => zero_PriceLevel | r :: _ => r end.
Proof.
  intros [Hs _]. unfold BestLevel. rewrite (Min_Ascend _ _ _ Hs). fold (levels p).
  destruct (levels p) as [|[]]; done.
Qed.

(** ** Volumes and average prices *)

Definition sum_volumes (l : list PriceLevel) : Q := foldr (fun r acc => (dval (Volume r) + acc)%Q) 0%Q l.

(** The levels an order at [price] on the other side would trade with. *)
Definition marketable (q : BookSide) (price : dec) (r : PriceLevel) : bool :=
  if decide (q = BookSideBid) then Qle_bool (dval price) (dval (Price r))
  else Qle_bool (dval (Price r)) (dval price).

Lemma sum_loop q price l s :
  q <> BookSideNone -> sorted_by (less q) l ->
  (dval (ascend_loop (fun sumVol itaPrice itaRecord =>
     if bool_decide (q = BookSideAsk) && GreaterThan itaPrice price then (sumVol, false)
     else if bool_decide (q = BookSideBid) && LessThan itaPrice price then (sumVol, false)
     else (Add sumVol (Volume itaRecord), true)) l s) ==
   dval s + sum_volumes (List.filter (marketable q price) l))%Q.
Proof.
  intros Hq Hs. revert s. induction Hs as [|r l Hs IH Hr]; intros s; simpl; [lra|].
  rewrite Forall_forall in Hr.
  assert (forall b, (b = true <-> marketable q price r = false) ->
    (dval (let '(s', c) := if b then (s, false) else (Add s (Volume r), true) in
      if c then ascend_loop (fun sumVol itaPrice itaRecord =>
     if bool_decide (q = BookSideAsk) && GreaterThan itaPrice price then (sumVol, false)
     else if bool_decide (q = BookSideBid) && LessThan itaPrice price then (sumVol, false)
     else (Add sumVol (Volume itaRecord), true)) l s' else s') ==
    dval s + sum_volumes (if marketable q price r then r :: List.filter (marketable q price) l
                          else List.filter (marketable q price) l))%Q) as Hstep.
  { intros [] Hb.
    - assert (marketable q price r = false) as Hm by by apply Hb. rewrite Hm.
      replace (List.filter (marketable q price) l) with (@nil PriceLevel); [simpl; lra|].
      symmetry. apply filter_nothing. intros x Hx%Hr.
      unfold marketable, less in *. case_decide;
        rewrite <- not_true_iff_false, Qle_bool_iff in Hm |- *;
        rewrite ?GreaterThan_spec, ?LessThan_spec in Hx; lra.
    - destruct (marketable q price r); [|by destruct Hb as [_ Hb]; discriminate Hb].
      rewrite IH. simpl. dval_simpl. lra. }
  destruct q; [done|..]; simpl; apply Hstep; unfold marketable; simpl;
    rewrite <- not_true_iff_false, Qle_bool_iff, ?GreaterThan_spec, ?LessThan_spec; lra.
Qed.

(** [SumVolume] is the volume of the levels that an order at the price trades with:
    the asks up to the price, the bids down to it. *)
Theorem SumVolume_spec {q} (p : PriceLevelMap q) price :
  q <> BookSideNone -> map_ok p ->
  (dval (SumVolume p price) == sum_volumes (List.filter (marketable q price) (levels p)))%Q.
Proof.
  intros Hq [Hs _]. unfold SumVolume, SortedRange. rewrite sum_loop by done.
  rewrite dval_Zero. fold (levels p). lra.
Qed.

(** A market order of [need]: what it takes from each level. *)
Fixpoint fills (need : Q) (l : list PriceLevel) : list (Q * Q) :=
  match l with
  | [] => []
  | r :: l =>
      if Qle_bool need (dval (Volume r)) then [(dval (Price r), need)]
      else (dval (Price r), dval (Volume r)) :: fills (need - dval (Volume r)) l
  end.

Definition cost (fs : list (Q * Q)) : Q := foldr (fun f acc => (f.1 * f.2 + acc)%Q) 0%Q fs.
Definition filled (fs : list (Q * Q)) : Q := foldr (fun f acc => (f.2 + acc)%Q) 0%Q fs.

Lemma avg_loop l need w :
  (dval (ascend_loop avg_step l (need, w)).2 == dval w + cost (fills (dval need) l))%Q.
Proof.
  assert (forall need need' l, (need == need')%Q -> (cost (fills need l) == cost (fills need' l))%Q) as Hext.
  { intros n n' l'. revert n n'. induction l' as [|r l' IH]; intros n n' Hn; simpl; [done|].
    assert (Qle_bool n (dval (Volume r)) = Qle_bool n' (dval (Volume r))) as -> by by rewrite Hn.
    destruct (Qle_bool n' _); simpl.
    - by rewrite Hn.
    - rewrite (IH (n - _)%Q (n' - dval (Volume r))%Q); [done|]. by rewrite Hn. }
  revert need w. induction l as [|r l IH]; intros need w; simpl; [lra|].
  destruct (LessThanOrEqual (Sub need (Volume r)) Zero) eqn:E; simpl.
  - apply LessThanOrEqual_spec in E. revert E. dval_simpl. intros E.
    replace (Qle_bool (dval need) (dval (Volume r))) with true; [simpl; lra|].
    symmetry. apply Qle_bool_iff. lra.
  - apply not_true_iff_false in E. rewrite LessThanOrEqual_spec in E. revert E. dval_simpl. intros E.
    replace (Qle_bool (dval need) (dval (Volume r))) with false; cycle 1.
    { symmetry. apply not_true_is_false. rewrite Qle_bool_iff. lra. }
    rewrite IH. simpl. rewrite (Hext _ (dval need - dval (Volume r))%Q) by apply dval_Sub.
    dval_simpl. lra.
Qed.

Lemma filled_enough need l :
  (need <= sum_volumes l)%Q -> (0 < need)%Q -> (filled (fills need l) == need)%Q.
Proof.
  revert need. induction l as [|r l IH]; intros need Hn Hpos; simpl in *; [lra|].
  destruct (Qle_bool need (dval (Volume r))) eqn:E; simpl; [lra|].
  apply not_true_iff_false in E. rewrite Qle_bool_iff in E. rewrite IH; lra.
Qed.

Lemma filled_short need l :
  (sum_volumes l < need)%Q -> Forall (fun r => (0 < dval (Volume r))%Q) l ->
  fills need l = map (fun r => (dval (Price r), dval (Volume r))) l.
Proof.
  intros Hn Hpos. revert need Hn. induction Hpos as [|r l Hr Hpos IH]; intros need Hn; simpl in *; [done|].
  assert (0 <= sum_volumes l)%Q as Hge.
  { clear -Hpos. induction Hpos; simpl; lra. }
  destruct (Qle_bool need (dval (Volume r))) eqn:E.
  - apply Qle_bool_iff in E. lra.
  - rewrite IH; [done|lra].
Qed.

(** The prices a market order gets are prices of the book, bounded by any bounds of it. *)
Lemma cost_bounds need l lo hi :
  (forall r, r ∈ l -> (lo <= dval (Price r) <= hi)%Q /\ (0 < dval (Volume r))%Q) -> (0 < need)%Q ->
  (lo * filled (fills need l) <= cost (fills need l) <= hi * filled (fills need l))%Q.
Proof.
  revert need. induction l as [|r l IH]; intros need Hl Hn; simpl; [lra|].
  destruct (Hl r) as [Hp Hv]; [left|].
  destruct (Qle_bool need (dval (Volume r))) eqn:E; simpl; [nra|].
  apply not_true_iff_false in E. rewrite Qle_bool_iff in E.
  destruct (IH (need - dval (Volume r))%Q) as [H1 H2]; [intros x Hx; apply Hl; by right|lra|]. nra.
Qed.

(** C19: [AvgExecPrice] is, up to the rounding of the division, the cost of filling the
    quantity from the best level on, divided by the quantity.  When the book is deep
    enough, the cost is that of the whole quantity, so the average lies between any
    bounds of the prices of the book. *)
Theorem AvgExecPrice_spec {q} (p : PriceLevelMap q) qty lo hi :
  map_ok p -> (0 < dval qty)%Q ->
  (forall r, r ∈ levels p -> (lo <= dval (Price r) <= hi)%Q /\ (0 < dval (Volume r))%Q) ->
  (dval qty <= sum_volumes (levels p))%Q ->
  let fs := fills (dval qty) (levels p) in
  (filled fs == dval qty)%Q /\
  exists avg, AvgExecPrice p qty = Some avg /\
    (Qabs (dval avg - cost fs / dval qty) <= half_ulp)%Q /\
    (lo - half_ulp <= dval avg <= hi + half_ulp)%Q.
Proof.
  intros Hp Hq Hl Hd fs. pose proof (filled_enough _ _ Hd Hq) as Hf. split; [done|].
  unfold AvgExecPrice, SortedRange. fold (levels p).
  pose proof (avg_loop (levels p) qty Zero) as Hc.
  destruct (ascend_loop avg_step (levels p) (qty, Zero)) as [rem w]. simpl in Hc.
  destruct (Div_Some w qty) as [avg Havg]; [lra|]. exists avg. split; [done|].
  pose proof (Div_close _ _ _ Havg) as Hclose. rewrite Hc, dval_Zero, Qplus_0_l in Hclose.
  split; [exact Hclose|].
  pose proof (cost_bounds (dval qty) (levels p) lo hi Hl Hq) as [H1 H2]. fold fs in H1, H2, Hf, Hclose.
  rewrite Hf in H1, H2.
  assert (lo <= cost fs / dval qty)%Q by by apply Qle_shift_div_l.
  assert (cost fs / dval qty <= hi)%Q by by apply Qle_shift_div_r.
  apply Qabs_Qle_condition in Hclose. lra.
Qed.

End PriceLevel.
