(* ===== verification/OrderBook.v ===== *)
(** * The order book (domains/insights/orderbook.go, orderbook_handlers.go)

    Two maps of price levels and the cached best prices.  [UpdateByOBData] holds
    its own mutex for its whole body, so it is one function; it returns the book
    and the callbacks it called, in order.  A registered callback is a number. *)

From S2P Require Import Prelude GoStd Decimal QDecimal Domains Symbol BTree PriceLevel.
Local Open Scope Z_scope.

Inductive DataType := DataTypeUnknown | DataTypeSnapshot | DataTypeDelta.

#[export] Instance DataType_eq_dec : EqDecision DataType.
Proof. solve_decision. Defined.

(** A deferred callback: the function literal [func() {}] or a registered one. *)
Inductive defer_callback := NoCallback | Callback (n : nat).

Section OrderBook.
  Context {D : Decimal} {B : BTree}.

Record OrderBookData := MkOrderBookData {
  Type' : DataType;
  ExecAt : time;
  ArrivedAt : time;
  Bids : list PriceLevel;
  Asks : list PriceLevel;
  obSeqID : Z
}.

Record OrderBookImpl := MkOrderBook {
  symbol : Symbol.Symbol;
  lastExecAt : option time;
  lastArrivedAt : option time;
  BidsMap : PriceLevelMap BookSideBid;
  AsksMap : PriceLevelMap BookSideAsk;
  currentBestAsk : option PriceLevel;
  currentBestBid : option PriceLevel;
  beforeBestAsk : option PriceLevel;
  beforeBestBid : option PriceLevel;
  updateCallback : list nat;
  deferCallback : option defer_callback
}.

#[export] Instance eta_OrderBookImpl : Eta OrderBookImpl := fun p =>
  MkOrderBook (symbol p) (lastExecAt p) (lastArrivedAt p) (BidsMap p) (AsksMap p)
    (currentBestAsk p) (currentBestBid p) (beforeBestAsk p) (beforeBestBid p)
    (updateCallback p) (deferCallback p).

Definition NewOrderBook (symbol' : Symbol.Symbol) : OrderBookImpl := {|
  symbol := symbol';
  lastExecAt := None;
  lastArrivedAt := None;
  BidsMap := newPriceLevelMap BookSideBid (Symbol.TickSize symbol');
  AsksMap := newPriceLevelMap BookSideAsk (Symbol.TickSize symbol');
  currentBestAsk := None;
  currentBestBid := None;
  beforeBestAsk := None;
  beforeBestBid := None;
  updateCallback := [];
  deferCallback := None
|}.

(** ** Getters and setters *)

Definition GetBestAsk (p : OrderBookImpl) : option PriceLevel := currentBestAsk p.
Definition GetBestBid (p : OrderBookImpl) : option PriceLevel := currentBestBid p.

Definition level_diff (current before : PriceLevel) : PriceLevel :=
  {| SeqID := wrap64 (SeqID current - SeqID before);
     Price := Sub (Price current) (Price before);
     Volume := Sub (Volume current) (Volume before) |}.

(** [None]: the nil dereference before the second update. *)
Definition GetDiffBestAsk (p : OrderBookImpl) : option PriceLevel :=
  current ← currentBestAsk p; before ← beforeBestAsk p; Some (level_diff current before).
Definition GetDiffBestBid (p : OrderBookImpl) : option PriceLevel :=
  current ← currentBestBid p; before ← beforeBestBid p; Some (level_diff current before).

Definition setCurrentBestAsk (r : option PriceLevel) (p : OrderBookImpl) := p <| currentBestAsk := r |>.
Definition setCurrentBestBid (r : option PriceLevel) (p : OrderBookImpl) := p <| currentBestBid := r |>.
Definition setBeforeBestAsk (r : option PriceLevel) (p : OrderBookImpl) := p <| beforeBestAsk := r |>.
Definition setBeforeBestBid (r : option PriceLevel) (p : OrderBookImpl) := p <| beforeBestBid := r |>.
Definition setLastExecAt (t : option time) (p : OrderBookImpl) := p <| lastExecAt := t |>.
Definition setLastArrivedAt (t : option time) (p : OrderBookImpl) := p <| lastArrivedAt := t |>.

Definition is_some {A} (x : option A) : bool := match x with Some _ => true | None => false end.

Definition IsReady (p : OrderBookImpl) : bool :=
  is_some (currentBestBid p) && is_some (currentBestAsk p) &&
  is_some (beforeBestBid p) && is_some (beforeBestAsk p) && is_some (lastExecAt p).

Definition GetTickSize (p : OrderBookImpl) : dec := Symbol.TickSize (symbol p).
Definition GetMinOrderQty (p : OrderBookImpl) : dec := Symbol.MinOrderQty (symbol p).
Definition GetLastExecAt (p : OrderBookImpl) : option time := lastExecAt p.
Definition GetLastArrivedAt (p : OrderBookImpl) : option time := lastArrivedAt p.
Definition SetUpdateCallback (callback : nat) (p : OrderBookImpl) :=
  p <| updateCallback ::= fun cs => cs ++ [callback] |>.
Definition getUpdateCallback (p : OrderBookImpl) : list nat := updateCallback p.
Definition SetDeferUpdateCallBack (callback : nat) (p : OrderBookImpl) :=
  p <| deferCallback := Some (Callback callback) |>.
Definition getDeferUpdateCallback (p : OrderBookImpl) : option defer_callback := deferCallback p.
Definition DropDeferUpdateCallBack (p : OrderBookImpl) :=
  p <| deferCallback := Some NoCallback |>.

(** ** Prices and volumes; [None]: the division by a tick size of zero *)

Definition RoundToTickSize (p : OrderBookImpl) (price : dec) : option dec :=
  quotient ← Div price (Symbol.TickSize (symbol p));
  Some (Mul (Truncate quotient 0) (Symbol.TickSize (symbol p))).

Definition CalcBestPrice (p : OrderBookImpl) (midPrice : dec) : option (dec * dec) :=
  let tickSize := Symbol.TickSize (symbol p) in
  ask ← RoundToTickSize p midPrice;
  let bestAsk := Add ask tickSize in
  bestBid ← RoundToTickSize p midPrice;
  Some (bestAsk, bestBid).

Definition SumVolume (p : OrderBookImpl) (bookSide : BookSide) (price : dec) : dec :=
  match bookSide with
  | BookSideAsk => PriceLevel.SumVolume (AsksMap p) price
  | BookSideBid => PriceLevel.SumVolume (BidsMap p) price
  | _ => Zero
  end.

Definition AvgExecPrice (p : OrderBookImpl) (bookSide : BookSide) (qty : dec) : option dec :=
  match bookSide with
  | BookSideAsk => avg ← PriceLevel.AvgExecPrice (AsksMap p) qty; RoundToTickSize p avg
  | BookSideBid => avg ← PriceLevel.AvgExecPrice (BidsMap p) qty; RoundToTickSize p avg
  | _ => Some Zero
  end.

Definition AvgExecPriceBySide (p : OrderBookImpl) (side : Side) (qty : dec) : option dec :=
  match side with
  | SideBuy => avg ← PriceLevel.AvgExecPrice (AsksMap p) qty; RoundToTickSize p avg
  | SideSell => avg ← PriceLevel.AvgExecPrice (BidsMap p) qty; RoundToTickSize p avg
  | _ => Some Zero
  end.

(** The variables of the closures: the map built and [sumVol]. *)
Definition vol_sum_step {q} (s : PriceLevelMap q * dec) (price : dec) (record : PriceLevel) :
    (PriceLevelMap q * dec) * bool :=
  let '(volSumMap, sumVol) := s in
  let sumVol := Add sumVol (Volume record) in
  ((set volSumMap {| SeqID := 0; Price := price; Volume := sumVol |}, sumVol), true).

Definition CalculateBidsVolSumMap (p : OrderBookImpl) : PriceLevelMap BookSideBid :=
  let bidsVolSumMap := newPriceLevelMap BookSideBid (Symbol.TickSize (symbol p)) in
  fst (SortedRange (BidsMap p) vol_sum_step (bidsVolSumMap, Zero)).

Definition CalculateAsksVolSumMap (p : OrderBookImpl) : PriceLevelMap BookSideAsk :=
  let asksVolSumMap := newPriceLevelMap BookSideAsk (Symbol.TickSize (symbol p)) in
  fst (SortedRange (AsksMap p) vol_sum_step (asksVolSumMap, Zero)).

Definition depth_step (depth : Z) (levels : list PriceLevel) (price : dec) (record : PriceLevel) :
    list PriceLevel * bool :=
  let levels := levels ++ [record] in
  (levels, Z.of_nat (length levels) <? depth).

Definition GetAsks (p : OrderBookImpl) (depth : Z) : list PriceLevel :=
  SortedRange (AsksMap p) (depth_step depth) [].

Definition GetBids (p : OrderBookImpl) (depth : Z) : list PriceLevel :=
  SortedRange (BidsMap p) (depth_step depth) [].

(** ** Updates *)

(** The loop over one side of a delta. *)
Definition delta_level {q} (m : PriceLevelMap q) (a : PriceLevel) : PriceLevelMap q :=
  match Get m (Price a) with
  | Some r =>
      if negb (isOld r (SeqID a)) then m
      else if IsZero (Volume a) then drop m (Price a) else set m a
  | None => if IsZero (Volume a) then drop m (Price a) else set m a
  end.

Definition delta_side {q} (m : PriceLevelMap q) (ls : list PriceLevel) : PriceLevelMap q :=
  foldl delta_level m ls.

Definition updateByDelta (delta : OrderBookData) (p : OrderBookImpl) : OrderBookImpl :=
  let p := if (0 <? length (Asks delta))%nat
           then p <| AsksMap ::= fun m => delta_side m (Asks delta) |> else p in
  if (0 <? length (Bids delta))%nat
  then p <| BidsMap ::= fun m => delta_side m (Bids delta) |> else p.

(** One side of a snapshot, unless it is empty: a fresh map, then the existing rows that are
    newer than the snapshot's row of their price. *)
Definition keep_newer {q} (fresh : PriceLevelMap q) (price : dec) (record : PriceLevel) :
    PriceLevelMap q * bool :=
  match Get fresh price with
  | Some sr => if isOld sr (SeqID record) then (set fresh record, true) else (fresh, true)
  | None => (fresh, true)
  end.

Definition reset_side {q} (tickSize : dec) (m : PriceLevelMap q) (ls : list PriceLevel) :
    PriceLevelMap q :=
  if (0 <? length ls)%nat then
    let fresh := foldl set (newPriceLevelMap q tickSize) ls in
    replace m (Range m keep_newer fresh)
  else m.

Definition resetBySnapshot (snapshot : OrderBookData) (p : OrderBookImpl) : OrderBookImpl :=
  let tickSize := Symbol.TickSize (symbol p) in
  let p := p <| AsksMap ::= fun m => reset_side tickSize m (Asks snapshot) |> in
  p <| BidsMap ::= fun m => reset_side tickSize m (Bids snapshot) |>.

Definition UpdateByOBData (data : OrderBookData) (p : OrderBookImpl) : OrderBookImpl * list nat :=
  let p := match GetBestAsk p, GetBestBid p with
           | Some bestAsk, Some bestBid =>
               setBeforeBestBid (Some (Copy bestBid)) (setBeforeBestAsk (Some (Copy bestAsk)) p)
           | _, _ => p
           end in
  let p := setLastExecAt (Some (ExecAt data)) p in
  let p := setLastArrivedAt (Some (ArrivedAt data)) p in
  let p := match Type' data with
           | DataTypeSnapshot => resetBySnapshot data p
           | DataTypeDelta => updateByDelta data p
           | _ => p
           end in
  let bestAsk := BestLevel (AsksMap p) in
  let bestBid := BestLevel (BidsMap p) in
  let p := setCurrentBestAsk (Some (Copy bestAsk)) p in
  let p := setCurrentBestBid (Some (Copy bestBid)) p in
  let calls := getUpdateCallback p in
  let deferred := match getDeferUpdateCallback p with
                  | Some (Callback c) => [c]
                  | Some NoCallback | None => []
                  end in
  (p, calls ++ deferred).

End OrderBook.
