(* ===== verification/OrderBookProps.v ===== *)
(** * Properties of the order book

    The reference view of a side is the partial function from prices to levels
    given by [Get]; decimals that denote the same number are the same price. *)

From stdpp Require Import sorting.
From S2P Require Import Prelude GoStd Decimal QDecimal Domains Symbol BTree PriceLevel OrderBook.
Local Open Scope Z_scope.

Section Props.
  Context {D : Decimal} {B : BTree} {DL : DecimalLaws D} {BL : BTreeLaws (B := B)}.

Lemma Get_proper {q} (m : PriceLevelMap q) p1 p2 :
  map_ok m -> Equal p1 p2 = true -> Get m p1 = Get m p2.
Proof.
  intros Hm He. rewrite !Get_find by done. induction (levels m) as [|r l IH]; [done|]. simpl.
  rewrite (Equal_sym (Price r) p1), (Equal_sym (Price r) p2).
  rewrite (Equal_trans p2 p1 (Price r)), IH; [done|]. by rewrite Equal_sym.
Qed.

(** ** Deltas *)

(** What one row of a delta does to the level at [price]. *)
Definition merge_level (price : dec) (old : option PriceLevel) (a : PriceLevel) : option PriceLevel :=
  if negb (Equal (Price a) price) then old else
  match old with
  | Some r => if isOld r (SeqID a) then (if IsZero (Volume a) then None else Some a) else Some r
  | None => if IsZero (Volume a) then None else Some a
  end.

Lemma delta_level_spec {q} (m : PriceLevelMap q) a :
  map_ok m -> map_ok (delta_level m a) /\
  forall price, Get (delta_level m a) price = merge_level price (Get m price) a.
Proof.
  intros Hm. unfold delta_level.
  assert (map_ok (if IsZero (Volume a) then drop m (Price a) else set m a) /\
    forall price, Get (if IsZero (Volume a) then drop m (Price a) else set m a) price =
      if Equal (Price a) price then (if IsZero (Volume a) then None else Some a) else Get m price)
    as [Hok Hget].
  { destruct (IsZero (Volume a)) eqn:Hz.
    - split; [by apply drop_ok|]. intros price. by apply Get_drop.
    - split; [by apply set_ok|]. intros price. rewrite Get_set by done. by rewrite Hz. }
  unfold merge_level. destruct (Get m (Price a)) as [r|] eqn:Hr; [destruct (isOld r (SeqID a)) eqn:Ho|]; simpl.
  - split; [done|]. intros price. rewrite Hget. destruct (Equal (Price a) price) eqn:E; [|done].
    simpl. by rewrite <- (Get_proper m _ _ Hm E), Hr, Ho.
  - split; [done|]. intros price. destruct (Equal (Price a) price) eqn:E; [|done].
    simpl. by rewrite <- (Get_proper m _ _ Hm E), Hr, Ho.
  - split; [done|]. intros price. rewrite Hget. destruct (Equal (Price a) price) eqn:E; [|done].
    simpl. by rewrite <- (Get_proper m _ _ Hm E), Hr.
Qed.

Lemma delta_side_ok {q} (m : PriceLevelMap q) ls : map_ok m -> map_ok (delta_side m ls).
Proof.
  intros Hm. unfold delta_side. apply foldl_preserves; [done|]. intros m' a _ Hm'. by apply delta_level_spec.
Qed.

Lemma delta_side_Get {q} (m : PriceLevelMap q) ls price :
  map_ok m -> Get (delta_side m ls) price = foldl (merge_level price) (Get m price) ls.
Proof.
  revert m. induction ls as [|a ls IH]; intros m Hm; [done|]. simpl.
  destruct (delta_level_spec m a Hm) as [Hok Hget].
  unfold delta_side in *. simpl. by rewrite IH, Hget.
Qed.

(** The rows of a delta have different prices. *)
Definition distinct_prices (ls : list PriceLevel) : Prop :=
  forall i j a b, ls !! i = Some a -> ls !! j = Some b -> Equal (Price a) (Price b) = true -> i = j.

Lemma distinct_cons a ls :
  distinct_prices (a :: ls) ->
  distinct_prices ls /\ forall b, b ∈ ls -> Equal (Price a) (Price b) = false.
Proof.
  intros H. split.
  - intros i j x y Hi Hj He. pose proof (H (S i) (S j) x y Hi Hj He). lia.
  - intros b [j Hj]%list_elem_of_lookup. apply not_true_is_false. intros He.
    by pose proof (H 0%nat (S j) a b eq_refl Hj He).
Qed.

Lemma merge_elsewhere price old ls :
  (forall a, a ∈ ls -> Equal (Price a) price = false) -> foldl (merge_level price) old ls = old.
Proof.
  induction ls as [|a ls IH]; intros H; [done|]. simpl. unfold merge_level at 2.
  rewrite (H a) by left. simpl. apply IH. intros b Hb. apply H. by right.
Qed.

(** With different prices, one row decides. *)
Lemma merge_distinct price old ls :
  distinct_prices ls ->
  foldl (merge_level price) old ls =
    match List.find (fun a => Equal (Price a) price) ls with
    | Some a => merge_level price old a
    | None => old
    end.
Proof.
  induction ls as [|a ls IH]; intros Hd; [done|]. apply distinct_cons in Hd as [Hd Ha]. simpl.
  destruct (Equal (Price a) price) eqn:E.
  - apply merge_elsewhere. intros b Hb. by rewrite Equal_sym, (Equal_trans _ _ (Price b) E), Ha.
  - unfold merge_level at 2. rewrite E. by apply IH.
Qed.

(** C17: a delta, price by price.  Every row is merged in turn into the level at its
    price: it is ignored when the level there is at least as new, removes the level
    when its volume is zero, and replaces it otherwise; other prices are untouched,
    and the side stays sorted, without empty levels. *)
Theorem delta_spec {q} (m : PriceLevelMap q) ls :
  map_ok m ->
  map_ok (delta_side m ls) /\
  forall price, Get (delta_side m ls) price = foldl (merge_level price) (Get m price) ls.
Proof. intros Hm. split; [by apply delta_side_ok|]. intros price. by apply delta_side_Get. Qed.

(** Applying a delta again changes nothing, and a delta never replaces a level by an
    older one, when its rows have different prices. *)
Theorem delta_idempotent {q} (m : PriceLevelMap q) ls :
  map_ok m -> distinct_prices ls ->
  (forall price, Get (delta_side (delta_side m ls) ls) price = Get (delta_side m ls) price) /\
  (forall price r r', Get m price = Some r -> Get (delta_side m ls) price = Some r' ->
     SeqID r <= SeqID r').
Proof.
  intros Hm Hd. split.
  - intros price. pose proof (delta_side_ok m ls Hm) as Hm'.
    rewrite (delta_side_Get (delta_side m ls)), delta_side_Get, !merge_distinct by done.
    destruct (List.find _ _) as [a|]; [|done]. unfold merge_level.
    destruct (Equal (Price a) price); simpl; [|done]. unfold isOld.
    destruct (Get m price) as [r|]; repeat (simpl; rewrite ?Z.ltb_irrefl; case_match); congruence.
  - intros price r r' Hr. rewrite delta_side_Get, merge_distinct, Hr by done.
    destruct (List.find _ _) as [a|]; [|intros; by simplify_eq]. unfold merge_level, isOld.
    destruct (Equal _ _); simpl; [|intros; by simplify_eq].
    destruct (SeqID r <? SeqID a) eqn:E; [|intros; by simplify_eq].
    destruct (IsZero _); [done|]. intros [= <-]. lia.
Qed.

(** ** Snapshots *)

Lemma keep_newer_ok {q} (m : PriceLevelMap q) l :
  map_ok m -> map_ok (ascend_loop keep_newer l m).
Proof.
  revert m. induction l as [|r l IH]; intros m Hm; [done|]. simpl. unfold keep_newer at 1.
  destruct (Get m (Price r)); [|by apply IH]. destruct (isOld _ _); [by apply IH, set_ok|by apply IH].
Qed.

Lemma keep_newer_elsewhere {q} (m : PriceLevelMap q) l price :
  map_ok m -> (forall r, r ∈ l -> Equal (Price r) price = false) ->
  Get (ascend_loop keep_newer l m) price = Get m price.
Proof.
  revert m. induction l as [|r l IH]; intros m Hm Hl; [done|]. simpl. unfold keep_newer at 1.
  assert (forall x, x ∈ l -> Equal (Price x) price = false) as Hl' by (intros; apply Hl; by right).
  destruct (Get m (Price r)); [|by apply IH]. destruct (isOld _ _); [|by apply IH].
  rewrite IH, Get_set by (try apply set_ok; done). by rewrite (Hl r) by left.
Qed.

(** The newer of the two levels, where the snapshot has one. *)
Definition newer (fresh old : option PriceLevel) : option PriceLevel :=
  match fresh, old with
  | Some sr, Some r => if isOld sr (SeqID r) then Some r else Some sr
  | _, _ => fresh
  end.

Lemma keep_newer_spec {q} (m : PriceLevelMap q) l price :
  map_ok m -> sorted_by (less q) l -> (forall r, r ∈ l -> IsZero (Volume r) = false) ->
  Get (ascend_loop keep_newer l m) price =
    newer (Get m price) (List.find (fun r => Equal (Price r) price) l).
Proof.
  intros Hm Hs Hv. revert m Hm. induction Hs as [|r l Hs IH Hr]; intros m Hm.
  { simpl. by destruct (Get m price). }
  rewrite Forall_forall in Hr.
  assert (forall x, x ∈ l -> IsZero (Volume x) = false) as Hv' by (intros; apply Hv; by right).
  simpl. destruct (Equal (Price r) price) eqn:E; cycle 1.
  { unfold keep_newer at 1. destruct (Get m (Price r)); [|by apply IH].
    destruct (isOld _ _); [|by apply IH]. rewrite IH, Get_set by (try apply set_ok; done). by rewrite E. }
  assert (forall x, x ∈ l -> Equal (Price x) price = false) as Hl.
  { intros x Hx. rewrite Equal_sym, (Equal_trans _ _ (Price x) E), <- (same_price q).
    apply same_false. left. by apply Hr. }
  unfold keep_newer at 1. rewrite (Get_proper m _ _ Hm E).
  destruct (Get m price) as [sr|] eqn:Hsr; simpl; [destruct (isOld sr (SeqID r)) eqn:Ho|].
  - rewrite keep_newer_elsewhere, Get_set by (try apply set_ok; done). by rewrite E, Hv by left.
  - by rewrite keep_newer_elsewhere.
  - by rewrite keep_newer_elsewhere.
Qed.

(** The last row of the snapshot at a price. *)
Definition put_level (price : dec) (old : option PriceLevel) (a : PriceLevel) : option PriceLevel :=
  if Equal (Price a) price then (if IsZero (Volume a) then None else Some a) else old.

Lemma fresh_spec {q} (m : PriceLevelMap q) ls :
  map_ok m -> map_ok (foldl set m ls) /\
  forall price, Get (foldl set m ls) price = foldl (put_level price) (Get m price) ls.
Proof.
  revert m. induction ls as [|a ls IH]; intros m Hm; [done|]. simpl.
  destruct (IH (set m a) (set_ok m a Hm)) as [Hok Hget]. split; [done|].
  intros price. by rewrite Hget, Get_set.
Qed.

Lemma reset_side_ok {q} t (m : PriceLevelMap q) ls : map_ok m -> map_ok (reset_side t m ls).
Proof.
  intros Hm. unfold reset_side, Range. case_match; [|done].
  destruct (fresh_spec (newPriceLevelMap q t) ls (newPriceLevelMap_ok q t)) as [Hok _].
  destruct (keep_newer_ok _ (Ascend (tree m)) Hok) as [H1 H2]. by constructor.
Qed.

(** The level at a price after a snapshot with the rows [ls] of its side. *)
Definition after_snapshot (ls : list PriceLevel) (price : dec) (old : option PriceLevel) : option PriceLevel :=
  match ls with
  | [] => old
  | _ => newer (foldl (put_level price) None ls) old
  end.

Lemma reset_side_Get {q} t (m : PriceLevelMap q) ls price :
  map_ok m -> Get (reset_side t m ls) price = after_snapshot ls price (Get m price).
Proof.
  intros Hm. destruct ls as [|r ls]; [done|]. unfold after_snapshot. set (rows := r :: ls).
  destruct (fresh_spec (newPriceLevelMap q t) rows (newPriceLevelMap_ok q t)) as [Hok Hget].
  change (Get (reset_side t m rows) price) with
    (Get (ascend_loop keep_newer (levels m) (foldl set (newPriceLevelMap q t) rows)) price).
  rewrite keep_newer_spec, Hget, (Get_find m) by (done || apply Hm). f_equal.
  f_equal. apply Get_None; [apply newPriceLevelMap_ok|]. unfold levels. simpl. rewrite Ascend_NewG.
  by intros r2 H%not_elem_of_nil.
Qed.

(** C18: a snapshot, side by side and price by price.  A side for which the snapshot has no rows
    stays as it is.  On the others, the level at a price is the snapshot's, unless the level that
    the book had at the same price is newer; a price without a row in the snapshot is gone,
    however new its level was, and so is one whose row has no volume.  The sides stay sorted,
    without empty levels, and nothing else of the book changes. *)
Theorem snapshot_spec snapshot (p : OrderBookImpl) :
  map_ok (AsksMap p) -> map_ok (BidsMap p) ->
  let p' := resetBySnapshot snapshot p in
  map_ok (AsksMap p') /\ map_ok (BidsMap p') /\
  (forall price, Get (AsksMap p') price = after_snapshot (Asks snapshot) price (Get (AsksMap p) price)) /\
  (forall price, Get (BidsMap p') price = after_snapshot (Bids snapshot) price (Get (BidsMap p) price)) /\
  (Bids snapshot = [] -> BidsMap p' = BidsMap p) /\ (Asks snapshot = [] -> AsksMap p' = AsksMap p) /\
  p' <| AsksMap := AsksMap p |> <| BidsMap := BidsMap p |> = p.
Proof.
  intros Ha Hb p'. split; [by apply reset_side_ok|]. split; [by apply reset_side_ok|].
  split; [intros price; by apply reset_side_Get|]. split; [intros price; by apply reset_side_Get|].
  split; [intros Hno; unfold p'; simpl; by rewrite Hno|]. split; [intros Hno; unfold p'; simpl; by rewrite Hno|].
  by destruct p.
Qed.

End Props.
