(* ===== verification/OrderBookViews.v ===== *)
(** * Order books over time, and what is computed from them

    The invariant of a book under any sequence of updates, the views of
    domains/insights/orderbook.go (depth, running volumes, rounded prices), and
    concrete books at which the theorems about order books are applied. *)

From stdpp Require Import sorting.
From S2P Require Import Prelude GoStd Decimal QDecimal Domains Symbol BTree PriceLevel OrderBook OrderBookProps.
Local Open Scope Z_scope.

Section Views.
  Context {D : Decimal} {B : BTree} {DL : DecimalLaws D} {BL : BTreeLaws (B := B)}.

(** ** Sequences of updates *)

Definition update_all (ds : list OrderBookData) (p : OrderBookImpl) : OrderBookImpl :=
  foldl (fun p d => fst (UpdateByOBData d p)) p ds.

(** The best level of a side: the head of its sorted levels, or the zero level. *)
Definition best_of {q} (m : PriceLevelMap q) : PriceLevel :=
  match levels m with [] => zero_PriceLevel | r :: _ => r end.

Definition sides_ok (p : OrderBookImpl) : Prop := map_ok (AsksMap p) /\ map_ok (BidsMap p).

Lemma resetBySnapshot_ok d p : sides_ok p -> sides_ok (resetBySnapshot d p).
Proof.
  intros [Ha Hb]. unfold resetBySnapshot, sides_ok. simpl. split; auto using reset_side_ok.
Qed.

Lemma updateByDelta_ok d p : sides_ok p -> sides_ok (updateByDelta d p).
Proof.
  intros [Ha Hb]. unfold updateByDelta, sides_ok.
  case_match; case_match; simpl; split; auto using delta_side_ok.
Qed.

(** What an update leaves alone. *)
Lemma resetBySnapshot_frame d p :
  let p' := resetBySnapshot d p in
  symbol p' = symbol p /\ lastExecAt p' = lastExecAt p /\ beforeBestAsk p' = beforeBestAsk p /\
  beforeBestBid p' = beforeBestBid p /\ updateCallback p' = updateCallback p.
Proof. done. Qed.

Lemma updateByDelta_frame d p :
  let p' := updateByDelta d p in
  symbol p' = symbol p /\ lastExecAt p' = lastExecAt p /\ beforeBestAsk p' = beforeBestAsk p /\
  beforeBestBid p' = beforeBestBid p /\ updateCallback p' = updateCallback p.
Proof. unfold updateByDelta. by case_match; case_match. Qed.

Lemma Copy_eq r : Copy r = r.
Proof. by destruct r. Qed.

Lemma best_is_best {q} (m : PriceLevelMap q) r :
  map_ok m -> r ∈ levels m -> less q r (best_of m) = false.
Proof.
  intros Hm Hr. unfold best_of. destruct (levels m) as [|b l] eqn:E; [by apply not_elem_of_nil in Hr|].
  eapply (head_best m); [done|by rewrite E|by rewrite E].
Qed.

(** The state of a book after an update that found it in the state [p]. *)
Record updated (p p' : OrderBookImpl) (d : OrderBookData) : Prop := {
  up_sides : sides_ok p';
  up_ask : currentBestAsk p' = Some (best_of (AsksMap p'));
  up_bid : currentBestBid p' = Some (best_of (BidsMap p'));
  up_exec : lastExecAt p' = Some (ExecAt d);
  up_symbol : symbol p' = symbol p;
  up_callbacks : updateCallback p' = updateCallback p;
  up_before : is_some (currentBestAsk p) = true -> is_some (currentBestBid p) = true ->
    beforeBestAsk p' = currentBestAsk p /\ beforeBestBid p' = currentBestBid p;
  up_fresh : currentBestAsk p = None ->
    beforeBestAsk p' = beforeBestAsk p /\ beforeBestBid p' = beforeBestBid p
}.

Lemma update_spec d p : sides_ok p -> updated p (fst (UpdateByOBData d p)) d.
Proof.
  intros Hp. unfold UpdateByOBData, GetBestAsk, GetBestBid.
  set (p1 := match currentBestAsk p with Some _ => _ | None => p end).
  set (p2 := setLastArrivedAt _ _). set (p3 := match Type' d with DataTypeUnknown => _ | _ => _ end).
  assert (sides_ok p2 /\ symbol p2 = symbol p /\ lastExecAt p2 = Some (ExecAt d) /\
    updateCallback p2 = updateCallback p) as (Hp2 & Hs2 & He2 & Hc2).
  { unfold p2, p1. destruct (currentBestAsk p); [destruct (currentBestBid p)|]; done. }
  assert (sides_ok p3) as Hp3.
  { unfold p3. destruct (Type' d); auto using resetBySnapshot_ok, updateByDelta_ok. }
  assert (symbol p3 = symbol p2 /\ lastExecAt p3 = lastExecAt p2 /\
    beforeBestAsk p3 = beforeBestAsk p2 /\ beforeBestBid p3 = beforeBestBid p2 /\
    updateCallback p3 = updateCallback p2) as (Hs3 & He3 & Ha3 & Hb3 & Hc3).
  { unfold p3. destruct (Type' d); auto using resetBySnapshot_frame, updateByDelta_frame. }
  clearbody p3. simpl.
  constructor; simpl; try congruence; try done.
  - destruct Hp3. by rewrite Copy_eq, BestLevel_spec.
  - destruct Hp3. by rewrite Copy_eq, BestLevel_spec.
  - rewrite Ha3, Hb3. unfold p2, p1. destruct (currentBestAsk p), (currentBestBid p); try done.
    by rewrite !Copy_eq.
  - intros Hn. rewrite Ha3, Hb3. unfold p2, p1. by rewrite Hn.
Qed.

Lemma NewOrderBook_ok s : sides_ok (NewOrderBook s).
Proof. split; apply newPriceLevelMap_ok. Qed.

Lemma update_all_snoc ds d p :
  update_all (ds ++ [d]) p = fst (UpdateByOBData d (update_all ds p)).
Proof. unfold update_all. by rewrite foldl_app. Qed.

Lemma update_all_ok ds p : sides_ok p -> sides_ok (update_all ds p).
Proof.
  intros Hp. unfold update_all. apply foldl_preserves; [done|]. intros p' d _ Hp'. by apply (up_sides _ _ _ (update_spec d p' Hp')).
Qed.

(** The best prices are cached from the first update on. *)
Lemma best_cached s ds :
  is_some (currentBestAsk (update_all ds (NewOrderBook s))) = bool_decide (ds <> []) /\
  is_some (currentBestBid (update_all ds (NewOrderBook s))) = bool_decide (ds <> []).
Proof.
  destruct ds as [|d ds _] using rev_ind; [done|]. rewrite update_all_snoc.
  assert (sides_ok (update_all ds (NewOrderBook s))) as Hb by (apply update_all_ok, NewOrderBook_ok).
  destruct (update_spec d _ Hb) as [_ -> -> _ _ _ _ _]. by rewrite bool_decide_true by (by destruct ds).
Qed.

(** A book is ready after its second update. *)
Lemma book_ready_updates s ds : IsReady (update_all ds (NewOrderBook s)) = (2 <=? length ds)%nat.
Proof.
  destruct ds as [|d ds _] using rev_ind; [done|]. rewrite update_all_snoc, length_app.
  assert (sides_ok (update_all ds (NewOrderBook s))) as Hb by (apply update_all_ok, NewOrderBook_ok).
  destruct (update_spec d _ Hb) as [_ Ha Hbid He _ _ Hbf Hfr], (best_cached s ds) as [Hra Hrb].
  unfold IsReady. rewrite Ha, Hbid, He. destruct ds as [|d0 ds0].
  - by destruct Hfr as [-> ->].
  - destruct Hbf as [-> ->]; [done..|]. rewrite Hra, Hrb. simpl. by rewrite Nat.add_comm.
Qed.

(** C16: after any sequence of snapshots and deltas, in any order, both sides of a book
    are sorted without empty levels; the cached best prices are the best levels of the
    two sides (the zero level for an empty side), no level of a side is better; the
    previous best prices are those cached before the last update; the book is ready
    exactly when it has had two updates, and knows the time of the last one. *)
Theorem book_consistent s ds d :
  let before := update_all ds (NewOrderBook s) in
  let p := update_all (ds ++ [d]) (NewOrderBook s) in
  (map_ok (AsksMap p) /\ map_ok (BidsMap p)) /\
  (GetBestAsk p = Some (best_of (AsksMap p)) /\ GetBestBid p = Some (best_of (BidsMap p))) /\
  (forall r, r ∈ levels (AsksMap p) -> (dval (Price (best_of (AsksMap p))) <= dval (Price r))%Q) /\
  (forall r, r ∈ levels (BidsMap p) -> (dval (Price r) <= dval (Price (best_of (BidsMap p))))%Q) /\
  (beforeBestAsk p = currentBestAsk before /\ beforeBestBid p = currentBestBid before) /\
  IsReady p = bool_decide (ds <> []) /\
  GetLastExecAt p = Some (ExecAt d).
Proof.
  intros before p. subst p. rewrite update_all_snoc. fold before.
  assert (sides_ok before) as Hb by (apply update_all_ok, NewOrderBook_ok).
  destruct (update_spec d before Hb) as [Hs Ha Hbid He _ _ Hbf Hfr].
  set (p := fst (UpdateByOBData d before)) in *. clearbody p.
  assert (beforeBestAsk p = currentBestAsk before /\ beforeBestBid p = currentBestBid before) as [Hba Hbb].
  { destruct (best_cached s ds) as [Hra Hrb]. fold before in Hra, Hrb. destruct ds as [|d0 ds0].
    - destruct Hfr as [-> ->]; done.
    - by apply Hbf. }
  destruct (best_cached s ds) as [Hra Hrb]. fold before in Hra, Hrb.
  destruct Hs as [Hs1 Hs2]. repeat apply conj; try done.
  - intros r Hr. apply Qnot_lt_le. rewrite <- (LessThan_spec (D := D)).
    pose proof (best_is_best _ _ Hs1 Hr) as Hbest. unfold less in Hbest. simpl in Hbest.
    by rewrite Hbest.
  - intros r Hr. apply Qnot_lt_le. rewrite <- (GreaterThan_spec (D := D)).
    pose proof (best_is_best _ _ Hs2 Hr) as Hbest. unfold less in Hbest. simpl in Hbest.
    by rewrite Hbest.
  - unfold IsReady. rewrite Hba, Hbb, Ha, Hbid, He, Hra, Hrb. simpl. by destruct (bool_decide _).
Qed.

(** ** Depth *)

Lemma depth_loop depth l acc :
  Z.of_nat (length acc) < Z.max 1 depth ->
  ascend_loop (depth_step depth) l acc =
    acc ++ take (Z.to_nat (Z.max 1 depth) - length acc) l.
Proof.
  revert acc. induction l as [|r l IH]; intros acc Hacc; simpl.
  { by rewrite take_nil, app_nil_r. }
  destruct (Z.to_nat (Z.max 1 depth) - length acc)%nat as [|n] eqn:Hn; [lia|].
  rewrite length_app. change (length [r]) with 1%nat. rewrite Nat.add_1_r.
  destruct (Z.of_nat (S (length acc)) <? depth) eqn:E.
  - assert (length (acc ++ [r]) = S (length acc)) as Hl by (rewrite length_app; simpl; lia).
    apply Z.ltb_lt in E. rewrite IH, <- app_assoc by (rewrite Hl; clear -E; lia). f_equal. simpl. do 2 f_equal. lia.
  - apply Z.ltb_ge in E. simpl. replace n with 0%nat by lia. done.
Qed.

(** The views of the given depth are the best [depth] levels in order, all of them
    when the side has fewer, and one when the depth is not positive. *)
Theorem depth_spec p depth :
  GetAsks p depth = take (Z.to_nat (Z.max 1 depth)) (levels (AsksMap p)) /\
  GetBids p depth = take (Z.to_nat (Z.max 1 depth)) (levels (BidsMap p)).
Proof.
  unfold GetAsks, GetBids, SortedRange. rewrite !depth_loop by (simpl; lia). simpl.
  by rewrite Nat.sub_0_r.
Qed.

(** ** Running volumes *)

Fixpoint running (s : dec) (l : list PriceLevel) : list PriceLevel :=
  match l with
  | [] => []
  | r :: l =>
      {| SeqID := 0; Price := Price r; Volume := Add s (Volume r) |} :: running (Add s (Volume r)) l
  end.

Definition positive_levels (l : list PriceLevel) : Prop :=
  forall r, r ∈ l -> (0 < dval (Volume r))%Q.

Lemma elem_of_running s l x : x ∈ running s l -> exists r, r ∈ l /\ Price x = Price r.
Proof.
  revert s. induction l as [|r l IH]; intros s; simpl; [by intros ?%not_elem_of_nil|].
  intros [->|Hx]%elem_of_cons; [exists r; split; [left|done]|].
  destruct (IH _ Hx) as (r' & Hr & He). exists r'. split; [by right|done].
Qed.

Lemma less_price q a b a' b' : Price a = Price a' -> Price b = Price b' -> less q a b = less q a' b'.
Proof. unfold less. by intros -> ->. Qed.

Lemma sorted_snoc {q} l (x : PriceLevel) :
  sorted_by (less q) l -> (forall y, y ∈ l -> less q y x = true) -> sorted_by (less q) (l ++ [x]).
Proof.
  induction 1 as [|z l Hl IH Hz]; intros Hx; simpl; [repeat constructor|].
  constructor; [apply IH; intros; apply Hx; by right|]. rewrite Forall_forall in Hz |- *.
  intros y [Hy|Hy]%elem_of_app; [by apply Hz|]. apply list_elem_of_singleton in Hy as ->. apply Hx. left.
Qed.

(** A level that is worse than all others goes to the end. *)
Lemma set_last {q} (m : PriceLevelMap q) x :
  map_ok m -> IsZero (Volume x) = false -> (forall y, y ∈ levels m -> less q y x = true) ->
  levels (set m x) = levels m ++ [x].
Proof.
  intros Hm Hv Hx. apply (sorted_unique (less q)).
  - by apply set_ok.
  - by apply sorted_snoc; [apply Hm|].
  - intros y. unfold set. rewrite Hv. unfold levels. simpl.
    destruct (Ascend_ReplaceOrInsert _ _ (tree m) x (mo_sorted _ Hm)) as [_ ->].
    rewrite elem_of_app, list_elem_of_singleton. split; [tauto|]. intros [Hy| ->]; [|tauto].
    right. split; [done|]. apply same_false. left. by apply Hx.
Qed.

Lemma vol_sum_loop {q} l (m : PriceLevelMap q) s :
  map_ok m -> sorted_by (less q) l -> positive_levels l -> (0 <= dval s)%Q ->
  (forall x y, x ∈ levels m -> y ∈ l -> less q x y = true) ->
  levels (ascend_loop vol_sum_step l (m, s)).1 = levels m ++ running s l.
Proof.
  intros Hm Hs. revert m s Hm. induction Hs as [|r l Hs IH Hr]; intros m s Hm Hv Hpos Hx; simpl.
  { by rewrite app_nil_r. }
  set (x := {| SeqID := 0; Price := Price r; Volume := Add s (Volume r) |}).
  assert (0 < dval (Add s (Volume r)))%Q as Hp.
  { dval_simpl. pose proof (Hv r ltac:(left)). lra. }
  assert (IsZero (Volume x) = false) as Hz by (apply IsZero_false; simpl; lra).
  assert (levels (set m x) = levels m ++ [x]) as Hset.
  { apply set_last; [done..|]. intros y Hy. rewrite (less_price q y x y r) by done. apply Hx; [done|left]. }
  rewrite IH; [by rewrite Hset, <- app_assoc|by apply set_ok| |lra|].
  - intros y Hy. apply Hv. by right.
  - rewrite Hset. intros y z [Hy|Hy]%elem_of_app Hz'; [apply Hx; [done|by right]|].
    apply list_elem_of_singleton in Hy as ->. rewrite (less_price q x z r z) by done.
    rewrite Forall_forall in Hr. by apply Hr.
Qed.

Lemma running_lookup s l i r :
  l !! i = Some r -> exists v, running s l !! i = Some {| SeqID := 0; Price := Price r; Volume := v |} /\
    (dval v == dval s + sum_volumes (take (S i) l))%Q.
Proof.
  revert s i. induction l as [|x l IH]; intros s i Hi; [done|]. destruct i as [|i]; simplify_eq/=.
  - eexists. split; [done|]. dval_simpl. lra.
  - destruct (IH (Add s (Volume x)) i Hi) as (v & Hv & He). exists v. split; [done|].
    rewrite He. dval_simpl. lra.
Qed.

(** The levels that trade with an order at the price of the [i]-th level are the first [i+1]. *)
Lemma marketable_prefix q l i r :
  q <> BookSideNone -> sorted_by (less q) l -> l !! i = Some r ->
  List.filter (marketable q (Price r)) l = take (S i) l.
Proof.
  intros Hq Hs. revert i. induction Hs as [|x l Hs IH Hx]; intros i Hi; [done|].
  rewrite Forall_forall in Hx.
  assert (forall a b, less q a b = true -> marketable q (Price a) b = false) as Hworse.
  { unfold less, marketable. intros a b. rewrite <- not_true_iff_false.
    case_decide; rewrite Qle_bool_iff, ?GreaterThan_spec, ?LessThan_spec; lra. }
  assert (forall a b, less q a b = true -> marketable q (Price b) a = true) as Hbetter.
  { unfold less, marketable. intros a b.
    case_decide; rewrite Qle_bool_iff, ?GreaterThan_spec, ?LessThan_spec; lra. }
  assert (forall a, marketable q (Price a) a = true) as Hself.
  { unfold marketable. intros a. case_decide; rewrite Qle_bool_iff; lra. }
  destruct i as [|i]; simplify_eq/=.
  - rewrite Hself, filter_nothing; [done|]. intros y Hy. by apply Hworse, Hx.
  - rewrite Hbetter by (apply Hx; by eapply list_elem_of_lookup_2). f_equal. by apply IH.
Qed.

Lemma length_running s l : length (running s l) = length l.
Proof. revert s. induction l; intros s; simpl; by f_equal. Qed.

(** What a map of running volumes says of the side it is computed from. *)
Definition running_volumes {q} (m v : PriceLevelMap q) : Prop :=
  length (levels v) = length (levels m) /\
  forall i r, levels m !! i = Some r ->
    exists x, levels v !! i = Some x /\ Price x = Price r /\
      (dval (Volume x) == dval (PriceLevel.SumVolume m (Price r)))%Q.

Lemma vol_sum_map_spec {q} (m : PriceLevelMap q) t :
  q <> BookSideNone -> map_ok m -> positive_levels (levels m) ->
  running_volumes m (fst (SortedRange m vol_sum_step (newPriceLevelMap q t, Zero))).
Proof.
  intros Hq Hm Hv. unfold running_volumes, SortedRange. fold (levels m).
  pose proof (newPriceLevelMap_ok q t) as Hnew.
  assert (levels (newPriceLevelMap q t) = []) as Hnil by (unfold levels; simpl; by rewrite Ascend_NewG).
  rewrite vol_sum_loop; [|done|apply Hm|done|rewrite dval_Zero; lra|rewrite Hnil; by intros ?? ?%not_elem_of_nil].
  rewrite Hnil, app_nil_l, length_running. split; [done|]. intros i r Hi.
  destruct (running_lookup Zero _ _ _ Hi) as (v & Hl & Hval). eexists. split; [exact Hl|].
  split; [done|]. simpl. unfold PriceLevel.SumVolume, SortedRange.
  rewrite sum_loop by (done || apply Hm). fold (levels m).
  rewrite (marketable_prefix q _ i) by (done || apply Hm). exact Hval.
Qed.

(** The maps of running volumes have the levels of their side, and the volume at a
    level is the volume of the side up to it, as [SumVolume] computes it. *)
Theorem vol_sum_maps_spec p :
  map_ok (AsksMap p) -> map_ok (BidsMap p) ->
  positive_levels (levels (AsksMap p)) -> positive_levels (levels (BidsMap p)) ->
  running_volumes (AsksMap p) (CalculateAsksVolSumMap p) /\
  running_volumes (BidsMap p) (CalculateBidsVolSumMap p).
Proof. intros. by split; apply vol_sum_map_spec. Qed.

(** ** Rounded prices *)

Lemma Qtrunc_bounds x : (0 <= x)%Q -> (inject_Z (Qtrunc x) <= x < inject_Z (Qtrunc x) + 1)%Q.
Proof.
  intros Hx. unfold Qtrunc. apply Qle_bool_iff in Hx. rewrite Hx. split; [apply Qfloor_le|].
  pose proof (Qlt_floor x) as H. rewrite inject_Z_plus in H. exact H.
Qed.

Lemma Qtrunc_wd x y : (x == y)%Q -> Qtrunc x = Qtrunc y.
Proof.
  intros H. unfold Qtrunc. assert (Qle_bool 0 x = Qle_bool 0 y) as -> by by rewrite H.
  rewrite (Qfloor_comp x y H), (Qfloor_comp (- x) (- y)); [done|]. by rewrite H.
Qed.

(** Both types of book data round alike. *)
Definition round_down (tick price : dec) : option dec :=
  quotient ← Div price tick; Some (Mul (Truncate quotient 0) tick).

Lemma round_down_spec tick price :
  (0 < dval tick)%Q -> (0 <= dval price)%Q ->
  (exists z, (dval price / dval tick * inject_Z (10 ^ 16) == inject_Z z)%Q) ->
  exists r, round_down tick price = Some r /\
    (dval r == inject_Z (Qtrunc (dval price / dval tick)) * dval tick)%Q /\
    (dval r <= dval price < dval r + dval tick)%Q.
Proof.
  intros Ht Hp [z Hz]. unfold round_down.
  destruct (Div_Some price tick) as [x Hx]; [lra|]. rewrite Hx. simpl.
  eexists. split; [done|]. pose proof (Div_exact _ _ _ _ Hx Hz) as He.
  rewrite (dval_Mul (D := D)), dval_Truncate, (Qtrunc_wd _ _ He). split; [done|].
  assert (0 <= dval price / dval tick)%Q as Hq by (apply Qle_shift_div_l; lra).
  pose proof (Qtrunc_bounds _ Hq) as [H1 H2].
  assert (dval price == dval price / dval tick * dval tick)%Q as Hpt by (field; lra).
  set (q := (dval price / dval tick)%Q) in *. nra.
Qed.

(** The best prices computed from a mid price are a tick apart and bracket it: the bid
    is the largest multiple of the tick size that is not above it, and the ask is above
    it.  The mid price is not negative and its quotient by the tick size has at most 16
    decimals, the precision of the division. *)
Theorem CalcBestPrice_spec p midPrice :
  let tick := GetTickSize p in
  (0 < dval tick)%Q -> (0 <= dval midPrice)%Q ->
  (exists z, (dval midPrice / dval tick * inject_Z (10 ^ 16) == inject_Z z)%Q) ->
  exists ask bid, CalcBestPrice p midPrice = Some (ask, bid) /\
    RoundToTickSize p midPrice = Some bid /\
    (dval bid == inject_Z (Qtrunc (dval midPrice / dval tick)) * dval tick)%Q /\
    (dval ask == dval bid + dval tick)%Q /\
    (dval bid <= dval midPrice < dval ask)%Q.
Proof.
  intros tick Ht Hp Hz. destruct (round_down_spec _ _ Ht Hp Hz) as (r & Hr & He & Hb1 & Hb2).
  assert (RoundToTickSize p midPrice = Some r) as Hround by exact Hr.
  exists (Add r tick), r. unfold CalcBestPrice. rewrite Hround. simpl.
  split; [done|]. split; [done|]. split; [exact He|]. unfold tick, GetTickSize. dval_simpl.
  split; [done|]. split; [exact Hb1|]. exact Hb2.
Qed.

(** ** Shallow books *)

(** The value of all levels of a side. *)
Definition value (l : list PriceLevel) : Q :=
  foldr (fun r acc => (dval (Price r) * dval (Volume r) + acc)%Q) 0%Q l.

Lemma cost_all l : (cost (map (fun r => (dval (Price r), dval (Volume r))) l) == value l)%Q.
Proof. induction l as [|r l IH]; simpl; [lra|]. rewrite IH. lra. Qed.

(** When a side holds less than the quantity, [AvgExecPrice] divides the value of the
    whole side by the quantity asked for, not by the quantity that is executed: the
    result is below the average execution price, by the factor of the two quantities. *)
Theorem shallow_average_is_diluted {q} (m : PriceLevelMap q) qty :
  positive_levels (levels m) -> (sum_volumes (levels m) < dval qty)%Q -> (0 < dval qty)%Q ->
  exists avg, PriceLevel.AvgExecPrice m qty = Some avg /\
    (Qabs (dval avg - value (levels m) / dval qty) <= half_ulp)%Q.
Proof.
  intros Hv Hs Hq. unfold PriceLevel.AvgExecPrice, SortedRange. fold (levels m).
  pose proof (avg_loop (levels m) qty Zero) as Hc.
  rewrite filled_short, cost_all, dval_Zero, Qplus_0_l in Hc by (try apply Forall_forall; done).
  destruct (ascend_loop avg_step (levels m) (qty, Zero)) as [rem w]. simpl in Hc.
  destruct (Div_Some w qty) as [avg Havg]; [lra|]. exists avg. split; [done|].
  pose proof (Div_close _ _ _ Havg) as Hclose. by rewrite Hc in Hclose.
Qed.

End Views.

(** ** A concrete order book

    A book over sorted lists and rational decimals, at which the theorems of
    PriceLevel.v, OrderBookProps.v and this file are applied. *)

#[local] Existing Instance sorted_lists.
#[local] Existing Instance sorted_lists_laws.

Definition example_symbol : @Symbol QDecimal :=
  MkSymbol "Bybit_linear_BTCUSDT" "Bybit" "linear" "BTCUSDT" (1 # 2)%Q (1 # 1000)%Q AssetBTC.

Definition example_asks : list (@PriceLevel QDecimal) :=
  [MkPriceLevel 1 101%Q 2%Q; MkPriceLevel 1 100%Q 1%Q; MkPriceLevel 1 102%Q 3%Q].
Definition example_bids : list (@PriceLevel QDecimal) := [MkPriceLevel 1 99%Q 4%Q].

Definition example_snapshot : @OrderBookData QDecimal :=
  MkOrderBookData DataTypeSnapshot 10 11 example_bids example_asks 1.

(** The best ask is taken, and an older row for 101 is late. *)
Definition example_rows : list (@PriceLevel QDecimal) :=
  [MkPriceLevel 2 100%Q 0%Q; MkPriceLevel 0 101%Q 7%Q].
Definition example_delta : @OrderBookData QDecimal :=
  MkOrderBookData DataTypeDelta 12 13 [] example_rows 2.

Definition example_book : OrderBookImpl := update_all [example_snapshot] (NewOrderBook example_symbol).

Lemma example_sides : sides_ok example_book.
Proof. apply update_all_ok, NewOrderBook_ok. Qed.

Definition example_side : PriceLevelMap BookSideAsk := AsksMap example_book.

Lemma example_side_ok : map_ok example_side.
Proof. apply example_sides. Qed.

Lemma example_levels :
  levels example_side = [MkPriceLevel 1 100%Q 1%Q; MkPriceLevel 1 101%Q 2%Q; MkPriceLevel 1 102%Q 3%Q].
Proof. reflexivity. Qed.

Lemma example_positive : positive_levels (levels example_side) /\ positive_levels (levels (BidsMap example_book)).
Proof. split; intros r Hr; apply list_elem_of_In in Hr; simpl in Hr; naive_solver. Qed.

(** ** The theorems at the book *)

Lemma book_consistent_witness :
  let p := update_all [example_snapshot; example_delta] (NewOrderBook example_symbol) in
  IsReady p = true /\ GetBestAsk p = Some (MkPriceLevel 1 101%Q 2%Q) /\
  beforeBestAsk p = Some (MkPriceLevel 1 100%Q 1%Q).
Proof.
  destruct (book_consistent example_symbol [example_snapshot] example_delta)
    as (_ & [H1 _] & _ & _ & [H2 _] & H3 & _).
  exact (conj H3 (conj H1 H2)).
Defined.

Lemma delta_spec_witness :
  let m := delta_side example_side example_rows in
  Get m 100%Q = None /\ Get m 101%Q = Some (MkPriceLevel 1 101%Q 2%Q).
Proof.
  destruct (delta_spec example_side example_rows example_side_ok) as [_ H].
  split; rewrite H; reflexivity.
Defined.

Lemma example_distinct : distinct_prices example_rows.
Proof. intros [|[|i]] [|[|j]] a b; simpl; intros; simplify_eq; done. Qed.

Lemma delta_idempotent_witness :
  Get (delta_side (delta_side example_side example_rows) example_rows) 100%Q = None.
Proof.
  destruct (delta_idempotent example_side example_rows example_side_ok example_distinct) as [H _].
  rewrite H. reflexivity.
Defined.

(** A late snapshot: its row for 100 is older than the one of the book; it has no bids. *)
Definition late_snapshot : @OrderBookData QDecimal :=
  {| ExecAt := 7; ArrivedAt := 8; Type' := DataTypeSnapshot; obSeqID := 0;
     Asks := [MkPriceLevel 0 100%Q 9%Q; MkPriceLevel 2 103%Q 5%Q]; Bids := [] |}.

Lemma snapshot_spec_witness :
  let p' := resetBySnapshot late_snapshot example_book in
  Get (AsksMap p') 100%Q = Some (MkPriceLevel 1 100%Q 1%Q) /\ Get (AsksMap p') 101%Q = None /\
  Get (AsksMap p') 103%Q = Some (MkPriceLevel 2 103%Q 5%Q) /\ BidsMap p' = BidsMap example_book.
Proof.
  destruct (snapshot_spec late_snapshot example_book (proj1 example_sides) (proj2 example_sides))
    as (_ & _ & Ha & _ & Hb & _).
  split; [rewrite Ha; reflexivity|]. split; [rewrite Ha; reflexivity|].
  split; [rewrite Ha; reflexivity|by apply Hb].
Defined.

Lemma SumVolume_spec_witness : (PriceLevel.SumVolume example_side 101%Q == 3)%Q.
Proof.
  rewrite (SumVolume_spec example_side 101%Q ltac:(discriminate) example_side_ok). reflexivity.
Defined.

Lemma vol_sum_maps_spec_witness :
  exists x, levels (CalculateAsksVolSumMap example_book) !! 1%nat = Some x /\ (Volume x == 3)%Q.
Proof.
  destruct (vol_sum_maps_spec example_book (proj1 example_sides) (proj2 example_sides)
    (proj1 example_positive) (proj2 example_positive)) as [[_ H] _].
  destruct (H 1%nat _ eq_refl) as (x & Hx & _ & Hv). exists x. split; [done|]. exact Hv.
Defined.

Lemma AvgExecPrice_spec_witness :
  exists avg, PriceLevel.AvgExecPrice example_side 2%Q = Some avg /\ (avg == 201 # 2)%Q.
Proof.
  destruct (AvgExecPrice_spec example_side 2%Q 100%Q 102%Q example_side_ok) as (_ & avg & Ha & _).
  - done.
  - intros r Hr. apply list_elem_of_In in Hr. simpl in Hr.
    by destruct Hr as [<-|[<-|[<-|[]]]].
  - done.
  - exists avg. split; [done|].
    change (Some ((201 # 2)%Q : @dec QDecimal) = Some avg) in Ha. injection Ha as <-. reflexivity.
Defined.

(** Six are for sale at 101.33 on average; an order for twelve is said to cost half of that. *)
Lemma shallow_average_is_diluted_witness :
  exists avg, PriceLevel.AvgExecPrice example_side 12%Q = Some avg /\ (avg < 51)%Q.
Proof.
  destruct (shallow_average_is_diluted example_side 12%Q (proj1 example_positive)) as (avg & Ha & _);
    [done..|].
  exists avg. split; [done|].
  change (Some ((506666666666666667 # 10000000000000000)%Q : @dec QDecimal) = Some avg) in Ha. injection Ha as <-. reflexivity.
Defined.

Lemma CalcBestPrice_spec_witness :
  exists ask bid, CalcBestPrice example_book ((10020 # 100)%Q : @dec QDecimal) = Some (ask, bid) /\
    (bid == 100)%Q /\ (ask == bid + (1 # 2))%Q.
Proof.
  destruct (CalcBestPrice_spec example_book ((10020 # 100)%Q : @dec QDecimal)) as (ask & bid & H & _ & Hb & Ha & _).
  - done.
  - done.
  - exists (2004 * 10 ^ 15). reflexivity.
  - exists ask, bid. split; [done|]. split; [rewrite Hb; reflexivity|exact Ha].
Defined.
