(* ===== verification/Quote.v ===== *)
(** * Quotes (domains/insights/quote.go)

    The best prices of a symbol as the exchange's ticker reports them.  [Update]
    holds its own mutex for its whole body; it returns the quote and the
    callbacks it called.  The pointers a quote keeps into a message are the
    values they point to: a message is not written after it was sent. *)

From stdpp Require Import sorting.
From S2P Require Import Prelude GoStd Decimal QDecimal Domains Symbol BTree PriceLevel OrderBook OrderBookViews.
Local Open Scope Z_scope.

Section Quote.
  Context {D : Decimal}.

Record QuoteData := MkQuoteData {
  qSeqID : Z;
  qExecAt : time;
  qEventAt : time;
  qArrivedAt : time;
  BestAsk : option PriceLevel;
  BestBid : option PriceLevel
}.

Record QuoteImpl := MkQuote {
  seqID : Z;
  symbol : Symbol.Symbol;
  lastExecAt : option time;
  lastEventAt : option time;
  lastArrivedAt : option time;
  bestAsk : option PriceLevel;
  bestBid : option PriceLevel;
  beforeBestAsk : option PriceLevel;
  beforeBestBid : option PriceLevel;
  updateCallback : list nat
}.

#[export] Instance eta_QuoteImpl : Eta QuoteImpl := fun q =>
  MkQuote (seqID q) (symbol q) (lastExecAt q) (lastEventAt q) (lastArrivedAt q)
    (bestAsk q) (bestBid q) (beforeBestAsk q) (beforeBestBid q) (updateCallback q).

Definition NewQuote (symbol' : Symbol.Symbol) : QuoteImpl :=
  MkQuote 0 symbol' None None None None None None None [].

(** ** Getters and setters *)

Definition IsReady (q : QuoteImpl) : bool :=
  is_some (bestBid q) && is_some (bestAsk q) &&
  is_some (beforeBestBid q) && is_some (beforeBestAsk q) && is_some (lastArrivedAt q).
Definition GetTickSize (q : QuoteImpl) : dec := Symbol.TickSize (symbol q).
Definition GetMinOrderQty (q : QuoteImpl) : dec := Symbol.MinOrderQty (symbol q).
Definition GetBestAsk (q : QuoteImpl) : option PriceLevel := bestAsk q.
Definition GetBestBid (q : QuoteImpl) : option PriceLevel := bestBid q.
Definition GetLastExecAt (q : QuoteImpl) : option time := lastExecAt q.
Definition GetLastEventAt (q : QuoteImpl) : option time := lastEventAt q.
Definition GetLastArrivedAt (q : QuoteImpl) : option time := lastArrivedAt q.
Definition GetSeqID (q : QuoteImpl) : Z := seqID q.
Definition getUpdateCallback (q : QuoteImpl) : list nat := updateCallback q.
Definition setBestAsk (r : option PriceLevel) (q : QuoteImpl) := q <| bestAsk := r |>.
Definition setBestBid (r : option PriceLevel) (q : QuoteImpl) := q <| bestBid := r |>.
Definition setBeforeBestAsk (r : option PriceLevel) (q : QuoteImpl) := q <| beforeBestAsk := r |>.
Definition setBeforeBestBid (r : option PriceLevel) (q : QuoteImpl) := q <| beforeBestBid := r |>.
Definition setLastExecAt (t : option time) (q : QuoteImpl) := q <| lastExecAt := t |>.
Definition setLastEventAt (t : option time) (q : QuoteImpl) := q <| lastEventAt := t |>.
Definition setLastArrivedAt (t : option time) (q : QuoteImpl) := q <| lastArrivedAt := t |>.
Definition setSeqID (id : Z) (q : QuoteImpl) := q <| seqID := id |>.
Definition SetUpdateCallback (callback : nat) (q : QuoteImpl) :=
  q <| updateCallback ::= fun cs => cs ++ [callback] |>.

(** [None]: the nil dereference before the second update. *)
Definition GetDiffBestAsk (q : QuoteImpl) : option PriceLevel :=
  current ← bestAsk q; before ← beforeBestAsk q; Some (level_diff current before).
Definition GetDiffBestBid (q : QuoteImpl) : option PriceLevel :=
  current ← bestBid q; before ← beforeBestBid q; Some (level_diff current before).

(** [None]: the division by a tick size of zero. *)
Definition RoundToTickSize (q : QuoteImpl) (price : dec) : option dec :=
  quotient ← Div price (Symbol.TickSize (symbol q));
  Some (Mul (Truncate quotient 0) (Symbol.TickSize (symbol q))).

Definition CalcBestPrice (q : QuoteImpl) (midPrice : dec) : option (dec * dec) :=
  let tickSize := Symbol.TickSize (symbol q) in
  ask ← RoundToTickSize q midPrice;
  let bestAsk := Add ask tickSize in
  bestBid ← RoundToTickSize q midPrice;
  Some (bestAsk, bestBid).

(** ** Updates *)

Definition Update (msg : QuoteData) (q : QuoteImpl) : QuoteImpl * list nat :=
  let q := match GetBestAsk q, GetBestBid q with
           | Some bestAsk, Some bestBid =>
               setBeforeBestBid (Some (Copy bestBid)) (setBeforeBestAsk (Some (Copy bestAsk)) q)
           | _, _ => q
           end in
  if match GetLastExecAt q with Some t => time_Before (qExecAt msg) t | None => false end then (q, [])
  else if qSeqID msg <? GetSeqID q then (q, [])
  else
    let q := setSeqID (qSeqID msg) q in
    let q := setLastExecAt (Some (qExecAt msg)) q in
    let q := setLastEventAt (Some (qEventAt msg)) q in
    let q := setLastArrivedAt (Some (qArrivedAt msg)) q in
    let q := setBestAsk (BestAsk msg) q in
    let q := setBestBid (BestBid msg) q in
    (q, getUpdateCallback q).

(** ** Facts *)

(** The messages with which a quote is updated, and the callbacks it called. *)
Fixpoint update_all (msgs : list QuoteData) (q : QuoteImpl) : QuoteImpl * list nat :=
  match msgs with
  | [] => (q, [])
  | msg :: msgs =>
      let '(q, calls) := Update msg q in
      let '(q, calls') := update_all msgs q in
      (q, calls ++ calls')
  end.

(** A message is in order after another, in time and in sequence. *)
Definition in_order (last : option QuoteData) (msg : QuoteData) : bool :=
  match last with
  | Some l => (qExecAt l <=? qExecAt msg) && (qSeqID l <=? qSeqID msg)
  | None => 0 <=? qSeqID msg
  end.

(** The messages that are in order after the last of them. *)
Fixpoint accepted (last : option QuoteData) (msgs : list QuoteData) : list QuoteData :=
  match msgs with
  | [] => []
  | msg :: msgs =>
      if in_order last msg then msg :: accepted (Some msg) msgs else accepted last msgs
  end.

(** The quote says what the message said. *)
Definition says (q : QuoteImpl) (last : option QuoteData) : Prop :=
  match last with
  | Some l => seqID q = qSeqID l /\ lastExecAt q = Some (qExecAt l) /\
      lastEventAt q = Some (qEventAt l) /\ lastArrivedAt q = Some (qArrivedAt l) /\
      bestAsk q = BestAsk l /\ bestBid q = BestBid l
  | None => seqID q = 0 /\ lastExecAt q = None /\ lastEventAt q = None /\
      lastArrivedAt q = None /\ bestAsk q = None /\ bestBid q = None
  end.

Lemma Update_spec msg q last :
  says q last ->
  let '(q', calls) := Update msg q in
  updateCallback q' = updateCallback q /\
  if in_order last msg
  then says q' (Some msg) /\ calls = updateCallback q
  else says q' last /\ calls = [].
Proof.
  intros Hq. unfold Update.
  set (q1 := match GetBestAsk q with Some _ => _ | None => q end).
  assert (says q1 last /\ updateCallback q1 = updateCallback q) as [H1 Hc].
  { unfold q1. destruct (GetBestAsk q), (GetBestBid q), last; done. }
  clearbody q1. unfold in_order, GetLastExecAt, GetSeqID, time_Before.
  destruct last as [l|]; simpl in H1; destruct H1 as (Hs & He & H1); rewrite He, Hs.
  - rewrite !Z.leb_antisym. destruct (qExecAt msg <? qExecAt l), (qSeqID msg <? qSeqID l); simpl; naive_solver.
  - rewrite Z.leb_antisym. destruct (qSeqID msg <? 0); simpl; naive_solver.
Qed.

Lemma update_all_spec msgs q last_msg :
  says q last_msg ->
  let '(q', calls) := update_all msgs q in
  says q' (or_else (last (accepted last_msg msgs)) last_msg) /\
  calls = concat (map (fun _ => updateCallback q) (accepted last_msg msgs)).
Proof.
  revert q last_msg. induction msgs as [|msg msgs IH]; intros q l Hq; simpl; [by destruct l|].
  pose proof (Update_spec msg q l Hq) as Hu. destruct (Update msg q) as [q1 calls].
  destruct Hu as [Hc Hu]. destruct (in_order l msg); destruct Hu as [H1 ->].
  all: specialize (IH _ _ H1); destruct (update_all msgs q1) as [q2 calls'].
  all: destruct IH as [IH ->]; rewrite Hc; split; [|done].
  - rewrite last_cons. by destruct (last (accepted (Some msg) msgs)).
  - done.
Qed.

(** Each message of the list is in order after the one before it. *)
Inductive ordered : option QuoteData -> list QuoteData -> Prop :=
  | ordered_nil last : ordered last []
  | ordered_cons last msg msgs :
      in_order last msg = true -> ordered (Some msg) msgs -> ordered last (msg :: msgs).

Lemma accepted_ordered last msgs : ordered last (accepted last msgs).
Proof.
  revert last. induction msgs as [|msg msgs IH]; intros last; simpl; [constructor|].
  destruct (in_order last msg) eqn:E; [by constructor|apply IH].
Qed.

Lemma accepted_all last msgs : ordered last msgs -> accepted last msgs = msgs.
Proof. induction 1 as [|l msg msgs Hm _ IH]; simpl; [done|]. by rewrite Hm, IH. Qed.

(** Messages that carry both best prices, as those of both exchanges do. *)
Definition complete (msg : QuoteData) : Prop := is_Some (BestAsk msg) /\ is_Some (BestBid msg).

(** The messages from the first one that a fresh quote accepts on. *)
Fixpoint from_first (msgs : list QuoteData) : list QuoteData :=
  match msgs with
  | [] => []
  | msg :: rest => if qSeqID msg <? 0 then from_first rest else msgs
  end.

Lemma Update_ready q last msg :
  says q (Some last) -> complete last -> complete msg ->
  IsReady (fst (Update msg q)) = true /\ exists last', says (fst (Update msg q)) (Some last') /\ complete last'.
Proof.
  intros Hq Hl Hm. pose proof (Update_spec msg q _ Hq) as Hu.
  destruct (Update msg q) as [q' calls] eqn:E. destruct Hu as (_ & Hu). simpl.
  assert (exists last', says q' (Some last') /\ complete last') as Hs.
  { destruct (in_order (Some last) msg); destruct Hu as [Hu _]; eauto. }
  split; [|done]. destruct Hs as (l' & (_ & _ & _ & Hat & Ha & Hb) & [[xa Hxa] [xb Hxb]]).
  destruct Hq as (_ & _ & _ & _ & Hqa & Hqb), Hl as [[la Hla] [lb Hlb]].
  assert (is_some (beforeBestAsk q') = true /\ is_some (beforeBestBid q') = true) as [Hba Hbb].
  { revert E. unfold Update, GetBestAsk, GetBestBid. rewrite Hqa, Hqb, Hla, Hlb.
    repeat case_match; by intros [= <- _]. }
  unfold IsReady. by rewrite Ha, Hb, Hxa, Hxb, Hba, Hbb, Hat.
Qed.

Lemma update_all_ready msgs q last :
  says q (Some last) -> complete last -> Forall complete msgs -> msgs <> [] ->
  IsReady (fst (update_all msgs q)) = true.
Proof.
  revert q last. induction msgs as [|msg msgs IH]; intros q l Hq Hl Hms Hne; [done|]. simpl.
  apply Forall_cons in Hms as [Hm Hms].
  destruct (Update_ready q l msg Hq Hl Hm) as (Hr & l' & Hq' & Hl').
  destruct (Update msg q) as [q' calls]. simpl in *. destruct msgs as [|m2 msgs]; [done|].
  specialize (IH q' l' Hq' Hl' Hms). destruct (update_all (m2 :: msgs) q') as [q2 calls2]. by apply IH.
Qed.

(** A quote is ready after the first message it accepts and one more, late or not. *)
Lemma quote_ready_updates s msgs :
  Forall complete msgs -> IsReady (fst (update_all msgs (NewQuote s))) = (2 <=? length (from_first msgs))%nat.
Proof.
  assert (forall q, says q None -> Forall complete msgs -> IsReady q = false -> bestAsk q = None ->
    beforeBestAsk q = None -> IsReady (fst (update_all msgs q)) = (2 <=? length (from_first msgs))%nat) as H;
    [|intros Hms; by apply H].
  induction msgs as [|msg msgs IH]; intros q Hq Hms Hr Hn Hb; [done|]. apply Forall_cons in Hms as [Hm Hms]. simpl.
  pose proof (Update_spec msg q None Hq) as Hu.
  assert (beforeBestAsk (fst (Update msg q)) = None) as Hb'.
  { unfold Update, GetBestAsk. rewrite Hn. by repeat case_match. }
  destruct (Update msg q) as [q1 calls]. destruct Hu as (_ & Hu). simpl in Hu, Hb'. rewrite Z.leb_antisym in Hu.
  assert (IsReady q1 = false) as Hr1 by (unfold IsReady; rewrite Hb'; simpl; by rewrite andb_false_r).
  destruct (qSeqID msg <? 0); destruct Hu as [Hu _].
  - specialize (IH q1 Hu Hms Hr1). destruct (update_all msgs q1). apply IH; [by destruct Hu as (_ & _ & _ & _ & -> & _)|done].
  - destruct msgs as [|m2 msgs]; [done|]. pose proof (update_all_ready (m2 :: msgs) q1 msg Hu Hm Hms) as H.
    destruct (update_all (m2 :: msgs) q1). by apply H.
Qed.

(** A quote says what the last message in order said, however many late messages
    arrive: the messages it accepts are ordered by sequence number and by time, it
    accepts all messages that arrive in order, and every accepted message runs each
    callback once, a late one none. *)
Theorem quote_follows_order s cs msgs :
  let q0 := foldr SetUpdateCallback (NewQuote s) cs in
  let '(q, calls) := update_all msgs q0 in
  says q (last (accepted None msgs)) /\
  calls = concat (map (fun _ => getUpdateCallback q0) (accepted None msgs)) /\
  ordered None (accepted None msgs) /\
  (ordered None msgs -> accepted None msgs = msgs).
Proof.
  intros q0. assert (says q0 None) as H0 by (unfold q0; by induction cs).
  pose proof (update_all_spec msgs q0 None H0) as H. destruct (update_all msgs q0) as [q calls].
  destruct H as [H1 H2]. split; [by destruct (last (accepted None msgs))|]. split; [done|].
  split; [apply accepted_ordered|apply accepted_all].
Qed.

Context {DL : DecimalLaws D}.

(** A late message that a quote rejects still replaces the previous best prices by
    the current ones: from then on the quote reports no difference at all. *)
Theorem late_quote_erases_difference q l a b msg :
  says q (Some l) -> bestAsk q = Some a -> bestBid q = Some b -> in_order (Some l) msg = false ->
  let q' := fst (Update msg q) in
  says q' (Some l) /\
  exists da db, GetDiffBestAsk q' = Some da /\ GetDiffBestBid q' = Some db /\
    (dval (Price da) == 0)%Q /\ (dval (Volume da) == 0)%Q /\
    (dval (Price db) == 0)%Q /\ (dval (Volume db) == 0)%Q.
Proof.
  intros Hq Ha Hb Hl q'. pose proof (Update_spec msg q _ Hq) as H. rewrite Hl in H.
  subst q'. destruct (Update msg q) as [q' calls] eqn:E. destruct H as (_ & Hs & _).
  split; [done|]. assert (beforeBestAsk q' = Some a /\ beforeBestBid q' = Some b) as [Hba Hbb].
  { revert E. unfold Update, GetBestAsk, GetBestBid. rewrite Ha, Hb, !Copy_eq.
    destruct Hq as (Hsq & He & _). simpl. unfold in_order in Hl. unfold GetLastExecAt, GetSeqID, time_Before.
    simpl. rewrite He, Hsq. rewrite !Z.leb_antisym in Hl.
    destruct (qExecAt msg <? qExecAt l), (qSeqID msg <? qSeqID l); simpl in *; try done; by intros [= <- _]. }
  destruct Hs as (_ & _ & _ & _ & Ha' & Hb'). destruct Hq as (_ & _ & _ & _ & Ha0 & Hb0).
  unfold GetDiffBestAsk, GetDiffBestBid. simpl. rewrite Ha', Hb', <- Ha0, <- Hb0, Ha, Hb, Hba, Hbb. simpl.
  do 2 eexists. repeat split; simpl; dval_simpl; lra.
Qed.

(** A quote rounds prices as an order book of the same symbol does. *)
Lemma quote_rounds_as_book {B : BTree} (q : QuoteImpl) (p : OrderBookImpl) price :
  OrderBook.symbol p = symbol q ->
  RoundToTickSize q price = OrderBook.RoundToTickSize p price /\
  CalcBestPrice q price = OrderBook.CalcBestPrice p price.
Proof.
  intros Hs. unfold CalcBestPrice, OrderBook.CalcBestPrice, RoundToTickSize, OrderBook.RoundToTickSize.
  by rewrite Hs.
Qed.

End Quote.
