(* ===== verification/Trade.v ===== *)
(** * Trades (domains/insights/trade.go)

    Lists of executed trades and their sums.  A registered handler is a number;
    [Update] returns the handlers it ran, in order. *)

From S2P Require Import Prelude GoStd Decimal QDecimal Domains Symbol Order.
Local Open Scope Z_scope.

Section Trade.
  Context {D : Decimal}.

Record TradeData := MkTradeData {
  ExecAt : time;
  ArrivedAt : time;
  Side : Domains.Side;
  Volume : dec;
  Price : dec
}.

Definition GetSize (d : TradeData) : dec := ToSize (Side d) (Volume d).

Definition GetSumSize (l : list TradeData) : dec :=
  foldl (fun sum m => Add sum (GetSize m)) Zero l.

Definition GetSumSellVolume (l : list TradeData) : dec :=
  foldl (fun sum m => if decide (Side m = SideSell) then Add sum (Volume m) else sum) Zero l.

Definition GetSumBuyVolume (l : list TradeData) : dec :=
  foldl (fun sum m => if decide (Side m = SideBuy) then Add sum (Volume m) else sum) Zero l.

(** [None]: the index out of range of an empty list. *)
Definition GetExecAt (l : list TradeData) : option time := ExecAt <$> l !! 0%nat.
Definition GetArrivedAt (l : list TradeData) : option time := ArrivedAt <$> l !! 0%nat.

Record TradeImpl := MkTrade {
  symbol : Symbol.Symbol;
  handlers : list nat;
  lastUpdateAt : option time
}.

Definition NewTrade (symbol' : Symbol.Symbol) : TradeImpl := MkTrade symbol' [] None.

Definition SetUpdateCallback (callback : nat) (t : TradeImpl) : TradeImpl :=
  {| symbol := symbol t; handlers := handlers t ++ [callback]; lastUpdateAt := lastUpdateAt t |}.

(** [now] is what [time.Now()] answers. *)
Definition Update (msg : list TradeData) (now : time) (t : TradeImpl) :
    TradeImpl * list (nat * list TradeData) :=
  let calls := map (fun handler => (handler, msg)) (handlers t) in
  ({| symbol := symbol t; handlers := handlers t; lastUpdateAt := Some now |}, calls).

Definition IsReady (t : TradeImpl) : bool :=
  match lastUpdateAt t with Some _ => true | None => false end.

(** ** Facts *)

Context {DL : DecimalLaws D}.

Lemma sum_step (f : dec -> TradeData -> dec) l s :
  (forall s m, (dval (f s m) == dval s + (dval (f Zero m)))%Q) ->
  (dval (foldl f s l) == dval s + dval (foldl f Zero l))%Q.
Proof.
  intros Hf. revert s. induction l as [|m l IH]; intros s; simpl; [rewrite dval_Zero; lra|].
  rewrite (IH (f s m)), (IH (f Zero m)), Hf. lra.
Qed.

Definition buy_step (sum : dec) (m : TradeData) : dec :=
  if decide (Side m = SideBuy) then Add sum (Volume m) else sum.
Definition sell_step (sum : dec) (m : TradeData) : dec :=
  if decide (Side m = SideSell) then Add sum (Volume m) else sum.

Lemma size_of_side m :
  (dval (GetSize m) == dval (buy_step Zero m) - dval (sell_step Zero m))%Q.
Proof.
  unfold GetSize, ToSize, buy_step, sell_step, DecimalSign, Sign.
  destruct (Side m); simpl; repeat case_decide; try done; dval_simpl; unfold inject_Z; lra.
Qed.

(** The signed size of a list of trades is what was bought minus what was sold, and
    both sums are those of the trades of that side alone. *)
Theorem sum_size_balances l :
  (dval (GetSumSize l) == dval (GetSumBuyVolume l) - dval (GetSumSellVolume l))%Q /\
  GetSumBuyVolume l = foldl Add Zero (map Volume (List.filter (fun m => bool_decide (Side m = SideBuy)) l)) /\
  GetSumSellVolume l = foldl Add Zero (map Volume (List.filter (fun m => bool_decide (Side m = SideSell)) l)).
Proof.
  unfold GetSumSize, GetSumBuyVolume, GetSumSellVolume. fold buy_step sell_step. split; [|split].
  - induction l as [|m l IH]; simpl; [rewrite dval_Zero; lra|].
    rewrite (sum_step (fun sum m => Add sum (GetSize m))), (sum_step buy_step), (sum_step sell_step).
    + rewrite IH, dval_Add, dval_Zero, (size_of_side m). lra.
    + intros s m'. unfold sell_step. case_decide; dval_simpl; lra.
    + intros s m'. unfold buy_step. case_decide; dval_simpl; lra.
    + intros s m'. dval_simpl. lra.
  - generalize Zero. induction l as [|m l IH]; intros s; simpl; [done|].
    rewrite IH. unfold buy_step. destruct (decide _) as [E|E]; [|by rewrite (bool_decide_eq_false_2 _ E)].
    by rewrite (bool_decide_eq_true_2 _ E).
  - generalize Zero. induction l as [|m l IH]; intros s; simpl; [done|].
    rewrite IH. unfold sell_step. destruct (decide _) as [E|E]; [|by rewrite (bool_decide_eq_false_2 _ E)].
    by rewrite (bool_decide_eq_true_2 _ E).
Qed.

End Trade.
