(* ===== verification/TTLCache.v ===== *)
(** * The deduplication cache (internal/gateways/ttl_cache.go)

    The cache is shared by all redundant channels and by a cleanup goroutine, so
    it is a system of callers and a cleaner whose atomic steps (the methods of
    [mutex.Map] and the readings of the clock) interleave.  [AddIfAbsent] is also a
    function, for a call whose steps nothing separates. *)

From S2P Require Import Prelude GoStd MutexMap.
Local Open Scope Z_scope.

#[export] Instance string_time_inhabited : Inhabited time := populate time_zero.

Definition cleanupThreshold : nat := 1000.
Definition cleanupIntervalSc : Z := 1.

Record TTLCache := MkTTLCache {
  entries : gmap string time;
  ttl : duration;
  cleanupInterval : duration
}.

#[export] Instance eta_TTLCache : Eta TTLCache := fun c =>
  MkTTLCache (entries c) (ttl c) (cleanupInterval c).

Definition NewTTLCache (ttl' : duration) : TTLCache := {|
  entries := NewMap None;
  ttl := ttl';
  cleanupInterval := cleanupIntervalSc * Second
|}.

Definition SetCleanupInterval (d : duration) (c : TTLCache) : TTLCache := c <| cleanupInterval := d |>.

(** [now.Sub(t) > c.ttl] *)
Definition expired_at (c : TTLCache) (now t : time) : bool := ttl c <? time_Sub now t.

(** A call that no other call overlaps; [now] is what it read from the clock. *)
Definition AddIfAbsent (key : string) (now : time) (c : TTLCache) : TTLCache * bool :=
  let '(m, (existing, occupied)) := SetIfAbsent (entries c) key now in
  let c := c <| entries := m |> in
  if negb occupied then (c, true)
  else if expired_at c now existing then (c <| entries := Set' m key now |>, true)
  else (c, false).

(** ** The steps of the callers and of the cleaner *)

(** Where a call of [AddIfAbsent] is. *)
Inductive call :=
  | Called (key : string)
  | Stamped (key : string) (now : time)
  | Expired (key : string) (now : time)
  | Returned (key : string) (now : time) (added : bool).

(** Where the cleanup goroutine is: waiting for a tick, over the threshold, with the keys of
    its snapshot, or at one of them with those it found expired. *)
Inductive cleaner :=
  | Idle
  | Listing
  | Listed (keys : list string)
  | Scanning (keys : list string) (now : time) (expiredKeys : list string).

Record system := MkSystem {
  cache : TTLCache;
  clock : time;
  calls : list call;
  cleaning : cleaner;
  loops : nat;
  (** the keys that were reported as first seen, in order *)
  added : list string
}.

#[export] Instance eta_system : Eta system := fun s =>
  MkSystem (cache s) (clock s) (calls s) (cleaning s) (loops s) (added s).

Inductive event :=
  | Pass (d : Z)            (** time passes *)
  | Call (key : string)     (** a goroutine calls [AddIfAbsent] *)
  | Go (i : nat)            (** the [i]-th call takes its next step *)
  | Clean.                  (** the cleaner takes its next step *)

Definition return_call (i : nat) (key : string) (now : time) (b : bool) (s : system) : system :=
  (s <| calls ::= <[i := Returned key now b]> |>)
    <| added ::= fun l => if b then l ++ [key] else l |>.

Definition call_step (i : nat) (s : system) : option system :=
  match calls s !! i with
  | Some (Called key) => Some (s <| calls ::= <[i := Stamped key (clock s)]> |>)
  | Some (Stamped key now) =>
      let '(m, (existing, occupied)) := SetIfAbsent (entries (cache s)) key now in
      let s := s <| cache ::= fun c => c <| entries := m |> |> in
      Some (if negb occupied then return_call i key now true s
            else if expired_at (cache s) now existing
            then s <| calls ::= <[i := Expired key now]> |>
            else return_call i key now false s)
  | Some (Expired key now) =>
      let s := s <| cache ::= fun c => c <| entries ::= fun m => Set' m key now |> |> in
      Some (return_call i key now true s)
  | _ => None
  end.

(** The cleaner's next step: the length, the keys, the clock, one entry, and the deletion of all
    the keys that were found expired. *)
Definition clean_step `{GoRuntime} (s : system) : system :=
  match cleaning s with
  | Idle =>
      if (Len (entries (cache s)) <=? cleanupThreshold)%nat then s
      else s <| cleaning := Listing |>
  | Listing =>
      (s <| cleaning := Listed (GetKeys (loops s) (entries (cache s))) |>) <| loops ::= S |>
  | Listed keys => s <| cleaning := Scanning keys (clock s) [] |>
  | Scanning (key :: keys) now expiredKeys =>
      let '(t, ok) := MutexMap.Get (entries (cache s)) key in
      s <| cleaning := Scanning keys now
             (if ok && expired_at (cache s) now t then expiredKeys ++ [key] else expiredKeys) |>
  | Scanning [] now expiredKeys =>
      let s := s <| cleaning := Idle |> in
      if (0 <? length expiredKeys)%nat
      then s <| cache ::= fun c => c <| entries ::= fun m => BulkDelete m expiredKeys |> |>
      else s
  end.

(** [None]: the event is not possible. *)
Definition step `{GoRuntime} (e : event) (s : system) : option system :=
  match e with
  | Pass d => if 0 <=? d then Some (s <| clock ::= fun t => t + d |>) else None
  | Call key => Some (s <| calls ::= fun l => l ++ [Called key] |>)
  | Go i => call_step i s
  | Clean => Some (clean_step s)
  end.

Fixpoint run `{GoRuntime} (es : list event) (s : system) : option system :=
  match es with
  | [] => Some s
  | e :: es => s' ← step e s; run es s'
  end.

Definition start (c : TTLCache) (t : time) : system := MkSystem c t [] Idle 0 [].
