(* ===== verification/TTLCacheProps.v ===== *)
(** * Properties of the deduplication cache *)

From S2P Require Import Prelude GoStd MutexMap TTLCache.
Local Open Scope Z_scope.

(** ** Calls that do not overlap, between the steps of the cleaner *)

(** A call, or the next step of the cleaner, with the time of the clock. *)
Inductive op := OpAdd (key : string) (now : time) | OpClean (now : time).
Definition op_time (o : op) : time := match o with OpAdd _ now | OpClean now => now end.

Definition add_op (key : string) (now : time) (s : system) : system * bool :=
  let '(c, b) := AddIfAbsent key now (cache s) in (s <| cache := c |>, b).

Definition clean_op `{GoRuntime} (now : time) (s : system) : system := clean_step (s <| clock := now |>).

(** The answers of a sequence of calls and steps of the cleaner. *)
Fixpoint exec `{GoRuntime} (ops : list op) (s : system) : list bool :=
  match ops with
  | [] => []
  | OpAdd key now :: ops => let '(s, b) := add_op key now s in b :: exec ops s
  | OpClean now :: ops => exec ops (clean_op now s)
  end.

(** The keys that the cleaner found expired and has not deleted yet. *)
Definition doomed (s : system) : list string :=
  match cleaning s with Scanning _ _ expiredKeys => expiredKeys | _ => [] end.

(** No call is for a key that the cleaner is about to delete. *)
Fixpoint undisturbed `{GoRuntime} (ops : list op) (s : system) : bool :=
  match ops with
  | [] => true
  | OpAdd key now :: ops => bool_decide (key ∉ doomed s) && undisturbed ops (fst (add_op key now s))
  | OpClean now :: ops => undisturbed ops (clean_op now s)
  end.

(** The reference: a key is new when it was never reported as new, or longer ago than the
    time to live.  There is no cleanup. *)
Fixpoint reference (ttl : duration) (ops : list op) (seen : string -> option time) : list bool :=
  match ops with
  | [] => []
  | OpAdd key now :: ops =>
      let new := match seen key with Some t => ttl <? time_Sub now t | None => true end in
      new :: reference ttl ops (fun k => if new && String.eqb k key then Some now else seen k)
  | OpClean _ :: ops => reference ttl ops seen
  end.

(** The operations are made in the order of their times, from [t] on. *)
Fixpoint in_time (t : time) (ops : list op) : Prop :=
  match ops with
  | [] => True
  | o :: ops => t <= op_time o /\ in_time (op_time o) ops
  end.

(** A cache knows what was seen, up to what has expired. *)
Definition knows (c : TTLCache) (seen : string -> option time) (now : time) : Prop :=
  forall k, entries c !! k = seen k \/
    (entries c !! k = None /\ exists t, seen k = Some t /\ expired_at c now t = true).

(** What the cleaner found expired is expired. *)
Definition found_expired (s : system) (now : time) : Prop :=
  match cleaning s with
  | Scanning _ start expiredKeys => start <= now /\
      forall k, k ∈ expiredKeys -> exists t, entries (cache s) !! k = Some t /\ expired_at (cache s) start t = true
  | _ => True
  end.

Lemma expired_later c now now' t :
  now <= now' -> expired_at c now t = true -> expired_at c now' t = true.
Proof.
  unfold expired_at. intros Hn H%Z.ltb_lt. apply Z.ltb_lt.
  pose proof (time_Sub_mono now now' t Hn). lia.
Qed.

Lemma knows_later c seen now now' : now <= now' -> knows c seen now -> knows c seen now'.
Proof.
  intros Hn H k. destruct (H k) as [Hk|(Hk & t & Ht & He)]; [by left|right].
  split; [done|]. exists t. eauto using expired_later.
Qed.

Lemma found_later s now now' : now <= now' -> found_expired s now -> found_expired s now'.
Proof. unfold found_expired. destruct (cleaning s); try done. intros Hn [H1 H2]. split; [lia|done]. Qed.

Lemma clean_op_knows `{GoRuntime} s seen now :
  knows (cache s) seen now -> found_expired s now ->
  knows (cache (clean_op now s)) seen now /\ found_expired (clean_op now s) now /\
  ttl (cache (clean_op now s)) = ttl (cache s).
Proof.
  intros Hk Hf. unfold clean_op, clean_step, found_expired in *. simpl.
  destruct (cleaning s) as [| |keys|[|key keys] start ks] eqn:Hc; simpl.
  - case_match; simpl; by rewrite ?Hc.
  - done.
  - split; [done|]. split; [|done]. split; [lia|]. by intros k ?%not_elem_of_nil.
  - destruct Hf as [Hle Hks]. case_match; simpl; [|done]. split; [|done]. intros k. simpl.
    rewrite lookup_BulkDelete. case_decide as Hin; [|exact (Hk k)].
    destruct (Hks k Hin) as (t & Ht & He). right. split; [done|].
    destruct (Hk k) as [Hs|[Hs _]]; [|congruence]. exists t. split; [congruence|]. by apply (expired_later _ start).
  - destruct Hf as [Hle Hks]. unfold MutexMap.Get.
    destruct (entries (cache s) !! key) as [t|] eqn:Ek; simpl; [|done].
    destruct (expired_at (cache s) start t) eqn:He; simpl; [|done]. split; [done|]. split; [|done].
    split; [done|]. intros k [Hin| ->%list_elem_of_singleton]%elem_of_app; [by apply Hks|by exists t].
Qed.

Lemma AddIfAbsent_knows c seen key now :
  knows c seen now ->
  let new := match seen key with Some t => ttl c <? time_Sub now t | None => true end in
  let '(c', b) := AddIfAbsent key now c in
  b = new /\ ttl c' = ttl c /\
  knows c' (fun k => if new && String.eqb k key then Some now else seen k) now /\
  forall k, k <> key -> entries c' !! k = entries c !! k.
Proof.
  intros Hc new. unfold AddIfAbsent, SetIfAbsent.
  assert (forall m, m = entries c -> knows (c <| entries := <[key := now]> m |>)
    (fun k => if true && String.eqb k key then Some now else seen k) now) as Hins.
  { intros m ->. intros k. simpl.
    destruct (String.eqb_spec k key) as [->|Hk]; [left; by rewrite lookup_insert_eq|].
    rewrite lookup_insert_ne by done. exact (Hc k). }
  assert (forall k m, k <> key -> (<[key := now]> m : gmap string time) !! k = m !! k) as Hoth.
  { intros k m Hne. by rewrite lookup_insert_ne. }
  destruct (entries c !! key) as [t|] eqn:Ht; simpl.
  - assert (seen key = Some t) as Hs by (destruct (Hc key) as [|[]]; congruence).
    unfold expired_at. simpl. subst new. rewrite Hs. destruct (ttl c <? time_Sub now t) eqn:E; simpl;
      (split; [done|]; split; [done|]).
    + split; [by apply (Hins (entries c))|]. intros k. by apply Hoth.
    + split; [exact Hc|done].
  - assert (new = true) as ->.
    { subst new. destruct (Hc key) as [Hs|(_ & t & Hs & He)]; [by rewrite <- Hs, Ht|].
      rewrite Hs. exact He. }
    split; [done|]. split; [done|]. split; [by apply (Hins (entries c))|]. intros k. by apply Hoth.
Qed.

Lemma add_op_knows s seen key now :
  knows (cache s) seen now -> found_expired s now -> key ∉ doomed s ->
  let new := match seen key with Some t => ttl (cache s) <? time_Sub now t | None => true end in
  let '(s', b) := add_op key now s in
  b = new /\ ttl (cache s') = ttl (cache s) /\
  knows (cache s') (fun k => if new && String.eqb k key then Some now else seen k) now /\ found_expired s' now.
Proof.
  intros Hk Hf Hn. pose proof (AddIfAbsent_knows _ _ key now Hk) as Ha. unfold add_op.
  destruct (AddIfAbsent key now (cache s)) as [c' b]. destruct Ha as (Hb & Ht & Hk' & Hoth).
  split; [exact Hb|]. split; [exact Ht|]. split; [exact Hk'|].
  unfold found_expired, doomed in *. simpl. destruct (cleaning s) as [| |keys|keys start ks]; try done.
  destruct Hf as [Hle Hks]. split; [done|]. intros k Hin. rewrite Hoth by (by intros ->).
  unfold expired_at. rewrite Ht. by apply Hks.
Qed.

(** C20: what the cache answers does not depend on its cleanup: for calls that do not overlap,
    made at any moment between the steps of the cleaner, in the order of their times, a key is
    reported as first seen exactly when it was not, within the time to live.  The condition is
    that no call is for a key that the cleaner has already found expired and has not yet deleted;
    without it an entry that was renewed is lost ([cleanup_drops_renewed_entry]). *)
Theorem dedup_spec `{GoRuntime} d t ops :
  in_time t ops -> undisturbed ops (start (NewTTLCache d) t) = true ->
  exec ops (start (NewTTLCache d) t) = reference d ops (fun _ => None).
Proof.
  assert (forall ops s seen t, ttl (cache s) = d -> knows (cache s) seen t -> found_expired s t ->
    in_time t ops -> undisturbed ops s = true -> exec ops s = reference d ops seen) as Hgen.
  { clear. induction ops as [|[key now|now] ops IH]; intros s seen t Hd Hk Hf Ht Hu; [done|..];
      simpl in Ht; destruct Ht as [Hle Ht]; simpl in Hu |- *;
      pose proof (knows_later _ _ _ _ Hle Hk) as Hk2; pose proof (found_later _ _ _ Hle Hf) as Hf2.
    - apply andb_true_iff in Hu as [Hno%bool_decide_eq_true Hu].
      pose proof (add_op_knows s seen key now Hk2 Hf2 Hno) as Ha. simpl in Ha.
      destruct (add_op key now s) as [s' b]. destruct Ha as (-> & Hd' & Hk' & Hf'). rewrite Hd in *.
      f_equal. by eapply IH.
    - destruct (clean_op_knows s seen now Hk2 Hf2) as (Hk' & Hf' & Hd'). eapply IH; [by rewrite Hd'|done..]. }
  intros Ht Hu. eapply Hgen; [done| |done..]. intros k. left. simpl. by rewrite lookup_empty.
Qed.

Lemma dedup_spec_witness :
  exec (H := in_order) [OpAdd "a" 10; OpClean 10; OpAdd "b" 11; OpAdd "a" 12; OpClean 13; OpAdd "a" 16]
    (start (NewTTLCache 5) 0) = [true; true; false; true].
Proof. rewrite dedup_spec; [reflexivity|simpl; lia|vm_compute; reflexivity]. Defined.

(** *** The cleaner against a call *)

(** So many entries that the cleaner has work to do. *)
Definition many_keys : list string := map (fun i => FormatInt (Z.of_nat i)) (seq 0 1001).

(** All of them expire; the cleaner looks at them, the key 7 is seen again, the cleaner deletes
    what it found expired, and the key 7 comes once more. *)
Definition renewed_ops : list op :=
  map (fun key => OpAdd key 0) many_keys ++ replicate 1004 (OpClean 10) ++
  [OpAdd "7" 10; OpClean 10; OpAdd "7" 11].

(** The cleaner deletes an entry that was renewed after it was found expired: the next copy of the
    message, one unit of time after one that was reported as first seen, is reported so again. *)
Theorem cleanup_drops_renewed_entry :
  in_time 0 renewed_ops /\
  drop 1001 (exec (H := in_order) renewed_ops (start (NewTTLCache 5) 0)) = [true; true] /\
  drop 1001 (reference 5 renewed_ops (fun _ => None)) = [true; false].
Proof.
  split; [|split; vm_compute; reflexivity].
  assert (forall t ops1 ops2, Forall (fun o => op_time o = t) ops1 -> in_time t ops2 -> in_time t (ops1 ++ ops2)) as Happ.
  { intros t ops1 ops2 H1 H2. induction H1 as [|o ops1 Ho _ IH]; [done|]. simpl. rewrite Ho. split; [lia|done]. }
  unfold renewed_ops. apply Happ; [by apply Forall_map, Forall_true|].
  change (in_time 0 (OpClean 10 :: replicate 1003 (OpClean 10) ++ [OpAdd "7" 10; OpClean 10; OpAdd "7" 11])).
  split; [simpl; lia|]. apply Happ; [by apply Forall_replicate|simpl; lia].
Qed.

(** ** Overlapping calls *)

(** A call whose steps nothing separates is [AddIfAbsent]. *)

Lemma call_alone `{GoRuntime} i key s :
  calls s !! i = Some (Called key) ->
  exists k s', run (replicate k (Go i)) s = Some s' /\
    cache s' = fst (AddIfAbsent key (clock s) (cache s)) /\
    calls s' !! i = Some (Returned key (clock s) (snd (AddIfAbsent key (clock s) (cache s)))).
Proof.
  intros Hi. pose proof (lookup_lt_Some _ _ _ Hi) as Hlt. unfold AddIfAbsent, SetIfAbsent.
  destruct (entries (cache s) !! key) as [t|] eqn:Ek; simpl.
  - destruct (expired_at (cache s) (clock s) t) eqn:He.
    + exists 3%nat. eexists. simpl. unfold call_step, SetIfAbsent, expired_at in *. rewrite Hi. simpl.
      rewrite list_lookup_insert_eq by done. simpl. rewrite Ek. simpl. rewrite He. simpl.
      rewrite list_lookup_insert_eq by by rewrite length_insert. simpl. split; [done|].
      simpl. split; [by destruct (cache s)|]. by rewrite list_lookup_insert_eq by by rewrite !length_insert.
    + exists 2%nat. eexists. simpl. unfold call_step, SetIfAbsent, expired_at in *. rewrite Hi. simpl.
      rewrite list_lookup_insert_eq by done. simpl. rewrite Ek. simpl. rewrite He. simpl.
      split; [done|]. simpl. split; [by destruct (cache s)|].
      by rewrite list_lookup_insert_eq by by rewrite !length_insert.
  - exists 2%nat. eexists. simpl. unfold call_step, SetIfAbsent. rewrite Hi. simpl.
    rewrite list_lookup_insert_eq by done. simpl. rewrite Ek. simpl.
    split; [done|]. simpl. split; [by destruct (cache s)|].
    by rewrite list_lookup_insert_eq by by rewrite !length_insert.
Qed.

Definition call_key (c : call) : string :=
  match c with Called key | Stamped key _ | Expired key _ | Returned key _ _ => key end.

(** How often a key was reported as first seen. *)
Definition times_added (k : string) (s : system) : nat := length (List.filter (String.eqb k) (added s)).

(** What holds of a key from its first call, at [t1] or later, until its entry can expire. *)
Record key_inv (k : string) (t1 : time) (s : system) : Prop := {
  ki_entry : forall t, entries (cache s) !! k = Some t -> t1 <= t;
  ki_calls : forall i c, calls s !! i = Some c -> call_key c = k ->
    match c with
    | Called _ => t1 <= clock s
    | Stamped _ now => t1 <= now <= clock s
    | Expired _ _ => False
    | Returned _ _ _ => k ∈ added s
    end;
  ki_added : times_added k s = if entries (cache s) !! k then 1%nat else 0%nat;
  ki_cleaner : match cleaning s with Scanning _ now expiredKeys => now <= clock s /\ k ∉ expiredKeys | _ => True end
}.

Lemma added_times k s : k ∈ added s <-> times_added k s <> 0%nat.
Proof.
  unfold times_added. induction (added s) as [|x l IH]; simpl; [split; [by intros ?%not_elem_of_nil|done]|].
  rewrite elem_of_cons, IH. destruct (String.eqb_spec k x); simpl; naive_solver.
Qed.

Lemma times_snoc k x l :
  length (List.filter (String.eqb k) (l ++ [x])) = (length (List.filter (String.eqb k) l) + if String.eqb k x then 1 else 0)%nat.
Proof. rewrite List.filter_app, length_app. simpl. by destruct (String.eqb k x). Qed.

Lemma times_nodup (l : list string) : (forall k, length (List.filter (String.eqb k) l) <= 1)%nat -> NoDup l.
Proof.
  induction l as [|x l IH]; intros H; [constructor|]. constructor.
  - intros Hx. specialize (H x). simpl in H. rewrite String.eqb_refl in H. simpl in H.
    apply list_elem_of_In in Hx.
    assert (In x (List.filter (String.eqb x) l)) as Hin by (apply filter_In; split; [done|apply String.eqb_refl]).
    destruct (List.filter (String.eqb x) l); [done|]. simpl in H. lia.
  - apply IH. intros k. specialize (H k). simpl in H. destruct (String.eqb k x); simpl in H; lia.
Qed.

Lemma not_expired c t1 now t :
  in_int64 (ttl c) -> t1 <= t -> now - t1 <= ttl c -> expired_at c now t = false.
Proof.
  intros Hi H1 H2. unfold expired_at. apply Z.ltb_ge. unfold time_Sub, in_int64, int64_min, int64_max in *. lia.
Qed.

(** A step of a call for another key. *)
Lemma call_step_other k t1 i c s s' :
  calls s !! i = Some c -> call_key c <> k -> key_inv k t1 s -> call_step i s = Some s' ->
  key_inv k t1 s' /\ ttl (cache s') = ttl (cache s) /\ clock s' = clock s.
Proof.
  intros Hi Hne [He Hcalls Hadd Hcl] Hs. unfold call_step in Hs. rewrite Hi in Hs.
  assert (forall x, call_key x = call_key c -> forall j c', <[i := x]> (calls s) !! j = Some c' -> call_key c' = k ->
    calls s !! j = Some c') as Hold.
  { intros x Hx j c' [(<- & <- & _)|[_ Hj]]%list_lookup_insert_Some Hk; congruence. }
  assert (forall x, x <> k -> (if String.eqb k x then 1 else 0)%nat = 0%nat) as H0.
  { intros x Hx. by destruct (String.eqb_spec k x). }
  assert (forall x v, x <> k -> (<[x := v]> (entries (cache s)) : gmap string time) !! k = entries (cache s) !! k) as Hent.
  { intros x v Hx. by rewrite lookup_insert_ne. }
  destruct c as [key|key now|key now|key now b]; simpl in Hne; [..|done].
  - injection Hs as <-. split; [|done]. constructor; simpl; try done.
    intros j c' Hj Hk. eapply (Hcalls j c'); [|done]. by eapply (Hold (Stamped key (clock s))).
  - unfold SetIfAbsent in Hs. destruct (entries (cache s) !! key) as [t|] eqn:Ek; simpl in Hs.
    + unfold expired_at in Hs. simpl in Hs. destruct (ttl (cache s) <? time_Sub now t); injection Hs as <-;
        (split; [|done]); constructor; simpl; try done; intros j c' Hj Hk;
        refine (Hcalls j c' (Hold _ _ j c' Hj Hk) Hk); done.
    + injection Hs as <-. split; [|done]. constructor; simpl; rewrite ?Hent; try done.
      * intros j c' Hj Hk. specialize (Hcalls j c' (Hold (Returned key now true) eq_refl j c' Hj Hk) Hk).
        destruct c'; try done. rewrite elem_of_app. by left.
      * unfold times_added in *. simpl. by rewrite times_snoc, H0, Nat.add_0_r.
  - injection Hs as <-. split; [|done]. constructor; simpl; unfold Set'; rewrite ?Hent; try done.
    + intros j c' Hj Hk. specialize (Hcalls j c' (Hold (Returned key now true) eq_refl j c' Hj Hk) Hk).
      destruct c'; try done. rewrite elem_of_app. by left.
    + unfold times_added in *. simpl. by rewrite times_snoc, H0, Nat.add_0_r.
Qed.

(** A step of a call for the key: the first one to look inserts it, nobody finds it expired. *)
Lemma call_step_key k t1 i c s s' :
  in_int64 (ttl (cache s)) -> clock s - t1 <= ttl (cache s) ->
  calls s !! i = Some c -> call_key c = k -> key_inv k t1 s -> call_step i s = Some s' ->
  key_inv k t1 s' /\ ttl (cache s') = ttl (cache s) /\ clock s' = clock s.
Proof.
  intros Hi Hc Hci Hk [He Hcalls Hadd Hcl] Hs. pose proof (Hcalls _ _ Hci Hk) as Hcur.
  unfold call_step in Hs. rewrite Hci in Hs. destruct c as [key|key now|key now|key now b]; simpl in Hk; subst key; [..|done]; [|..|done].
  - injection Hs as <-. split; [|done]. constructor; simpl; try done.
    intros j c' [(<- & <- & _)|[_ Hj]]%list_lookup_insert_Some Hk; [lia|by eapply Hcalls].
  - unfold SetIfAbsent in Hs. destruct (entries (cache s) !! k) as [t|] eqn:Ek; simpl in Hs.
    + assert (expired_at (cache s) now t = false) as Hne by (apply (not_expired _ t1); [done|by apply He|lia]).
      unfold expired_at in Hne, Hs. simpl in Hs. rewrite Hne in Hs. injection Hs as <-.
      split; [|done]. constructor; simpl; rewrite ?Ek; try done.
      intros j c' [(<- & <- & _)|[_ Hj]]%list_lookup_insert_Some Hk; [|by eapply Hcalls].
      apply added_times. rewrite Hadd. done.
    + injection Hs as <-. split; [|done]. constructor; simpl; rewrite ?lookup_insert_eq; try done.
      * intros t [= <-]. lia.
      * intros j c' [(<- & <- & _)|[_ Hj]]%list_lookup_insert_Some Hk; [set_solver|].
        specialize (Hcalls _ _ Hj Hk). destruct c'; set_solver.
      * unfold times_added in *. simpl. by rewrite times_snoc, String.eqb_refl, Hadd.
Qed.

Lemma clean_step_key `{GoRuntime} k t1 s :
  in_int64 (ttl (cache s)) -> clock s - t1 <= ttl (cache s) -> key_inv k t1 s ->
  key_inv k t1 (clean_step s) /\ ttl (cache (clean_step s)) = ttl (cache s) /\ clock (clean_step s) = clock s.
Proof.
  intros Hi Hc [He Hcalls Hadd Hcl]. unfold clean_step.
  destruct (cleaning s) as [| |keys|[|key keys] now ks] eqn:Hstate; simpl in Hcl.
  - destruct (Len _ <=? cleanupThreshold)%nat; (split; [constructor|]); try done; simpl; by rewrite ?Hstate.
  - split; [constructor|]; done.
  - split; [constructor|]; try done. simpl. split; [lia|apply not_elem_of_nil].
  - destruct Hcl as [_ Hks].
    assert (BulkDelete (entries (cache s)) ks !! k = entries (cache s) !! k) as Hk.
    { rewrite lookup_BulkDelete. by case_decide. }
    destruct (0 <? length ks)%nat; (split; [constructor|]); simpl; rewrite ?Hk; done.
  - destruct Hcl as [Hn Hks]. unfold MutexMap.Get. destruct (entries (cache s) !! key) as [t|] eqn:Ek; simpl.
    + split; [constructor|]; try done. simpl. split; [done|]. destruct (expired_at (cache s) now t) eqn:Hx; [|done].
      intros [Hin| ->%list_elem_of_singleton]%elem_of_app; [done|].
      rewrite (not_expired _ t1) in Hx by (done || lia || by eapply He). done.
    + split; [constructor|]; done.
Qed.

Lemma step_key `{GoRuntime} k t1 e s s' :
  in_int64 (ttl (cache s)) -> clock s' - t1 <= ttl (cache s) -> (e = Call k -> t1 <= clock s) ->
  key_inv k t1 s -> step e s = Some s' -> key_inv k t1 s' /\ ttl (cache s') = ttl (cache s).
Proof.
  intros Hi Hc Ht Hinv Hs. destruct e as [d|key|i|]; simpl in Hs.
  - destruct (0 <=? d) eqn:Hd; [|done]. apply Z.leb_le in Hd. injection Hs as <-. simpl in Hc.
    destruct Hinv as [He Hcalls Hadd Hcl]. split; [|done]. constructor; simpl; try done.
    + intros i c Hi' Hk. specialize (Hcalls _ _ Hi' Hk). destruct c; try done; lia.
    + destruct (cleaning s); try done. split; [lia|tauto].
  - injection Hs as <-. destruct Hinv as [He Hcalls Hadd Hcl]. split; [|done].
    constructor; simpl; try done. intros i c [Hj|[_ Hj]]%lookup_app_Some Hk; [by eapply Hcalls|].
    apply list_lookup_singleton_Some in Hj as [_ <-]. simpl in Hk. subst. by apply Ht.
  - destruct (calls s !! i) as [c|] eqn:Ec; [|unfold call_step in Hs; by rewrite Ec in Hs].
    assert (clock s' = clock s) as Hck.
    { unfold call_step in Hs. repeat case_match; by simplify_eq. }
    rewrite Hck in Hc. destruct (decide (call_key c = k)) as [Hk|Hk].
    + by destruct (call_step_key k t1 i c s s') as (? & ? & _).
    + by destruct (call_step_other k t1 i c s s') as (? & ? & _).
  - injection Hs as <-. assert (clock (clean_step s) = clock s) as Hck.
    { unfold clean_step. by repeat case_match. }
    rewrite Hck in Hc. by destruct (clean_step_key k t1 s) as (? & ? & _).
Qed.

Lemma step_clock `{GoRuntime} e s s' : step e s = Some s' -> clock s <= clock s'.
Proof.
  destruct e as [d|key|i|]; simpl; intros Hs.
  - destruct (0 <=? d) eqn:Hd; [|done]. apply Z.leb_le in Hd. injection Hs as <-. simpl. lia.
  - by injection Hs as <-.
  - unfold call_step in Hs. repeat case_match; by simplify_eq.
  - injection Hs as <-. unfold clean_step. by repeat case_match.
Qed.

Lemma run_clock `{GoRuntime} es s s' : run es s = Some s' -> clock s <= clock s'.
Proof.
  revert s. induction es as [|e es IH]; intros s; simpl; [intros [= ->]; lia|].
  intros (s1 & Hs%step_clock & Hr%IH)%bind_Some. lia.
Qed.

Lemma run_key `{GoRuntime} k t0 es s s' :
  in_int64 (ttl (cache s)) -> clock s' - t0 <= ttl (cache s) -> t0 <= clock s ->
  key_inv k t0 s -> run es s = Some s' -> key_inv k t0 s'.
Proof.
  revert s. induction es as [|e es IH]; intros s Hi Hc Ht Hinv; simpl; [by intros [= <-]|].
  intros (s1 & Hs & Hr)%bind_Some. pose proof (run_clock _ _ _ Hr). pose proof (step_clock _ _ _ Hs).
  destruct (step_key k t0 e s s1) as [Hinv' Httl]; [done|lia|done..|].
  eapply IH; [by rewrite Httl|by rewrite Httl|lia|done..].
Qed.

Lemma start_key k t1 c t : entries c = ∅ -> key_inv k t1 (start c t).
Proof.
  intros Hc. constructor; simpl; rewrite ?Hc, ?lookup_empty; try done.
Qed.

(** C21: however many callers and the cleaner interleave, within the time to live every
    key is reported as first seen exactly once: no key twice, and every key of which a
    call has returned once. *)
Theorem concurrent_dedup `{GoRuntime} d t0 es s :
  in_int64 d -> run es (start (NewTTLCache d) t0) = Some s -> clock s - t0 <= d ->
  NoDup (added s) /\
  forall i key now b, calls s !! i = Some (Returned key now b) -> key ∈ added s.
Proof.
  intros Hd Hr Hc.
  assert (forall k, key_inv k t0 s) as Hk.
  { intros k. eapply (run_key k t0 es (start (NewTTLCache d) t0)); done. }
  split.
  - apply times_nodup. intros k. pose proof (ki_added _ _ _ (Hk k)) as H0. unfold times_added in H0.
    rewrite H0. case_match; lia.
  - intros i key now b Hi. exact (ki_calls _ _ _ (Hk key) _ _ Hi eq_refl).
Qed.

Lemma concurrent_dedup_witness :
  exists s, run (H := in_order) [Call "a"; Call "a"; Go 0; Go 1; Go 1; Pass 3; Clean; Go 0]
    (start (NewTTLCache 5) 0) = Some s /\ NoDup (added s).
Proof.
  eexists. split; [reflexivity|].
  refine (proj1 (concurrent_dedup (H := in_order) 5 0
    [Call "a"; Call "a"; Go 0; Go 1; Go 1; Pass 3; Clean; Go 0] _ _ eq_refl _)); [|done].
  unfold in_int64, int64_min, int64_max. lia.
Defined.

(** The renewal of an expired entry is not atomic: two channels that deliver a message
    whose entry has expired can both be told that it is first seen. *)
Theorem expired_entry_added_twice :
  exists es, calls <$> run (H := in_order) es (start (NewTTLCache 5) 0) =
    Some [Returned "a" 0 true; Returned "a" 10 true; Returned "a" 10 true].
Proof.
  exists [Call "a"; Go 0; Go 0; Pass 10; Call "a"; Call "a"; Go 1; Go 2; Go 1; Go 2; Go 1; Go 2].
  vm_compute. reflexivity.
Qed.
