(* ===== verification/RateLimiter.v ===== *)
(** * Rate limiters (internal/gateways/exchanges/{bybit,coinex}/agent/rate_limiter.go)

    Both agents have the same limiter over different groups of endpoints.  A
    successful [consume] starts a goroutine that gives the quota back after one
    second; the goroutines that still sleep are part of the state, with the time
    at which they may wake up. *)

From S2P Require Import Prelude GoStd.
Local Open Scope Z_scope.

Section RateLimiter.
  Context `{Countable G}.

Record rateLimiter := MkRateLimiter {
  quotas : gmap G Z;
  capacity : gmap G Z
}.

(** Go answers zero for a missing key. *)
Definition quota_of (m : gmap G Z) (group : G) : Z := default 0 (m !! group).

(** [None]: the error of a reached limit. *)
Definition consume (group : G) (n : Z) (l : rateLimiter) : option rateLimiter :=
  if wrap64 (quota_of (quotas l) group - n) <? 0 then None
  else Some {| quotas := <[group := wrap64 (quota_of (quotas l) group - n)]> (quotas l);
               capacity := capacity l |}.

(** The goroutine of [consume], after its sleep. *)
Definition give_back (group : G) (n : Z) (l : rateLimiter) : rateLimiter :=
  let quotas' := <[group := wrap64 (quota_of (quotas l) group + n)]> (quotas l) in
  if quota_of (capacity l) group <? quota_of quotas' group
  then {| quotas := <[group := quota_of (capacity l) group]> quotas'; capacity := capacity l |}
  else {| quotas := quotas'; capacity := capacity l |}.

(** ** The limiter over time *)

(** A goroutine that sleeps at least until its time. *)
Record sleeper := MkSleeper { wakes : time; sGroup : G; sQuota : Z }.

Record system := MkSystem {
  limiter : rateLimiter;
  clock : time;
  sleeping : list sleeper;
  (** the requests that were let through, with their times *)
  granted : list (time * (G * Z))
}.

Inductive event :=
  | Pass (d : Z)
  | Consume (group : G) (n : Z)
  | Wake (i : nat).

(** [None]: the event is not possible now.  A refused request changes nothing. *)
Definition step (e : event) (s : system) : option system :=
  match e with
  | Pass d => if 0 <=? d then Some (MkSystem (limiter s) (clock s + d) (sleeping s) (granted s)) else None
  | Consume group n =>
      match consume group n (limiter s) with
      | None => Some s
      | Some l => Some (MkSystem l (clock s) (sleeping s ++ [MkSleeper (clock s + Second) group n])
                         (granted s ++ [(clock s, (group, n))]))
      end
  | Wake i =>
      sl ← sleeping s !! i;
      if wakes sl <=? clock s
      then Some (MkSystem (give_back (sGroup sl) (sQuota sl) (limiter s)) (clock s)
                   (delete i (sleeping s)) (granted s))
      else None
  end.

Fixpoint run (es : list event) (s : system) : option system :=
  match es with
  | [] => Some s
  | e :: es => s' ← step e s; run es s'
  end.

Definition start (l : rateLimiter) (t : time) : system := MkSystem l t [] [].

(** ** Facts *)

(** The quota that sleepers of a group will give back. *)
Fixpoint owed (group : G) (l : list sleeper) : Z :=
  match l with
  | [] => 0
  | s :: l => (if decide (sGroup s = group) then sQuota s else 0) + owed group l
  end.

(** What a group was granted from [t] on. *)
Fixpoint granted_since (group : G) (t : time) (l : list (time * (G * Z))) : Z :=
  match l with
  | [] => 0
  | (t', (g, n)) :: l =>
      (if decide (g = group) then if t <=? t' then n else 0 else 0) + granted_since group t l
  end.

(** What a group was granted from [t] on and before [u]. *)
Fixpoint granted_between (group : G) (t u : time) (l : list (time * (G * Z))) : Z :=
  match l with
  | [] => 0
  | (t', (g, n)) :: l =>
      (if decide (g = group) then if (t <=? t') && (t' <? u) then n else 0 else 0) +
      granted_between group t u l
  end.

(** Requests are for a number of orders. *)
Definition request_ok (e : event) : Prop :=
  match e with Consume _ n => 0 <= n <= int64_max | _ => True end.

(** The quota owed by the sleepers that wake up at [u] or later. *)
Fixpoint owed_from (group : G) (u : time) (l : list sleeper) : Z :=
  match l with
  | [] => 0
  | s :: l => (if decide (sGroup s = group) then if u <=? wakes s then sQuota s else 0 else 0) +
              owed_from group u l
  end.

Record limiter_ok (caps : gmap G Z) (s : system) : Prop := {
  lo_caps : capacity (limiter s) = caps;
  lo_balance : forall g, quota_of (quotas (limiter s)) g + owed g (sleeping s) = quota_of caps g;
  lo_quota : forall g, 0 <= quota_of (quotas (limiter s)) g;
  lo_sleeping : Forall (fun sl => 0 <= sQuota sl) (sleeping s);
  lo_recent : forall g t, clock s < t + Second ->
    granted_since g t (granted s) = owed_from g (t + Second) (sleeping s);
  lo_times : Forall (fun x => fst x <= clock s /\ 0 <= snd (snd x)) (granted s);
  lo_window : forall g t, granted_between g t (t + Second) (granted s) <= quota_of caps g
}.

Lemma owed_app g l1 l2 : owed g (l1 ++ l2) = owed g l1 + owed g l2.
Proof. induction l1; simpl; lia. Qed.

Lemma owed_from_app g u l1 l2 : owed_from g u (l1 ++ l2) = owed_from g u l1 + owed_from g u l2.
Proof. induction l1; simpl; lia. Qed.

Lemma granted_since_app g t l1 l2 :
  granted_since g t (l1 ++ l2) = granted_since g t l1 + granted_since g t l2.
Proof. induction l1 as [|[t' [g' n]] l1 IH]; simpl; lia. Qed.

Lemma granted_between_app g t u l1 l2 :
  granted_between g t u (l1 ++ l2) = granted_between g t u l1 + granted_between g t u l2.
Proof. induction l1 as [|[t' [g' n]] l1 IH]; simpl; lia. Qed.

Lemma owed_from_bounds g u l :
  Forall (fun sl => 0 <= sQuota sl) l -> 0 <= owed_from g u l <= owed g l.
Proof. induction 1; simpl; [lia|]. repeat case_match; lia. Qed.

Lemma granted_between_since g t u l :
  Forall (fun x => 0 <= snd (snd x)) l -> granted_between g t u l <= granted_since g t l.
Proof.
  induction 1 as [|[t' [g' n]] l Hx _ IH]; simpl in *; [lia|].
  destruct (decide _), (t <=? t'), (t' <? u); simpl; lia.
Qed.

(** The [i]-th sleeper is one of the sleepers. *)
Lemma owed_delete g l i sl :
  l !! i = Some sl ->
  owed g l = (if decide (sGroup sl = g) then sQuota sl else 0) + owed g (delete i l).
Proof.
  revert i. induction l as [|x l IH]; intros [|i] Hi; simplify_eq/=; [done|].
  rewrite (IH i Hi). lia.
Qed.

Lemma owed_from_delete g u l i sl :
  l !! i = Some sl -> wakes sl < u -> owed_from g u (delete i l) = owed_from g u l.
Proof.
  intros Hi Hw. revert i Hi. induction l as [|x l IH]; intros [|i] Hi; simplify_eq/=.
  - replace (u <=? wakes sl) with false by (symmetry; apply Z.leb_gt; lia). case_match; lia.
  - by rewrite (IH i Hi).
Qed.

Lemma quota_insert m g n g' :
  quota_of (<[g := n]> m) g' = if decide (g = g') then n else quota_of m g'.
Proof. unfold quota_of. rewrite lookup_insert. by case_decide. Qed.

(** A request that is let through. *)
Lemma granted_ok caps g n s :
  0 <= n <= quota_of (quotas (limiter s)) g -> limiter_ok caps s ->
  limiter_ok caps (MkSystem
    {| quotas := <[g := quota_of (quotas (limiter s)) g - n]> (quotas (limiter s));
       capacity := capacity (limiter s) |}
    (clock s) (sleeping s ++ [MkSleeper (clock s + Second) g n]) (granted s ++ [(clock s, (g, n))])).
Proof.
  intros Hn [Hc Hb Hq Hs Hr Ht Hw].
  set (qs := <[g := quota_of (quotas (limiter s)) g - n]> (quotas (limiter s))).
  set (sl := sleeping s ++ [MkSleeper (clock s + Second) g n]).
  set (gr := granted s ++ [(clock s, (g, n))]).
  assert (Forall (fun x => fst x <= clock s /\ 0 <= snd (snd x)) gr) as Ht'.
  { apply Forall_app. split; [done|]. repeat constructor; simpl; lia. }
  assert (forall g', quota_of qs g' + owed g' sl = quota_of caps g') as Hb'.
  { intros g'. unfold qs, sl. rewrite quota_insert, owed_app. simpl. specialize (Hb g').
    case_decide; subst; lia. }
  assert (forall g', 0 <= quota_of qs g') as Hq'.
  { intros g'. unfold qs. rewrite quota_insert. specialize (Hq g'). case_decide; lia. }
  assert (Forall (fun sl => 0 <= sQuota sl) sl) as Hs'.
  { apply Forall_app. split; [done|]. repeat constructor. simpl. lia. }
  assert (forall g' t, clock s < t + Second -> granted_since g' t gr = owed_from g' (t + Second) sl) as Hr'.
  { intros g' t Hct. unfold gr, sl. rewrite granted_since_app, owed_from_app, Hr by done. simpl.
    case_decide; [|lia]. destruct (Z.leb_spec t (clock s)), (Z.leb_spec (t + Second) (clock s + Second)); lia. }
  constructor; simpl; try done. intros g' t.
  destruct (decide (t <= clock s < t + Second)) as [Hin|Hout].
  - etransitivity.
    { apply granted_between_since. eapply Forall_impl; [exact Ht'|]. simpl. tauto. }
    rewrite Hr' by lia. pose proof (owed_from_bounds g' (t + Second) _ Hs').
    specialize (Hb' g'). specialize (Hq' g'). lia.
  - unfold gr. rewrite granted_between_app. simpl. specialize (Hw g' t).
    destruct (Z.leb_spec t (clock s)), (Z.ltb_spec (clock s) (t + Second)); simpl; case_decide; lia.
Qed.

(** Giving back never exceeds the capacity: the correction is not needed. *)
Lemma give_back_ok caps s i sl :
  (forall g, 0 <= quota_of caps g <= int64_max) -> limiter_ok caps s -> sleeping s !! i = Some sl ->
  let l := give_back (sGroup sl) (sQuota sl) (limiter s) in
  capacity l = caps /\ forall g,
    quota_of (quotas l) g + owed g (delete i (sleeping s)) = quota_of caps g /\
    0 <= quota_of (quotas l) g.
Proof.
  intros Hcaps [Hc Hb Hq Hs _ _ _] Hi l.
  assert (0 <= sQuota sl) as Hsl by (eapply Forall_lookup_1 in Hs; [exact Hs|exact Hi]).
  assert (Forall (fun sl => 0 <= sQuota sl) (delete i (sleeping s))) as Hs' by by apply Forall_delete.
  pose proof (owed_from_bounds (sGroup sl) 0 _ Hs') as Hd.
  pose proof (owed_delete (sGroup sl) _ _ _ Hi) as Hgs. rewrite decide_True in Hgs by done.
  pose proof (Hb (sGroup sl)) as Hbs. pose proof (Hq (sGroup sl)) as Hqs. pose proof (Hcaps (sGroup sl)) as Hcs.
  unfold l, give_back. rewrite Hc, !quota_insert, decide_True by done.
  rewrite wrap64_id by (unfold in_int64, int64_min, int64_max in *; lia).
  destruct (quota_of caps (sGroup sl) <? quota_of (quotas (limiter s)) (sGroup sl) + sQuota sl) eqn:E;
    [apply Z.ltb_lt in E; lia|]. simpl. split; [done|]. intros g.
  pose proof (owed_delete g _ _ _ Hi) as Hg. specialize (Hb g). specialize (Hq g).
  rewrite quota_insert. split; case_decide; subst; lia.
Qed.

Lemma step_ok caps e s s' :
  (forall g, 0 <= quota_of caps g <= int64_max) -> request_ok e ->
  limiter_ok caps s -> step e s = Some s' -> limiter_ok caps s'.
Proof.
  intros Hcaps Hreq Hok Hstep. destruct e as [d|g n|i]; simpl in Hstep.
  - destruct Hok as [Hc Hb Hq Hs Hr Ht Hw].
    destruct (0 <=? d) eqn:Hd; [|done]. apply Z.leb_le in Hd. injection Hstep as <-.
    constructor; simpl; try done; [intros g t Hg; apply Hr; lia|].
    eapply Forall_impl; [exact Ht|]. simpl. lia.
  - simpl in Hreq. unfold consume in Hstep. rewrite wrap64_id in Hstep; cycle 1.
    { pose proof (lo_balance _ _ Hok g). pose proof (lo_quota _ _ Hok g). specialize (Hcaps g).
      pose proof (owed_from_bounds g 0 _ (lo_sleeping _ _ Hok)).
      unfold in_int64, int64_min, int64_max in *. lia. }
    destruct (quota_of (quotas (limiter s)) g - n <? 0) eqn:Hn; injection Hstep as <-; [done|].
    apply Z.ltb_ge in Hn. apply granted_ok; [lia|done].
  - apply bind_Some in Hstep as (sl & Hi & Hstep). destruct (wakes sl <=? clock s) eqn:Hwk; [|done].
    apply Z.leb_le in Hwk. injection Hstep as <-.
    destruct (give_back_ok caps s i sl Hcaps Hok Hi) as [Hcap Hgb].
    destruct Hok as [Hc Hb Hq Hs Hr Ht Hw].
    constructor; simpl; try done; try (intros g; apply Hgb).
    + by apply Forall_delete.
    + intros g t Hct. rewrite Hr by done. symmetry. eapply owed_from_delete; [done|lia].
Qed.

Lemma run_ok caps es s s' :
  (forall g, 0 <= quota_of caps g <= int64_max) -> Forall request_ok es ->
  limiter_ok caps s -> run es s = Some s' -> limiter_ok caps s'.
Proof.
  intros Hcaps. revert s. induction es as [|e es IH]; intros s Hreq Hok; simpl; [by intros [= <-]|].
  apply Forall_cons in Hreq as [He Hes]. intros (s1 & Hs & Hr)%bind_Some.
  eapply IH; [done| |done]. by eapply step_ok.
Qed.

Lemma start_ok caps t :
  (forall g, 0 <= quota_of caps g) -> limiter_ok caps (start {| quotas := caps; capacity := caps |} t).
Proof. intros Hc. constructor; simpl; try done; intros; rewrite ?Z.add_0_r; done. Qed.

(** The rolling window, for any limiter that starts with full quotas. *)
Lemma window_bounded caps t0 es s g t :
  (forall g, 0 <= quota_of caps g <= int64_max) -> Forall request_ok es ->
  run es (start {| quotas := caps; capacity := caps |} t0) = Some s ->
  granted_between g t (t + Second) (granted s) <= quota_of caps g /\
  (sleeping s = [] -> quota_of (quotas (limiter s)) g = quota_of caps g).
Proof.
  intros Hcaps Hreq Hr. assert (limiter_ok caps s) as Hok.
  { eapply run_ok; [done..| |exact Hr]. apply start_ok. intros g'. apply Hcaps. }
  split; [apply Hok|]. intros Hs. pose proof (lo_balance _ _ Hok g) as Hb. rewrite Hs in Hb. simpl in Hb. lia.
Qed.

End RateLimiter.

(** ** The two exchanges *)

Module Bybit.

Inductive RateLimitGroup := GroupCreateOrder | GroupCancelOrder | GroupAmendOrder.

#[export] Instance RateLimitGroup_eq_dec : EqDecision RateLimitGroup.
Proof. solve_decision. Defined.

#[export] Instance RateLimitGroup_countable : Countable RateLimitGroup.
Proof.
  refine (inj_countable'
    (fun g => match g with GroupCreateOrder => 0 | GroupCancelOrder => 1 | GroupAmendOrder => 2 end)%nat
    (fun n => match n with 0 => GroupCreateOrder | 1 => GroupCancelOrder | _ => GroupAmendOrder end)%nat _).
  by intros [].
Defined.

Definition limitCreateOrder : Z := 20.
Definition limitCancelOrder : Z := 20.
Definition limitAmendOrder : Z := 10.

Definition newRateLimiter : rateLimiter (G := RateLimitGroup) :=
  let limits := <[GroupCreateOrder := limitCreateOrder]> (<[GroupCancelOrder := limitCancelOrder]>
                  (<[GroupAmendOrder := limitAmendOrder]> ∅)) in
  {| quotas := limits; capacity := limits |}.

End Bybit.

#[export] Existing Instances Bybit.RateLimitGroup_eq_dec Bybit.RateLimitGroup_countable.

Module CoinEx.

Inductive RateLimitGroup := GroupOrder | GroupCancel.

#[export] Instance RateLimitGroup_eq_dec : EqDecision RateLimitGroup.
Proof. solve_decision. Defined.

#[export] Instance RateLimitGroup_countable : Countable RateLimitGroup.
Proof.
  refine (inj_countable' (fun g => match g with GroupOrder => 0 | GroupCancel => 1 end)%nat
    (fun n => match n with 0 => GroupOrder | _ => GroupCancel end)%nat _).
  by intros [].
Defined.

Definition limitOrder : Z := 20.
Definition limitCancel : Z := 40.

Definition newRateLimiter : rateLimiter (G := RateLimitGroup) :=
  let limits := <[GroupOrder := limitOrder]> (<[GroupCancel := limitCancel]> ∅) in
  {| quotas := limits; capacity := limits |}.

(** The method [consume] of the limiter of CoinEx reads as the one of Bybit does. *)
Definition consume (group : RateLimitGroup) (n : Z) (l : rateLimiter (G := RateLimitGroup)) :
    option (rateLimiter (G := RateLimitGroup)) :=
  RateLimiter.consume group n l.

End CoinEx.

#[export] Existing Instances CoinEx.RateLimitGroup_eq_dec CoinEx.RateLimitGroup_countable.

(** In every window of one second, however requests, sleeping goroutines and the clock
    interleave, Bybit's limiter lets through at most 20 creations, 20 cancellations and
    10 amendments, and CoinEx's at most 20 placed and modified orders and 40
    cancellations; once all quota is given back, the limiter is full again. *)
Theorem rolling_window t0 es es' s s' t :
  Forall request_ok es -> Forall request_ok es' ->
  run es (start Bybit.newRateLimiter t0) = Some s ->
  run es' (start CoinEx.newRateLimiter t0) = Some s' ->
  granted_between Bybit.GroupCreateOrder t (t + Second) (granted s) <= 20 /\
  granted_between Bybit.GroupCancelOrder t (t + Second) (granted s) <= 20 /\
  granted_between Bybit.GroupAmendOrder t (t + Second) (granted s) <= 10 /\
  granted_between CoinEx.GroupOrder t (t + Second) (granted s') <= 20 /\
  granted_between CoinEx.GroupCancel t (t + Second) (granted s') <= 40 /\
  (sleeping s = [] -> forall g,
     quota_of (quotas (limiter s)) g = quota_of (quotas Bybit.newRateLimiter) g) /\
  (sleeping s' = [] -> forall g,
     quota_of (quotas (limiter s')) g = quota_of (quotas CoinEx.newRateLimiter) g).
Proof.
  intros Hes Hes' Hr Hr'.
  pose proof (fun g => window_bounded (quotas Bybit.newRateLimiter) t0 es s g t
    ltac:(by intros []) Hes Hr) as Hb.
  pose proof (fun g => window_bounded (quotas CoinEx.newRateLimiter) t0 es' s' g t
    ltac:(by intros []) Hes' Hr') as Hc.
  pose proof (proj1 (Hb Bybit.GroupCreateOrder)). pose proof (proj1 (Hb Bybit.GroupCancelOrder)).
  pose proof (proj1 (Hb Bybit.GroupAmendOrder)). pose proof (proj1 (Hc CoinEx.GroupOrder)).
  pose proof (proj1 (Hc CoinEx.GroupCancel)).
  repeat split; try done; intros; [by apply Hb|by apply Hc].
Qed.

(** Twenty amendments are asked for; ten are granted in the first second, and two in the
    next, when the quota of the first two has been given back. *)
Lemma rolling_window_witness :
  let es := replicate 20 (Consume Bybit.GroupAmendOrder 1) ++
            [Pass Second; Wake 0; Wake 0; Consume Bybit.GroupAmendOrder 3; Consume Bybit.GroupAmendOrder 2] in
  exists s, run es (start Bybit.newRateLimiter 0) = Some s /\ length (granted s) = 11%nat /\
    granted_between Bybit.GroupAmendOrder 0 Second (granted s) <= 10.
Proof.
  intros es. destruct (run es (start Bybit.newRateLimiter 0)) as [s|] eqn:E; [|by vm_compute in E].
  exists s. split; [done|].
  assert (Forall request_ok es) as Hes.
  { unfold es. apply Forall_app. split; [apply Forall_replicate|repeat constructor]; simpl; unfold int64_max; lia. }
  split.
  - assert ((fun s => length (granted s)) <$> run es (start Bybit.newRateLimiter 0) = Some 11%nat) as H
      by (vm_compute; reflexivity).
    rewrite E in H. by injection H.
  - apply (rolling_window 0 es [] s (start CoinEx.newRateLimiter 0) 0 Hes (Forall_nil_2 _) E eq_refl).
Defined.
