(* ===== verification/LatencyMeasurer.v ===== *)
(** * Latency measurements (internal/gateways/latency_measurer.go)

    Latencies are summed up per topic; [aggregate] closes the current map and
    [Export] hands the closed maps out.  All methods hold the mutex.  Durations
    are 64-bit integers.  The pointers of a closed map are never written again,
    so they are the values they point to. *)

From S2P Require Import Prelude GoStd.
Local Open Scope Z_scope.

Record AggLatency := MkAggLatency {
  counter : Z;
  sumVal : duration;
  maxVal : duration;
  minVal : duration
}.

Abbreviation AggLatencyMap := (gmap string AggLatency).

Record AggLatencyMapWithTime := MkAggLatencyMapWithTime {
  Time : time;
  aggLatencyMap : AggLatencyMap
}.

Definition NewAggLatency : AggLatency := MkAggLatency 0 0 0 0.

Definition Add (latency : duration) (l : AggLatency) : AggLatency := {|
  sumVal := wrap64 (sumVal l + latency);
  maxVal := if (maxVal l <? latency) || (counter l =? 0) then latency else maxVal l;
  minVal := if (latency <? minVal l) || (counter l =? 0) then latency else minVal l;
  counter := wrap64 (counter l + 1)
|}.

Definition Avg (l : AggLatency) : option duration :=
  if counter l =? 0 then None else Some (Z.quot (sumVal l) (counter l)).
Definition Max (l : AggLatency) : option duration :=
  if counter l =? 0 then None else Some (maxVal l).
Definition Min (l : AggLatency) : option duration :=
  if counter l =? 0 then None else Some (minVal l).

Record LatencyMeasurer := MkLatencyMeasurer {
  aggregateInterval : duration;
  currentMeasurementsByTopic : AggLatencyMap;
  history : list AggLatencyMapWithTime
}.

Definition NewLatencyMeasurer (aggInterval : duration) : LatencyMeasurer :=
  MkLatencyMeasurer aggInterval ∅ [].

(** [now] is what [time.Now()] answers. *)
Definition aggregate (now : time) (m : LatencyMeasurer) : LatencyMeasurer := {|
  aggregateInterval := aggregateInterval m;
  history := history m ++ [MkAggLatencyMapWithTime now (currentMeasurementsByTopic m)];
  currentMeasurementsByTopic := ∅
|}.

Definition Export (m : LatencyMeasurer) : LatencyMeasurer * list AggLatencyMapWithTime :=
  ({| aggregateInterval := aggregateInterval m;
      currentMeasurementsByTopic := currentMeasurementsByTopic m;
      history := [] |}, history m).

Definition RecordLatency (topicName : string) (latency : duration) (m : LatencyMeasurer) : LatencyMeasurer :=
  let current := currentMeasurementsByTopic m in
  let agg := match current !! topicName with Some agg => agg | None => NewAggLatency end in
  {| aggregateInterval := aggregateInterval m;
     currentMeasurementsByTopic := <[topicName := Add latency agg]> current;
     history := history m |}.

(** What [Start] receives: a tick, with the time that [aggregate] reads, or the end of the
    context, after which it has returned. *)
Inductive measurer_event := Tick (now : time) | Done.

Fixpoint Start (es : list measurer_event) (m : LatencyMeasurer) : LatencyMeasurer :=
  match es with
  | [] => m
  | Tick now :: es => Start es (aggregate now m)
  | Done :: _ => m
  end.

(** ** What an aggregate says of its latencies *)

Definition agg_of (ls : list duration) : AggLatency := foldl (fun l x => Add x l) NewAggLatency ls.

Definition sum (ls : list duration) : Z := foldr Z.add 0 ls.

(** No sum overflows: every prefix fits. *)
Definition sums_fit (ls : list duration) : Prop :=
  Z.of_nat (length ls) <= int64_max /\ forall n, in_int64 (sum (take n ls)).

Lemma sum_app l1 l2 : sum (l1 ++ l2) = sum l1 + sum l2.
Proof. induction l1; simpl; lia. Qed.

Lemma sums_fit_snoc ls x : sums_fit (ls ++ [x]) -> sums_fit ls /\ in_int64 (sum ls + x).
Proof.
  intros [Hl Hs]. rewrite length_app in Hl. simpl in Hl. split; [split; [lia|]|].
  - intros n. destruct (decide (n <= length ls)%nat) as [Hn|Hn].
    + specialize (Hs n). by rewrite take_app_le in Hs by lia.
    + specialize (Hs (length ls)). rewrite take_app_length in Hs. by rewrite take_ge by lia.
  - specialize (Hs (length ls + 1)%nat). rewrite take_ge in Hs by (rewrite length_app; simpl; lia).
    rewrite sum_app in Hs. simpl in Hs. by rewrite Z.add_0_r in Hs.
Qed.

Record agg_spec (ls : list duration) (a : AggLatency) : Prop := {
  as_counter : counter a = Z.of_nat (length ls);
  as_sum : sumVal a = sum ls;
  as_max : ls <> [] -> maxVal a ∈ ls /\ Forall (fun x => x <= maxVal a) ls;
  as_min : ls <> [] -> minVal a ∈ ls /\ Forall (fun x => minVal a <= x) ls
}.

Lemma agg_of_spec ls : sums_fit ls -> agg_spec ls (agg_of ls).
Proof.
  induction ls as [|x ls IH] using rev_ind; intros Hf; [by constructor|].
  destruct (sums_fit_snoc _ _ Hf) as [Hls Hx]. destruct Hf as [Hlen _].
  rewrite length_app in Hlen. simpl in Hlen. specialize (IH Hls) as [Hc Hs Hmax Hmin].
  unfold agg_of. rewrite foldl_app. simpl. fold (agg_of ls).
  constructor; simpl.
  - rewrite Hc, length_app, wrap64_id; simpl; [lia|]. unfold in_int64, int64_min, int64_max in *. lia.
  - rewrite Hs, sum_app, wrap64_id by done. simpl. lia.
  - intros _. rewrite Hc. destruct ls as [|y ls]; [rewrite orb_true_r; split; [left|by repeat constructor]|].
    destruct Hmax as [Hin Hall]; [done|]. rewrite (proj2 (Z.eqb_neq _ _)), orb_false_r by (simpl; lia).
    rewrite elem_of_app, Forall_app, Forall_singleton, list_elem_of_singleton.
    destruct (Z.ltb_spec (maxVal (agg_of (y :: ls))) x); [|auto].
    split; [auto|]. split; [|lia]. eapply Forall_impl; [exact Hall|]. simpl. lia.
  - intros _. rewrite Hc. destruct ls as [|y ls]; [rewrite orb_true_r; split; [left|by repeat constructor]|].
    destruct Hmin as [Hin Hall]; [done|]. rewrite (proj2 (Z.eqb_neq _ _)), orb_false_r by (simpl; lia).
    rewrite elem_of_app, Forall_app, Forall_singleton, list_elem_of_singleton.
    destruct (Z.ltb_spec x (minVal (agg_of (y :: ls)))); [|auto].
    split; [auto|]. split; [|lia]. eapply Forall_impl; [exact Hall|]. simpl. lia.
Qed.

Lemma sum_bounds ls lo hi :
  Forall (fun x => lo <= x <= hi) ls ->
  lo * Z.of_nat (length ls) <= sum ls <= hi * Z.of_nat (length ls).
Proof. induction 1; simpl; lia. Qed.

(** ** The measurer over time *)

Inductive op :=
  | OpRecord (topic : string) (latency : duration)
  | OpAggregate (now : time)
  | OpExport.

(** The maps exported by a sequence of calls, and the measurer after it. *)
Fixpoint run (ops : list op) (m : LatencyMeasurer) : LatencyMeasurer * list AggLatencyMapWithTime :=
  match ops with
  | [] => (m, [])
  | OpRecord topic latency :: ops => run ops (RecordLatency topic latency m)
  | OpAggregate now :: ops => run ops (aggregate now m)
  | OpExport :: ops =>
      let '(m, maps) := Export m in
      let '(m, maps') := run ops m in
      (m, maps ++ maps')
  end.

(** The latencies recorded, cut at every aggregation: closed groups and the open one. *)
Fixpoint groups (ops : list op) (current : list (string * duration)) :
    list (time * list (string * duration)) * list (string * duration) :=
  match ops with
  | [] => ([], current)
  | OpRecord topic latency :: ops => groups ops (current ++ [(topic, latency)])
  | OpAggregate now :: ops =>
      let '(closed, current') := groups ops [] in ((now, current) :: closed, current')
  | OpExport :: ops => groups ops current
  end.

(** The latencies of a topic. *)
Definition of_topic (topic : string) (l : list (string * duration)) : list duration :=
  (List.filter (fun x => String.eqb (fst x) topic) l).*2.

(** A map holds the aggregates of the latencies of each topic. *)
Definition aggregates (m : AggLatencyMap) (l : list (string * duration)) : Prop :=
  forall topic, m !! topic =
    match of_topic topic l with [] => None | ls => Some (agg_of ls) end.

Lemma of_topic_snoc topic l t x :
  of_topic topic (l ++ [(t, x)]) = of_topic topic l ++ if String.eqb t topic then [x] else [].
Proof. unfold of_topic. rewrite List.filter_app, fmap_app. simpl. by destruct (String.eqb t topic). Qed.

Lemma record_aggregates t x m l :
  aggregates (currentMeasurementsByTopic m) l ->
  aggregates (currentMeasurementsByTopic (RecordLatency t x m)) (l ++ [(t, x)]).
Proof.
  intros H topic. simpl. rewrite of_topic_snoc. destruct (String.eqb_spec t topic) as [->|Hne].
  - rewrite lookup_insert_eq, H. destruct (of_topic topic l) as [|y ls]; [done|].
    simpl. f_equal. unfold agg_of. simpl. by rewrite foldl_app.
  - rewrite lookup_insert_ne, app_nil_r by done. apply H.
Qed.

Lemma run_groups ops m current :
  aggregates (currentMeasurementsByTopic m) current ->
  let '(m', maps) := run ops m in
  let '(closed, current') := groups ops current in
  exists new, maps ++ history m' = history m ++ new /\
    Forall2 (fun x g => Time x = fst g /\ aggregates (aggLatencyMap x) (snd g)) new closed /\
    aggregates (currentMeasurementsByTopic m') current'.
Proof.
  revert m current. induction ops as [|[t x|now|] ops IH]; intros m current Hm; simpl.
  - exists []. rewrite app_nil_r. repeat split; [constructor|done].
  - by apply (IH (RecordLatency t x m)), record_aggregates.
  - specialize (IH (aggregate now m) []). destruct (run ops (aggregate now m)) as [m' maps].
    destruct (groups ops []) as [closed current'].
    destruct IH as (new & Hn & Hall & Hc); [intros t; simpl; by rewrite lookup_empty|].
    simpl in Hn. rewrite <- app_assoc in Hn.
    exists (MkAggLatencyMapWithTime now (currentMeasurementsByTopic m) :: new).
    split; [exact Hn|]. split; [by constructor|done].
  - specialize (IH (fst (Export m)) current Hm). simpl in IH.
    destruct (run ops _) as [m' maps]. destruct (groups ops current) as [closed current'].
    destruct IH as (new & Hn & Hall & Hc). exists new. simpl in Hn. rewrite <- app_assoc, Hn. done.
Qed.

(** C22: no latency is lost, counted twice or put into another interval or topic: what was
    exported, followed by what is still to be exported, are the aggregates of the
    latencies recorded between two aggregations, in order, and the open map is the one
    of the latencies since the last.  As long as the sums fit into 64 bits, an aggregate
    has the number, sum, greatest and least of its latencies, and the average lies
    between these. *)
Theorem measurements_complete ops interval :
  let '(m, maps) := run ops (NewLatencyMeasurer interval) in
  let '(closed, current) := groups ops [] in
  Forall2 (fun x g => Time x = fst g /\ aggregates (aggLatencyMap x) (snd g)) (maps ++ history m) closed /\
  aggregates (currentMeasurementsByTopic m) current /\
  forall ls, ls <> [] -> sums_fit ls ->
    agg_spec ls (agg_of ls) /\
    exists avg mx mn, Avg (agg_of ls) = Some avg /\ Max (agg_of ls) = Some mx /\ Min (agg_of ls) = Some mn /\
      mn <= avg <= mx.
Proof.
  pose proof (run_groups ops (NewLatencyMeasurer interval) []) as H.
  destruct (run ops _) as [m maps]. destruct (groups ops []) as [closed current].
  destruct H as (new & Hn & Hall & Hc); [intros t; simpl; by rewrite lookup_empty|].
  simpl in Hn. rewrite Hn. split; [done|]. split; [done|]. intros ls Hne Hf.
  pose proof (agg_of_spec ls Hf) as Hspec. split; [done|]. destruct Hspec as [Hcnt Hs Hmax Hmin].
  unfold Avg, Max, Min. rewrite Hcnt, (proj2 (Z.eqb_neq _ _)) by (destruct ls; simpl; [done|lia]).
  do 3 eexists. repeat split.
  all: destruct (Hmax Hne) as [_ Hmx]; destruct (Hmin Hne) as [_ Hmn].
  all: destruct (sum_bounds ls (minVal (agg_of ls)) (maxVal (agg_of ls))) as [H1 H2];
    [apply Forall_and; done|]; rewrite Hs.
  all: assert (0 < Z.of_nat (length ls)) by (destruct ls; simpl; [done|lia]).
  - rewrite <- (Z.quot_mul (minVal (agg_of ls)) (Z.of_nat (length ls))) by lia. by apply Z.quot_le_mono.
  - rewrite <- (Z.quot_mul (maxVal (agg_of ls)) (Z.of_nat (length ls))) by lia. by apply Z.quot_le_mono.
Qed.

Lemma measurements_complete_witness :
  let ops := [OpRecord "a" 5; OpRecord "b" 1; OpRecord "a" 8; OpAggregate 100; OpRecord "a" 2] in
  sums_fit [5; 8] /\ Avg (agg_of [5; 8]) = Some 6 /\
  exists maps, history (fst (run ops (NewLatencyMeasurer Second))) = maps /\ length maps = 1%nat /\
    agg_spec [5; 8] (agg_of [5; 8]).
Proof.
  assert (sums_fit [5; 8]) as Hf.
  { split; [simpl; unfold int64_max; lia|]. intros [|[|n]]; simpl; rewrite ?take_nil; simpl;
      unfold in_int64, int64_min, int64_max; lia. }
  destruct (measurements_complete
    [OpRecord "a" 5; OpRecord "b" 1; OpRecord "a" 8; OpAggregate 100; OpRecord "a" 2] Second) as (_ & _ & H).
  split; [done|]. split; [reflexivity|]. eexists. split; [reflexivity|]. split; [reflexivity|].
  by apply H.
Defined.
