(* ===== verification/Translate.v ===== *)
(** * Translating messages: results and common steps

    A translator returns a value or an error, or panics on an index out of
    range.  An error is the one of the library call that failed, so its content
    is left out. *)

From S2P Require Import Prelude GoStd Decimal QDecimal.
Local Open Scope Z_scope.

Inductive result (A : Type) :=
  | Ok (x : A)
  | Failed
  | Panic.
Arguments Ok {A} _.
Arguments Failed {A}.
Arguments Panic {A}.

#[export] Instance result_ret : MRet result := fun A => Ok.
#[export] Instance result_bind : MBind result := fun A B f r =>
  match r with Ok x => f x | Failed => Failed | Panic => Panic end.

(** [x, err := f(); if err != nil { return nil, err }] *)
Definition checked {A} (o : option A) : result A :=
  match o with Some x => Ok x | None => Failed end.

(** [l[i]] *)
Definition index {A} (l : list A) (i : nat) : result A :=
  match l !! i with Some x => Ok x | None => Panic end.

(** A field of what a pointer points to: nil panics. *)
Definition deref {A} (p : option A) : result A :=
  match p with Some x => Ok x | None => Panic end.

(** A loop that translates the items of a list and stops at the first error. *)
Fixpoint map_result {A B} (f : A -> result B) (l : list A) : result (list B) :=
  match l with
  | [] => Ok []
  | x :: l => y ← f x; ys ← map_result f l; Ok (y :: ys)
  end.

Section Facts.
  Context {A B : Type} (f : A -> result B).

Lemma map_result_Ok l ys : map_result f l = Ok ys <-> Forall2 (fun x y => f x = Ok y) l ys.
Proof.
  revert ys. induction l as [|x l IH]; intros ys; simpl.
  { split; [intros [= <-]; constructor|intros H; by inversion H]. }
  destruct (f x) as [y| |] eqn:E; simpl; [|split; [done|]; intros H; inversion H; congruence..].
  specialize (IH). destruct (map_result f l) as [ys'| |]; simpl.
  - split; [intros [= <-]; constructor; [done|by apply IH]|].
    intros H. inversion H as [|? y' ? ys'' Hy Hys]; subst. apply IH in Hys. congruence.
  - split; [done|]. intros H. inversion H as [|? y' ? ys'' Hy Hys]; subst. by apply IH in Hys.
  - split; [done|]. intros H. inversion H as [|? y' ? ys'' Hy Hys]; subst. by apply IH in Hys.
Qed.

(** A translator of items that never panics does not panic on a list. *)
Lemma map_result_no_panic l : Forall (fun x => f x <> Panic) l -> map_result f l <> Panic.
Proof.
  induction 1 as [|x l Hx _ IH]; simpl; [done|]. destruct (f x); simpl; [|done|done].
  destruct (map_result f l); simpl; done.
Qed.

Lemma map_result_fmap {C} (g : C -> A) l (h : C -> B) :
  (forall c, c ∈ l -> f (g c) = Ok (h c)) -> map_result f (map g l) = Ok (map h l).
Proof.
  induction l as [|c l IH]; intros H; simpl; [done|]. rewrite (H c) by left. simpl.
  rewrite IH; [done|]. intros c' Hc. apply H. by right.
Qed.
End Facts.
