(* ===== verification/BybitMessages.v ===== *)
(** * Messages of Bybit (internal/gateways/exchanges/bybit/{dtos,translators})

    The JSON objects of the exchange are records of the fields the code decodes;
    decoding itself is [encoding/json].  A translator object has no state, so a
    method is a function. *)

From S2P Require Import Prelude GoStd Decimal QDecimal Domains Symbol Errors MutexMap Order OrderData.
From S2P Require Import BTree PriceLevel OrderBook Quote Trade Translate.
Local Open Scope Z_scope.

Section Dtos.

Record BaseRespBody := MkBaseRespBody { RetCode : Z; RetMsg : string; TimestampMs : Z }.

Definition IsRetCodeOK (b : BaseRespBody) : bool :=
  let retCodeOK := 0 in RetCode b =? retCodeOK.

Record RawOrderDto := MkRawOrderDto {
  o_OrderLinkID : string;
  o_Symbol : string;
  o_OrderType : string;
  o_Price : option string;
  o_Qty : string;
  o_Side : string
}.

Record OrderDto := MkOrderDto { o_Category : string; rawOrderDto : RawOrderDto }.

Record CancelDto := MkCancelDto { c_Category : string; c_OrderLinkID : string; c_Symbol : string }.

Record AmendDetailDto := MkAmendDetailDto {
  a_OrderLinkID : string;
  a_Category : string;
  a_Symbol : string;
  a_Price : string;
  a_Qty : string
}.

Record OrderDataDto := MkOrderDataDto {
  od_OrderLinkID : string;
  od_OrderID : string;
  od_Side : string;
  od_Price : string;
  od_Qty : string;
  od_Fee : string;
  od_AvgPrice : string;
  od_CumExecQty : string;
  od_Category : string;
  od_Symbol : string;
  od_UpdatedTimeMs : string;
  od_OrderStatus : string
}.

Record OBDataDto := MkOBDataDto { ob_Bids : list (list string); ob_Asks : list (list string); UpdateID : Z }.

Record OrderBookMsgDto := MkOrderBookMsgDto {
  obm_Topic : string;
  obm_Type : string;
  obm_Ts : Z;
  obm_Data : OBDataDto
}.

Record PositionDataDto := MkPositionDataDto {
  PositionIdx : Z;
  PositionValue : string;
  p_Side : string;
  p_Qty : string;
  p_Category : string;
  p_Symbol : string;
  p_UpdatedTimeMs : string
}.

Record TradeDataDto := MkTradeDataDto {
  t_Timestamp : Z;
  t_TradeID : string;
  t_Symbol : string;
  t_Side : string;
  t_Volume : string;
  t_Price : string
}.

Record TradeMsgDto := MkTradeMsgDto {
  t_Topic : string;
  t_Type : string;
  t_Ts : Z;
  t_DataDto : list (option TradeDataDto)
}.

End Dtos.

(** ** Common translations *)

Inductive messageType := MessageTypeUnknown | MessageTypeSnapshot | MessageTypeDelta.

Definition toMessageType (str : string) : messageType :=
  if String.eqb str "snapshot" then MessageTypeSnapshot
  else if String.eqb str "delta" then MessageTypeDelta
  else MessageTypeUnknown.

Definition translate (t : messageType) : DataType :=
  match t with
  | MessageTypeSnapshot => DataTypeSnapshot
  | MessageTypeDelta => DataTypeDelta
  | _ => DataTypeUnknown
  end.

Definition TranslateSide (msg : string) : Domains.Side :=
  if String.eqb msg "Buy" then SideBuy
  else if String.eqb msg "Sell" then SideSell
  else SideNone.

Definition TranslateSideToDto (side : Domains.Side) : string :=
  match side with
  | SideBuy => "Buy"
  | SideSell => "Sell"
  | _ => "None"
  end.

Definition errMsg (code : Z) (msg : string) : string :=
  ("bybit error (" +:+ FormatInt code +:+ "): " +:+ msg)%string.

Definition TranslateError (respErr : BaseRespBody) : error :=
  let errMsg := errMsg (RetCode respErr) (RetMsg respErr) in
  let code := RetCode respErr in
  if code =? 10000 then Error (Sentinel ServerTimeoutError) errMsg
  else if code =? 10001 then Error (Sentinel ParameterError) errMsg
  else if (code =? 10003) || (code =? 10004) || (code =? 10005) || (code =? 10007)
    then Error (Sentinel AuthError) errMsg
  else if code =? 10006 then Error (Sentinel ExecLateLimitError) errMsg
  else if code =? 110001 then Error (Sentinel OrderIsNotExists) errMsg
  else Error (Sentinel OtherError) errMsg.

Definition TranslateStatus (status : string) : OrderDataStatus :=
  if String.eqb status "New" then OrderDataStatusOpened
  else if String.eqb status "Rejected" then OrderDataStatusRejected
  else if String.eqb status "PartiallyFilled" then OrderDataStatusPartiallyFilled
  else if String.eqb status "Filled" then OrderDataStatusFilled
  else if String.eqb status "Cancelled" then OrderDataStatusCanceled
  else OrderDataStatusUnknown.

Definition TranslatePositionMode (mode : Z) : PositionMode :=
  if mode =? 0 then PositionModeOneWay
  else if mode =? 1 then PositionModeHedgeOfBuySide
  else if mode =? 2 then PositionModeHedgeOfSellSide
  else PositionModeUnknown.

Section Translators.
  Context {D : Decimal}.

(** ** Orders *)

Definition TranslateToDto (symbol : Symbol.Symbol) (order : Order.Order) : OrderDto :=
  let rawDto := {|
    o_OrderLinkID := GetID order;
    o_Symbol := Name symbol;
    o_OrderType := "Market";
    o_Price := None;
    o_Qty := dString (GetQty order);
    o_Side := TranslateSideToDto (GetSide order)
  |} in
  let rawDto :=
    if IsPositive (GetPrice order) then {|
      o_OrderLinkID := o_OrderLinkID rawDto;
      o_Symbol := o_Symbol rawDto;
      o_OrderType := "Limit";
      o_Price := Some (dString (GetPrice order));
      o_Qty := o_Qty rawDto;
      o_Side := o_Side rawDto
    |} else rawDto in
  {| o_Category := Product symbol; rawOrderDto := rawDto |}.

Definition TranslateToCancelDto (symbol : Symbol.Symbol) (orderID : string) : CancelDto :=
  {| c_Category := Product symbol; c_OrderLinkID := orderID; c_Symbol := Name symbol |}.

Definition TranslateToAmendDetailDto (symbol : Symbol.Symbol) (orderID : string) (detail : AmendDetail) :
    AmendDetailDto := {|
  a_OrderLinkID := orderID;
  a_Category := Product symbol;
  a_Symbol := Name symbol;
  a_Price := dString (Order.Price detail);
  a_Qty := dString (Order.Qty detail)
|}.

Definition TranslateOrderData (confirmedAt : option time) (data : OrderDataDto) : result OrderData.OrderData :=
  arrivedAtMsStr ← checked (ParseInt (od_UpdatedTimeMs data));
  let arrivedAtMs := UnixMilli arrivedAtMsStr in
  price ← checked (NewFromString (od_Price data));
  qty ← checked (NewFromString (od_Qty data));
  fee ← checked (NewFromString (od_Fee data));
  avgPrice ← if String.eqb (od_AvgPrice data) "" then Ok Zero
             else checked (NewFromString (od_AvgPrice data));
  cumExecQty ← checked (NewFromString (od_CumExecQty data));
  Ok {|
    OrderData.ID := od_OrderLinkID data;
    OrderData.PublicID := od_OrderID data;
    OrderData.Side := TranslateSide (od_Side data);
    OrderData.Price := price;
    OrderData.Qty := qty;
    OrderData.AvgExecPrice := avgPrice;
    OrderData.CumFee := fee;
    OrderData.CumExecQty := cumExecQty;
    OrderData.Status := TranslateStatus (od_OrderStatus data);
    OrderData.ArrivedAt := Some arrivedAtMs;
    OrderData.ConfirmedAt := confirmedAt
  |}.

Definition TranslatePosition (msg : PositionDataDto) : result PositionData :=
  qty ← checked (NewFromString (p_Qty msg));
  unixUpdatedAt ← checked (ParseInt (p_UpdatedTimeMs msg));
  Ok {|
    Timestamp := UnixMilli unixUpdatedAt;
    posMode := TranslatePositionMode (PositionIdx msg);
    posSide := TranslateSide (p_Side msg);
    posQty := qty
  |}.

(** ** Market data *)

(** One row of the loop; the rows hold a price and a volume. *)
Definition translateRecord (seqID : Z) (r : list string) : result PriceLevel :=
  r0 ← index r 0; p ← checked (NewFromString r0);
  r1 ← index r 1; v ← checked (NewFromString r1);
  Ok {| PriceLevel.SeqID := seqID; PriceLevel.Price := p; PriceLevel.Volume := v |}.

Definition translateRecords (seqID : Z) (records : list (list string)) : result (list PriceLevel) :=
  map_result (translateRecord seqID) records.

Definition TranslateOrderBook (arrivedAt : time) (msg : OrderBookMsgDto) : result OrderBookData :=
  let seqID := UpdateID (obm_Data msg) in
  asks ← translateRecords seqID (ob_Asks (obm_Data msg));
  bids ← translateRecords seqID (ob_Bids (obm_Data msg));
  Ok {|
    OrderBook.Type' := translate (toMessageType (obm_Type msg));
    OrderBook.ExecAt := UnixMilli (obm_Ts msg);
    OrderBook.ArrivedAt := arrivedAt;
    OrderBook.Asks := asks;
    OrderBook.Bids := bids;
    OrderBook.obSeqID := seqID
  |}.

(** [BookTickerAdapter.Convert] *)
Definition Convert (ob : OrderBookData) : result QuoteData :=
  if (length (OrderBook.Asks ob) =? 0)%nat || (length (OrderBook.Bids ob) =? 0)%nat then Failed
  else
    bestAsk ← index (OrderBook.Asks ob) 0;
    bestBid ← index (OrderBook.Bids ob) 0;
    Ok {|
      qSeqID := OrderBook.obSeqID ob;
      qExecAt := OrderBook.ExecAt ob;
      qEventAt := OrderBook.ExecAt ob;
      qArrivedAt := OrderBook.ArrivedAt ob;
      BestAsk := Some bestAsk;
      BestBid := Some bestBid
    |}.

Definition translateToData (timestamp : time) (msg : option TradeDataDto) : result TradeData :=
  msg ← deref msg;
  volume ← checked (NewFromString (t_Volume msg));
  price ← checked (NewFromString (t_Price msg));
  Ok {|
    Trade.ExecAt := UnixMilli (t_Timestamp msg);
    Trade.ArrivedAt := timestamp;
    Trade.Side := TranslateSide (t_Side msg);
    Trade.Volume := volume;
    Trade.Price := price
  |}.

Definition TranslateDatas (timestamp : time) (msg : TradeMsgDto) : result (list TradeData) :=
  map_result (translateToData timestamp) (t_DataDto msg).

End Translators.
