(* ===== verification/CoinExMessages.v ===== *)
(** * Messages of CoinEx (internal/gateways/exchanges/coinex/{dtos,translators}) *)

From S2P Require Import Prelude GoStd Decimal QDecimal Domains Symbol Errors MutexMap Order OrderData.
From S2P Require Import BTree PriceLevel OrderBook Quote Trade Translate.
Local Open Scope Z_scope.

Section Dtos.

Record BaseRespBody := MkBaseRespBody { Code : Z; Msg : string }.

Definition IsRetCodeOK (b : BaseRespBody) : bool :=
  let retCodeOK := 0 in Code b =? retCodeOK.

Record OrderRespData := MkOrderRespData {
  PublicOrderID : Z;
  ClientID : string;
  UpdatedAt : Z
}.

Record OrderRespBody := MkOrderRespBody { or_Base : BaseRespBody; or_Data : option OrderRespData }.
Record OrdersRespBody := MkOrdersRespBody { os_Base : BaseRespBody; os_Data : list OrderRespBody }.

Record BTDataDto := MkBTDataDto {
  bt_Symbol : string;
  bt_Ts : Z;
  BidPrice : string;
  BidSize : string;
  AskPrice : string;
  AskSize : string
}.

Record OrderDto := MkOrderDto {
  o_Symbol : string;
  o_MarketType : string;
  o_Side : string;
  o_Type : string;
  o_Amount : string;
  o_Price : option string;
  o_ClientID : string;
  o_IsHide : bool
}.

Record AmendDetailDto := MkAmendDetailDto {
  a_PublicOrderID : Z;
  a_Symbol : string;
  a_MarketType : string;
  a_Amount : string;
  a_Price : string
}.

Record OrderDataDto := MkOrderDataDto {
  od_Event : string;
  od_OrderID : Z;
  od_Market : string;
  od_Side : string;
  od_Type : string;
  od_Amount : string;
  od_Price : string;
  od_UnfilledAmount : string;
  od_FilledAmount : string;
  od_FilledValue : string;
  od_Fee : string;
  od_FeeCcy : string;
  od_TakerFeeRate : string;
  od_MakerFeeRate : string;
  od_ClientID : string;
  od_LastFilledAmount : string;
  od_LastFilledPrice : string;
  od_CreatedAt : Z;
  od_UpdatedAt : Z
}.

Record OBRawData := MkOBRawData { ob_UpdatedAt : Z; ob_Bids : list (list string); ob_Asks : list (list string) }.

Record OBDeltaDataDto := MkOBDeltaDataDto { ob_Symbol : string; IsSnapshot : bool; Depth : OBRawData }.

Record PositionDataDto := MkPositionDataDto {
  p_Event : string;
  p_Market : string;
  p_Side : string;
  p_OpenInterest : string;
  p_CreatedAt : Z;
  p_UpdatedAt : Z
}.

Record TradeDataDto := MkTradeDataDto {
  DealID : Z;
  TransactionTime : Z;
  t_Side : string;
  t_Price : string;
  t_Volume : string
}.

End Dtos.

(** ** Common translations *)

Definition TranslateSide (msg : string) : Domains.Side :=
  if String.eqb msg "buy" then SideBuy
  else if String.eqb msg "sell" then SideSell
  else SideNone.

Definition TranslateFromLongShort (msg : string) : Domains.Side :=
  if String.eqb msg "long" then SideBuy
  else if String.eqb msg "short" then SideSell
  else SideNone.

Definition TranslateSideToDto (side : Domains.Side) : string :=
  match side with
  | SideBuy => "buy"
  | SideSell => "sell"
  | _ => "none"
  end.

Definition translateOrderTypeToDto (oType : OrderType) : string :=
  match oType with
  | OrderTypeMarket => "market"
  | OrderTypeLimit => "limit"
  | OrderTypeLimitIOC => "ioc"
  | OrderTypeLimitFOK => "fok"
  | OrderTypeLimitMaker => "maker_only"
  | _ => ""
  end.

Definition TranslateError (respErr : BaseRespBody) : error :=
  let code := Code respErr in
  let errMsg := ("coinex error (" +:+ FormatInt code +:+ "): " +:+ Msg respErr)%string in
  if (code =? 4008) || (code =? 4010) || (code =? 4017) || (code =? 4512)
    then Error (Sentinel AuthError) errMsg
  else if code =? 3109 then Error (Sentinel InsufficientBalanceError) errMsg
  else if code =? 3103 then Error (Sentinel OrderIsNotExists) errMsg
  else if code =? 3132 then Error (Sentinel WarnError) errMsg
  else if (code =? 3129) || (code =? 3008) || (code =? 3007) || (code =? 227)
    then Error (Sentinel InfoError) errMsg
  else if (code =? 4123) || (code =? 4213) then Error (Sentinel ExecLateLimitError) errMsg
  else Error (Sentinel OtherError) errMsg.

Section Translators.
  Context {D : Decimal}.

(** ** Orders *)

Definition TranslateToDto (symbol : Symbol.Symbol) (order : Order.Order) : OrderDto :=
  let price := if IsPricable (GetOrderType order) then Some (dString (GetPrice order)) else None in
  {| o_Symbol := Name symbol;
     o_MarketType := "FUTURES";
     o_Side := TranslateSideToDto (GetSide order);
     o_Type := translateOrderTypeToDto (GetOrderType order);
     o_Amount := dString (GetQty order);
     o_Price := price;
     o_ClientID := GetID order;
     o_IsHide := IsHide order |}.

Definition TranslateToListDto (symbol : Symbol.Symbol) (orders : list Order.Order) : list OrderDto :=
  map (TranslateToDto symbol) orders.

Definition TranslateToAmendDetailDto (symbol : Symbol.Symbol) (publicOrderID : string)
    (detail : AmendDetail) : result AmendDetailDto :=
  pOrderID ← checked (ParseInt publicOrderID);
  Ok {| a_PublicOrderID := pOrderID;
        a_Symbol := Name symbol;
        a_MarketType := "FUTURES";
        a_Amount := dString (Order.Qty detail);
        a_Price := dString (Order.Price detail) |}.

Definition TranslateStatus (event : string) (filledQty unFilledQty : dec) : OrderDataStatus :=
  if String.eqb event "put" then
    if IsZero filledQty then OrderDataStatusOpened else OrderDataStatusPartiallyFilled
  else if String.eqb event "update" then OrderDataStatusPartiallyFilled
  else if String.eqb event "modify" then OrderDataStatusOpened
  else if String.eqb event "finish" then
    if IsZero unFilledQty then OrderDataStatusFilled else OrderDataStatusCanceled
  else OrderDataStatusUnknown.

Definition TranslateOrderData (confirmedAt : option time) (data : OrderDataDto) : result OrderData.OrderData :=
  let arrivedAt := UnixMilli (od_UpdatedAt data) in
  price ← checked (NewFromString (od_Price data));
  qty ← checked (NewFromString (od_Amount data));
  fee ← checked (NewFromString (od_Fee data));
  cumExecQty ← checked (NewFromString (od_LastFilledAmount data));
  avgPrice ← checked (NewFromString (od_LastFilledPrice data));
  filledQty ← checked (NewFromString (od_FilledAmount data));
  unFilledQty ← checked (NewFromString (od_UnfilledAmount data));
  Ok {|
    OrderData.ID := od_ClientID data;
    OrderData.PublicID := FormatInt (od_OrderID data);
    OrderData.Side := TranslateSide (od_Side data);
    OrderData.Price := price;
    OrderData.Qty := qty;
    OrderData.AvgExecPrice := avgPrice;
    OrderData.CumFee := fee;
    OrderData.CumExecQty := cumExecQty;
    OrderData.Status := TranslateStatus (od_Event data) filledQty unFilledQty;
    OrderData.ArrivedAt := Some arrivedAt;
    OrderData.ConfirmedAt := confirmedAt
  |}.

Definition TranslatePosition (msg : PositionDataDto) : result PositionData :=
  qty ← checked (NewFromString (p_OpenInterest msg));
  Ok {|
    Timestamp := UnixMilli (p_UpdatedAt msg);
    posMode := PositionModeOneWay;
    posQty := qty;
    posSide := TranslateFromLongShort (p_Side msg)
  |}.

(** ** Market data *)

Definition translateQuoteRecord (seqID : Z) (price size : string) : result PriceLevel :=
  p ← checked (NewFromString price);
  s ← checked (NewFromString size);
  Ok {| PriceLevel.SeqID := seqID; PriceLevel.Price := p; PriceLevel.Volume := s |}.

Definition TranslateBookTicker (arrivedAt : time) (msg : BTDataDto) : result QuoteData :=
  let seqID := bt_Ts msg in
  let ts := UnixMilli (bt_Ts msg) in
  asks ← translateQuoteRecord seqID (AskPrice msg) (AskSize msg);
  bids ← translateQuoteRecord seqID (BidPrice msg) (BidSize msg);
  Ok {|
    qSeqID := seqID;
    qExecAt := ts;
    qEventAt := ts;
    qArrivedAt := arrivedAt;
    BestAsk := Some asks;
    BestBid := Some bids
  |}.

Definition translateRecord (seqID : Z) (r : list string) : result PriceLevel :=
  r0 ← index r 0; price ← checked (NewFromString r0);
  r1 ← index r 1; volume ← checked (NewFromString r1);
  Ok {| PriceLevel.SeqID := seqID; PriceLevel.Price := price; PriceLevel.Volume := volume |}.

Definition translateRecords (seqID : Z) (records : list (list string)) : result (list PriceLevel) :=
  map_result (translateRecord seqID) records.

Definition TranslateOrderBook (arrivedAt : time) (msg : OBDeltaDataDto) : result OrderBookData :=
  let seqID := ob_UpdatedAt (Depth msg) in
  let dataType := if IsSnapshot msg then DataTypeSnapshot else DataTypeDelta in
  asks ← translateRecords seqID (ob_Asks (Depth msg));
  bids ← translateRecords seqID (ob_Bids (Depth msg));
  Ok {|
    OrderBook.Type' := dataType;
    OrderBook.ExecAt := UnixMilli (ob_UpdatedAt (Depth msg));
    OrderBook.ArrivedAt := arrivedAt;
    OrderBook.Asks := asks;
    OrderBook.Bids := bids;
    OrderBook.obSeqID := seqID
  |}.

Definition translateToData (timestamp : time) (msg : option TradeDataDto) : result TradeData :=
  msg ← deref msg;
  volume ← checked (NewFromString (t_Volume msg));
  price ← checked (NewFromString (t_Price msg));
  Ok {|
    Trade.ExecAt := UnixMilli (TransactionTime msg);
    Trade.ArrivedAt := timestamp;
    Trade.Side := TranslateSide (t_Side msg);
    Trade.Volume := volume;
    Trade.Price := price
  |}.

Definition TranslateToDatas (timestamp : time) (dtos : list (option TradeDataDto)) : result (list TradeData) :=
  map_result (translateToData timestamp) dtos.

End Translators.
