(* ===== verification/MessagesProps.v ===== *)
(** * Properties of the message translators *)

From S2P Require Import Prelude GoStd Decimal QDecimal Domains Symbol Errors MutexFlag MutexMap MutexSlice.
From S2P Require Import Order OrderData Position World Dealer DealerInv DealerEvents DealerSpecs.
From S2P Require Import BTree PriceLevel OrderBook Quote Trade Translate BybitMessages CoinExMessages.
Local Open Scope Z_scope.

(** ** Errors of the exchanges *)

(** Case analysis on the code of an answer. *)
Ltac split_codes :=
  repeat match goal with |- context [Z.eqb ?a ?b] => destruct (Z.eqb_spec a b); simpl end.

Lemma bybit_error_critical b : critical (BybitMessages.TranslateError b) = true.
Proof. unfold BybitMessages.TranslateError. by split_codes. Qed.

Lemma bybit_unknown_order b :
  Is (BybitMessages.TranslateError b) OrderIsNotExists = bool_decide (RetCode b = 110001).
Proof.
  unfold BybitMessages.TranslateError. split_codes; symmetry;
    first [apply bool_decide_eq_true; lia|apply bool_decide_eq_false; lia].
Qed.

(** The answers of CoinEx that do not stop a dealer. *)
Definition coinex_tolerated (code : Z) : bool := bool_decide (code ∈ [3132; 3129; 3008; 3007; 227]).

Lemma coinex_error_critical c :
  critical (CoinExMessages.TranslateError c) = negb (coinex_tolerated (Code c)).
Proof.
  unfold CoinExMessages.TranslateError, coinex_tolerated. split_codes; symmetry.
  all: first
    [ apply negb_false_iff, bool_decide_eq_true; rewrite !elem_of_cons; lia
    | apply negb_true_iff, bool_decide_eq_false; rewrite !elem_of_cons, elem_of_nil; lia ].
Qed.

Lemma coinex_unknown_order c :
  Is (CoinExMessages.TranslateError c) OrderIsNotExists = bool_decide (Code c = 3103).
Proof.
  unfold CoinExMessages.TranslateError. split_codes; symmetry;
    first [apply bool_decide_eq_true; lia|apply bool_decide_eq_false; lia].
Qed.

Section Notices.
  Context {D : Decimal} {RT : GoRuntime}.

(** Which answers of an exchange stop a dealer that is told of them: every error of
    Bybit, and every error of CoinEx but the closing position (3132), price settings
    (3129), overload (3008), unavailability (3007) and nonces (227).  Exactly one code of
    each exchange says that an order is unknown. *)
Theorem error_codes_that_stop b c w :
  (exists w', run (noticeError (BybitMessages.TranslateError b)) w = Done w' tt /\
     MutexFlag.Get (acceptOrder (dealer w')) = false) /\
  (exists w', run (noticeError (CoinExMessages.TranslateError c)) w = Done w' tt /\
     MutexFlag.Get (acceptOrder (dealer w')) =
       MutexFlag.Get (acceptOrder (dealer w)) && coinex_tolerated (Code c)) /\
  Is (BybitMessages.TranslateError b) OrderIsNotExists = bool_decide (RetCode b = 110001) /\
  Is (CoinExMessages.TranslateError c) OrderIsNotExists = bool_decide (Code c = 3103).
Proof.
  split; [|split; [|split; [apply bybit_unknown_order|apply coinex_unknown_order]]].
  - apply run_unit_wp, wp_noticeError. intros w' _ _ [Ha _] _.
    by rewrite Ha, bybit_error_critical, andb_false_r.
  - apply run_unit_wp, wp_noticeError. intros w' _ _ [Ha _] _.
    by rewrite Ha, coinex_error_critical, negb_involutive.
Qed.

End Notices.

(** ** Market data *)

Section Data.
  Context {D : Decimal} {DL : DecimalLaws D}.

(** A number and a text that denotes it. *)
Definition denotes (s : string) (d : dec) : Prop :=
  exists d', NewFromString s = Some d' /\ d' ≡ d.

Lemma dString_denotes d : denotes (dString d) d.
Proof. destruct (dString_parse d) as (d' & H & Hv). by exists d'. Qed.

(** Rows of an exchange that state the levels [ls]. *)
Definition states (row : list string) (l : PriceLevel) : Prop :=
  exists p v, row = [p; v] /\ denotes p (PriceLevel.Price l) /\ denotes v (PriceLevel.Volume l).

(** The same level, stamped with the number of the message. *)
Definition stamped (seqID : Z) (l l' : PriceLevel) : Prop :=
  PriceLevel.SeqID l' = seqID /\ PriceLevel.Price l' ≡ PriceLevel.Price l /\
  PriceLevel.Volume l' ≡ PriceLevel.Volume l.

Lemma translate_rows seqID f rows ls :
  (forall r l, states r l -> exists l', f r = Ok l' /\ stamped seqID l l') ->
  Forall2 states rows ls -> exists ls', map_result f rows = Ok ls' /\ Forall2 (stamped seqID) ls ls'.
Proof.
  intros Hf. induction 1 as [|r l rows ls Hr _ (ls' & Hls & Hs)]; simpl; [by exists []|].
  destruct (Hf r l Hr) as (l' & -> & Hl). simpl. rewrite Hls. simpl. eexists. split; [done|]. by constructor.
Qed.

Lemma bybit_row seqID r l :
  states r l -> exists l', BybitMessages.translateRecord seqID r = Ok l' /\ stamped seqID l l'.
Proof.
  intros (p & v & -> & (p' & Hp & Hp') & (v' & Hv & Hv')). unfold BybitMessages.translateRecord. simpl.
  rewrite Hp. simpl. rewrite Hv. simpl. eexists. by split.
Qed.

Lemma coinex_row seqID r l :
  states r l -> exists l', CoinExMessages.translateRecord seqID r = Ok l' /\ stamped seqID l l'.
Proof.
  intros (p & v & -> & (p' & Hp & Hp') & (v' & Hv & Hv')). unfold CoinExMessages.translateRecord. simpl.
  rewrite Hp. simpl. rewrite Hv. simpl. eexists. by split.
Qed.

(** A book message arrives as it was sent: when the rows of a message state the levels
    [asks] and [bids], the translated data has exactly these levels in the same order,
    all with the number of the message, and its kind and times; for both exchanges. *)
Theorem book_message_round_trip at' bm cm asks bids :
  (Forall2 states (BybitMessages.ob_Asks (obm_Data bm)) asks ->
   Forall2 states (BybitMessages.ob_Bids (obm_Data bm)) bids ->
   exists data, BybitMessages.TranslateOrderBook at' bm = Ok data /\
     Forall2 (stamped (UpdateID (obm_Data bm))) asks (OrderBook.Asks data) /\
     Forall2 (stamped (UpdateID (obm_Data bm))) bids (OrderBook.Bids data) /\
     OrderBook.ExecAt data = UnixMilli (obm_Ts bm) /\ OrderBook.ArrivedAt data = at' /\
     (Type' data = DataTypeSnapshot <-> obm_Type bm = "snapshot"%string) /\
     (Type' data = DataTypeDelta <-> obm_Type bm = "delta"%string)) /\
  (Forall2 states (CoinExMessages.ob_Asks (Depth cm)) asks ->
   Forall2 states (CoinExMessages.ob_Bids (Depth cm)) bids ->
   exists data, CoinExMessages.TranslateOrderBook at' cm = Ok data /\
     Forall2 (stamped (ob_UpdatedAt (Depth cm))) asks (OrderBook.Asks data) /\
     Forall2 (stamped (ob_UpdatedAt (Depth cm))) bids (OrderBook.Bids data) /\
     OrderBook.ExecAt data = UnixMilli (ob_UpdatedAt (Depth cm)) /\ OrderBook.ArrivedAt data = at' /\
     Type' data = if IsSnapshot cm then DataTypeSnapshot else DataTypeDelta).
Proof.
  split; intros Ha Hb.
  - destruct (translate_rows (UpdateID (obm_Data bm)) _ _ _ (bybit_row _) Ha) as (asks' & Hasks & Ha').
    destruct (translate_rows (UpdateID (obm_Data bm)) _ _ _ (bybit_row _) Hb) as (bids' & Hbids & Hb').
    unfold BybitMessages.TranslateOrderBook, BybitMessages.translateRecords. rewrite Hasks. simpl.
    rewrite Hbids. simpl. eexists. do 5 (split; [done|]). simpl. unfold toMessageType.
    destruct (String.eqb_spec (obm_Type bm) "snapshot") as [->|]; [done|].
    by destruct (String.eqb_spec (obm_Type bm) "delta") as [->|].
  - destruct (translate_rows (ob_UpdatedAt (Depth cm)) _ _ _ (coinex_row _) Ha) as (asks' & Hasks & Ha').
    destruct (translate_rows (ob_UpdatedAt (Depth cm)) _ _ _ (coinex_row _) Hb) as (bids' & Hbids & Hb').
    unfold CoinExMessages.TranslateOrderBook, CoinExMessages.translateRecords. rewrite Hasks. simpl.
    rewrite Hbids. simpl. eexists. by do 5 (split; [done|]).
Qed.

(** ** Orders *)

Lemma side_round_trip s :
  BybitMessages.TranslateSide (BybitMessages.TranslateSideToDto s) = s /\
  CoinExMessages.TranslateSide (CoinExMessages.TranslateSideToDto s) = s.
Proof. by destruct s. Qed.

Lemma coinex_type_injective a b :
  translateOrderTypeToDto a = translateOrderTypeToDto b -> a = b.
Proof. by destruct a, b. Qed.

(** What can be read back from the message of an order.  Of CoinEx's the side, the type, the
    quantity, the price (sent exactly for the types that have one), the id and the visibility; of
    Bybit's the side, the quantity, the id, and the price of an order with a positive price, but
    not the type. *)
Theorem orders_readable symbol o ty :
  let c := CoinExMessages.TranslateToDto symbol o in
  let b := rawOrderDto (BybitMessages.TranslateToDto symbol o) in
  (CoinExMessages.TranslateSide (CoinExMessages.o_Side c) = Order.GetSide o /\
   (translateOrderTypeToDto ty = o_Type c <-> ty = Order.GetOrderType o) /\
   denotes (o_Amount c) (Order.GetQty o) /\
   match CoinExMessages.o_Price c with
   | Some p => denotes p (Order.GetPrice o) /\ IsPricable (Order.GetOrderType o) = true
   | None => IsPricable (Order.GetOrderType o) = false
   end /\ o_ClientID c = Order.GetID o /\ o_IsHide c = Order.IsHide o) /\
  (BybitMessages.TranslateSide (BybitMessages.o_Side b) = Order.GetSide o /\
   denotes (o_Qty b) (Order.GetQty o) /\ o_OrderLinkID b = Order.GetID o /\
   match BybitMessages.o_Price b with
   | Some p => denotes p (Order.GetPrice o) /\ o_OrderType b = "Limit"%string /\ (0 < dval (Order.GetPrice o))%Q
   | None => o_OrderType b = "Market"%string /\ (dval (Order.GetPrice o) <= 0)%Q
   end).
Proof.
  simpl. destruct (side_round_trip (Order.GetSide o)) as [H1 H2]. split; split; try done.
  - split; [split; [apply coinex_type_injective|by intros ->]|]. split; [apply dString_denotes|].
    split; [|done]. destruct (IsPricable (Order.GetOrderType o)); [|done]. split; [apply dString_denotes|done].
  - destruct (IsPositive (Order.GetPrice o)) eqn:E; by destruct (Order.GetSide o).
  - destruct (IsPositive (Order.GetPrice o)) eqn:E; simpl.
    + apply IsPositive_spec in E. repeat split; try apply dString_denotes; done.
    + apply IsPositive_false in E. repeat split; try apply dString_denotes; done.
Qed.

(** What is printed denotes the number, so numbers that are printed alike are equal. *)
Lemma dString_injective d1 d2 : dString d1 = dString d2 -> d1 ≡ d2.
Proof.
  intros He. destruct (dString_parse d1) as (x1 & H1 & E1), (dString_parse d2) as (x2 & H2 & E2).
  rewrite He in H1. assert (x1 = x2) as -> by congruence. etrans; [symmetry; exact E1|exact E2].
Qed.

Lemma coinex_side_injective a b : CoinExMessages.TranslateSideToDto a = CoinExMessages.TranslateSideToDto b -> a = b.
Proof. intros H. rewrite <- (proj2 (side_round_trip a)), H. apply side_round_trip. Qed.

Lemma bybit_side_injective a b : BybitMessages.TranslateSideToDto a = BybitMessages.TranslateSideToDto b -> a = b.
Proof. intros H. rewrite <- (proj1 (side_round_trip a)), H. apply side_round_trip. Qed.

(** C23: what exactly an exchange learns of an order.  CoinEx gets the same message for two orders
    if and only if they have the same side, type, id and visibility, their quantities are printed
    alike and, for the types with a price, their prices.  Bybit gets the same message if and only
    if they have the same side and id, their quantities are printed alike, and either none has a
    positive price or both have one that is printed alike: it learns neither the type, and with it
    the time in force, nor a price that is not positive.  Numbers printed alike are equal. *)
Theorem orders_told_apart symbol o1 o2 :
  (CoinExMessages.TranslateToDto symbol o1 = CoinExMessages.TranslateToDto symbol o2 <->
     Order.GetSide o1 = Order.GetSide o2 /\ Order.GetOrderType o1 = Order.GetOrderType o2 /\
     Order.GetID o1 = Order.GetID o2 /\ Order.IsHide o1 = Order.IsHide o2 /\
     dString (Order.GetQty o1) = dString (Order.GetQty o2) /\
     (IsPricable (Order.GetOrderType o1) = true -> dString (Order.GetPrice o1) = dString (Order.GetPrice o2))) /\
  (BybitMessages.TranslateToDto symbol o1 = BybitMessages.TranslateToDto symbol o2 <->
     Order.GetSide o1 = Order.GetSide o2 /\ Order.GetID o1 = Order.GetID o2 /\
     dString (Order.GetQty o1) = dString (Order.GetQty o2) /\
     IsPositive (Order.GetPrice o1) = IsPositive (Order.GetPrice o2) /\
     (IsPositive (Order.GetPrice o1) = true -> dString (Order.GetPrice o1) = dString (Order.GetPrice o2))) /\
  (forall d1 d2, dString d1 = dString d2 -> d1 ≡ d2).
Proof.
  split; [|split; [|apply dString_injective]]; split.
  - intros [= Hs Ht Hq Hp Hi Hh]. apply coinex_side_injective in Hs. apply coinex_type_injective in Ht.
    rewrite <- Ht in Hp. repeat split; try done. intros Hpr. rewrite Hpr in Hp. congruence.
  - intros (Hs & Ht & Hi & Hh & Hq & Hp). unfold CoinExMessages.TranslateToDto.
    rewrite <- Hs, <- Ht, <- Hi, <- Hh, <- Hq. destruct (IsPricable (Order.GetOrderType o1)); [|done].
    by rewrite Hp.
  - unfold BybitMessages.TranslateToDto.
    destruct (IsPositive (Order.GetPrice o1)), (IsPositive (Order.GetPrice o2)); simpl; intros Hm; inversion Hm as [[Hi Hq Hs]];
      simplify_eq; repeat split; try done; by apply bybit_side_injective.
  - intros (Hs & Hi & Hq & Hpos & Hp). unfold BybitMessages.TranslateToDto. rewrite <- Hs, <- Hi, <- Hq, <- Hpos.
    destruct (IsPositive (Order.GetPrice o1)); [|done]. simpl. by rewrite Hp.
Qed.

(** Bybit is not told the type of an order: orders that differ only in their type are
    sent as the same message, so every order with a positive price (an
    immediate-or-cancel, fill-or-kill or post-only order too) is sent as a plain limit
    order, and every other one as a market order. *)
Theorem bybit_forgets_order_type symbol o ty :
  let o' := o <| orderType := ty |> in
  BybitMessages.TranslateToDto symbol o' = BybitMessages.TranslateToDto symbol o /\
  (o_OrderType (rawOrderDto (BybitMessages.TranslateToDto symbol o')) = "Limit"%string <->
     (0 < dval (Order.GetPrice o))%Q).
Proof.
  split; [done|]. unfold BybitMessages.TranslateToDto. unfold Order.GetPrice. simpl.
  destruct (IsPositive (Order.price o)) eqn:E; simpl.
  - by apply IsPositive_spec in E.
  - apply IsPositive_false in E. split; [done|]. intros. lra.
Qed.

(** The executed quantity that CoinEx's translator reports for an order is the one of
    its last fill: for an order filled in several parts it is less than what was
    executed, even in the message that completes the order. *)
Theorem coinex_reports_last_fill data filled lastFill rest :
  od_Event data = "finish"%string ->
  denotes (od_FilledAmount data) filled -> denotes (od_LastFilledAmount data) lastFill ->
  denotes (od_UnfilledAmount data) Zero -> lastFill ≡ Sub filled rest -> (0 < dval rest)%Q ->
  forall at' od, CoinExMessages.TranslateOrderData at' data = Ok od ->
    OrderData.Status od = OrderDataStatusFilled /\ (dval (OrderData.CumExecQty od) < dval filled)%Q.
Proof.
  intros He (f & Hf & Hfe) (l & Hl & Hle) (u & Hu & Hue) Hlast Hrest at' od.
  unfold CoinExMessages.TranslateOrderData. rewrite Hf, Hl, Hu. simpl.
  destruct (NewFromString (CoinExMessages.od_Price data)); [|done]. simpl.
  destruct (NewFromString (od_Amount data)); [|done]. simpl.
  destruct (NewFromString (CoinExMessages.od_Fee data)); [|done]. simpl.
  destruct (NewFromString (od_LastFilledPrice data)); [|done]. simpl.
  intros [= <-]. simpl. unfold CoinExMessages.TranslateStatus. rewrite He. simpl.
  assert (IsZero u = true) as ->.
  { apply IsZero_spec. unfold base.equiv, dec_equiv in Hue. by rewrite Hue, dval_Zero. }
  split; [done|]. unfold base.equiv, dec_equiv in *. rewrite Hle, Hlast. dval_simpl. lra.
Qed.

End Data.

(** ** Examples *)

Definition plain_symbol : @Symbol.Symbol QDecimal :=
  MkSymbol "Bybit_linear_BTCUSDT" "Bybit" "linear" "BTCUSDT" 1%Q 1%Q AssetBTC.

Definition example_order_dto : CoinExMessages.OrderDataDto :=
  CoinExMessages.MkOrderDataDto "finish" 7 "BTCUSDT" "buy" "limit" "3" "100" "0" "3" "300" "0" "USDT" "0" "0"
    "a" "2" "100" 1 2.

Lemma coinex_reports_last_fill_witness :
  exists od, CoinExMessages.TranslateOrderData (D := QDecimal) None example_order_dto = Ok od /\
    OrderData.Status od = OrderDataStatusFilled /\ (OrderData.CumExecQty od < 3)%Q.
Proof.
  eexists. split; [reflexivity|].
  refine (coinex_reports_last_fill (D := QDecimal) example_order_dto 3%Q 2%Q 1%Q eq_refl
    _ _ _ _ _ None _ eq_refl); [by exists 3%Q|by exists 2%Q|by exists 0%Q|reflexivity..].
Defined.

Lemma bybit_forgets_order_type_witness :
  let o := example_order OrderStatusPending in
  BybitMessages.TranslateToDto (D := QDecimal) plain_symbol (o <| orderType := OrderTypeLimitIOC |>) =
  BybitMessages.TranslateToDto (D := QDecimal) plain_symbol o.
Proof. apply (bybit_forgets_order_type (D := QDecimal)). Defined.

Lemma orders_told_apart_witness :
  let o := example_order OrderStatusPending in
  let o' := o <| orderType := OrderTypeLimitIOC |> in
  CoinExMessages.TranslateToDto (D := QDecimal) plain_symbol o <> CoinExMessages.TranslateToDto plain_symbol o' /\
  BybitMessages.TranslateToDto (D := QDecimal) plain_symbol o = BybitMessages.TranslateToDto plain_symbol o'.
Proof.
  intros o o'. destruct (orders_told_apart (D := QDecimal) plain_symbol o o') as (Hc & Hb & _). split.
  - rewrite Hc. intros (_ & Ht & _). discriminate Ht.
  - apply Hb. by repeat split.
Defined.

Lemma orders_readable_witness :
  let o := example_order OrderStatusPending in
  BybitMessages.TranslateSide (BybitMessages.o_Side (rawOrderDto
    (BybitMessages.TranslateToDto (D := QDecimal) plain_symbol o))) = Order.GetSide o.
Proof.
  apply (orders_readable (D := QDecimal) plain_symbol
    (example_order OrderStatusPending) OrderTypeLimit).
Defined.

Definition example_book_msg : BybitMessages.OrderBookMsgDto :=
  MkOrderBookMsgDto "orderbook.1.BTCUSDT" "delta" 5 (MkOBDataDto [["99"; "4"]] [["100.5"; "1"]] 9).

Definition stated_asks : list (@PriceLevel QDecimal) := [PriceLevel.MkPriceLevel 0 (201 # 2)%Q 1%Q].
Definition stated_bids : list (@PriceLevel QDecimal) := [PriceLevel.MkPriceLevel 0 99%Q 4%Q].

Lemma book_message_round_trip_witness :
  exists data : @OrderBookData QDecimal, BybitMessages.TranslateOrderBook 6 example_book_msg = Ok data /\
    Type' data = DataTypeDelta.
Proof.
  destruct (proj1 (book_message_round_trip (D := QDecimal) 6 example_book_msg
    (CoinExMessages.MkOBDeltaDataDto "" false (CoinExMessages.MkOBRawData 0 [] []))
    stated_asks stated_bids)) as (data & Hd & _ & _ & _ & _ & _ & Ht).
  - repeat constructor. exists "100.5"%string, "1"%string. split; [done|]. split; eexists; by split.
  - repeat constructor. exists "99"%string, "4"%string. split; [done|]. split; eexists; by split.
  - exists data. split; [done|]. by apply Ht.
Defined.
