(* ===== verification/Json.v ===== *)
(** * Decoding JSON (the standard library's encoding/json, as the gateways use it)

    A raw message is the JSON value that its text denotes, or malformed.  A
    decoder of Go's [Unmarshal] changes a variable and says whether all of the
    value fitted: it goes on after a value of the wrong type, leaves a variable
    alone on [null], applies every occurrence of a key, ignores unknown keys, and
    takes a key that no field has in its exact spelling for a field that has it
    up to the case of (ASCII) letters. *)

From S2P Require Import Prelude GoStd.
Local Open Scope Z_scope.

Inductive json :=
  | JNull
  | JBool (b : bool)
  | JNumber (literal : string)
  | JString (s : string)
  | JArray (l : list json)
  | JObject (fields : list (string * json)).

(** [[]byte] of a web socket message. *)
Inductive raw := Malformed | Text (j : json).

(** [d old v]: the variable after decoding [v] into it, and whether [v] fitted. *)
Definition decoder (A : Type) : Type := A -> json -> A * bool.

Definition dec_string : decoder string := fun old j =>
  match j with JString s => (s, true) | JNull => (old, true) | _ => (old, false) end.

Definition dec_bool : decoder bool := fun old j =>
  match j with JBool b => (b, true) | JNull => (old, true) | _ => (old, false) end.

(** [int64], and [int] where it has 64 bits. *)
Definition dec_int64 : decoder Z := fun old j =>
  match j with
  | JNumber s => match ParseInt s with Some z => (z, true) | None => (old, false) end
  | JNull => (old, true)
  | _ => (old, false)
  end.

(** [any] *)
Definition dec_any : decoder json := fun _ j => (j, true).

(** [*A]: [null] makes the pointer nil; anything else is decoded into what it points to,
    which is allocated when it is nil. *)
Definition dec_ptr {A} (zero : A) (d : decoder A) : decoder (option A) := fun old j =>
  match j with
  | JNull => (None, true)
  | _ => let '(x, ok) := d (default zero old) j in (Some x, ok)
  end.

(** [[]A] *)
Definition dec_slice {A} (zero : A) (d : decoder A) : decoder (list A) := fun old j =>
  match j with
  | JNull => ([], true)
  | JArray l => (map (fun j => fst (d zero j)) l, forallb (fun j => snd (d zero j)) l)
  | _ => (old, false)
  end.

(** ** Structs *)

Definition lower (c : ascii) : ascii :=
  let n := nat_of_ascii c in
  if ((65 <=? n) && (n <=? 90))%nat then ascii_of_nat (n + 32) else c.

Fixpoint fold_name (s : string) : string :=
  match s with EmptyString => EmptyString | String c s => String (lower c) (fold_name s) end.

(** The field a key is for: the exact name first, else the name up to case. *)
Definition find_field {A} (fields : list (string * A)) (key : string) : option A :=
  match List.find (fun f => String.eqb (fst f) key) fields with
  | Some f => Some (snd f)
  | None => snd <$> List.find (fun f => String.eqb (fold_name (fst f)) (fold_name key)) fields
  end.

Definition dec_struct {A} (fields : list (string * decoder A)) : decoder A := fun old j =>
  match j with
  | JObject kvs =>
      foldl (fun '(a, ok) '(key, v) =>
        match find_field fields key with
        | Some d => let '(a', ok') := d a v in (a', ok && ok')
        | None => (a, ok)
        end) (old, true) kvs
  | JNull => (old, true)
  | _ => (old, false)
  end.

(** A field of a struct, with its name in the JSON object. *)
Definition field {A B} (name : string) (get : A -> B) `{!Update get} (d : decoder B) : string * decoder A :=
  (name, fun a j => let '(x, ok) := d (get a) j in (Prelude.update get (fun _ => x) a, ok)).

(** [json.Unmarshal(rawMsg, &v)]: [None] when it returns an error. *)
Definition Unmarshal {A} (d : decoder A) (v : A) (rawMsg : raw) : option A :=
  match rawMsg with
  | Malformed => None
  | Text j => let '(x, ok) := d v j in if ok then Some x else None
  end.

(** ** Facts *)

Lemma Unmarshal_malformed {A} (d : decoder A) v : Unmarshal d v Malformed = None.
Proof. done. Qed.

(** Keys that no field is for change nothing. *)
Lemma dec_struct_unknown {A} (fields : list (string * decoder A)) a kvs :
  Forall (fun kv => find_field fields (fst kv) = None) kvs ->
  dec_struct fields a (JObject kvs) = (a, true).
Proof.
  simpl. generalize true. induction kvs as [|[k v] kvs IH]; intros ok H; [done|].
  apply Forall_cons in H as [Hk H]. simpl in *. rewrite Hk. by apply IH.
Qed.
