(* ===== verification/Topic.v ===== *)
(** * Topics, deduplication and channel groups
    (internal/gateways/{topic_manager,dedup_topic,channel_group}.go)

    [Topic] is the Go interface over the state [S] of whatever the handlers of a
    topic update.  [dedupTopic] is an instance over that state and the shared
    cache. *)

From S2P Require Import Prelude GoStd MutexMap TTLCache Json.
Local Open Scope Z_scope.

(** How a handler returns: without an error, with one, or not at all. *)
Inductive handled (S : Type) := Handled (s : S) | Erred (s : S) | Panicked.
Arguments Handled {S} _.
Arguments Erred {S} _.
Arguments Panicked {S}.

Definition map_handled {S T} (f : S -> T) (h : handled S) : handled T :=
  match h with Handled s => Handled (f s) | Erred s => Erred (f s) | Panicked => Panicked end.

(** [timestamp] is the time at which the message was taken from the channel. *)
Record Topic (S : Type) := MkTopic {
  TopicName : string;
  MessageID : raw -> string;
  MsgHandler : time -> raw -> S -> handled S
}.
Arguments MkTopic {S} _ _ _.
Arguments TopicName {S} _.
Arguments MessageID {S} _ _.
Arguments MsgHandler {S} _ _ _ _.

(** The handler of a [dedupTopic]; [AddIfAbsent] reads the clock a moment after
    [timestamp] was taken, which is the same moment here. *)
Definition newDedupTopic {S} (inner : Topic S) : Topic (TTLCache * S) := {|
  TopicName := TopicName inner;
  MessageID := MessageID inner;
  MsgHandler timestamp rawMsg '(cache, s) :=
    let id := MessageID inner rawMsg in
    if String.eqb id "" then map_handled (pair cache) (MsgHandler inner timestamp rawMsg s)
    else
      let '(cache, added) := AddIfAbsent id timestamp cache in
      if added then map_handled (pair cache) (MsgHandler inner timestamp rawMsg s)
      else Handled (cache, s)
|}.

(** ** Topic managers

    The Go interface [TopicManager], for managers of topics over [S]; what a
    group of channels relies on is that a manager whose topics were set calls the
    handler of the topic a message is for. *)

(** The topic of a name: the last one set under it. *)
Definition find_topic {S} (name : string) (ts : list (Topic S)) : option (Topic S) :=
  List.find (fun t => String.eqb (TopicName t) name) (reverse ts).

Class TopicManager (M : Type -> Type) := {
  NewManager : forall {S}, M S;
  SetTopics : forall {S}, list (Topic S) -> M S -> M S;
  HandleTopicMessage : forall {S}, M S -> time -> raw -> S -> handled S;
  (** the name of the topic a message is for; [None] when it cannot be told *)
  route : raw -> option string
}.

(** Topics have names. *)
Definition named {S} (ts : list (Topic S)) : Prop := Forall (fun t => TopicName t <> ""%string) ts.

Class TopicManagerLaws (M : Type -> Type) `{TopicManager M} : Prop := {
  HandleTopicMessage_route S (ts : list (Topic S)) timestamp rawMsg s :
    named ts ->
    HandleTopicMessage (SetTopics ts NewManager) timestamp rawMsg s =
      match route rawMsg with
      | None => Erred s
      | Some name =>
          match find_topic name ts with
          | Some t => MsgHandler t timestamp rawMsg s
          | None => Handled s
          end
      end
}.

(** ** Maps of topics, as both managers keep them *)

Definition set_topics {S} (ts : list (Topic S)) (topicMap : gmap string (Topic S)) :
    gmap string (Topic S) :=
  foldl (fun topicMap t => <[TopicName t := t]> topicMap) topicMap ts.

Lemma set_topics_lookup {S} (ts : list (Topic S)) topicMap name :
  set_topics ts topicMap !! name = or_else (find_topic name ts) (topicMap !! name).
Proof.
  revert topicMap. induction ts as [|t ts IH] using rev_ind; intros topicMap; [done|].
  unfold set_topics, find_topic. rewrite foldl_app, reverse_app. simpl.
  fold (set_topics ts topicMap). destruct (String.eqb_spec (TopicName t) name) as [->|Hne].
  - by rewrite lookup_insert_eq.
  - rewrite lookup_insert_ne by done. apply IH.
Qed.

Lemma find_topic_dedup {S} name (ts : list (Topic S)) :
  find_topic name (map newDedupTopic ts) = newDedupTopic <$> find_topic name ts.
Proof.
  unfold find_topic. rewrite <- fmap_reverse.
  induction (reverse ts) as [|t l IH]; simpl; [done|]. by destruct (String.eqb _ _).
Qed.

Lemma find_topic_in {S} name (ts : list (Topic S)) tp :
  find_topic name ts = Some tp -> tp ∈ ts /\ TopicName tp = name.
Proof.
  unfold find_topic. intros [Hin He]%find_some. apply list_elem_of_In in Hin. rewrite elem_of_reverse in Hin.
  by apply String.eqb_eq in He.
Qed.

Lemma find_topic_some {S} (ts : list (Topic S)) tp :
  tp ∈ ts -> is_Some (find_topic (TopicName tp) ts).
Proof.
  intros Hin. destruct (find_topic (TopicName tp) ts) as [tp'|] eqn:Hf; [by eexists|].
  unfold find_topic in Hf. apply find_none with (x := tp) in Hf; [by rewrite String.eqb_refl in Hf|].
  apply list_elem_of_In. by rewrite elem_of_reverse.
Qed.

(** A topic is found under its name if no other topic has the name. *)
Lemma find_topic_unique {S} (ts : list (Topic S)) tp :
  tp ∈ ts -> (forall tp', tp' ∈ ts -> TopicName tp' = TopicName tp -> tp' = tp) ->
  find_topic (TopicName tp) ts = Some tp.
Proof.
  intros Hin Hu. destruct (find_topic_some ts tp Hin) as [tp' Hf]. rewrite Hf.
  apply find_topic_in in Hf as [Hin' Hn]. by rewrite (Hu tp' Hin' Hn).
Qed.

(** Topics that were set later are found first. *)
Lemma find_topic_app {S} name (ts ts' : list (Topic S)) :
  find_topic name (ts ++ ts') = or_else (find_topic name ts') (find_topic name ts).
Proof.
  unfold find_topic. rewrite reverse_app. induction (reverse ts') as [|t l IH]; simpl; [done|].
  by destruct (String.eqb (TopicName t) name).
Qed.
