(* ===== verification/ChannelGroup.v ===== *)
(** * Groups of redundant channels (internal/gateways/{channel_group,dedup_topic}.go)

    A group has one manager per channel, all of whose topics are wrapped with the
    same cache.  What a channel does with its connection is not part of this
    file: a delivery is a message that reaches [HandleTopicMessage] of the
    manager of a channel.  [deliver] is for deliveries one after the other; [group_runs]
    interleaves the goroutines of the channels, which share the cache without a lock over
    the whole of a delivery. *)

From S2P Require Import Prelude GoStd MutexMap TTLCache TTLCacheProps Json Topic.
Local Open Scope Z_scope.

Section Group.
  Context {M : Type -> Type} `{TopicManager M} {S : Type}.

Record ChannelGroup := MkChannelGroup {
  topicMgs : list (M (TTLCache * S));
  cache : TTLCache
}.

(** The channels are not modelled: the factory of managers is called once for each. *)
Definition NewChannelGroup (n : nat) (dedupTTL : duration) : ChannelGroup :=
  {| topicMgs := replicate n NewManager; cache := NewTTLCache dedupTTL |}.

Definition GroupSetTopics (topics : list (Topic S)) (g : ChannelGroup) : ChannelGroup :=
  let wrapped := map newDedupTopic topics in
  {| topicMgs := map (SetTopics wrapped) (topicMgs g); cache := cache g |}.

(** A message that a channel takes from its connection. *)
Record delivery := MkDelivery { channel : nat; at_time : time; message : raw }.

(** The state after a message: an error is logged, a panic ends the process. *)
Definition after {T} (h : handled T) : option T :=
  match h with Handled s | Erred s => Some s | Panicked => None end.

(** The state of the cache and of the handlers after a sequence of deliveries. *)
Fixpoint deliver (g : ChannelGroup) (ds : list delivery) (cs : TTLCache * S) : option (TTLCache * S) :=
  match ds with
  | [] => Some cs
  | d :: ds =>
      mg ← topicMgs g !! channel d;
      cs ← after (HandleTopicMessage mg (at_time d) (message d) cs);
      deliver g ds cs
  end.

(** ** What a group promises *)

(** A single, reliable connection: every message goes straight to its topic. *)
Definition handle_plain (ts : list (Topic S)) (t : time) (m : raw) (s : S) : handled S :=
  match route m with
  | None => Erred s
  | Some name =>
      match find_topic name ts with
      | Some tp => MsgHandler tp t m s
      | None => Handled s
      end
  end.

Fixpoint deliver_plain (ts : list (Topic S)) (ds : list delivery) (s : S) : option S :=
  match ds with
  | [] => Some s
  | d :: ds => s ← after (handle_plain ts (at_time d) (message d) s); deliver_plain ts ds s
  end.

(** The id by which a message is deduplicated; none if it is empty. *)
Definition id_of (ts : list (Topic S)) (m : raw) : string :=
  match route m with
  | None => ""
  | Some name =>
      match find_topic name ts with Some tp => MessageID tp m | None => "" end
  end.

(** The first arrivals: a message is left out when one with the same id was handled
    within the time to live. *)
Fixpoint first_arrivals (ts : list (Topic S)) (ttl : duration) (seen : string -> option time)
    (ds : list delivery) : list delivery :=
  match ds with
  | [] => []
  | d :: ds =>
      let id := id_of ts (message d) in
      let now := at_time d in
      if String.eqb id "" then d :: first_arrivals ts ttl seen ds
      else if match seen id with Some t => ttl <? time_Sub now t | None => true end
      then d :: first_arrivals ts ttl (fun k => if String.eqb k id then Some now else seen k) ds
      else first_arrivals ts ttl seen ds
  end.

(** Deliveries in the order of their times. *)
Fixpoint ordered_from (t : time) (ds : list delivery) : Prop :=
  match ds with
  | [] => True
  | d :: ds => t <= at_time d /\ ordered_from (at_time d) ds
  end.

Context {ML : TopicManagerLaws M}.

Lemma handle_dedup ts t m c s :
  named ts ->
  HandleTopicMessage (SetTopics (map newDedupTopic ts) NewManager) t m (c, s) =
    let id := id_of ts m in
    if String.eqb id "" then map_handled (pair c) (handle_plain ts t m s)
    else
      let '(c', added) := AddIfAbsent id t c in
      if added then map_handled (pair c') (handle_plain ts t m s) else Handled (c', s).
Proof.
  intros Hn. rewrite HandleTopicMessage_route; cycle 1.
  { unfold named. apply Forall_map. eapply Forall_impl; [exact Hn|]. done. }
  unfold id_of, handle_plain. destruct (route m) as [name|]; [|done].
  rewrite find_topic_dedup. destruct (find_topic name ts) as [tp|]; [|done]. simpl.
  destruct (String.eqb (MessageID tp m) ""); [done|]. by destruct (AddIfAbsent _ t c).
Qed.

Lemma after_map {T T'} (f : T -> T') h : after (map_handled f h) = f <$> after h.
Proof. by destruct h. Qed.

Lemma deliver_spec ts ttl' n ds c s seen t :
  named ts -> ttl c = ttl' -> knows c seen t -> ordered_from t ds ->
  Forall (fun d => (channel d < n)%nat) ds ->
  snd <$> deliver (GroupSetTopics ts (NewChannelGroup n ttl')) ds (c, s) =
    deliver_plain ts (first_arrivals ts ttl' seen ds) s.
Proof.
  intros Hn. revert c s seen t. induction ds as [|d ds IH]; intros c s seen t Ht Hk Ho Hc; [done|].
  apply Forall_cons in Hc as [Hd Hc]. destruct Ho as [Hle Ho]. simpl.
  assert (map (SetTopics (map newDedupTopic ts)) (replicate n NewManager) !! channel d =
    Some (SetTopics (map newDedupTopic ts) (NewManager (M := M)))) as ->.
  { change (map ?f ?l) with (f <$> l). rewrite list_lookup_fmap, lookup_replicate_2 by done. done. }
  simpl. rewrite handle_dedup by done. simpl.
  pose proof (knows_later _ _ _ _ Hle Hk) as Hk'.
  destruct (String.eqb (id_of ts (message d)) "") eqn:Hid.
  { rewrite after_map. simpl. destruct (after (handle_plain _ _ _ _)) as [s'|]; simpl; [|done].
    by eapply IH. }
  pose proof (AddIfAbsent_knows c seen (id_of ts (message d)) (at_time d) Hk') as Ha. simpl in Ha.
  destruct (AddIfAbsent _ _ c) as [c' added]. destruct Ha as (-> & Ht' & Hk2 & _). rewrite Ht in *.
  destruct (match seen (id_of ts (message d)) with Some t0 => _ | None => true end) eqn:Hnew; simpl.
  - rewrite after_map. destruct (after (handle_plain _ _ _ _)) as [s'|]; simpl; [|done].
    eapply IH; [congruence|exact Hk2|done..].
  - eapply IH; [congruence|exact Hk2|done..].
Qed.

(** When no delivery overlaps another (each is handled before the next one is taken), a group
    behaves as one connection that delivers every message once: the handlers are called for the
    first arrivals and for no other delivery. *)
Theorem group_delivers_once n ttl' ts t ds s :
  named ts -> ordered_from t ds -> Forall (fun d => (channel d < n)%nat) ds ->
  snd <$> deliver (GroupSetTopics ts (NewChannelGroup n ttl')) ds
            (cache (NewChannelGroup n ttl'), s) =
    deliver_plain ts (first_arrivals ts ttl' (fun _ => None) ds) s.
Proof.
  intros Hn Ho Hc. eapply deliver_spec; [done|done| |done|done].
  intros k. left. simpl. by rewrite lookup_empty.
Qed.

(** ** Deliveries that overlap

    The goroutines of the channels call the wrapped topics without a common lock: while one is in
    [AddIfAbsent] or in the handler of a topic, others go on.  The steps of the calls of
    [AddIfAbsent] and of the cleaner are those of TTLCache.v; the handler of the inner topic is
    one step (books and quotes hold a lock during an update).  Any number of channels takes
    part, each of which handles one message at a time. *)

(** Where a goroutine is with a message: in [AddIfAbsent], as a call of the cache's system, or
    past it and before the handler of the topic. *)
Inductive stage := Deduping (d : delivery) (j : nat) | Passed (d : delivery).

Definition delivery_of (st : stage) : delivery := match st with Deduping d _ | Passed d => d end.

Record group_run := MkGroupRun {
  callers : TTLCache.system;
  busy : gmap nat stage;
  app : S;
  (** the messages that the channels took, and those that went to the handler of their topic *)
  arrived : list delivery;
  dispatched : list delivery
}.

#[local] Instance eta_group_run : Eta group_run := fun g =>
  MkGroupRun (callers g) (busy g) (app g) (arrived g) (dispatched g).

Definition group_begin (dedupTTL : duration) (t : time) (s : S) : group_run :=
  MkGroupRun (start (NewTTLCache dedupTTL) t) ∅ s [] [].

Inductive group_event :=
  | GPass (d : Z)             (** time passes *)
  | GClean                    (** the cleaner takes its next step *)
  | GArrive (i : nat) (m : raw) (** the [i]-th channel takes a message *)
  | GGo (i : nat).            (** the goroutine of the [i]-th channel takes its next step *)

Context {RT : GoRuntime}.

(** The next step of [dedupTopic.MsgHandler]. *)
Definition dedup_step (ts : list (Topic S)) (i : nat) (st : stage) (g : group_run) : option group_run :=
  match st with
  | Deduping d j =>
      s ← step (Go j) (callers g);
      let g := g <| callers := s |> in
      Some (match calls s !! j with
            | Some (Returned _ _ true) => g <| busy ::= <[i := Passed d]> |>
            | Some (Returned _ _ false) => g <| busy ::= delete i |>
            | _ => g
            end)
  | Passed d =>
      s ← after (handle_plain ts (at_time d) (message d) (app g));
      Some (g <| app := s |> <| dispatched ::= fun l => l ++ [d] |> <| busy ::= delete i |>)
  end.

(** [None]: the event is not possible, or a handler panics. *)
Definition group_move (ts : list (Topic S)) (e : group_event) (g : group_run) : option group_run :=
  match e with
  | GPass d => s ← step (Pass d) (callers g); Some (g <| callers := s |>)
  | GClean => s ← step Clean (callers g); Some (g <| callers := s |>)
  | GArrive i m =>
      match busy g !! i with
      | Some _ => None
      | None =>
          let d := MkDelivery i (clock (callers g)) m in
          let g := g <| arrived ::= fun l => l ++ [d] |> in
          let id := id_of ts m in
          if String.eqb id "" then Some (g <| busy ::= <[i := Passed d]> |>)
          else
            s ← step (Call id) (callers g);
            Some (g <| busy ::= <[i := Deduping d (length (calls (callers g)))]> |> <| callers := s |>)
      end
  | GGo i => st ← busy g !! i; dedup_step ts i st g
  end.

Fixpoint group_runs (ts : list (Topic S)) (es : list group_event) (g : group_run) : option group_run :=
  match es with
  | [] => Some g
  | e :: es => g' ← group_move ts e g; group_runs ts es g'
  end.



(** *** A delivery that nothing overlaps

    Its steps are the handler of the wrapped topic, as the manager of the channel calls it. *)

Lemma call_step_calls j s s' :
  call_step j s = Some s' ->
  exists c c', calls s !! j = Some c /\ calls s' = <[j := c']> (calls s) /\ call_key c' = call_key c /\
    (forall k now b, c <> Returned k now b) /\
    added s' = added s ++ match c' with Returned k _ true => [k] | _ => [] end.
Proof.
  unfold call_step. destruct (calls s !! j) as [c|] eqn:Hj; [|done]. intros Hs. exists c.
  destruct c as [key|key now|key now|key now b]; [..|done]; repeat case_match; simplify_eq; eexists;
    (split; [done|]); (split; [reflexivity|]); (split; [done|]); (split; [done|]); simpl; by rewrite ?app_nil_r.
Qed.

(** A call that is under way has not returned. *)
Definition under_way (c : call) : bool := match c with Returned _ _ _ => false | _ => true end.

Lemma go_run ts i d j k g s' c key now b :
  busy g !! i = Some (Deduping d j) -> calls (callers g) !! j = Some c -> under_way c = true ->
  run (replicate k (Go j)) (callers g) = Some s' -> calls s' !! j = Some (Returned key now b) ->
  group_runs ts (replicate k (GGo i)) g =
    Some (g <| callers := s' |> <| busy := if b then <[i := Passed d]> (busy g) else delete i (busy g) |>).
Proof.
  revert g c. induction k as [|k IH]; intros g c Hb Hc Hu; simpl; [intros [= <-] Hr; by simplify_eq|].
  intros (s1 & Hs1 & Hr)%bind_Some Hret. rewrite Hb. simpl. rewrite Hs1. simpl.
  pose proof (call_step_calls _ _ _ Hs1) as (c0 & c' & Hc0 & Hcalls & _).
  assert (calls s1 !! j = Some c') as Hc'.
  { rewrite Hcalls. apply list_lookup_insert_eq. by eapply lookup_lt_Some. }
  rewrite Hc'. destruct (under_way c') eqn:Hu'.
  - specialize (IH (g <| callers := s1 |>)). specialize (IH c' Hb Hc' Hu' Hr Hret). destruct c'; try done; by rewrite IH.
  - destruct c' as [| | |k' n' b']; try done. destruct k as [|k].
    + simpl in Hr. injection Hr as <-. rewrite Hc' in Hret. injection Hret as -> -> ->. by destruct b.
    + simpl in Hr. unfold call_step in Hr. by rewrite Hc' in Hr.
Qed.

Lemma group_runs_app ts es es' g g1 :
  group_runs ts es g = Some g1 -> group_runs ts (es ++ es') g = group_runs ts es' g1.
Proof.
  revert g. induction es as [|e es IH]; intros g; simpl; [by intros [= ->]|].
  intros (g' & -> & Hr)%bind_Some. simpl. by apply IH.
Qed.

Lemma delivery_alone ts i m g c s :
  named ts -> busy g !! i = None ->
  after (HandleTopicMessage (SetTopics (map newDedupTopic ts) NewManager) (clock (callers g)) m
           (TTLCache.cache (callers g), app g)) = Some (c, s) ->
  exists k g', group_runs ts (GArrive i m :: replicate k (GGo i)) g = Some g' /\
    TTLCache.cache (callers g') = c /\ app g' = s /\ busy g' = busy g.
Proof.
  intros Hn Hb. rewrite handle_dedup by done. simpl. rewrite Hb.
  set (d := MkDelivery i (clock (callers g)) m). destruct (String.eqb (id_of ts m) "").
  { rewrite after_map. intros (s' & Ha & [= -> ->])%fmap_Some. exists 1%nat. simpl.
    rewrite lookup_insert_eq. simpl. rewrite Ha. simpl. eexists. split; [done|]. simpl.
    split_and!; try done. by rewrite delete_insert_id. }
  set (j := length (calls (callers g))).
  set (sy := (callers g) <| calls ::= fun l => l ++ [Called (id_of ts m)] |>).
  assert (calls sy !! j = Some (Called (id_of ts m))) as Hj.
  { subst sy j. simpl. by rewrite lookup_app_r, Nat.sub_diag by lia. }
  destruct (call_alone j (id_of ts m) sy Hj) as (k & s1 & Hr & Hc & Hret).
  change (TTLCache.cache sy) with (TTLCache.cache (callers g)) in Hc, Hret.
  change (clock sy) with (clock (callers g)) in Hc, Hret.
  destruct (AddIfAbsent (id_of ts m) _ _) as [c' b]. simpl in Hc, Hret. intros Ha. simpl.
  set (g1 := _ : group_run).
  pose proof (go_run ts i d j k g1 s1 _ _ _ b (lookup_insert_eq _ _ _) Hj eq_refl Hr Hret) as Hg.
  destruct b.
  - rewrite after_map in Ha. apply fmap_Some in Ha as (s' & Ha & [= -> ->]). exists (k + 1)%nat.
    rewrite replicate_add, (group_runs_app _ _ _ _ _ Hg). simpl. rewrite lookup_insert_eq. simpl. rewrite Ha. simpl.
    eexists. split; [done|]. simpl. split_and!; try done. rewrite !delete_insert_eq. by rewrite delete_id.
  - injection Ha as <- <-. exists k. eexists. split; [exact Hg|]. simpl. split_and!; try done.
    rewrite delete_insert_eq. by rewrite delete_id.
Qed.


(** *** What holds however deliveries overlap *)

Definition of_channel (i : nat) (ds : list delivery) : list delivery :=
  List.filter (fun d => Nat.eqb (channel d) i) ds.

(** The deliveries of a message with an id. *)
Definition copies (ts : list (Topic S)) (k : string) (ds : list delivery) : list delivery :=
  List.filter (fun d => String.eqb (id_of ts (message d)) k) ds.

(** What a channel is busy with. *)
Definition pending (i : nat) (g : group_run) : list delivery :=
  match busy g !! i with Some st => [delivery_of st] | None => [] end.

Definition passes (ts : list (Topic S)) (k : string) (st : stage) : bool :=
  match st with Passed d => String.eqb (id_of ts (message d)) k | Deduping _ _ => false end.

(** How many goroutines are between the cache and the handler with a copy of a message. *)
Definition passing (ts : list (Topic S)) (k : string) (m : gmap nat stage) : nat :=
  size (filter (fun p => passes ts k (snd p) = true) m).

Lemma passing_insert ts k m i st :
  m !! i = None -> passing ts k (<[i := st]> m) = (passing ts k m + if passes ts k st then 1 else 0)%nat.
Proof.
  intros Hi. unfold passing. rewrite map_filter_insert. simpl.
  assert (filter (fun p => passes ts k p.2 = true) m !! i = None) as Hf by (apply map_lookup_filter_None; by left).
  destruct (passes ts k st) eqn:Hp; [rewrite decide_True by done; rewrite map_size_insert_None by done; lia|].
  rewrite decide_False by done. rewrite delete_id by done. lia.
Qed.

Lemma passing_delete ts k m i st :
  m !! i = Some st -> passing ts k m = (passing ts k (delete i m) + if passes ts k st then 1 else 0)%nat.
Proof.
  intros Hi. rewrite <- (passing_insert ts k (delete i m) i st) by apply lookup_delete_eq. by rewrite insert_delete_id.
Qed.

Lemma passing_set ts k m i st st' :
  m !! i = Some st ->
  (passing ts k (<[i := st']> m) + (if passes ts k st then 1 else 0) =
   passing ts k m + (if passes ts k st' then 1 else 0))%nat.
Proof.
  intros Hi. rewrite (passing_delete _ _ _ _ _ Hi), <- insert_delete_eq, passing_insert by apply lookup_delete_eq. lia.
Qed.

(** The goroutines and their calls of the cache. *)
Record group_inv (ts : list (Topic S)) (s0 : S) (g : group_run) : Prop := {
  gi_app : deliver_plain ts (dispatched g) s0 = Some (app g);
  gi_calls : forall i d j, busy g !! i = Some (Deduping d j) -> exists c,
    calls (callers g) !! j = Some c /\ under_way c = true /\ call_key c = id_of ts (message d) /\
    id_of ts (message d) <> "";
  gi_apart : forall i i' d d' j,
    busy g !! i = Some (Deduping d j) -> busy g !! i' = Some (Deduping d' j) -> i = i';
  gi_channel : forall i st, busy g !! i = Some st -> channel (delivery_of st) = i;
  gi_order : forall i, (of_channel i (dispatched g) ++ pending i g) `sublist_of` of_channel i (arrived g);
  gi_plain : forall i, copies ts "" (of_channel i (dispatched g) ++ pending i g) = copies ts "" (of_channel i (arrived g))
}.

Lemma deliver_plain_app ts ds ds' s :
  deliver_plain ts (ds ++ ds') s = deliver_plain ts ds s ≫= deliver_plain ts ds'.
Proof.
  revert s. induction ds as [|d ds IH]; intros s; simpl; [done|].
  destruct (after _) as [s'|]; simpl; [apply IH|done].
Qed.

Lemma of_channel_snoc i ds d :
  of_channel i (ds ++ [d]) = of_channel i ds ++ if Nat.eqb (channel d) i then [d] else [].
Proof. unfold of_channel. rewrite List.filter_app. simpl. by destruct (Nat.eqb _ _). Qed.

Lemma copies_app ts k ds ds' : copies ts k (ds ++ ds') = copies ts k ds ++ copies ts k ds'.
Proof. apply List.filter_app. Qed.

(** A step that moves nothing but the calls of the cache. *)
Lemma group_inv_callers ts s0 g s :
  (forall i d j c, busy g !! i = Some (Deduping d j) -> calls (callers g) !! j = Some c -> under_way c = true ->
     exists c', calls s !! j = Some c' /\ under_way c' = true /\ call_key c' = call_key c) ->
  group_inv ts s0 g -> group_inv ts s0 (g <| callers := s |>).
Proof.
  intros Hs [Ha Hc Hap Hch Ho Hp]. constructor; simpl; try done.
  intros i d j Hi. destruct (Hc i d j Hi) as (c & Hj & Hu & Hk & Hne).
  destruct (Hs i d j c Hi Hj Hu) as (c' & Hj' & Hu' & Hk'). exists c'. by rewrite Hk'.
Qed.

Lemma group_inv_arrive ts s0 g i m st s :
  let d := MkDelivery i (clock (callers g)) m in
  busy g !! i = None -> delivery_of st = d ->
  (st = Passed d /\ s = callers g /\ id_of ts m = "" \/
   st = Deduping d (length (calls (callers g))) /\ id_of ts m <> "" /\
     calls s = calls (callers g) ++ [Called (id_of ts m)]) ->
  group_inv ts s0 g ->
  group_inv ts s0 (g <| arrived ::= fun l => l ++ [d] |> <| busy ::= <[i := st]> |> <| callers := s |>).
Proof.
  intros d Hi Hd Hst [Ha Hc Hap Hch Ho Hp].
  assert (forall i' d' j, busy g !! i' = Some (Deduping d' j) -> (j < length (calls (callers g)))%nat) as Hlt.
  { intros i' d' j Hi'. destruct (Hc _ _ _ Hi') as (c & Hj & _). by eapply lookup_lt_Some. }
  assert (forall j c, calls (callers g) !! j = Some c -> calls s !! j = Some c) as Hold.
  { intros j c Hj. destruct Hst as [(_ & -> & _)|(_ & _ & ->)]; [done|]. by apply lookup_app_l_Some. }
  assert (forall i', i' <> i -> pending i' (g <| busy ::= <[i := st]> |>) = pending i' g) as Hpend.
  { intros i' Hne. unfold pending. simpl. by rewrite lookup_insert_ne. }
  assert (pending i (g <| busy ::= <[i := st]> |>) = [d] /\ pending i g = []) as [Hpi Hpi0].
  { unfold pending. simpl. by rewrite lookup_insert_eq, Hd, Hi. }
  constructor; simpl; try done.
  - intros i' d' j [[<- Hx]|[Hne Hx]]%lookup_insert_Some.
    + destruct Hst as [(-> & _)|(-> & Hid & ->)]; [done|]. injection Hx as <- <-.
      eexists. by rewrite lookup_app_r, Nat.sub_diag by lia.
    + destruct (Hc _ _ _ Hx) as (c & Hj & Hrest). exists c. split; [by apply Hold|done].
  - intros i1 i2 d1 d2 j [[<- H1]|[Hne1 H1]]%lookup_insert_Some [[<- H2]|[Hne2 H2]]%lookup_insert_Some; [done|..].
    + subst st. destruct Hst as [[? _]|([= <- ->] & _)]; [done|]. specialize (Hlt _ _ _ H2). lia.
    + subst st. destruct Hst as [[? _]|([= <- ->] & _)]; [done|]. specialize (Hlt _ _ _ H1). lia.
    + by eapply Hap.
  - intros i' st' [[<- <-]|[_ Hx]]%lookup_insert_Some; [by rewrite Hd|by apply Hch].
  - intros i'. rewrite of_channel_snoc. simpl. destruct (Nat.eqb_spec i i') as [<-|Hne].
    + unfold pending in *. simpl in *. rewrite Hpi. specialize (Ho i). rewrite Hpi0, app_nil_r in Ho. by apply sublist_app.
    + rewrite app_nil_r. unfold pending in *. simpl in *. rewrite Hpend by done. apply Ho.
  - intros i'. rewrite of_channel_snoc. simpl. destruct (Nat.eqb_spec i i') as [<-|Hne].
    + unfold pending in *. simpl in *. rewrite Hpi. specialize (Hp i). rewrite Hpi0, app_nil_r in Hp. by rewrite !copies_app, Hp.
    + rewrite app_nil_r. unfold pending in *. simpl in *. rewrite Hpend by done. apply Hp.
Qed.

(** The goroutine of a channel goes on to the handler or leaves the message. *)
Lemma group_inv_busy ts s0 g i st st' :
  busy g !! i = Some st ->
  match st' with
  | Some st' => delivery_of st' = delivery_of st /\ exists d, st' = Passed d
  | None => id_of ts (message (delivery_of st)) <> ""
  end ->
  group_inv ts s0 g -> group_inv ts s0 (g <| busy ::= partial_alter (fun _ => st') i |>).
Proof.
  intros Hi Hst [Ha Hc Hap Hch Ho Hp].
  assert (forall i' d j, partial_alter (fun _ => st') i (busy g) !! i' = Some (Deduping d j) ->
    i' <> i /\ busy g !! i' = Some (Deduping d j)) as Hold.
  { intros i' d j. destruct (decide (i' = i)) as [->|Hne].
    - rewrite lookup_partial_alter_eq. intros ->. by destruct Hst as [_ [d' ?]].
    - by rewrite lookup_partial_alter_ne. }
  assert (forall i', i' <> i -> pending i' (g <| busy ::= partial_alter (fun _ => st') i |>) = pending i' g) as Hpend.
  { intros i' Hne. unfold pending. simpl. by rewrite lookup_partial_alter_ne. }
  assert (pending i (g <| busy ::= partial_alter (fun _ => st') i |>) =
    match st' with Some _ => [delivery_of st] | None => [] end /\ pending i g = [delivery_of st]) as [Hpi Hpi0].
  { unfold pending. simpl. rewrite lookup_partial_alter_eq, Hi. destruct st'; [|done]. by destruct Hst as [-> _]. }
  constructor; simpl; try done.
  - intros i' d j [_ Hx]%Hold. by eapply Hc.
  - intros i1 i2 d1 d2 j [_ H1]%Hold [_ H2]%Hold. by eapply Hap.
  - intros i' st1. destruct (decide (i' = i)) as [->|Hne].
    + rewrite lookup_partial_alter_eq. intros ->. destruct Hst as [-> _]. by apply Hch.
    + rewrite lookup_partial_alter_ne by done. apply Hch.
  - intros i'. destruct (decide (i' = i)) as [->|Hne]; [|rewrite Hpend by done; apply Ho].
    rewrite Hpi. specialize (Ho i). rewrite Hpi0 in Ho. destruct st'; [done|].
    etrans; [|exact Ho]. by apply sublist_app, sublist_nil_l.
  - intros i'. destruct (decide (i' = i)) as [->|Hne]; [|rewrite Hpend by done; apply Hp].
    rewrite Hpi. specialize (Hp i). rewrite Hpi0 in Hp. destruct st'; [done|].
    rewrite copies_app in Hp |- *. simpl in *. destruct (String.eqb_spec (id_of ts (message (delivery_of st))) ""); done.
Qed.

(** The handler of the topic. *)
Lemma group_inv_handle ts s0 g i d s :
  busy g !! i = Some (Passed d) -> after (handle_plain ts (at_time d) (message d) (app g)) = Some s ->
  group_inv ts s0 g ->
  group_inv ts s0 (g <| app := s |> <| dispatched ::= fun l => l ++ [d] |> <| busy ::= delete i |>).
Proof.
  intros Hi Hs [Ha Hc Hap Hch Ho Hp]. pose proof (Hch _ _ Hi) as Hd. simpl in Hd.
  assert (forall i', of_channel i' (dispatched g ++ [d]) ++ pending i' (g <| busy ::= delete i |>) =
    of_channel i' (dispatched g) ++ pending i' g) as Hsame.
  { intros i'. rewrite of_channel_snoc, Hd. unfold pending. simpl. destruct (Nat.eqb_spec i i') as [<-|Hne].
    - by rewrite lookup_delete_eq, Hi, app_nil_r.
    - by rewrite lookup_delete_ne, app_nil_r. }
  constructor; simpl.
  - rewrite deliver_plain_app, Ha. simpl. by rewrite Hs.
  - intros i' d' j [_ Hx]%lookup_delete_Some. by eapply Hc.
  - intros i1 i2 d1 d2 j [_ H1]%lookup_delete_Some [_ H2]%lookup_delete_Some. by eapply Hap.
  - intros i' st [_ Hx]%lookup_delete_Some. by apply Hch.
  - intros i'. specialize (Ho i'). rewrite <- Hsame in Ho. exact Ho.
  - intros i'. specialize (Hp i'). rewrite <- Hsame in Hp. exact Hp.
Qed.

(** A step of one's own call leaves the calls of the others. *)
Lemma group_inv_dedup ts s0 g i d j s g' :
  busy g !! i = Some (Deduping d j) -> call_step j (callers g) = Some s ->
  dedup_step ts i (Deduping d j) g = Some g' -> group_inv ts s0 g -> group_inv ts s0 g'.
Proof.
  intros Hi Hs Hg Hinv. destruct (call_step_calls _ _ _ Hs) as (c & c' & Hc & Hcalls & Hk & _ & _).
  destruct (gi_calls _ _ _ Hinv _ _ _ Hi) as (c0 & Hc0 & _ & Hkey & Hne).
  pose proof (lookup_lt_Some _ _ _ Hc) as Hlt.
  simpl in Hg. rewrite Hs in Hg. simpl in Hg. rewrite Hcalls, list_lookup_insert_eq in Hg by done.
  assert (forall g1 st', match st' with
      | Some st' => delivery_of st' = d /\ exists d, st' = Passed d
      | None => True end ->
    g1 = g <| callers := s |> <| busy ::= partial_alter (fun _ => st') i |> -> group_inv ts s0 g1) as Hleave.
  { intros g1 st' Hst ->.
    assert (group_inv ts s0 (g <| busy ::= partial_alter (fun _ => st') i |>)) as Hb.
    { eapply (group_inv_busy ts s0 g i _ st' Hi); [by destruct st'|done]. }
    change (group_inv ts s0 (g <| busy ::= partial_alter (fun _ => st') i |> <| callers := s |>)).
    apply group_inv_callers; [|done].
    intros i' d' j' c1 Hi'. simpl in Hi'. destruct (decide (i' = i)) as [->|Hii].
    { rewrite lookup_partial_alter_eq in Hi'. subst st'. by destruct Hst as [_ [? ?]]. }
    rewrite lookup_partial_alter_ne in Hi' by done. simpl. intros Hj' Hu. exists c1.
    rewrite Hcalls, list_lookup_insert_ne; [done|]. intros <-. apply Hii. symmetry.
    by eapply (gi_apart _ _ _ Hinv i i'). }
  assert (under_way c' = true -> group_inv ts s0 (g <| callers := s |>)) as Hstay.
  { intros Hu'. apply group_inv_callers; [|done]. intros i' d' j' c1 _ Hj' Hu. rewrite Hcalls.
    destruct (decide (j = j')) as [<-|Hjj]; [|exists c1; by rewrite list_lookup_insert_ne].
    exists c'. rewrite list_lookup_insert_eq by done. split; [done|]. split; [done|]. congruence. }
  destruct c' as [| | |key now [|]]; injection Hg as <-; try by apply Hstay.
  - by eapply (Hleave _ (Some (Passed d))); [split; [done|by exists d]|].
  - by eapply (Hleave _ None).
Qed.

(** The steps of the cache that are not those of a call. *)
Lemma step_time_calls e s s' :
  step e s = Some s' -> match e with Pass _ | Clean => True | _ => False end ->
  calls s' = calls s /\ added s' = added s.
Proof.
  destruct e as [d| | |]; simpl; try done; intros Hs _.
  - destruct (0 <=? d); [by injection Hs as <-|done].
  - injection Hs as <-. unfold clean_step. by repeat case_match.
Qed.

Lemma group_inv_move ts s0 e g g' : group_inv ts s0 g -> group_move ts e g = Some g' -> group_inv ts s0 g'.
Proof.
  intros Hinv. destruct e as [d| |i m|i]; cbn [group_move].
  1,2: intros (s & Hs & [= <-])%bind_Some; apply group_inv_callers; [|done]; intros i d' j c _ Hj Hu; exists c;
    by rewrite (proj1 (step_time_calls _ _ _ Hs I)).
  - destruct (busy g !! i) as [st|] eqn:Hi; [done|]. destruct (String.eqb_spec (id_of ts m) "") as [Hid|Hid].
    + intros [= <-]. by eapply (group_inv_arrive ts s0 g i m (Passed _) (callers g)); [|done|left|].
    + simpl. intros [= <-]. by eapply (group_inv_arrive ts s0 g i m (Deduping _ _) _); [|done|right|].
  - intros (st & Hi & Hg)%bind_Some. destruct st as [d j|d].
    + pose proof Hg as Hg'. simpl in Hg'. apply bind_Some in Hg' as (s & Hs & _).
      by eapply group_inv_dedup.
    + simpl in Hg. apply bind_Some in Hg as (s & Hs & [= <-]). by apply group_inv_handle.
Qed.

Lemma group_inv_runs ts s0 es g g' : group_inv ts s0 g -> group_runs ts es g = Some g' -> group_inv ts s0 g'.
Proof.
  revert g. induction es as [|e es IH]; intros g Hinv; simpl; [by intros [= <-]|].
  intros (g1 & Hg & Hr)%bind_Some. eapply IH; [by eapply group_inv_move|done].
Qed.

Lemma group_begin_inv ts ttl' t0 s0 : group_inv ts s0 (group_begin ttl' t0 s0).
Proof. by constructor. Qed.

(** *** The copies of one message, within the time to live from the first of them *)

Record copies_inv (ts : list (Topic S)) (k : string) (t1 : time) (ttl' : duration) (g : group_run) : Prop := {
  co_key : key_inv k t1 (callers g);
  co_ttl : ttl (TTLCache.cache (callers g)) = ttl';
  co_count : times_added k (callers g) = (length (copies ts k (dispatched g)) + passing ts k (busy g))%nat;
  co_seen : forall d, d ∈ arrived g -> id_of ts (message d) = k ->
    k ∈ added (callers g) \/ exists i st, busy g !! i = Some st /\ delivery_of st = d
}.

Lemma times_added_same k s s' : added s' = added s -> times_added k s' = times_added k s.
Proof. unfold times_added. by intros ->. Qed.

(** What a call of the cache answers is what the goroutine goes on with. *)
Lemma copies_dedup ts s0 k t1 ttl' i d j g g' :
  in_int64 ttl' -> clock (callers g') - t1 <= ttl' -> group_inv ts s0 g ->
  busy g !! i = Some (Deduping d j) -> dedup_step ts i (Deduping d j) g = Some g' ->
  copies_inv ts k t1 ttl' g -> copies_inv ts k t1 ttl' g'.
Proof.
  intros Hi64 Hck Hinv Hi Hg [Hk Ht Hc Hs]. simpl in Hg. apply bind_Some in Hg as (s & Hgo & Hg).
  destruct (call_step_calls _ _ _ Hgo) as (c & c' & Hj & Hcalls & Hkey & _ & Hadd).
  destruct (gi_calls _ _ _ Hinv _ _ _ Hi) as (c0 & Hc0 & _ & Hkey0 & _). assert (c0 = c) as -> by congruence.
  assert (calls s !! j = Some c') as Hj' by (rewrite Hcalls; apply list_lookup_insert_eq; by eapply lookup_lt_Some).
  rewrite Hj' in Hg.
  assert (callers g' = s /\ dispatched g' = dispatched g /\ arrived g' = arrived g) as (Hsys & Hdis & Harr).
  { destruct c' as [| | |? ? [|]]; injection Hg as <-; done. }
  rewrite Hsys in Hck. destruct (step_key k t1 (Go j) (callers g) s) as [Hk' Ht']; [by rewrite Ht|by rewrite Ht|done..|].
  assert (forall x, x ∈ added (callers g) -> x ∈ added s) as Hmono by (intros x; rewrite Hadd, elem_of_app; tauto).
  assert (length (copies ts k (dispatched g)) + passing ts k (busy g') = times_added k s)%nat as Hcnt.
  { unfold times_added in *. rewrite Hadd, List.filter_app, length_app, Hc.
    pose proof (passing_set ts k _ i _ (Passed d) Hi) as Hset. pose proof (passing_delete ts k _ i _ Hi) as Hdel.
    simpl in Hset, Hdel. destruct c' as [| | |key now [|]]; injection Hg as <-; simpl in *; try lia.
    assert (key = id_of ts (message d)) as -> by congruence. rewrite (String.eqb_sym k). destruct (String.eqb _ k); simpl; lia. }
  constructor; rewrite ?Hsys, ?Hdis; try done; [by rewrite Ht'|].
  intros d' Hd' Hid. rewrite Harr in Hd'. destruct (Hs d' Hd' Hid) as [Hin|(i' & st & Hi' & Hst)]; [left; by apply Hmono|].
  destruct (decide (i' = i)) as [->|Hne].
  - assert (st = Deduping d j) as -> by congruence. simpl in Hst. subst d'.
    destruct c' as [| | |key now [|]]; injection Hg as <-; simpl in *; try (right; exists i; by eauto).
    + right. exists i, (Passed d). by rewrite lookup_insert_eq.
    + left. assert (key = k) as -> by congruence. exact (ki_calls _ _ _ Hk' _ _ Hj' eq_refl).
  - right. exists i', st. split; [|done].
    destruct c' as [| | |key now [|]]; injection Hg as <-; simpl; rewrite ?lookup_insert_ne, ?lookup_delete_ne by done; done.
Qed.

(** A message arrives. *)
Lemma copies_arrive ts k t1 ttl' i m g g' :
  k <> "" -> in_int64 ttl' -> clock (callers g') - t1 <= ttl' ->
  (forall d, d ∈ arrived g' -> id_of ts (message d) = k -> t1 <= at_time d) ->
  group_move ts (GArrive i m) g = Some g' ->
  copies_inv ts k t1 ttl' g -> copies_inv ts k t1 ttl' g'.
Proof.
  intros Hne Hi64 Hck Harr Hg [Hk Ht Hc Hseen]. cbn [group_move] in Hg. destruct (busy g !! i) as [st|] eqn:Hi; [done|].
  assert (forall st' d', (exists i' st, busy g !! i' = Some st /\ delivery_of st = d') ->
    exists i' st, <[i := st']> (busy g) !! i' = Some st /\ delivery_of st = d') as Hold.
  { intros st' d' (i' & st & Hi' & Hd'). exists i', st. split; [|done]. rewrite lookup_insert_ne; [done|]. intros <-. congruence. }
  destruct (String.eqb_spec (id_of ts m) "") as [Hid|Hid]; [|simpl in Hg]; injection Hg as <-; simpl in Hck, Harr.
  - constructor; simpl; [done|done| |].
    + rewrite passing_insert by done. simpl. rewrite Hid. destruct (String.eqb_spec "" k); [done|]. lia.
    + intros d' [Hd'| ->%list_elem_of_singleton]%elem_of_app Hk'; [|simpl in Hk'; congruence].
      destruct (Hseen d' Hd' Hk') as [|Hb]; [by left|right; by apply Hold].
  - destruct (step_key k t1 (Call (id_of ts m)) (callers g) ((callers g) <| calls ::= fun l => l ++ [Called (id_of ts m)] |>))
      as [Hk' Ht']; [by rewrite Ht|by rewrite Ht| |done|done|].
    { intros [= Hk']. refine (Harr (MkDelivery i (clock (callers g)) m) _ Hk'). set_solver. }
    constructor; simpl; [done|done| |].
    + rewrite passing_insert by done. simpl. unfold times_added in *. simpl. lia.
    + intros d' [Hd'| ->%list_elem_of_singleton]%elem_of_app Hkd.
      * destruct (Hseen d' Hd' Hkd) as [|Hb]; [by left|right; by apply Hold].
      * right. eexists i, _. by rewrite lookup_insert_eq.
Qed.

(** The handler takes a message. *)
Lemma copies_handle ts k t1 ttl' i d g g' :
  busy g !! i = Some (Passed d) -> dedup_step ts i (Passed d) g = Some g' ->
  copies_inv ts k t1 ttl' g -> copies_inv ts k t1 ttl' g'.
Proof.
  intros Hi Hg [Hk Ht Hc Hseen]. simpl in Hg. apply bind_Some in Hg as (s & Hs & [= <-]).
  pose proof (passing_delete ts k _ i _ Hi) as Hdel. simpl in Hdel.
  constructor; simpl; [done|done| |].
  - rewrite copies_app, length_app. simpl. destruct (String.eqb _ k); simpl; lia.
  - intros d' Hd' Hk'. destruct (Hseen d' Hd' Hk') as [|(i' & st & Hi' & Hst)]; [by left|].
    destruct (decide (i' = i)) as [->|Hii]; [|right; exists i', st; by rewrite lookup_delete_ne].
    left. apply added_times. rewrite Hc. assert (st = Passed d) as -> by congruence. simpl in Hst. subst d'.
    apply String.eqb_eq in Hk'. rewrite Hk' in Hdel. lia.
Qed.

Lemma copies_move ts s0 k t1 ttl' e g g' :
  k <> "" -> in_int64 ttl' -> clock (callers g') - t1 <= ttl' ->
  (forall d, d ∈ arrived g' -> id_of ts (message d) = k -> t1 <= at_time d) ->
  group_inv ts s0 g -> group_move ts e g = Some g' ->
  copies_inv ts k t1 ttl' g -> copies_inv ts k t1 ttl' g'.
Proof.
  intros Hne Hi64 Hck Harr Hinv Hg Hco. destruct e as [d| |i m|i]; [..|cbn [group_move] in Hg].
  1,2: apply bind_Some in Hg as (s & Hs & [= <-]); destruct Hco as [Hk Ht Hc Hseen]; simpl in Hck;
    pose proof (step_time_calls _ _ _ Hs I) as [_ Hadd];
    (eassert _ as Hkey; [eapply (step_key k t1); [by rewrite Ht|by rewrite Ht| |exact Hk|exact Hs]; done|]);
    destruct Hkey as [Hk' Ht']; constructor; simpl; [done|by rewrite Ht'|by rewrite (times_added_same _ _ _ Hadd)|by rewrite Hadd].
  - by eapply copies_arrive.
  - apply bind_Some in Hg as (st & Hi & Hg). destruct st as [d j|d]; [by eapply copies_dedup|by eapply copies_handle].
Qed.

Lemma group_move_later ts e g g' :
  group_move ts e g = Some g' -> clock (callers g) <= clock (callers g') /\ arrived g `prefix_of` arrived g'.
Proof.
  destruct e as [d| |i m|i]; cbn [group_move].
  1,2: by intros (s & Hs%step_clock & [= <-])%bind_Some.
  - destruct (busy g !! i); [done|]. destruct (String.eqb _ ""); [|simpl]; intros [= <-]; simpl;
      (split; [done|by eexists]).
  - intros (st & Hi & Hg)%bind_Some. destruct st as [d j|d]; simpl in Hg; apply bind_Some in Hg as (s & Hs & Hg).
    + apply (step_clock (Go j)) in Hs. destruct (calls s !! j) as [[| | |? ? [|]]|]; injection Hg as <-; done.
    + by injection Hg as <-.
Qed.

Lemma group_runs_later ts es g g' :
  group_runs ts es g = Some g' -> clock (callers g) <= clock (callers g') /\ arrived g `prefix_of` arrived g'.
Proof.
  revert g. induction es as [|e es IH]; intros g; simpl; [by intros [= <-]|].
  intros (g1 & [H1 H2]%group_move_later & [H3 H4]%IH)%bind_Some. split; [lia|by etrans].
Qed.

Lemma copies_runs ts s0 k t1 ttl' es g g' :
  k <> "" -> in_int64 ttl' -> clock (callers g') - t1 <= ttl' ->
  (forall d, d ∈ arrived g' -> id_of ts (message d) = k -> t1 <= at_time d) ->
  group_inv ts s0 g -> group_runs ts es g = Some g' ->
  copies_inv ts k t1 ttl' g -> copies_inv ts k t1 ttl' g'.
Proof.
  intros Hne Hi64 Hck Harr. revert g. induction es as [|e es IH]; intros g Hinv; simpl; [by intros [= <-]|].
  intros (g1 & Hg & Hr)%bind_Some Hco. pose proof (group_runs_later _ _ _ _ Hr) as [Hc Hp].
  eapply IH; [by eapply group_inv_move|done|]. eapply copies_move; [done|done| | |exact Hinv|exact Hg|done]; [lia|].
  intros d Hd. apply Harr. destruct Hp as [l ->]. apply elem_of_app. by left.
Qed.

(** The handlers' state is what the messages that went to them lead to, in their order. *)
Lemma group_runs_plain ts es ttl' t0 s0 g :
  group_runs ts es (group_begin ttl' t0 s0) = Some g -> deliver_plain ts (dispatched g) s0 = Some (app g).
Proof. intros Hr. eapply gi_app, group_inv_runs; [apply group_begin_inv|exact Hr]. Qed.

Lemma group_copies ts es ttl' t0 s0 g k t1 :
  group_runs ts es (group_begin ttl' t0 s0) = Some g ->
  k <> "" -> in_int64 ttl' -> clock (callers g) - t1 <= ttl' ->
  (forall d, d ∈ arrived g -> id_of ts (message d) = k -> t1 <= at_time d) ->
  (length (copies ts k (dispatched g)) <= 1)%nat /\
  ((exists d, d ∈ arrived g /\ id_of ts (message d) = k) ->
   (forall i st, busy g !! i = Some st -> id_of ts (message (delivery_of st)) <> k) ->
   length (copies ts k (dispatched g)) = 1%nat).
Proof.
  intros Hr Hne Hi64 Hck Harr. assert (copies_inv ts k t1 ttl' g) as [Hk _ Hc Hseen].
  { eapply copies_runs; [done..|apply group_begin_inv|exact Hr|]. constructor; simpl; [by apply start_key|done|done|].
    by intros d ?%not_elem_of_nil. }
  pose proof (ki_added _ _ _ Hk) as Hadd. split; [destruct (entries _ !! k); lia|].
  intros (d & Hd & Hid) Hidle. destruct (Hseen d Hd Hid) as [Hin%added_times|(i & st & Hi & <-)]; [|by destruct (Hidle i st Hi)].
  assert (passing ts k (busy g) = 0%nat) as Hp; [|destruct (entries _ !! k); lia].
  unfold passing. apply map_size_empty_iff, map_empty_filter_2. intros i st Hi. simpl.
  specialize (Hidle i st Hi). destruct st as [|d']; simpl; [done|]. simpl in Hidle. by destruct (String.eqb_spec (id_of ts (message d')) k).
Qed.

Lemma dispatched_arrived ts es ttl' t0 s0 g d :
  group_runs ts es (group_begin ttl' t0 s0) = Some g -> d ∈ dispatched g -> d ∈ arrived g.
Proof.
  intros Hr Hd. pose proof (group_inv_runs _ _ _ _ _ (group_begin_inv ts ttl' t0 s0) Hr) as Hinv.
  assert (forall ds, d ∈ of_channel (channel d) ds <-> d ∈ ds) as Hof.
  { intros ds. unfold of_channel. rewrite !list_elem_of_In, filter_In, Nat.eqb_refl. tauto. }
  rewrite <- Hof in Hd |- *. eapply elem_of_sublist; [|apply (gi_order _ _ _ Hinv)]. apply elem_of_app. by left.
Qed.

(** All copies of a message have come within the time to live, and no goroutine is with one. *)
Definition at_rest (ts : list (Topic S)) (ttl' : duration) (k : string) (g : group_run) : Prop :=
  in_int64 ttl' /\
  (forall d, d ∈ arrived g -> id_of ts (message d) = k -> clock (callers g) - ttl' <= at_time d) /\
  (forall i st, busy g !! i = Some st -> id_of ts (message (delivery_of st)) <> k).

(** A message that came reaches the handler of its topic once, unless messages of other topics
    have the same id. *)
Lemma settled_once ts es ttl' t0 s0 g d name :
  group_runs ts es (group_begin ttl' t0 s0) = Some g ->
  d ∈ arrived g -> id_of ts (message d) <> "" -> at_rest ts ttl' (id_of ts (message d)) g ->
  (forall d', d' ∈ arrived g -> id_of ts (message d') = id_of ts (message d) -> route (message d') = Some name) ->
  length (copies ts (id_of ts (message d)) (filter (fun d => route (message d) = Some name) (dispatched g))) = 1%nat.
Proof.
  intros Hr Hd Hne (Hi & Ht & Hb) Hown. set (k := id_of ts (message d)) in *.
  assert (length (copies ts k (dispatched g)) = 1%nat) as <-.
  { apply (group_copies ts es ttl' t0 s0 g k (clock (callers g) - ttl')); [done..|lia|done|by exists d|done]. }
  f_equal. pose proof (dispatched_arrived ts es ttl' t0 s0 g) as Hsub. revert Hsub.
  induction (dispatched g) as [|d' ds IH]; intros Hsub; [done|]. rewrite filter_cons.
  specialize (IH (fun x Hx Hin => Hsub x Hx (list_elem_of_further _ _ _ Hin))).
  case_decide as Hn; simpl; [by rewrite IH|]. destruct (String.eqb_spec (id_of ts (message d')) k) as [Hk|]; [|done].
  destruct Hn. apply Hown; [apply Hsub; [done|by left]|done].
Qed.

(** C25: a group of redundant channels, whose goroutines interleave in any way with each other
    and with the cleaner of the cache: the handlers' state is what the messages that were let
    through lead to, in the order of their handlers; what is let through of a channel is some of
    what it took, in its order, and of the messages without an id all of it once it is not busy.
    Of all copies of a message with an id, on whatever channels, at most one is let through within
    the time to live from the first of them, and exactly one once no goroutine is with a copy.
    Messages of different channels may be handled in another order than they came in, and a copy
    that comes after the time to live can be let through twice ([expired_entry_added_twice]). *)
Theorem group_handles_once ts es ttl' t0 s0 g :
  group_runs ts es (group_begin ttl' t0 s0) = Some g ->
  deliver_plain ts (dispatched g) s0 = Some (app g) /\
  (forall i, of_channel i (dispatched g) `sublist_of` of_channel i (arrived g)) /\
  (forall i, busy g !! i = None ->
     copies ts "" (of_channel i (dispatched g)) = copies ts "" (of_channel i (arrived g))) /\
  (forall k t1, k <> "" -> in_int64 ttl' -> clock (callers g) - t1 <= ttl' ->
     (forall d, d ∈ arrived g -> id_of ts (message d) = k -> t1 <= at_time d) ->
     (length (copies ts k (dispatched g)) <= 1)%nat /\
     ((exists d, d ∈ arrived g /\ id_of ts (message d) = k) ->
      (forall i st, busy g !! i = Some st -> id_of ts (message (delivery_of st)) <> k) ->
      length (copies ts k (dispatched g)) = 1%nat)).
Proof.
  intros Hr. pose proof (group_inv_runs _ _ _ _ _ (group_begin_inv ts ttl' t0 s0) Hr) as Hinv.
  split; [apply Hinv|]. split; [|split].
  - intros i. etrans; [|apply (gi_order _ _ _ Hinv)]. by apply sublist_inserts_r.
  - intros i Hi. rewrite <- (gi_plain _ _ _ Hinv). unfold pending. by rewrite Hi, app_nil_r.
  - intros k t1. by apply (group_copies ts es ttl' t0 s0).
Qed.

End Group.

(** ** Starting a group (internal/gateways/channel_group.go)

    The goroutines of [ChannelGroup.Start]: one for each channel, whose error goes to a
    buffered Go channel, and the caller, which waits for the first error or the
    cancellation.  A channel's own life is that of Channel.v; here it returns at some point. *)

Module GroupStart.

Local Open Scope nat_scope.

Record group_state := MkGroupState {
  (** the channels whose [Start] has not returned *)
  running : gset nat;
  errCh : list string;
  cancelled : bool;
  (** what [Start] of the group has returned *)
  returned : option (option string);
  (** all errors that channels have returned, in order *)
  failures : list (nat * string)
}.

#[export] Instance eta_group_state : Eta group_state := fun s =>
  MkGroupState (running s) (errCh s) (cancelled s) (returned s) (failures s).

Section GroupStart.
  (** [len(g.channels)] *)
  Context (n : nat).

Definition group_started : group_state := MkGroupState (set_seq 0 n) [] false None [].

(** A send on a full buffer has to wait. *)
Definition has_room (s : group_state) : Prop := length (errCh s) < n.

Inductive group_step (s : group_state) : group_state -> Prop :=
  | channel_fails i err :
      i ∈ running s -> has_room s ->
      group_step s (s <| running ::= fun r => r ∖ {[i]} |> <| errCh ::= fun l => l ++ [err] |>
        <| failures ::= fun l => l ++ [(i, err)] |>)
  | channel_ends i :
      i ∈ running s -> group_step s (s <| running ::= fun r => r ∖ {[i]} |>)
  | ctx_cancelled : group_step s (s <| cancelled := true |>)
  | Start_returns_error err rest :
      returned s = None -> errCh s = err :: rest ->
      group_step s (s <| errCh := rest |> <| returned := Some (Some err) |>)
  | Start_returns_nil :
      returned s = None -> cancelled s = true ->
      group_step s (s <| returned := Some None |>).

Definition group_reachable (s : group_state) : Prop := rtc group_step group_started s.

(** The errors that are in the buffer, or were taken from it, are those of the channels. *)
Record group_ok (s : group_state) : Prop := {
  ok_count : size (running s) + length (failures s) <= n;
  ok_errs : map snd (failures s) = match returned s with Some (Some err) => [err] | _ => [] end ++ errCh s;
  ok_nil : returned s = Some None -> cancelled s = true;
  ok_apart : Forall (fun f => fst f ∉ running s) (failures s);
  ok_once : NoDup (map fst (failures s))
}.

Lemma size_minus (r : gset nat) i : i ∈ r -> S (size (r ∖ {[i]})) = size r.
Proof.
  intros Hi. rewrite size_difference by set_solver. rewrite size_singleton.
  assert (size r <> 0); [|lia]. intros H0%size_empty_inv. set_solver.
Qed.

Lemma group_step_ok s s' : group_ok s -> group_step s s' -> group_ok s'.
Proof.
  intros [Hc He Hn Ha Ho] Hs. destruct Hs as [i err Hi Hr|i Hi| |err rest Hr Hq|Hr Hx]; split; simpl; try done.
  - rewrite length_app. simpl. pose proof (size_minus _ _ Hi). lia.
  - rewrite map_app, He. simpl. by rewrite <- app_assoc.
  - apply Forall_app. split; [|apply Forall_singleton; simpl; set_solver]. eapply Forall_impl; [exact Ha|]. cbn. set_solver.
  - rewrite map_app. apply NoDup_app. split; [done|]. split; [|by apply NoDup_singleton].
    intros j Hj ->%list_elem_of_singleton. apply list_elem_of_In, in_map_iff in Hj as (f & Hf & Hin%list_elem_of_In).
    rewrite Forall_forall in Ha. apply (Ha f Hin). by rewrite Hf.
  - pose proof (size_minus _ _ Hi). lia.
  - eapply Forall_impl; [exact Ha|]. cbn. set_solver.
  - rewrite Hr, Hq in He. done.
  - by rewrite Hr in He.
Qed.

Lemma group_started_ok : group_ok group_started.
Proof.
  split; simpl; try done; [|apply NoDup_nil_2].
  assert (size (set_seq 0 n : gset nat) = n) as ->; [|lia].
  rewrite <- (length_seq n 0) at 2. rewrite <- list_to_set_seq. apply size_list_to_set, NoDup_seq.
Qed.

(** No channel that fails has to wait, whatever [Start] of the group is doing: the buffer
    has room for one error of every channel.  [Start] returns nil only when it was cancelled,
    and otherwise the error of the channel that failed first; it never returns
    twice, and a failure ends no other channel. *)
Theorem group_start_spec s :
  group_reachable s ->
  (forall i, i ∈ running s -> has_room s) /\
  (forall err, returned s = Some (Some err) -> exists i, head (failures s) = Some (i, err)) /\
  (returned s = Some None -> cancelled s = true) /\
  NoDup (map fst (failures s)) /\
  (forall s' r, group_step s s' -> returned s = Some r -> returned s' = Some r) /\
  (forall s' i, group_step s s' -> i ∈ running s -> i ∉ running s' -> running s' = running s ∖ {[i]}).
Proof.
  intros Hr. assert (group_ok s) as [Hc He Hn Ha Ho].
  { assert (group_ok group_started) as H0 by apply group_started_ok. revert H0.
    induction Hr as [|s1 s2 s3 H12 _ IH]; [done|]. intros H1. apply IH. by eapply group_step_ok. }
  split_and!; try done.
  - intros i Hi. unfold has_room. assert (length (errCh s) <= length (failures s)).
    { rewrite <- (length_map snd (failures s)), He, length_app. lia. }
    pose proof (size_minus _ _ Hi). lia.
  - intros err Hret. rewrite Hret in He. destruct (failures s) as [|[i e] l]; [done|].
    injection He as -> _. by exists i.
  - intros s' r Hs Hret. destruct Hs; simpl; congruence.
  - intros s' i Hs Hi Hi'. destruct Hs as [j err Hj _|j Hj| |err rest _ _|_ _]; simpl in *; try done.
    all: destruct (decide (i = j)) as [->|Hij]; [done|]; destruct Hi'.
    all: apply elem_of_difference; split; [done|by apply not_elem_of_singleton].
Qed.

End GroupStart.

(** A group of two channels, the first of which cannot connect. *)
Lemma group_start_spec_witness :
  exists s, group_reachable 2 s /\ returned s = Some (Some "dial"%string) /\ 1 ∈ running s /\ has_room 2 s.
Proof.
  eexists. assert (group_reachable 2 ((group_started 2) <| running ::= fun r => r ∖ {[0]} |> <| errCh := [] |>
    <| failures := [(0, "dial"%string)] |> <| returned := Some (Some "dial"%string) |>)) as Hr.
  { eapply rtc_l; [apply (channel_fails _ _ 0 "dial"%string)|].
    - apply elem_of_set_seq. lia.
    - unfold has_room. simpl. lia.
    - eapply rtc_l; [by apply (Start_returns_error _ _ "dial"%string [])|]. apply rtc_refl. }
  split; [exact Hr|]. split; [done|].
  assert (1 ∈ running ((group_started 2) <| running ::= fun r => r ∖ {[0]} |> <| errCh := [] |>
    <| failures := [(0, "dial"%string)] |> <| returned := Some (Some "dial"%string) |>)) as H1
    by (apply elem_of_difference; split; [apply elem_of_set_seq; lia|by apply not_elem_of_singleton]).
  split; [exact H1|].
  destruct (group_start_spec 2 _ Hr) as (Hroom & _). by apply (Hroom 1).
Defined.

End GroupStart.
