(* ===== verification/BybitTopics.v ===== *)
(** * Topics of Bybit (internal/gateways/exchanges/bybit/ws/topics)

    The handlers of a topic are functions on the state [S] of the application.
    Subscription requests, and the answers to them, which are only logged, are
    left out. *)

From S2P Require Import Prelude GoStd Decimal QDecimal Domains Symbol Errors MutexMap Order OrderData.
From S2P Require Import BTree PriceLevel OrderBook Quote Trade Translate BybitMessages.
From S2P Require Import TTLCache Json Topic.
Local Open Scope Z_scope.

(** ** The messages, as they are decoded *)

Record OrderMsgDto := MkOrderMsgDto {
  om_Topic : string;
  om_ID : string;
  om_CreationTime : Z;
  om_DataDto : list (option OrderDataDto)
}.

Record PositionMsgDto := MkPositionMsgDto {
  pm_Topic : string;
  pm_ID : string;
  pm_CreationTime : Z;
  pm_DataDto : list (option PositionDataDto)
}.

#[export] Instance eta_OBDataDto : Eta OBDataDto := fun d => MkOBDataDto (ob_Bids d) (ob_Asks d) (UpdateID d).
#[export] Instance eta_OrderBookMsgDto : Eta OrderBookMsgDto := fun d =>
  MkOrderBookMsgDto (obm_Topic d) (obm_Type d) (obm_Ts d) (obm_Data d).
#[export] Instance eta_TradeDataDto : Eta TradeDataDto := fun d =>
  MkTradeDataDto (t_Timestamp d) (t_TradeID d) (t_Symbol d) (t_Side d) (t_Volume d) (t_Price d).
#[export] Instance eta_TradeMsgDto : Eta TradeMsgDto := fun d =>
  MkTradeMsgDto (t_Topic d) (t_Type d) (t_Ts d) (t_DataDto d).
#[export] Instance eta_OrderDataDto : Eta OrderDataDto := fun d =>
  MkOrderDataDto (od_OrderLinkID d) (od_OrderID d) (od_Side d) (od_Price d) (od_Qty d) (od_Fee d)
    (od_AvgPrice d) (od_CumExecQty d) (od_Category d) (od_Symbol d) (od_UpdatedTimeMs d) (od_OrderStatus d).
#[export] Instance eta_OrderMsgDto : Eta OrderMsgDto := fun d =>
  MkOrderMsgDto (om_Topic d) (om_ID d) (om_CreationTime d) (om_DataDto d).
#[export] Instance eta_PositionDataDto : Eta PositionDataDto := fun d =>
  MkPositionDataDto (PositionIdx d) (PositionValue d) (p_Side d) (p_Qty d) (p_Category d) (p_Symbol d)
    (p_UpdatedTimeMs d).
#[export] Instance eta_PositionMsgDto : Eta PositionMsgDto := fun d =>
  MkPositionMsgDto (pm_Topic d) (pm_ID d) (pm_CreationTime d) (pm_DataDto d).

Definition zero_OBDataDto : OBDataDto := MkOBDataDto [] [] 0.
Definition zero_OrderBookMsgDto : OrderBookMsgDto := MkOrderBookMsgDto "" "" 0 zero_OBDataDto.
Definition zero_TradeDataDto : TradeDataDto := MkTradeDataDto 0 "" "" "" "" "".
Definition zero_TradeMsgDto : TradeMsgDto := MkTradeMsgDto "" "" 0 [].
Definition zero_OrderDataDto : OrderDataDto := MkOrderDataDto "" "" "" "" "" "" "" "" "" "" "" "".
Definition zero_OrderMsgDto : OrderMsgDto := MkOrderMsgDto "" "" 0 [].
Definition zero_PositionDataDto : PositionDataDto := MkPositionDataDto 0 "" "" "" "" "" "".
Definition zero_PositionMsgDto : PositionMsgDto := MkPositionMsgDto "" "" 0 [].

Definition dec_rows : decoder (list (list string)) := dec_slice [] (dec_slice ""%string dec_string).

Definition dec_OBDataDto : decoder OBDataDto := dec_struct
  [field "b" ob_Bids dec_rows; field "a" ob_Asks dec_rows; field "u" UpdateID dec_int64].

Definition dec_OrderBookMsgDto : decoder OrderBookMsgDto := dec_struct
  [field "topic" obm_Topic dec_string; field "type" obm_Type dec_string;
   field "ts" obm_Ts dec_int64; field "data" obm_Data dec_OBDataDto].

Definition dec_TradeDataDto : decoder TradeDataDto := dec_struct
  [field "T" t_Timestamp dec_int64; field "i" t_TradeID dec_string; field "s" t_Symbol dec_string;
   field "S" t_Side dec_string; field "v" t_Volume dec_string; field "p" t_Price dec_string].

Definition dec_TradeMsgDto : decoder TradeMsgDto := dec_struct
  [field "topic" t_Topic dec_string; field "type" t_Type dec_string; field "ts" t_Ts dec_int64;
   field "data" t_DataDto (dec_slice None (dec_ptr zero_TradeDataDto dec_TradeDataDto))].

Definition dec_OrderDataDto : decoder OrderDataDto := dec_struct
  [field "orderLinkId" od_OrderLinkID dec_string; field "orderId" od_OrderID dec_string;
   field "side" od_Side dec_string; field "price" od_Price dec_string; field "qty" od_Qty dec_string;
   field "cumExecFee" od_Fee dec_string; field "avgPrice" od_AvgPrice dec_string;
   field "cumExecQty" od_CumExecQty dec_string; field "category" od_Category dec_string;
   field "symbol" od_Symbol dec_string; field "updatedTime" od_UpdatedTimeMs dec_string;
   field "orderStatus" od_OrderStatus dec_string].

Definition dec_OrderMsgDto : decoder OrderMsgDto := dec_struct
  [field "topic" om_Topic dec_string; field "id" om_ID dec_string;
   field "creationTime" om_CreationTime dec_int64;
   field "data" om_DataDto (dec_slice None (dec_ptr zero_OrderDataDto dec_OrderDataDto))].

Definition dec_PositionDataDto : decoder PositionDataDto := dec_struct
  [field "positionIdx" PositionIdx dec_int64; field "positionValue" PositionValue dec_string;
   field "side" p_Side dec_string; field "size" p_Qty dec_string; field "category" p_Category dec_string;
   field "symbol" p_Symbol dec_string; field "updatedTime" p_UpdatedTimeMs dec_string].

Definition dec_PositionMsgDto : decoder PositionMsgDto := dec_struct
  [field "topic" pm_Topic dec_string; field "id" pm_ID dec_string;
   field "creationTime" pm_CreationTime dec_int64;
   field "data" pm_DataDto (dec_slice None (dec_ptr zero_PositionDataDto dec_PositionDataDto))].

(** ** topicBase *)

(** The anonymous structs of [MessageID] and [MeasureLatency]. *)
Record base_msg := MkBaseMsg { b_Topic : string; b_Ts : Z; b_CreationTime : Z }.

#[export] Instance eta_base_msg : Eta base_msg := fun m => MkBaseMsg (b_Topic m) (b_Ts m) (b_CreationTime m).

Definition zero_base_msg : base_msg := MkBaseMsg "" 0 0.

Definition BaseMessageID (rawMsg : raw) : string :=
  match Unmarshal (dec_struct [field "topic" b_Topic dec_string; field "ts" b_Ts dec_int64])
          zero_base_msg rawMsg with
  | None => ""
  | Some msg =>
      if String.eqb (b_Topic msg) "" || (b_Ts msg =? 0) then ""
      else (b_Topic msg +:+ ":" +:+ FormatInt (b_Ts msg))%string
  end.

(** ** The manager *)

Definition getTopicName (rawMsg : raw) : option string :=
  Unmarshal (dec_struct [("topic"%string, dec_string)]) ""%string rawMsg.

Record Manager (S : Type) := MkManager { topicMap : gmap string (Topic S) }.
Arguments MkManager {S} _.
Arguments topicMap {S} _.

Definition NewBybitManager {S} : Manager S := MkManager ∅.

Definition BybitSetTopics {S} (ts : list (Topic S)) (mg : Manager S) : Manager S :=
  MkManager (set_topics ts (topicMap mg)).

Definition BybitHandleTopicMessage {S} (mg : Manager S) (timestamp : time) (rawMsg : raw) (s : S) : handled S :=
  match getTopicName rawMsg with
  | None => Erred s
  | Some name =>
      if String.eqb name "" then Handled s
      else
        match topicMap mg !! name with
        | Some t => MsgHandler t timestamp rawMsg s
        | None => Handled s
        end
  end.

(** [None]: an error; the empty name: nothing is measured. *)
Definition MeasureLatency (now : time) (rawMsg : raw) : option (string * duration) :=
  msg ← Unmarshal (dec_struct [field "creationTime" b_CreationTime dec_int64; field "ts" b_Ts dec_int64;
                     field "topic" b_Topic dec_string]) zero_base_msg rawMsg;
  let t := b_Ts msg in
  let t := if t =? 0 then b_CreationTime msg else t in
  if t =? 0 then Some (""%string, 0)
  else Some (b_Topic msg, time_Sub now (UnixMilli t)).

#[export] Instance bybit_manager : TopicManager Manager := {|
  NewManager S := NewBybitManager;
  SetTopics S := BybitSetTopics;
  HandleTopicMessage S := BybitHandleTopicMessage;
  route := getTopicName
|}.

#[export] Instance bybit_manager_laws : TopicManagerLaws Manager.
Proof.
  constructor. intros S ts timestamp rawMsg s Hn. simpl. unfold BybitHandleTopicMessage.
  destruct (getTopicName rawMsg) as [name|]; [|done]. simpl.
  rewrite set_topics_lookup, lookup_empty. destruct (String.eqb_spec name "") as [->|Hne].
  - destruct (find_topic "" ts) as [t|] eqn:Hf; [|done]. exfalso.
    apply find_some in Hf as [Hin He]. apply String.eqb_eq in He.
    apply list_elem_of_In in Hin. rewrite elem_of_reverse in Hin. unfold named in Hn. rewrite Forall_forall in Hn.
    by apply (Hn _ Hin).
  - by destruct (find_topic name ts).
Qed.

(** ** The topics *)

Section Topics.
  Context {D : Decimal} {RT : GoRuntime} {S : Type}.

(** All handlers of a topic, one after the other. *)
Definition call_all {A} (handlers : list (A -> S -> S)) (data : A) (s : S) : S :=
  foldl (fun s h => h data s) s handlers.

Definition NewOrderBookTopic (symbol : Symbol.Symbol) (depth : Z)
    (dataHandlers : list (OrderBookData -> S -> S)) : Topic S := {|
  TopicName := ("orderbook." +:+ FormatInt depth +:+ "." +:+ Symbol.Name symbol)%string;
  MessageID := BaseMessageID;
  MsgHandler ts rawMsg s :=
    match Unmarshal (dec_ptr zero_OrderBookMsgDto dec_OrderBookMsgDto) (Some zero_OrderBookMsgDto) rawMsg with
    | None => Handled s
    | Some dto =>
        match dto ← deref dto; TranslateOrderBook ts dto with
        | Ok data => Handled (call_all dataHandlers data s)
        | Failed => Erred s
        | Panic => Panicked
        end
    end
|}.

Definition NewTradeTopic (symbol : Symbol.Symbol) (dataHandlers : list (list TradeData -> S -> S)) :
    Topic S := {|
  TopicName := ("publicTrade." +:+ Symbol.Name symbol)%string;
  MessageID := BaseMessageID;
  MsgHandler ts rawMsg s :=
    match Unmarshal (dec_ptr zero_TradeMsgDto dec_TradeMsgDto) (Some zero_TradeMsgDto) rawMsg with
    | None => Erred s
    | Some dto =>
        match dto ← deref dto; TranslateDatas ts dto with
        | Ok datas => Handled (call_all dataHandlers datas s)
        | Failed => Handled s
        | Panic => Panicked
        end
    end
|}.

(** The loop that collects the data of a message by symbol. *)
Definition collect {A B} (translate : A -> result B) (symbol_of : A -> nat) (dtos : list (option A)) :
    result (gmap nat (list B)) :=
  foldl (fun r dto =>
    datasBySymbol ← r;
    dto ← deref dto;
    data ← translate dto;
    let symbol := symbol_of dto in
    match datasBySymbol !! symbol with
    | Some datas => Ok (<[symbol := datas ++ [data]]> datasBySymbol)
    | None => Ok (<[symbol := [data]]> datasBySymbol)
    end) (Ok ∅) dtos.

(** The loop over the map; [n] is its number. *)
Definition dispatch {B} (n : nat) (handlersMap : gmap nat (list (list B -> S -> S)))
    (datasBySymbol : gmap nat (list B)) (s : S) : S :=
  foldl (fun s '(symbol, datas) =>
    match handlersMap !! symbol with
    | Some handlers => call_all handlers datas s
    | None => s
    end) s (MutexMap.entries n datasBySymbol).

Definition bybit_symbol (r : registry) (category symbol : string) : nat :=
  GetSymbol r ("Bybit_" +:+ category +:+ "_" +:+ symbol)%string.

Definition SetHandlers {B} (symbol : nat) (handler : list B -> S -> S)
    (handlersMap : gmap nat (list (list B -> S -> S))) : gmap nat (list (list B -> S -> S)) :=
  match handlersMap !! symbol with
  | Some handlers => <[symbol := handlers ++ [handler]]> handlersMap
  | None => <[symbol := [handler]]> handlersMap
  end.

Definition NewOrderTopic (n : nat) (r : registry)
    (handlersMap : gmap nat (list (list OrderData.OrderData -> S -> S))) : Topic S := {|
  TopicName := "order";
  MessageID := BaseMessageID;
  MsgHandler timestamp rawMsg s :=
    match Unmarshal (dec_ptr zero_OrderMsgDto dec_OrderMsgDto) (Some zero_OrderMsgDto) rawMsg with
    | None => Erred s
    | Some msgDto =>
        match msgDto ← deref msgDto;
              collect (TranslateOrderData (Some timestamp))
                (fun d => bybit_symbol r (od_Category d) (od_Symbol d)) (om_DataDto msgDto) with
        | Ok datasBySymbol => Handled (dispatch n handlersMap datasBySymbol s)
        | Failed => Erred s
        | Panic => Panicked
        end
    end
|}.

Definition NewPositionTopic (n : nat) (r : registry)
    (handlersMap : gmap nat (list (list PositionData -> S -> S))) : Topic S := {|
  TopicName := "position";
  MessageID := BaseMessageID;
  MsgHandler _ rawMsg s :=
    match Unmarshal (dec_ptr zero_PositionMsgDto dec_PositionMsgDto) (Some zero_PositionMsgDto) rawMsg with
    | None => Erred s
    | Some msgDto =>
        match msgDto ← deref msgDto;
              collect TranslatePosition
                (fun d => bybit_symbol r (p_Category d) (p_Symbol d)) (pm_DataDto msgDto) with
        | Ok datasBySymbol => Handled (dispatch n handlersMap datasBySymbol s)
        | Failed => Erred s
        | Panic => Panicked
        end
    end
|}.

End Topics.
