(* ===== verification/CoinExTopics.v ===== *)
(** * Topics of CoinEx (internal/gateways/exchanges/coinex/ws/topics)

    Subscription requests, and the answers to them, which are only logged, are
    left out. *)

From S2P Require Import Prelude GoStd Decimal QDecimal Domains Symbol Errors MutexMap Order OrderData.
From S2P Require Import BTree PriceLevel OrderBook Quote Trade Translate CoinExMessages.
From S2P Require Import TTLCache Json Topic.
Local Open Scope Z_scope.

Definition chanBT : string := "bbo.update".
Definition chanOB : string := "depth.update".
Definition chanTrade : string := "deals.update".
Definition chanOrder : string := "order.update".
Definition chanPos : string := "position.update".

(** ** The messages, as they are decoded *)

#[export] Instance eta_BTDataDto : Eta BTDataDto := fun d =>
  MkBTDataDto (bt_Symbol d) (bt_Ts d) (BidPrice d) (BidSize d) (AskPrice d) (AskSize d).
#[export] Instance eta_OBRawData : Eta OBRawData := fun d => MkOBRawData (ob_UpdatedAt d) (ob_Bids d) (ob_Asks d).
#[export] Instance eta_OBDeltaDataDto : Eta OBDeltaDataDto := fun d =>
  MkOBDeltaDataDto (ob_Symbol d) (IsSnapshot d) (Depth d).
#[export] Instance eta_TradeDataDto : Eta TradeDataDto := fun d =>
  MkTradeDataDto (DealID d) (TransactionTime d) (t_Side d) (t_Price d) (t_Volume d).
#[export] Instance eta_OrderDataDto : Eta OrderDataDto := fun d =>
  MkOrderDataDto (od_Event d) (od_OrderID d) (od_Market d) (od_Side d) (od_Type d) (od_Amount d) (od_Price d)
    (od_UnfilledAmount d) (od_FilledAmount d) (od_FilledValue d) (od_Fee d) (od_FeeCcy d) (od_TakerFeeRate d)
    (od_MakerFeeRate d) (od_ClientID d) (od_LastFilledAmount d) (od_LastFilledPrice d) (od_CreatedAt d)
    (od_UpdatedAt d).
#[export] Instance eta_PositionDataDto : Eta PositionDataDto := fun d =>
  MkPositionDataDto (p_Event d) (p_Market d) (p_Side d) (p_OpenInterest d) (p_CreatedAt d) (p_UpdatedAt d).

Definition zero_BTDataDto : BTDataDto := MkBTDataDto "" 0 "" "" "" "".
Definition zero_OBRawData : OBRawData := MkOBRawData 0 [] [].
Definition zero_OBDeltaDataDto : OBDeltaDataDto := MkOBDeltaDataDto "" false zero_OBRawData.
Definition zero_TradeDataDto : TradeDataDto := MkTradeDataDto 0 0 "" "" "".
Definition zero_OrderDataDto : OrderDataDto :=
  MkOrderDataDto "" 0 "" "" "" "" "" "" "" "" "" "" "" "" "" "" "" 0 0.
Definition zero_PositionDataDto : PositionDataDto := MkPositionDataDto "" "" "" "" 0 0.

(** A struct with one field is what the field holds. *)
Definition dec_only {A} (name : string) (d : decoder A) : decoder A := dec_struct [(name, d)].

Definition dec_rows : decoder (list (list string)) := dec_slice [] (dec_slice ""%string dec_string).

Definition dec_BookTickerMsgDto : decoder BTDataDto := dec_only "data" (dec_struct
  [field "market" bt_Symbol dec_string; field "updated_at" bt_Ts dec_int64;
   field "best_bid_price" BidPrice dec_string; field "best_bid_size" BidSize dec_string;
   field "best_ask_price" AskPrice dec_string; field "best_ask_size" AskSize dec_string]).

Definition dec_OBRawData : decoder OBRawData := dec_struct
  [field "updated_at" ob_UpdatedAt dec_int64; field "bids" ob_Bids dec_rows; field "asks" ob_Asks dec_rows].

Definition dec_OrderBookMsgDto : decoder OBDeltaDataDto := dec_only "data" (dec_struct
  [field "market" ob_Symbol dec_string; field "is_full" IsSnapshot dec_bool; field "depth" Depth dec_OBRawData]).

Definition dec_TradeDataDto : decoder TradeDataDto := dec_struct
  [field "deal_id" DealID dec_int64; field "created_at" TransactionTime dec_int64;
   field "side" t_Side dec_string; field "price" t_Price dec_string; field "amount" t_Volume dec_string].

Definition dec_TradeMsgDto : decoder (list (option TradeDataDto)) :=
  dec_only "data" (dec_only "deal_list" (dec_slice None (dec_ptr zero_TradeDataDto dec_TradeDataDto))).

(** The struct [Order] inside [OrderDataDto], and [OrderDataDto]. *)
Definition dec_order : decoder OrderDataDto := dec_struct
  [field "order_id" od_OrderID dec_int64; field "market" od_Market dec_string; field "side" od_Side dec_string;
   field "type" od_Type dec_string; field "amount" od_Amount dec_string; field "price" od_Price dec_string;
   field "unfilled_amount" od_UnfilledAmount dec_string; field "filled_amount" od_FilledAmount dec_string;
   field "filled_value" od_FilledValue dec_string; field "fee" od_Fee dec_string;
   field "fee_ccy" od_FeeCcy dec_string; field "taker_fee_rate" od_TakerFeeRate dec_string;
   field "maker_fee_rate" od_MakerFeeRate dec_string; field "client_id" od_ClientID dec_string;
   field "last_filled_amount" od_LastFilledAmount dec_string;
   field "last_filled_price" od_LastFilledPrice dec_string;
   field "created_at" od_CreatedAt dec_int64; field "updated_at" od_UpdatedAt dec_int64].

Definition dec_OrderMsgDto : decoder (option OrderDataDto) := dec_only "data"
  (dec_ptr zero_OrderDataDto (dec_struct [field "event" od_Event dec_string; ("order"%string, dec_order)])).

Definition dec_position : decoder PositionDataDto := dec_struct
  [field "market" p_Market dec_string; field "side" p_Side dec_string;
   field "open_interest" p_OpenInterest dec_string; field "created_at" p_CreatedAt dec_int64;
   field "updated_at" p_UpdatedAt dec_int64].

(** [Method] and [ID] of the message are not used; a method that is no string is an error. *)
Definition dec_PositionMsgDto : decoder (string * option PositionDataDto) := dec_struct
  [("method"%string, fun m j => let '(x, ok) := dec_string (fst m) j in ((x, snd m), ok));
   ("data"%string, fun m j =>
      let '(x, ok) := dec_ptr zero_PositionDataDto
        (dec_struct [field "event" p_Event dec_string; ("position"%string, dec_position)]) (snd m) j in
      ((fst m, x), ok))].

(** ** The manager *)

(** The anonymous struct of [getTopicName]. *)
Record name_msg := MkNameMsg { n_Method : string; n_Symbol : string; n_Order : string; n_Position : string }.

#[export] Instance eta_name_msg : Eta name_msg := fun m =>
  MkNameMsg (n_Method m) (n_Symbol m) (n_Order m) (n_Position m).

Definition dec_name_msg : decoder name_msg := dec_struct
  [field "method" n_Method dec_string;
   ("data"%string, dec_struct
     [field "market" n_Symbol dec_string;
      ("order"%string, dec_struct [field "market" n_Order dec_string]);
      ("position"%string, dec_struct [field "market" n_Position dec_string])])].

Definition getTopicName (rawMsg : raw) : option string :=
  msg ← Unmarshal dec_name_msg (MkNameMsg "" "" "" "") rawMsg;
  let method := n_Method msg in
  Some (if String.eqb method chanBT then ("bookTicker@" +:+ n_Symbol msg)%string
        else if String.eqb method chanOB then ("orderBook@" +:+ n_Symbol msg)%string
        else if String.eqb method chanTrade then ("trade@" +:+ n_Symbol msg)%string
        else if String.eqb method chanOrder then ("personal.order@" +:+ n_Order msg)%string
        else if String.eqb method chanPos then ("personal.position@" +:+ n_Position msg)%string
        else ""%string).

Record Manager (S : Type) := MkManager { topicMap : gmap string (Topic S) }.
Arguments MkManager {S} _.
Arguments topicMap {S} _.

Definition NewCoinExManager {S} : Manager S := MkManager ∅.

Definition CoinExSetTopics {S} (ts : list (Topic S)) (mg : Manager S) : Manager S :=
  MkManager (set_topics ts (topicMap mg)).

Definition CoinExHandleTopicMessage {S} (mg : Manager S) (timestamp : time) (rawMsg : raw) (s : S) : handled S :=
  match getTopicName rawMsg with
  | None => Erred s
  | Some name =>
      match topicMap mg !! name with
      | Some t => MsgHandler t timestamp rawMsg s
      | None => Handled s
      end
  end.

(** The anonymous struct of [MeasureLatency]. *)
Record latency_msg := MkLatencyMsg { l_UpdatedAt : Z; l_DepthUpdatedAt : Z; l_DealList : list Z }.

#[export] Instance eta_latency_msg : Eta latency_msg := fun m =>
  MkLatencyMsg (l_UpdatedAt m) (l_DepthUpdatedAt m) (l_DealList m).

Definition dec_latency_msg : decoder latency_msg := dec_only "data" (dec_struct
  [field "updated_at" l_UpdatedAt dec_int64;
   ("depth"%string, dec_struct [field "updated_at" l_DepthUpdatedAt dec_int64]);
   field "deal_list" l_DealList (dec_slice 0 (dec_only "created_at" dec_int64))]).

(** [None]: an error; the empty name: nothing is measured. *)
Definition MeasureLatency (now : time) (rawMsg : raw) : option (string * duration) :=
  msg ← Unmarshal dec_latency_msg (MkLatencyMsg 0 0 []) rawMsg;
  name ← getTopicName rawMsg;
  let ts := l_UpdatedAt msg in
  let ts := if ts =? 0 then l_DepthUpdatedAt msg else ts in
  let ts := match l_DealList msg with
            | createdAt :: _ => if ts =? 0 then createdAt else ts
            | [] => ts
            end in
  if ts =? 0 then Some (""%string, 0)
  else Some (name, time_Sub now (UnixMilli ts)).

#[export] Instance coinex_manager : TopicManager Manager := {|
  NewManager S := NewCoinExManager;
  SetTopics S := CoinExSetTopics;
  HandleTopicMessage S := CoinExHandleTopicMessage;
  route := getTopicName
|}.

#[export] Instance coinex_manager_laws : TopicManagerLaws Manager.
Proof.
  constructor. intros S ts timestamp rawMsg s Hn. simpl. unfold CoinExHandleTopicMessage.
  destruct (getTopicName rawMsg) as [name|]; [|done]. simpl.
  rewrite set_topics_lookup, lookup_empty. by destruct (find_topic name ts).
Qed.

(** ** The topics *)

Section Topics.
  Context {D : Decimal} {S : Type}.

(** All handlers of a topic, one after the other, on what was translated. *)
Definition finish {A} (handlers : list (A -> S -> S)) (r : result A) (s : S) : handled S :=
  match r with
  | Ok data => Handled (foldl (fun s h => h data s) s handlers)
  | Failed => Erred s
  | Panic => Panicked
  end.

Definition OrderBookMessageID (rawMsg : raw) : string :=
  match Unmarshal (dec_only "data" (dec_only "depth" (dec_only "updated_at" dec_int64))) 0 rawMsg with
  | None => ""
  | Some updatedAt => if updatedAt =? 0 then "" else ("ob:" +:+ FormatInt updatedAt)%string
  end.

Definition NewOrderBookTopic (symbol : Symbol.Symbol) (dataHandlers : list (OrderBookData -> S -> S)) : Topic S := {|
  TopicName := ("orderBook@" +:+ Symbol.Name symbol)%string;
  MessageID := OrderBookMessageID;
  MsgHandler ts rawMsg s :=
    match Unmarshal dec_OrderBookMsgDto zero_OBDeltaDataDto rawMsg with
    | None => Erred s
    | Some dto => finish dataHandlers (TranslateOrderBook ts dto) s
    end
|}.

Definition BookTickerMessageID (rawMsg : raw) : string :=
  match Unmarshal (dec_only "data" (dec_only "updated_at" dec_int64)) 0 rawMsg with
  | None => ""
  | Some updatedAt => if updatedAt =? 0 then "" else ("bbo:" +:+ FormatInt updatedAt)%string
  end.

Definition NewBookTickerTopic (symbol : Symbol.Symbol) (dataHandlers : list (QuoteData -> S -> S)) : Topic S := {|
  TopicName := ("bookTicker@" +:+ Symbol.Name symbol)%string;
  MessageID := BookTickerMessageID;
  MsgHandler ts rawMsg s :=
    match Unmarshal dec_BookTickerMsgDto zero_BTDataDto rawMsg with
    | None => Erred s
    | Some dto => finish dataHandlers (TranslateBookTicker ts dto) s
    end
|}.

Definition TradeMessageID (rawMsg : raw) : string :=
  match Unmarshal (dec_only "data" (dec_only "deal_list" (dec_slice 0 (dec_only "deal_id" dec_int64)))) [] rawMsg with
  | Some (dealID :: _) => ("trade:" +:+ FormatInt dealID)%string
  | _ => ""
  end.

Definition NewTradeTopic (symbol : Symbol.Symbol) (dataHandlers : list (list TradeData -> S -> S)) : Topic S := {|
  TopicName := ("trade@" +:+ Symbol.Name symbol)%string;
  MessageID := TradeMessageID;
  MsgHandler ts rawMsg s :=
    match Unmarshal dec_TradeMsgDto [] rawMsg with
    | None => Erred s
    | Some dto => finish dataHandlers (TranslateToDatas ts dto) s
    end
|}.

Definition OrderMessageID (rawMsg : raw) : string :=
  match Unmarshal (dec_only "data" (dec_only "order" (dec_struct
          [field "order_id" od_OrderID dec_int64; field "updated_at" od_UpdatedAt dec_int64])))
          zero_OrderDataDto rawMsg with
  | None => ""
  | Some order =>
      if od_OrderID order =? 0 then ""
      else ("order:" +:+ FormatInt (od_OrderID order) +:+ ":" +:+ FormatInt (od_UpdatedAt order))%string
  end.

Definition NewOrderTopic (symbol : Symbol.Symbol) (dataHandlers : list (list OrderData.OrderData -> S -> S)) :
    Topic S := {|
  TopicName := ("personal.order@" +:+ Symbol.Name symbol)%string;
  MessageID := OrderMessageID;
  MsgHandler timestamp rawMsg s :=
    match Unmarshal dec_OrderMsgDto None rawMsg with
    | None => Erred s
    | Some data =>
        finish dataHandlers (data ← deref data; data ← TranslateOrderData (Some timestamp) data; Ok [data]) s
    end
|}.

Definition PositionMessageID (rawMsg : raw) : string :=
  match Unmarshal (dec_only "data" (dec_only "position" (dec_struct
          [field "market" p_Market dec_string; field "side" p_Side dec_string;
           field "updated_at" p_UpdatedAt dec_int64]))) zero_PositionDataDto rawMsg with
  | None => ""
  | Some position =>
      if String.eqb (p_Market position) "" then ""
      else ("pos:" +:+ p_Market position +:+ ":" +:+ p_Side position +:+ ":" +:+
            FormatInt (p_UpdatedAt position))%string
  end.

Definition NewPositionTopic (symbol : Symbol.Symbol) (dataHandlers : list (list PositionData -> S -> S)) :
    Topic S := {|
  TopicName := ("personal.position@" +:+ Symbol.Name symbol)%string;
  MessageID := PositionMessageID;
  MsgHandler _ rawMsg s :=
    match Unmarshal dec_PositionMsgDto (""%string, None) rawMsg with
    | None => Erred s
    | Some (_, data) =>
        finish dataHandlers (data ← deref data; data ← TranslatePosition data; Ok [data]) s
    end
|}.

End Topics.
