(* ===== verification/TopicsProps.v ===== *)
(** * Properties of the topics of both exchanges *)

From S2P Require Import Prelude GoStd Decimal QDecimal Domains Symbol Errors MutexMap Order OrderData.
From S2P Require Import BTree PriceLevel OrderBook Quote Trade Translate BybitMessages CoinExMessages MessagesProps.
From S2P Require Import TTLCache TTLCacheProps Json Topic ChannelGroup BybitTopics CoinExTopics.
Local Open Scope Z_scope.

(** ** Identifiers of messages *)

(** The characters of a printed number are digits or a sign. *)
Fixpoint has_char (c : ascii) (s : string) : bool :=
  match s with EmptyString => false | String x s => Ascii.eqb x c || has_char c s end.

Lemma uint_no_colon u : has_char ":" (DecimalString.NilEmpty.string_of_uint u) = false.
Proof. induction u; simpl; auto. Qed.

Lemma FormatInt_no_colon z : has_char ":" (FormatInt z) = false.
Proof.
  unfold FormatInt. destruct (Z.to_int z) as [u|u]; simpl.
  all: unfold DecimalString.NilZero.string_of_uint; destruct u; try done; apply uint_no_colon.
Qed.

Lemma has_char_append c (a b : string) : has_char c (a +:+ String c b)%string = true.
Proof.
  induction a as [|x a IH]; rewrite ?append_nil, ?append_cons; simpl; [by rewrite Ascii.eqb_refl|].
  by rewrite IH, orb_true_r.
Qed.

(** What stands before the last separator is determined. *)
Lemma last_separator a b x y :
  has_char ":" x = false -> has_char ":" y = false ->
  (a +:+ ":" +:+ x)%string = (b +:+ ":" +:+ y)%string -> a = b /\ x = y.
Proof.
  intros Hx Hy. revert b. induction a as [|c a IH]; intros [|d b];
    rewrite ?append_nil, ?append_cons, ?append_nil; intros E; injection E.
  - by intros ->.
  - intros -> _. change (":" +:+ y)%string with (String ":" y) in Hx. by rewrite has_char_append in Hx.
  - intros <- _. change (":" +:+ x)%string with (String ":" x) in Hy. by rewrite has_char_append in Hy.
  - intros E' ->. destruct (IH b E') as [-> ->]. done.
Qed.

Lemma FormatInt_inj x y : in_int64 x -> in_int64 y -> FormatInt x = FormatInt y -> x = y.
Proof. intros Hx Hy H. apply ParseInt_FormatInt in Hx, Hy. congruence. Qed.

(** The topic and the time that Bybit's id is made of. *)
Definition bybit_key (m : raw) : option (string * Z) :=
  msg ← Unmarshal (dec_struct [field "topic" b_Topic dec_string; field "ts" b_Ts dec_int64]) zero_base_msg m;
  Some (b_Topic msg, b_Ts msg).

(** Decoding keeps what holds of every value a field may get. *)
Lemma dec_struct_preserves {A} (P : A -> Prop) (fields : list (string * decoder A)) (a : A) j :
  Forall (fun f => forall a j, P a -> P (fst (snd f a j))) fields -> P a ->
  P (fst (dec_struct fields a j)).
Proof.
  intros Hf Ha. destruct j as [| | | | |kvs]; try done. simpl.
  assert (forall key (d : decoder A), find_field fields key = Some d -> forall a j, P a -> P (fst (d a j))) as Hfind.
  { intros key d. unfold find_field. rewrite Forall_forall in Hf.
    destruct (List.find _ fields) as [f|] eqn:E.
    - intros [= <-]. apply find_some in E as [E _]. apply Hf. by apply list_elem_of_In.
    - destruct (List.find (fun f => String.eqb (fold_name _) _) fields) as [f|] eqn:E2; [|done].
      intros [= <-]. apply find_some in E2 as [E2 _]. apply Hf. by apply list_elem_of_In. }
  generalize true. revert a Ha. induction kvs as [|[key v] kvs IH]; intros a Ha ok; [done|]. simpl.
  destruct (find_field fields key) as [d|] eqn:E; [|by apply IH].
  pose proof (Hfind _ _ E a v Ha) as Hd. destruct (d a v) as [a' ok']. by apply IH.
Qed.

Lemma dec_int64_in old j : in_int64 old -> in_int64 (fst (dec_int64 old j)).
Proof. intros Ho. destruct j as [| |l| | |]; simpl; try done. destruct (ParseInt l) eqn:E; [by eapply ParseInt_in|done]. Qed.

Lemma bybit_key_in m topic ts : bybit_key m = Some (topic, ts) -> in_int64 ts.
Proof.
  unfold bybit_key, Unmarshal. destruct m as [|j]; [done|].
  set (fs := [field "topic" b_Topic dec_string; field "ts" b_Ts dec_int64]).
  pose proof (dec_struct_preserves (fun m => in_int64 (b_Ts m)) fs zero_base_msg j) as H.
  destruct (dec_struct fs zero_base_msg j) as [msg ok]. destruct ok; simpl; [|done].
  intros [= _ <-]. apply H.
  - apply Forall_cons; split; [|apply Forall_cons; split; [|constructor]]; intros a j' Ha; simpl.
    + by destruct (dec_string (b_Topic a) j').
    + pose proof (dec_int64_in (b_Ts a) j' Ha). by destruct (dec_int64 (b_Ts a) j').
  - unfold in_int64, int64_min, int64_max. simpl. lia.
Qed.

(** Two messages of Bybit have the same id exactly when they are of the same topic and
    the same time: the shared cache never confuses messages of different topics. *)
Theorem bybit_ids_tell_topics m1 m2 topic1 ts1 :
  bybit_key m1 = Some (topic1, ts1) -> BaseMessageID m1 <> ""%string ->
  (BaseMessageID m1 = BaseMessageID m2 <-> bybit_key m2 = Some (topic1, ts1)).
Proof.
  intros H1 Hne. pose proof (bybit_key_in _ _ _ H1) as Hin1. pose proof (bybit_key_in m2) as Hin2.
  revert H1 Hne Hin2. unfold BaseMessageID, bybit_key.
  destruct (Unmarshal _ _ m1) as [a|]; [|done]. simpl. intros [= <- <-].
  destruct (String.eqb_spec (b_Topic a) "") as [|Ha]; [done|]. simpl.
  destruct (Z.eqb_spec (b_Ts a) 0) as [|Hz]; [done|]. intros _ Hin2.
  destruct (Unmarshal _ _ m2) as [b|]; simpl in *; cycle 1.
  { split; [|done]. intros E. by destruct (b_Topic a). }
  split.
  - destruct (String.eqb_spec (b_Topic b) ""); simpl; [intros E; by destruct (b_Topic a)|].
    destruct (Z.eqb_spec (b_Ts b) 0); simpl; [intros E; by destruct (b_Topic a)|].
    intros [Ht Hx]%last_separator; [|apply FormatInt_no_colon..].
    apply FormatInt_inj in Hx; [congruence|done|]. by eapply Hin2.
  - intros [= -> ->]. rewrite (proj2 (String.eqb_neq _ _) Ha), (proj2 (Z.eqb_neq _ _) Hz). done.
Qed.

(** A struct with fewer fields decodes to a view of one with more. *)
Lemma dec_struct_view {A A'} (view : A -> A') (fs : list (string * decoder A)) (gs : list (string * decoder A')) :
  (forall key a v, match find_field fs key, find_field gs key with
    | Some d, Some e => view (fst (d a v)) = fst (e (view a) v) /\ (snd (d a v) = true -> snd (e (view a) v) = true)
    | Some d, None => view (fst (d a v)) = view a
    | None, Some _ => False
    | None, None => True
    end) ->
  forall a j, view (fst (dec_struct fs a j)) = fst (dec_struct gs (view a) j) /\
    (snd (dec_struct fs a j) = true -> snd (dec_struct gs (view a) j) = true).
Proof.
  intros Hf a j. destruct j as [| | | | |kvs]; try done. unfold dec_struct.
  assert (forall ok1 ok2 : bool, (ok1 = true -> ok2 = true) -> forall a,
    let fold_fs := foldl (fun '(a, ok) '(key, v) => match find_field fs key with
       | Some d => let '(a', ok') := d a v in (a', ok && ok') | None => (a, ok) end) (a, ok1) kvs in
    let fold_gs := foldl (fun '(a, ok) '(key, v) => match find_field gs key with
       | Some d => let '(a', ok') := d a v in (a', ok && ok') | None => (a, ok) end) (view a, ok2) kvs in
    view (fst fold_fs) = fst fold_gs /\ (snd fold_fs = true -> snd fold_gs = true)) as H; [|by apply H].
  induction kvs as [|[key v] kvs IH]; intros ok1 ok2 Hok a'; [done|]. cbn [foldl]. specialize (Hf key a' v).
  destruct (find_field fs key) as [d|], (find_field gs key) as [e|]; [| |done|by apply IH].
  - destruct (d a' v) as [x ok], (e (view a') v) as [y ok']. simpl in Hf. destruct Hf as [<- Hk]. apply IH.
    rewrite !andb_true_iff. tauto.
  - destruct (d a' v) as [x ok]. simpl in Hf. rewrite <- Hf. apply IH. rewrite andb_true_iff. tauto.
Qed.

Lemma find_field_one {A} n (d : A) key :
  find_field [(n, d)] key =
    if String.eqb n key then Some d else if String.eqb (fold_name n) (fold_name key) then Some d else None.
Proof. unfold find_field. simpl. destruct (String.eqb n key); [done|]. by destruct (String.eqb _ (fold_name key)). Qed.

Lemma find_field_two {A} n1 (d1 : A) n2 d2 key :
  find_field [(n1, d1); (n2, d2)] key =
    if String.eqb n1 key then Some d1 else if String.eqb n2 key then Some d2
    else if String.eqb (fold_name n1) (fold_name key) then Some d1
    else if String.eqb (fold_name n2) (fold_name key) then Some d2 else None.
Proof.
  unfold find_field. simpl. destruct (String.eqb n1 key); [done|]. destruct (String.eqb n2 key); [done|].
  destruct (String.eqb (fold_name n1) _); [done|]. by destruct (String.eqb (fold_name n2) _).
Qed.

(** The topic of the id is the one by which the message is routed. *)
Lemma bybit_key_topic m topic ts : bybit_key m = Some (topic, ts) -> BybitTopics.getTopicName m = Some topic.
Proof.
  unfold bybit_key, BybitTopics.getTopicName, Unmarshal. destruct m as [|j]; [done|].
  destruct (dec_struct_view b_Topic [field "topic" b_Topic dec_string; field "ts" b_Ts dec_int64]
    [("topic"%string, dec_string)]) with (a := zero_base_msg) (j := j) as [H1 H2].
  { intros key a v. unfold field. rewrite find_field_two, find_field_one.
    destruct (String.eqb_spec "topic" key) as [_|_]; [cbn; by destruct (dec_string (b_Topic a) v)|].
    destruct (String.eqb_spec "ts" key) as [<-|_]; [cbn; by destruct (dec_int64 (b_Ts a) v)|].
    destruct (String.eqb (fold_name "topic") (fold_name key)); [cbn; by destruct (dec_string (b_Topic a) v)|].
    destruct (String.eqb (fold_name "ts") (fold_name key)); [cbn; by destruct (dec_int64 (b_Ts a) v)|done]. }
  change (b_Topic zero_base_msg) with ""%string in H1, H2.
  destruct (dec_struct _ zero_base_msg j) as [x ok], (dec_struct _ ""%string j) as [y ok']. simpl in H1, H2. subst y.
  destruct ok; [|done]. rewrite H2 by done. by intros [= <- _].
Qed.

(** Messages of one id are routed alike. *)
Lemma bybit_id_route m1 m2 : BaseMessageID m1 <> ""%string -> BaseMessageID m1 = BaseMessageID m2 ->
  BybitTopics.getTopicName m1 = BybitTopics.getTopicName m2.
Proof.
  intros Hne Heq. destruct (bybit_key m1) as [[topic ts]|] eqn:H1.
  - apply (bybit_ids_tell_topics m1 m2 topic ts H1 Hne) in Heq as H2.
    by rewrite (bybit_key_topic _ _ _ H1), (bybit_key_topic _ _ _ H2).
  - exfalso. unfold bybit_key, BaseMessageID in *. by destruct (Unmarshal _ _ m1).
Qed.

Section Collision.
  Context {D : Decimal} {S : Type}.

(** CoinEx's id of an order book message is its time alone, while one cache serves the
    topics of all markets: when the books of two markets change in the same
    millisecond, the message of the second market is taken for a copy of the first
    and is dropped, on every channel. *)
Theorem coinex_markets_collide symA symB hA hB ttl' t1 t2 mA mB id (s : S) n :
  getTopicName mA = Some ("orderBook@" +:+ Symbol.Name symA)%string ->
  getTopicName mB = Some ("orderBook@" +:+ Symbol.Name symB)%string ->
  OrderBookMessageID mA = id -> OrderBookMessageID mB = id -> id <> ""%string ->
  t1 <= t2 -> t2 - t1 <= ttl' -> in_int64 ttl' -> (0 < n)%nat ->
  let ts := [NewOrderBookTopic symA hA; NewOrderBookTopic symB hB] in
  let g := GroupSetTopics (M := CoinExTopics.Manager) ts (NewChannelGroup n ttl') in
  forall c, (c < n)%nat ->
  snd <$> deliver g [MkDelivery 0 t1 mA; MkDelivery c t2 mB] (cache g, s) =
  snd <$> deliver g [MkDelivery 0 t1 mA] (cache g, s).
Proof.
  intros HA HB HidA HidB Hne Hle Hage Httl Hn ts g c Hc. unfold g.
  assert (forall ds, ordered_from t1 ds -> Forall (fun d => (channel d < n)%nat) ds ->
    snd <$> deliver (GroupSetTopics (M := CoinExTopics.Manager) ts (NewChannelGroup n ttl')) ds
      (NewTTLCache ttl', s) =
    deliver_plain (M := CoinExTopics.Manager) ts (first_arrivals (M := CoinExTopics.Manager) ts ttl' (fun _ => None) ds) s)
    as Hspec.
  { intros ds Ho Hch. eapply (deliver_spec (M := CoinExTopics.Manager)); [|done| |exact Ho|done].
    - repeat constructor; done.
    - intros k. left. simpl. by rewrite lookup_empty. }
  change (cache (GroupSetTopics ts (NewChannelGroup n ttl'))) with (NewTTLCache ttl').
  rewrite !Hspec by (simpl; try lia; repeat constructor; simpl; lia). clear Hspec.
  assert (forall m sym h, In (NewOrderBookTopic sym h) ts -> getTopicName m = Some ("orderBook@" +:+ Symbol.Name sym)%string ->
    id_of (M := CoinExTopics.Manager) ts m = OrderBookMessageID m) as Hid.
  { intros m sym h Hin Hm. unfold id_of. simpl. rewrite Hm.
    destruct (find_topic _ ts) as [t|] eqn:Hf.
    - unfold find_topic in Hf. apply find_some in Hf as [Hf _].
      apply list_elem_of_In in Hf. rewrite elem_of_reverse in Hf. apply list_elem_of_In in Hf.
      by destruct Hf as [<-|[<-|[]]].
    - exfalso. unfold find_topic in Hf. apply (find_none _ _) with (x := NewOrderBookTopic sym h) in Hf.
      + simpl in Hf. by rewrite String.eqb_refl in Hf.
      + apply list_elem_of_In. rewrite elem_of_reverse. by apply list_elem_of_In. }
  simpl. rewrite (Hid mA symA hA), (Hid mB symB hB), HidA, HidB by (simpl; auto).
  rewrite (proj2 (String.eqb_neq _ _) Hne), String.eqb_refl.
  replace (ttl' <? time_Sub t2 t1) with false; [done|]. symmetry. apply Z.ltb_ge.
  unfold time_Sub, in_int64, int64_min, int64_max in *. lia.
Qed.

End Collision.
