(* ===== verification/TopicsEndToEnd.v ===== *)
(** * From a JSON message to the handlers of a topic

    The order book messages of both exchanges, as the exchanges send them, and
    what the handlers of the topics get. *)

From S2P Require Import Prelude GoStd Decimal QDecimal Domains Symbol Errors MutexMap Order OrderData.
From S2P Require Import BTree PriceLevel OrderBook Quote Trade Translate BybitMessages CoinExMessages MessagesProps.
From S2P Require Import TTLCache TTLCacheProps Json Topic ChannelGroup BybitTopics CoinExTopics TopicsProps.
Local Open Scope Z_scope.

Section EndToEnd.
  Context {D : Decimal}.

(** The text of a level, and the rows of one side. *)
Definition row_of (l : PriceLevel) : list string :=
  [dString (PriceLevel.Price l); dString (PriceLevel.Volume l)].
Definition json_rows (ls : list PriceLevel) : json :=
  JArray (map (fun l => JArray (map JString (row_of l))) ls).

(** A message of Bybit's order book. *)
Definition bybit_book_json (topic type : string) (ts seq : Z) (bids asks : list PriceLevel) : raw :=
  Text (JObject
    [("topic", JString topic); ("ts", JNumber (FormatInt ts)); ("type", JString type);
     ("data", JObject [("s", JString "BTCUSDT"); ("b", json_rows bids); ("a", json_rows asks);
                       ("u", JNumber (FormatInt seq)); ("seq", JNumber "7961638724")]);
     ("cts", JNumber (FormatInt ts))])%string.

(** A message of CoinEx's order book. *)
Definition coinex_book_json (market : string) (full : bool) (ts : Z) (bids asks : list PriceLevel) : raw :=
  Text (JObject
    [("method", JString chanOB);
     ("data", JObject [("market", JString market); ("is_full", JBool full);
        ("depth", JObject [("asks", json_rows asks); ("bids", json_rows bids);
                           ("last", JString "30746.28"); ("updated_at", JNumber (FormatInt ts));
                           ("checksum", JNumber "2578768879")])]);
     ("id", JNull)])%string.

Lemma dec_rows_json old ls :
  dec_slice [] (dec_slice ""%string dec_string) old (json_rows ls) = (map row_of ls, true).
Proof.
  unfold json_rows. simpl. rewrite map_map. f_equal. by induction ls.
Qed.

Lemma dec_int64_FormatInt old z : in_int64 z -> dec_int64 old (JNumber (FormatInt z)) = (z, true).
Proof. intros Hz. simpl. by rewrite ParseInt_FormatInt. Qed.

#[local] Opaque dec_slice dec_int64 json_rows.

Definition bybit_book_dto (topic type : string) (ts seq : Z) (bids asks : list PriceLevel) : BybitMessages.OrderBookMsgDto :=
  MkOrderBookMsgDto topic type ts (MkOBDataDto (map row_of bids) (map row_of asks) seq).

Lemma bybit_book_decodes topic type ts seq bids asks :
  in_int64 ts -> in_int64 seq ->
  Unmarshal (dec_ptr zero_OrderBookMsgDto BybitTopics.dec_OrderBookMsgDto) (Some zero_OrderBookMsgDto)
    (bybit_book_json topic type ts seq bids asks) = Some (Some (bybit_book_dto topic type ts seq bids asks)) /\
  BybitTopics.getTopicName (bybit_book_json topic type ts seq bids asks) = Some topic.
Proof.
  intros Hts Hseq. split; [|done].
  unfold bybit_book_json, Unmarshal, BybitTopics.dec_OrderBookMsgDto, dec_OBDataDto, BybitTopics.dec_rows. simpl.
  by repeat (rewrite ?dec_rows_json, ?dec_int64_FormatInt by done; simpl).
Qed.

Definition coinex_book_dto (market : string) (full : bool) (ts : Z) (bids asks : list PriceLevel) : OBDeltaDataDto :=
  MkOBDeltaDataDto market full (MkOBRawData ts (map row_of bids) (map row_of asks)).

Lemma coinex_book_decodes market full ts bids asks :
  in_int64 ts ->
  Unmarshal CoinExTopics.dec_OrderBookMsgDto zero_OBDeltaDataDto
    (coinex_book_json market full ts bids asks) = Some (coinex_book_dto market full ts bids asks) /\
  CoinExTopics.getTopicName (coinex_book_json market full ts bids asks) = Some ("orderBook@" +:+ market)%string.
Proof.
  intros Hts. split; [|done].
  unfold coinex_book_json, CoinExTopics.dec_OrderBookMsgDto, dec_only, dec_OBRawData, CoinExTopics.dec_rows. simpl.
  by repeat (rewrite ?dec_rows_json, ?dec_int64_FormatInt by done; simpl).
Qed.

Context {DL : DecimalLaws D} {S : Type}.

Lemma rows_state ls : Forall2 states (map row_of ls) ls.
Proof.
  induction ls as [|l ls IH]; simpl; [constructor|]. constructor; [|done].
  exists (dString (PriceLevel.Price l)), (dString (PriceLevel.Volume l)).
  split; [done|]. split; apply dString_denotes.
Qed.

(** C24: an order book message that an exchange sends reaches the handlers of its topic as it
    was sent: the topic manager finds the topic, no error occurs, and every handler gets
    the levels of both sides in order, denoting the same prices and volumes, stamped
    with the number, the kind and the time of the message. *)
Theorem book_reaches_handlers at' ts seq bids asks (s : S) symbol depth hs type market full hs' :
  in_int64 ts -> in_int64 seq ->
  let bt := BybitTopics.NewOrderBookTopic symbol depth hs in
  let bm := bybit_book_json (TopicName bt) type ts seq bids asks in
  let ct := CoinExTopics.NewOrderBookTopic market hs' in
  let cm := coinex_book_json (Symbol.Name market) full ts bids asks in
  (exists data, route (M := BybitTopics.Manager) bm = Some (TopicName bt) /\
     MsgHandler bt at' bm s = Handled (foldl (fun s h => h data s) s hs) /\
     Forall2 (stamped seq) asks (OrderBook.Asks data) /\ Forall2 (stamped seq) bids (OrderBook.Bids data) /\
     OrderBook.ExecAt data = UnixMilli ts /\ OrderBook.ArrivedAt data = at' /\
     Type' data = translate (toMessageType type)) /\
  (exists data, route (M := CoinExTopics.Manager) cm = Some (TopicName ct) /\
     MsgHandler ct at' cm s = Handled (foldl (fun s h => h data s) s hs') /\
     Forall2 (stamped ts) asks (OrderBook.Asks data) /\ Forall2 (stamped ts) bids (OrderBook.Bids data) /\
     OrderBook.ExecAt data = UnixMilli ts /\ OrderBook.ArrivedAt data = at' /\
     Type' data = if full then DataTypeSnapshot else DataTypeDelta).
Proof.
  intros Hts Hseq bt bm ct cm. split.
  - destruct (bybit_book_decodes (TopicName bt) type ts seq bids asks Hts Hseq) as [Hd Hn]. fold bm in Hd, Hn. clearbody bm.
    destruct (translate_rows seq _ _ _ (bybit_row seq) (rows_state asks)) as (asks' & Hasks & Ha).
    destruct (translate_rows seq _ _ _ (bybit_row seq) (rows_state bids)) as (bids' & Hbids & Hb).
    eexists. split; [exact Hn|]. split.
    + unfold bt at 1, BybitTopics.NewOrderBookTopic. cbn [MsgHandler]. rewrite Hd. simpl.
      unfold BybitMessages.TranslateOrderBook, BybitMessages.translateRecords. simpl.
      rewrite Hasks. simpl. rewrite Hbids. simpl. reflexivity.
    + by repeat (split; [done|]).
  - destruct (coinex_book_decodes (Symbol.Name market) full ts bids asks Hts) as [Hd Hn]. fold cm in Hd, Hn. clearbody cm.
    destruct (translate_rows ts _ _ _ (coinex_row ts) (rows_state asks)) as (asks' & Hasks & Ha).
    destruct (translate_rows ts _ _ _ (coinex_row ts) (rows_state bids)) as (bids' & Hbids & Hb).
    eexists. split; [exact Hn|]. split.
    + unfold ct at 1, CoinExTopics.NewOrderBookTopic. cbn [MsgHandler]. rewrite Hd. simpl.
      unfold CoinExMessages.TranslateOrderBook, CoinExMessages.translateRecords. simpl.
      rewrite Hasks. simpl. rewrite Hbids. simpl. reflexivity.
    + by repeat (split; [done|]).
Qed.

End EndToEnd.

(** ** Examples *)

Definition sent_asks : list (@PriceLevel QDecimal) := [PriceLevel.MkPriceLevel 0 (201 # 2)%Q 1%Q].
Definition sent_bids : list (@PriceLevel QDecimal) := [PriceLevel.MkPriceLevel 0 99%Q 4%Q].

Lemma example_time : in_int64 1700000000000.
Proof. unfold in_int64, int64_min, int64_max. lia. Qed.

Lemma book_reaches_handlers_witness :
  let bt := BybitTopics.NewOrderBookTopic plain_symbol 1
              [fun (d : @OrderBookData QDecimal) (s : list nat) => length (OrderBook.Asks d) :: s] in
  exists s', MsgHandler bt 6 (bybit_book_json "orderbook.1.BTCUSDT" "delta" 1700000000000 9 sent_bids sent_asks) []
    = Handled [s'].
Proof.
  destruct (book_reaches_handlers (D := QDecimal) 6 1700000000000 9 sent_bids sent_asks [] plain_symbol 1
    [fun (d : @OrderBookData QDecimal) (s : list nat) => length (OrderBook.Asks d) :: s] "delta" plain_symbol true []
    example_time ltac:(unfold in_int64, int64_min, int64_max; lia)) as [(data & _ & H & _) _].
  eexists. exact H.
Defined.

Definition bybit_text (topic ts : string) : raw :=
  Text (JObject [("topic"%string, JString topic); ("ts"%string, JNumber ts)]).

Lemma bybit_ids_tell_topics_witness :
  BaseMessageID (bybit_text "publicTrade.BTCUSDT" "17") <> BaseMessageID (bybit_text "publicTrade.ETHUSDT" "17").
Proof.
  intros H. eapply bybit_ids_tell_topics in H; [|reflexivity|discriminate]. discriminate H.
Defined.

(** Two markets, with handlers that note which of them was called. *)
Definition eth_symbol : @Symbol.Symbol QDecimal :=
  MkSymbol "CoinEx_futures_ETHUSDT" "CoinEx" "futures" "ETHUSDT" 1%Q 1%Q AssetUSDT.
Definition note (n : nat) : list (@OrderBookData QDecimal -> list nat -> list nat) := [fun _ s => s ++ [n]].
Definition two_markets : ChannelGroup (M := CoinExTopics.Manager) :=
  GroupSetTopics [CoinExTopics.NewOrderBookTopic plain_symbol (note 0);
                  CoinExTopics.NewOrderBookTopic eth_symbol (note 1)] (NewChannelGroup 2 (10 * Second)).
Definition book_of (market : string) : raw :=
  coinex_book_json (D := QDecimal) market true 1700000000000 [] [].

Lemma coinex_markets_collide_witness :
  snd <$> deliver two_markets [MkDelivery 0 5 (book_of "BTCUSDT"); MkDelivery 1 6 (book_of "ETHUSDT")]
    (cache two_markets, []) = Some [0%nat] /\
  snd <$> deliver two_markets [MkDelivery 1 6 (book_of "ETHUSDT")] (cache two_markets, []) = Some [1%nat].
Proof.
  split; [|vm_compute; reflexivity].
  etransitivity.
  - apply (coinex_markets_collide plain_symbol eth_symbol (note 0) (note 1) (10 * Second) 5 6
      (book_of "BTCUSDT") (book_of "ETHUSDT") "ob:1700000000000" [] 2); try reflexivity; try lia.
    + discriminate.
    + discriminate.
    + unfold in_int64, int64_min, int64_max, Second. lia.
  - vm_compute. reflexivity.
Defined.

(** The copies of one message on two channels, and a message of its own. *)
Lemma group_delivers_once_witness :
  let ts := [BybitTopics.NewTradeTopic plain_symbol
               [fun (d : list (@TradeData QDecimal)) (s : list nat) => s ++ [length d]]] in
  let ds := [MkDelivery 1 5 (bybit_text "publicTrade.BTCUSDT" "17");
             MkDelivery 0 6 (bybit_text "publicTrade.BTCUSDT" "17");
             MkDelivery 0 7 (bybit_text "publicTrade.BTCUSDT" "18")] in
  snd <$> deliver (GroupSetTopics (M := BybitTopics.Manager) ts (NewChannelGroup 2 Second)) ds
    (cache (NewChannelGroup (M := BybitTopics.Manager) (S := list nat) 2 Second), []) = Some [0%nat; 0%nat].
Proof.
  intros ts ds. etransitivity.
  - apply (group_delivers_once (M := BybitTopics.Manager) 2 Second ts 0 ds []).
    + repeat constructor. discriminate.
    + simpl. lia.
    + repeat constructor; simpl; lia.
  - vm_compute. reflexivity.
Defined.

(** Two channels that take a copy of the same message each, with their steps mixed. *)
Definition trade_note : list (Topic (list nat)) :=
  [BybitTopics.NewTradeTopic plain_symbol [fun (d : list (@TradeData QDecimal)) (s : list nat) => s ++ [length d]]].
Definition trade_17 : raw := bybit_text "publicTrade.BTCUSDT" "17".
Definition mixed_run : option group_run :=
  group_runs (RT := GoStd.in_order) (M := BybitTopics.Manager) trade_note
    [GArrive 0 trade_17; GPass 1; GArrive 1 trade_17; GGo 0; GGo 1; GGo 1; GClean; GGo 0; GGo 1]
    (group_begin Second 5 []).

Lemma group_handles_once_witness :
  exists g, mixed_run = Some g /\
    length (copies (M := BybitTopics.Manager) trade_note "publicTrade.BTCUSDT:17" (dispatched g)) = 1%nat.
Proof.
  destruct (found_check_sound mixed_run (fun g => (TTLCache.clock (callers g) =? 6) &&
    Nat.eqb (size (busy g)) 0 && forallb (fun d => 5 <=? at_time d) (arrived g) &&
    existsb (fun d => String.eqb (id_of (M := BybitTopics.Manager) trade_note (message d)) "publicTrade.BTCUSDT:17") (arrived g)))
    as (g & Hr & Hg); [vm_compute; reflexivity|].
  apply andb_true_iff in Hg as [[[Hc Hb]%andb_true_iff Ha]%andb_true_iff He].
  exists g. split; [exact Hr|].
  refine (proj2 (proj2 (proj2 (proj2 (group_handles_once (RT := GoStd.in_order) (M := BybitTopics.Manager)
    trade_note _ Second 5 [] g Hr))) "publicTrade.BTCUSDT:17" 5 _ _ _ _) _ _).
  - discriminate.
  - unfold in_int64, int64_min, int64_max, Second. lia.
  - apply Z.eqb_eq in Hc. rewrite Hc. unfold Second. lia.
  - intros d Hd _. rewrite forallb_forall in Ha. apply Z.leb_le, Ha. by apply list_elem_of_In.
  - apply existsb_exists in He as (d & Hd & Hid). exists d. split; [by apply list_elem_of_In|by apply String.eqb_eq].
  - intros i st Hi. apply Nat.eqb_eq, map_size_empty_iff in Hb. by rewrite Hb, lookup_empty in Hi.
Defined.
