(* ===== verification/HealthChecker.v ===== *)
(** * Ping and pong (internal/gateways/health_checker.go,
    the ping senders and pong matchers of both exchanges)

    The goroutine of [Start] is a loop over three channels; an event is what one
    of them delivers, with the readings of the clock and the outcome of sending
    a ping.  [pongChan] is closed when the loop ends: a pong that comes later is
    sent on a closed channel, which panics. *)

From S2P Require Import Prelude GoStd Json.
Local Open Scope Z_scope.

Inductive health_alert := HealthErrFailedToSendPing | HealthErrConnectionTimeout.

#[export] Instance health_alert_eq_dec : EqDecision health_alert.
Proof. solve_decision. Defined.

Record healthChecker := MkHealthChecker {
  pingInterval : duration;
  timeoutDuration : duration;
  lastSendPingAt : time;
  lastReceivedAt : time;
  (** [nil] for an exchange that answers with web socket pongs *)
  matchPong : option (raw -> bool);
  (** the channels were closed *)
  closed : bool
}.

#[export] Instance eta_healthChecker : Eta healthChecker := fun c =>
  MkHealthChecker (pingInterval c) (timeoutDuration c) (lastSendPingAt c) (lastReceivedAt c)
    (matchPong c) (closed c).

Definition NewHealthChecker (pingInterval' timeoutDuration' : duration) (matchPong' : option (raw -> bool)) :
    healthChecker :=
  MkHealthChecker pingInterval' timeoutDuration' time_zero time_zero matchPong' false.

(** [now] is what [time.Since] reads. *)
Definition isTimeout (now : time) (c : healthChecker) : bool :=
  if time_IsZero (lastSendPingAt c) then false
  else if time_IsZero (lastReceivedAt c) then timeoutDuration c <? time_Sub now (lastSendPingAt c)
  else timeoutDuration c <? time_Sub now (lastReceivedAt c).

(** The case of the ticker: [sent] says whether the ping was sent, [now] is stored, [now']
    is read by the check. *)
Definition tick (sent : bool) (now now' : time) (c : healthChecker) : healthChecker * list health_alert :=
  let alerts := if negb sent then [HealthErrFailedToSendPing] else [] in
  let c := c <| lastSendPingAt := now |> in
  (c, alerts ++ (if isTimeout now' c then [HealthErrConnectionTimeout] else [])).

(** A pong reaches [pongChan], from the handler of the connection or from
    [PongReceiveHandleFunc]; [None]: the send on the closed channel. *)
Definition pong (now : time) (c : healthChecker) : option healthChecker :=
  if closed c then None else Some (c <| lastReceivedAt := now |>).

Definition PongReceiveHandleFunc (rawMsg : raw) (now : time) (c : healthChecker) : option healthChecker :=
  match matchPong c with
  | None => Some c
  | Some matches => if matches rawMsg then pong now c else Some c
  end.

(** The end of the loop. *)
Definition chanClose (c : healthChecker) : healthChecker := c <| closed := true |>.

Inductive event :=
  | Tick (sent : bool) (now now' : time)
  | Pong (now : time)
  | Message (rawMsg : raw) (now : time)
  | Cancel.

(** The loop: the alerts it sends, or a panic.  A loop that has ended ticks no more. *)
Fixpoint run (es : list event) (c : healthChecker) : option (healthChecker * list health_alert) :=
  match es with
  | [] => Some (c, [])
  | e :: es =>
      '(c, alerts) ←
        match e with
        | Tick sent now now' => Some (if closed c then (c, []) else tick sent now now' c)
        | Pong now => c ← pong now c; Some (c, [])
        | Message rawMsg now => c ← PongReceiveHandleFunc rawMsg now c; Some (c, [])
        | Cancel => Some (chanClose c, [])
        end;
      '(c, alerts') ← run es c;
      Some (c, alerts ++ alerts')
  end.

(** ** The pongs of both exchanges *)

(** Bybit answers with web socket pongs. *)
Definition bybit_health_checker (pingInterval timeoutDuration : duration) : healthChecker :=
  NewHealthChecker pingInterval timeoutDuration None.

Definition coinexPongMatcher (rawMsg : raw) : bool :=
  match Unmarshal (dec_struct [("data"%string, dec_struct [("result"%string, dec_string)])]) ""%string rawMsg with
  | None => false
  | Some result => String.eqb result "pong"
  end.

Definition coinex_health_checker (pingInterval timeoutDuration : duration) : healthChecker :=
  NewHealthChecker pingInterval timeoutDuration (Some coinexPongMatcher).

(** ** Facts *)

(** The time of the last pong of a run. *)
Fixpoint last_pong (matches : option (raw -> bool)) (last : option time) (es : list event) : option time :=
  match es with
  | [] => last
  | Pong now :: es => last_pong matches (Some now) es
  | Message m now :: es =>
      last_pong matches (if match matches with Some f => f m | None => false end then Some now else last) es
  | _ :: es => last_pong matches last es
  end.

(** Clocks have passed Go's zero time. *)
Definition after_zero (e : event) : Prop :=
  match e with Tick _ now _ => 0 < now | Pong now | Message _ now => 0 < now | Cancel => True end.

Definition received (c : healthChecker) : option time :=
  if time_IsZero (lastReceivedAt c) then None else Some (lastReceivedAt c).

Lemma received_set c now : 0 < now -> received (c <| lastReceivedAt := now |>) = Some now.
Proof.
  intros Hn. unfold received. simpl. unfold time_IsZero, time_zero.
  by rewrite (proj2 (Z.eqb_neq _ _)) by lia.
Qed.

Lemma run_received es c c' alerts :
  Forall after_zero es -> run es c = Some (c', alerts) ->
  received c' = last_pong (matchPong c) (received c) es /\
  matchPong c' = matchPong c /\ timeoutDuration c' = timeoutDuration c /\
  closed c' = (closed c || existsb (fun e => match e with Cancel => true | _ => false end) es).
Proof.
  revert c c' alerts. induction es as [|e es IH]; intros c c' alerts Hz; simpl.
  { intros [= <- <-]. by rewrite orb_false_r. }
  apply Forall_cons in Hz as [He Hz]. intros ([c1 a1] & H1 & [[c2 a2] [Hr H2]]%bind_Some)%bind_Some.
  injection H2 as -> _. destruct (IH _ _ _ Hz Hr) as (IH1 & IH2 & IH3 & IH4). clear IH.
  rewrite IH1, IH2, IH3, IH4. clear IH1 IH2 IH3 IH4 Hr. unfold pong, PongReceiveHandleFunc in H1.
  destruct e as [sent now now'|now|m now|]; simpl in *.
  - destruct (closed c) eqn:Hc; injection H1 as <- <-; simpl; by rewrite ?Hc.
  - destruct (closed c) eqn:Hc; [done|]. injection H1 as <- <-. rewrite received_set by done.
    simpl. by rewrite Hc.
  - destruct (matchPong c) as [f|] eqn:Hm.
    + destruct (f m); [unfold pong in H1; destruct (closed c) eqn:Hc; [done|]|]; injection H1 as <- <-;
        rewrite ?received_set by done; simpl; by rewrite ?Hm, ?Hc.
    + injection H1 as <- <-. by rewrite Hm.
  - injection H1 as <- <-. simpl. by rewrite orb_true_r.
Qed.

(** C26: when a connection is reported as dead.  At a tick of a running checker, whose check
    follows the ping within the time-out, the alert of a failed ping is raised exactly when
    the ping could not be sent, and the alert of a time-out exactly when the last pong
    is older than the time-out.  Before the first pong there is no time-out: a
    connection that never answers a ping is never reported. *)
Theorem timeout_iff_pong_stale interval timeout matches es c alerts sent now now' :
  run es (NewHealthChecker interval timeout matches) = Some (c, alerts) -> Forall after_zero es ->
  Cancel ∉ es -> 0 < now -> now' - now <= timeout -> in_int64 timeout ->
  run [Tick sent now now'] c =
    Some (fst (tick sent now now' c),
          (if sent then [] else [HealthErrFailedToSendPing]) ++
          match last_pong matches None es with
          | None => []
          | Some p => if timeout <? time_Sub now' p then [HealthErrConnectionTimeout] else []
          end).
Proof.
  intros Hr Hz Hc Hn Hd Ht. destruct (run_received _ _ _ _ Hz Hr) as (H1 & _ & H3 & H4). simpl in *.
  assert (closed c = false) as Hopen.
  { rewrite H4. apply not_true_is_false. intros (e & He & Hce)%existsb_exists. destruct e; try done.
    apply Hc. by apply list_elem_of_In. }
  rewrite Hopen. unfold tick. simpl. rewrite app_nil_r. do 2 f_equal.
  replace (if negb sent then [HealthErrFailedToSendPing] else []) with
    (if sent then [] else [HealthErrFailedToSendPing]) by by destruct sent.
  f_equal. change (received (NewHealthChecker interval timeout matches)) with (@None time) in H1.
  rewrite <- H1. unfold isTimeout, received. simpl. rewrite H3. unfold time_IsZero, time_zero.
  rewrite (proj2 (Z.eqb_neq now 0)) by lia. destruct (lastReceivedAt c =? 0); [|done].
  replace (timeout <? time_Sub now' now) with false; [done|]. symmetry. apply Z.ltb_ge.
  unfold time_Sub, in_int64, int64_min, int64_max in *. lia.
Qed.

Lemma timeout_iff_pong_stale_witness :
  let c := coinex_health_checker (3 * Second) (3 * Second) in
  let answer := Text (JObject [("data"%string, JObject [("result"%string, JString "pong")])]) in
  (exists c', run [Message answer (1 * Second)] c = Some (c', []) /\
     snd <$> run [Tick true (5 * Second) (5 * Second)] c' = Some [HealthErrConnectionTimeout]) /\
  snd <$> run [Tick true (5000 * Second) (5000 * Second)] c = Some [].
Proof.
  intros c answer. split.
  - eexists. split; [reflexivity|].
    refine (eq_trans (f_equal (fmap snd) (timeout_iff_pong_stale (3 * Second) (3 * Second)
      (Some coinexPongMatcher) [Message answer (1 * Second)] _ [] true (5 * Second) (5 * Second)
      eq_refl _ _ _ _ _)) eq_refl).
    + repeat constructor.
    + by intros [|?%elem_of_nil]%elem_of_cons.
    + done.
    + done.
    + done.
  - refine (eq_trans (f_equal (fmap snd) (timeout_iff_pong_stale (3 * Second) (3 * Second)
      (Some coinexPongMatcher) [] c [] true (5000 * Second) (5000 * Second) eq_refl _ _ _ _ _)) eq_refl).
    + constructor.
    + by intros ?%elem_of_nil.
    + done.
    + done.
    + done.
Defined.

(** A pong that arrives after the loop has ended ends the process: the connection is not
    closed when the checker is cancelled. *)
Lemma late_pong_panics es c c' alerts now :
  Forall after_zero es -> Cancel ∈ es -> run es c = Some (c', alerts) -> run [Pong now] c' = None.
Proof.
  intros Hz Hc Hr. destruct (run_received _ _ _ _ Hz Hr) as (_ & _ & _ & H4). simpl. unfold pong.
  rewrite H4. replace (existsb _ es) with true; [by rewrite orb_true_r|]. symmetry.
  apply existsb_exists. exists Cancel. split; [by apply list_elem_of_In|done].
Qed.
