(* ===== verification/Author.v ===== *)
(** * Authentication of private channels (internal/gateways/author.go,
    exchanges/bybit/ws/author.go, exchanges/coinex/ws/author.go)

    [Start] sends a request and then reads results; an event is what the loop
    receives, with the outcome of the request it sends in answer.  What the requests
    say is in AuthRequests.v; here it only matters whether they can be sent. *)

From S2P Require Import Prelude GoStd Json.
Local Open Scope Z_scope.

Inductive auth_error := AuthErrFailedToSendAuthRequest | AuthErrRetryLimitReached.

#[export] Instance auth_error_eq_dec : EqDecision auth_error.
Proof. solve_decision. Defined.

Record author := MkAuthor {
  numOfRetry : Z;
  retryCount : Z;
  (** requests that were sent *)
  requests : Z;
  (** [Start] has returned and the channels are closed *)
  closed : bool
}.

#[export] Instance eta_author : Eta author := fun a =>
  MkAuthor (numOfRetry a) (retryCount a) (requests a) (closed a).

Definition NewAuthor (numOfRetry' : Z) : author := MkAuthor numOfRetry' 0 0 false.

(** [sendRequest]: [sent] says whether it returns without an error. *)
Definition sendRequest (sent : bool) (a : author) : author :=
  if sent then a <| requests ::= Z.add 1 |> else a.

Definition chanClose (a : author) : author := a <| closed := true |>.

(** The beginning of [Start]. *)
Definition Start (sent : bool) (a : author) : author * list auth_error :=
  let a := sendRequest sent a in
  if negb sent then (chanClose a, [AuthErrFailedToSendAuthRequest]) else (a, []).

(** The case of [authResultChan]; [sent] is the outcome of the retry. *)
Definition handle_result (success sent : bool) (a : author) : author * list auth_error :=
  if success then (a, [])
  else if numOfRetry a <=? retryCount a then (chanClose a, [AuthErrRetryLimitReached])
  else
    let a := a <| retryCount ::= fun n => wrap64 (n + 1) |> in
    let a := sendRequest sent a in
    if negb sent then (chanClose a, [AuthErrFailedToSendAuthRequest]) else (a, []).

(** What [checkResponse] says of a message. *)
Inductive auth_response :=
  | CheckFailed
  | Unrelated
  | AuthResponse (success : bool) (errDetail : string).

(** How a call of [HandleAuthMessage] ends. *)
Inductive handled_message := NoError | WithError | SendOnClosedChannel.

(** The result it sends, which the loop then receives. *)
Definition HandleAuthMessage (r : auth_response) (sent : bool) (a : author) :
    handled_message * (author * list auth_error) :=
  match r with
  | CheckFailed => (WithError, (a, []))
  | Unrelated => (NoError, (a, []))
  | AuthResponse success _ =>
      if closed a then (SendOnClosedChannel, (a, []))
      else (NoError, handle_result success sent a)
  end.

(** ** The responses of the exchanges *)

Record bybit_auth_msg := MkBybitAuthMsg { Op : string; Success : bool; RetMsg : string }.

#[export] Instance eta_bybit_auth_msg : Eta bybit_auth_msg := fun m => MkBybitAuthMsg (Op m) (Success m) (RetMsg m).

Definition bybitCheckAuthResponse (rawMsg : raw) : auth_response :=
  match Unmarshal (dec_struct [field "op" Op dec_string; field "success" Success dec_bool;
                     field "ret_msg" RetMsg dec_string]) (MkBybitAuthMsg "" false "") rawMsg with
  | None => CheckFailed
  | Some msg =>
      if negb (String.eqb (Op msg) "auth") then Unrelated
      else if Success msg then AuthResponse true ""
      else AuthResponse false (RetMsg msg)
  end.

Record coinex_auth_msg := MkCoinexAuthMsg { ID : Z; Code : Z; Message : string }.

#[export] Instance eta_coinex_auth_msg : Eta coinex_auth_msg := fun m => MkCoinexAuthMsg (ID m) (Code m) (Message m).

(** [msgID] is the number of the connection's request. *)
Definition coinexCheckResponse (msgID : Z) (rawMsg : raw) : auth_response :=
  match Unmarshal (dec_struct [field "id" ID dec_int64; field "code" Code dec_int64;
                     field "message" Message dec_string]) (MkCoinexAuthMsg 0 0 "") rawMsg with
  | None => Unrelated
  | Some msg =>
      if negb (ID msg =? msgID) then Unrelated
      else if Code msg =? 0 then AuthResponse true ""
      else AuthResponse false ("code=" +:+ FormatInt (Code msg) +:+ ": " +:+ Message msg)%string
  end.

(** ** Authentication over time *)

Inductive event :=
  | Result (success sent : bool)
  | Cancel.

(** The loop of [Start]; once it has returned nothing happens any more. *)
Fixpoint loop (es : list event) (a : author) : author * list auth_error :=
  match es with
  | [] => (a, [])
  | e :: es =>
      if closed a then (a, [])
      else
        let '(a, errs) := match e with
                          | Result success sent => handle_result success sent a
                          | Cancel => (chanClose a, [])
                          end in
        let '(a, errs') := loop es a in
        (a, errs ++ errs')
  end.

Definition authenticate (numOfRetry : Z) (sent : bool) (es : list event) : author * list auth_error :=
  let '(a, errs) := Start sent (NewAuthor numOfRetry) in
  let '(a, errs') := loop es a in
  (a, errs ++ errs').

(** The failures that the exchange has reported. *)
Definition failures (es : list event) : Z :=
  Z.of_nat (length (List.filter (fun e => match e with Result false _ => true | _ => false end) es)).

(** No request fails and nobody cancels. *)
Definition undisturbed (es : list event) : Prop :=
  Forall (fun e => match e with Result _ sent => sent = true | Cancel => False end) es.

(** ** Bounds *)

Lemma loop_closed es a : closed a = true -> loop es a = (a, []).
Proof. intros Hc. destruct es; simpl; by rewrite ?Hc. Qed.

Lemma failures_cons success sent es :
  failures (Result success sent :: es) = failures es + (if success then 0 else 1).
Proof. destruct success; unfold failures; simpl; lia. Qed.

Lemma failures_nonneg es : 0 <= failures es.
Proof. unfold failures. lia. Qed.

(** As long as the loop runs, every request but the first answers a failure. *)
Record counted (a : author) : Prop := {
  counted_range : 0 <= retryCount a <= numOfRetry a;
  counted_width : numOfRetry a <= int64_max;
  counted_requests : requests a <= 1 + retryCount a
}.

Lemma handle_result_counted success sent a :
  counted a -> counted (handle_result success sent a).1 /\
  numOfRetry (handle_result success sent a).1 = numOfRetry a /\
  ((handle_result success sent a).2 = [] \/
   (length (handle_result success sent a).2 = 1%nat /\ closed (handle_result success sent a).1 = true)).
Proof.
  intros [Hr Hn Hq]. unfold handle_result.
  destruct success; [by split_and!; [done|done|left]|].
  destruct (Z.leb_spec (numOfRetry a) (retryCount a)).
  { simpl. split_and!; [split; simpl; lia|done|by right]. }
  assert (wrap64 (retryCount a + 1) = retryCount a + 1) as Hw.
  { apply wrap64_id. unfold in_int64, int64_min. lia. }
  destruct sent; simpl; (split_and!; [split; simpl; lia|done|]); [by left|by right].
Qed.

Lemma loop_counted es a :
  counted a -> requests (loop es a).1 <= 1 + numOfRetry a /\ (length (loop es a).2 <= 1)%nat.
Proof.
  revert a. induction es as [|e es IH]; intros a Ha.
  { destruct Ha. simpl. lia. }
  simpl. destruct (closed a) eqn:Hc; [destruct Ha; simpl; lia|].
  destruct e as [success sent|].
  - destruct (handle_result_counted success sent a Ha) as (Ha' & Hn & Hcase).
    destruct (handle_result success sent a) as [a' errs]. simpl in *.
    destruct Hcase as [-> | [Hl Hc']].
    + specialize (IH a' Ha'). rewrite Hn in IH. by destruct (loop es a').
    + rewrite loop_closed by done. simpl. rewrite app_nil_r. destruct Ha'. lia.
  - rewrite loop_closed by done. destruct Ha. simpl. lia.
Qed.

Lemma loop_undisturbed es a :
  counted a -> closed a = false -> undisturbed es ->
  (loop es a).2 = (if numOfRetry a - retryCount a <? failures es then [AuthErrRetryLimitReached] else []) /\
  closed (loop es a).1 = (numOfRetry a - retryCount a <? failures es).
Proof.
  revert a. induction es as [|e es IH]; intros a Ha Hc Hu.
  { assert ((numOfRetry a - retryCount a <? failures []) = false) as ->; [|done].
    destruct Ha. apply Z.ltb_ge. unfold failures. simpl. lia. }
  apply Forall_cons in Hu as [He Hu]. destruct e as [success sent|]; [subst sent|done].
  simpl. rewrite Hc. pose proof (handle_result_counted success true a Ha) as (Ha' & Hn & _).
  rewrite failures_cons. unfold handle_result in *. destruct success.
  { rewrite Z.add_0_r. specialize (IH a Ha Hc Hu). destruct (loop es a). simpl in *. exact IH. }
  pose proof (failures_nonneg es). destruct Ha as [Hr Hw Hq].
  destruct (Z.leb_spec (numOfRetry a) (retryCount a)).
  - rewrite loop_closed by done. simpl.
    assert ((numOfRetry a - retryCount a <? failures es + 1) = true) as ->; [apply Z.ltb_lt; lia|done].
  - simpl in *. specialize (IH _ Ha' Hc Hu). simpl in IH.
    rewrite wrap64_id in * by (unfold in_int64, int64_min; lia).
    replace (numOfRetry a - (retryCount a + 1) <? failures es)
      with (numOfRetry a - retryCount a <? failures es + 1) in IH.
    + by destruct (loop es _).
    + destruct (Z.ltb_spec (numOfRetry a - retryCount a) (failures es + 1));
        destruct (Z.ltb_spec (numOfRetry a - (retryCount a + 1)) (failures es)); lia.
Qed.

(** C27: authentication sends at most one request more than it may retry and
    reports at most one error; when every request is sent and nobody cancels, it
    reports that the limit is reached exactly when the exchange refused more than
    [numOfRetry] times, and only then does [Start] return. *)
Theorem retries_bounded n sent es (Hn : 0 <= n <= int64_max) :
  requests (authenticate n sent es).1 <= 1 + n /\
  (length (authenticate n sent es).2 <= 1)%nat /\
  (sent = true -> undisturbed es ->
   (authenticate n sent es).2 = (if n <? failures es then [AuthErrRetryLimitReached] else []) /\
   closed (authenticate n sent es).1 = (n <? failures es)).
Proof.
  unfold authenticate, Start. destruct sent; simpl; cycle 1.
  { rewrite loop_closed by done. simpl. split; [lia|]. by split; [lia|]. }
  assert (counted (sendRequest true (NewAuthor n))) as Ha by (split; simpl; lia).
  pose proof (loop_counted es _ Ha) as [H1 H2].
  pose proof (loop_undisturbed es _ Ha eq_refl) as H3. simpl in *. rewrite Z.sub_0_r in H3.
  destruct (loop es _); simpl in *. split; [done|]. by split.
Qed.

Lemma retries_bounded_witness :
  let es := [Result false true; Result true true; Result false true; Result false true; Result false true] in
  (authenticate 3 true es).2 = [AuthErrRetryLimitReached] /\
  requests (authenticate 3 true es).1 <= 4.
Proof.
  intros es. assert (0 <= 3 <= int64_max) as Hn by (unfold int64_max; lia).
  destruct (retries_bounded 3 true es Hn) as (H1 & _ & H3).
  destruct H3 as [H3 _]; [done|repeat constructor|]. split; [exact H3|exact H1].
Defined.

(** The loop no longer reads once [Start] has returned, and the handler stays
    registered on the receiver: one more response of the exchange is sent on the
    closed channel, which panics. *)
Lemma late_response_panics n es success detail sent :
  closed (authenticate n true es).1 = true ->
  (HandleAuthMessage (AuthResponse success detail) sent (authenticate n true es).1).1 = SendOnClosedChannel.
Proof. intros Hc. unfold HandleAuthMessage. by rewrite Hc. Qed.
