(* ===== verification/Agent.v ===== *)
(** * Requests of the trading APIs and their answers
    (internal/gateways/exchanges/{bybit,coinex}/agent, internal/gateways/credential.go)

    An operation of an agent has two parts.  The first runs in the caller: it asks
    the rate limiter and builds and signs a request, or returns an error.  The
    second runs in a goroutine: it gets what the HTTP client returns and calls the
    handler.  The text of a JSON value and HMAC are those of the standard library,
    as are the texts of its errors. *)

From S2P Require Import Prelude GoStd Errors RateLimiter Json.
Local Open Scope Z_scope.

(** encoding/json's encoder, the message of its decoder's error for a text that it refuses,
    and the hexadecimal HMAC-SHA256 of a text under a key (crypto/hmac, crypto/sha256,
    encoding/hex). *)
Class HttpRuntime := {
  Marshal : json -> string;
  Unmarshal_error : string -> string;
  hmac_sha256 : string -> string -> string
}.

(** internal/gateways/credential.go *)
Record Credential := MkCredential { GetApiKey : string; GetSecret : string }.

Record request := MkRequest {
  method : string;
  host : string;
  path : string;
  payload : json;
  headers : list (string * string)
}.

(** What reading the body of a response gives: its text and the JSON value it denotes. *)
Inductive body :=
  | ReadFailed (err : string)
  | Body (text : string) (value : raw).

(** What [httpClient.Do] returns. *)
Inductive http_result :=
  | DoFailed (err : string)
  | Response (StatusCode : Z) (b : body).

Definition StatusOK : Z := 200.

(** The call of the handler of an operation, or a panic before it. *)
Inductive handler_call (A : Type) := Handler (resp : A) (err : option error) | Crash.
Arguments Handler {A} _ _.
Arguments Crash {A}.

(** A pointer that is dereferenced: nil panics. *)
Definition nil_check {A B} (p : option A) (f : A -> handler_call B) : handler_call B :=
  match p with Some x => f x | None => Crash end.

Definition message (msg : string) : error := NewError msg.

(** The error of [consume]; both limiters word it alike. *)
Definition rate_limit_error (group remaining requested : Z) : error :=
  message ("rate limit reached (group=" +:+ FormatInt group +:+ ", remaining=" +:+
    FormatInt remaining +:+ ", requested=" +:+ FormatInt requested +:+ ")")%string.
