(* ===== verification/BybitAgent.v ===== *)
(** * The agent of Bybit (exchanges/bybit/agent/{agent,signer,endpoints}.go)

    [json.Marshal] of the DTOs and [http.NewRequest] for the constant URLs cannot
    fail, so their error branches are left out. *)

From S2P Require Import Prelude GoStd Decimal QDecimal Domains Symbol Errors MutexMap Order OrderData.
From S2P Require Import BTree PriceLevel OrderBook Quote Trade Translate BybitMessages.
From S2P Require Import RateLimiter Json Agent.
Local Open Scope Z_scope.

Definition hostName : string := "api.bybit.com".
Definition createOrderEndpoint : string := "/v5/order/create".
Definition amendOrderEndpoint : string := "/v5/order/amend".
Definition cancelOrderEndpoint : string := "/v5/order/cancel".

(** ** Signatures *)

Definition signHttp `{HttpRuntime} (c : Credential) (timestamp : Z) (data : string) : list (string * string) :=
  let apiKey := GetApiKey c in
  let secret := GetSecret c in
  let timestampStr := FormatInt timestamp in
  [("Content-Type", "application/json"); ("X-BAPI-API-KEY", apiKey); ("X-BAPI-TIMESTAMP", timestampStr);
   ("X-BAPI-SIGN", hmac_sha256 secret (timestampStr +:+ apiKey +:+ data)); ("X-BAPI-SIGN-TYPE", "2")]%string.

(** [now] is the clock in milliseconds. *)
Definition signHttpPost `{HttpRuntime} (c : Credential) (now : Z) (body : string) : list (string * string) :=
  signHttp c now body.

Definition post `{HttpRuntime} (c : Credential) (now : Z) (path : string) (dto : json) : request :=
  MkRequest "POST" hostName path dto (signHttpPost c now (Marshal dto)).

(** ** JSON of the DTOs *)

Definition json_opt_string (s : option string) : json :=
  match s with Some s => JString s | None => JNull end.

(** The embedded [RawOrderDto] gives its fields to the object. *)
Definition json_OrderDto (d : OrderDto) : json :=
  let r := rawOrderDto d in
  JObject [("category", JString (o_Category d)); ("orderLinkId", JString (o_OrderLinkID r));
           ("symbol", JString (o_Symbol r)); ("orderType", JString (o_OrderType r));
           ("price", json_opt_string (o_Price r)); ("qty", JString (o_Qty r));
           ("side", JString (o_Side r))]%string.

Definition json_CancelDto (d : CancelDto) : json :=
  JObject [("category", JString (c_Category d)); ("orderLinkId", JString (c_OrderLinkID d));
           ("symbol", JString (c_Symbol d))]%string.

Definition json_AmendDetailDto (d : AmendDetailDto) : json :=
  JObject [("orderLinkId", JString (a_OrderLinkID d)); ("category", JString (a_Category d));
           ("symbol", JString (a_Symbol d)); ("price", JString (a_Price d)); ("qty", JString (a_Qty d))]%string.

#[export] Instance eta_BaseRespBody : Eta BaseRespBody := fun b =>
  MkBaseRespBody (RetCode b) (RetMsg b) (TimestampMs b).

Definition zero_BaseRespBody : BaseRespBody := MkBaseRespBody 0 "" 0.

Definition dec_BaseRespBody : decoder BaseRespBody := dec_struct
  [field "retCode" RetCode dec_int64; field "retMsg" RetMsg dec_string; field "time" TimestampMs dec_int64].

(** ** The agent *)

Section Agent.
  Context {D : Decimal} {HR : HttpRuntime}.

(** The URLs are constants, the translators have no state. *)
Record PrivateAPIAgent := MkPrivateAPIAgent {
  signer : Credential;
  limits : rateLimiter (G := Bybit.RateLimitGroup);
  (** the latency measurer is not nil *)
  measured : bool
}.

Definition NewPrivateAPIAgent (credential : Credential) (measurer : bool) : PrivateAPIAgent :=
  MkPrivateAPIAgent credential Bybit.newRateLimiter measurer.

(** [consume] of the agent's limiter; its error becomes [deals.LateLimitError]. *)
Definition take (group : Bybit.RateLimitGroup) (a : PrivateAPIAgent) : option PrivateAPIAgent :=
  l ← consume group 1 (limits a);
  Some (MkPrivateAPIAgent (signer a) l (measured a)).

(** [handler] says that the handler is not nil. *)
Definition SendOrder (handler : bool) (symbol : Symbol.Symbol) (order : Order.Order) (now : Z)
    (a : PrivateAPIAgent) : PrivateAPIAgent * (error + request) :=
  if negb handler then (a, inl (message "handler is required"))
  else
    match take Bybit.GroupCreateOrder a with
    | None => (a, inl (Sentinel LateLimitError))
    | Some a =>
        let orderDto := TranslateToDto symbol order in
        (a, inr (post (signer a) now createOrderEndpoint (json_OrderDto orderDto)))
    end.

Definition CancelOrder (handler : bool) (symbol : Symbol.Symbol) (order : Order.Order) (now : Z)
    (a : PrivateAPIAgent) : PrivateAPIAgent * (error + request) :=
  if negb handler then (a, inl (message "handler is required"))
  else
    match take Bybit.GroupCancelOrder a with
    | None => (a, inl (Sentinel LateLimitError))
    | Some a =>
        let cancelDto := TranslateToCancelDto symbol (GetID order) in
        (a, inr (post (signer a) now cancelOrderEndpoint (json_CancelDto cancelDto)))
    end.

Definition AmendOrder (handler : bool) (symbol : Symbol.Symbol) (order : Order.Order)
    (amendDetail : AmendDetail) (now : Z) (a : PrivateAPIAgent) : PrivateAPIAgent * (error + request) :=
  if negb handler then (a, inl (message "handler is required"))
  else
    match take Bybit.GroupAmendOrder a with
    | None => (a, inl (Sentinel LateLimitError))
    | Some a =>
        let amendDetailDto := TranslateToAmendDetailDto symbol (GetID order) amendDetail in
        (a, inr (post (signer a) now amendOrderEndpoint (json_AmendDetailDto amendDetailDto)))
    end.

Definition SendOrders : option error := Some (message "not implemented").
Definition CancelOrders : option error := Some (message "not implemented").
Definition AmendOrders : option error := Some (message "not implemented").

(** ** The goroutines *)

(** The error, or the pointer that was decoded. *)
Definition readRespBody (b : body) : string + option BaseRespBody :=
  match b with
  | ReadFailed err => inl err
  | Body text value =>
      match Unmarshal (dec_ptr zero_BaseRespBody dec_BaseRespBody) None value with
      | None => inl (Unmarshal_error text)
      | Some r => inr r
      end
  end.

(** What [RecordLatency] is called with. *)
Definition latencies (operation : string) (sendAt receivedAt arrivedAt : time) : list (string * duration) :=
  [(("bybit_" +:+ operation +:+ "_order_outbound_ms")%string, time_Sub arrivedAt sendAt);
   (("bybit_" +:+ operation +:+ "_order_return_ms")%string, time_Sub receivedAt arrivedAt);
   (("bybit_" +:+ operation +:+ "_order_round_trip_ms")%string, time_Sub receivedAt sendAt)].

(** The three goroutines differ in the name of the operation and in the responses they make
    of an error of the exchange and of a success at a time. *)
Definition respond {A} (operation : string) (measured : bool) (sendAt receivedAt : time)
    (oResp : A) (with_Err : error -> A) (confirmed : time -> A) (r : http_result) :
    handler_call A * list (string * duration) :=
  match r with
  | DoFailed err => (Handler oResp (Some (message ("failed to do http request: " +:+ err)%string)), [])
  | Response StatusCode b =>
      if negb (StatusCode =? StatusOK)
      then (Handler oResp (Some (message
              ("failed to send " +:+ operation +:+ " order (http status " +:+ FormatInt StatusCode +:+ ")")%string)), [])
      else
        match readRespBody b with
        | inl err => (Handler oResp (Some (message ("failed to read body: " +:+ err)%string)), [])
        | inr None => (Crash, [])
        | inr (Some baseBody) =>
            if negb (IsRetCodeOK baseBody) then (Handler (with_Err (TranslateError baseBody)) None, [])
            else
              let arrivedAt := UnixMilli (TimestampMs baseBody) in
              (Handler (confirmed arrivedAt) None,
               if measured then latencies operation sendAt receivedAt arrivedAt else [])
        end
  end.

Definition SendOrder_response (order : Order.Order) (measured : bool) (sendAt receivedAt : time)
    (r : http_result) : handler_call CreateOrderResp * list (string * duration) :=
  respond "create" measured sendAt receivedAt
    (MkCreateOrderResp (GetID order) "" None None None)
    (fun err => MkCreateOrderResp (GetID order) "" None None (Some err))
    (fun arrivedAt => MkCreateOrderResp (GetID order) "" (Some arrivedAt) (Some receivedAt) None) r.

Definition CancelOrder_response (order : Order.Order) (measured : bool) (sendAt receivedAt : time)
    (r : http_result) : handler_call CancelOrderResp * list (string * duration) :=
  respond "cancel" measured sendAt receivedAt
    (MkCancelOrderResp (GetID order) None)
    (fun err => MkCancelOrderResp (GetID order) (Some err))
    (fun _ => MkCancelOrderResp (GetID order) None) r.

Definition AmendOrder_response (order : Order.Order) (amendDetail : AmendDetail) (measured : bool)
    (sendAt receivedAt : time) (r : http_result) :
    handler_call AmendOrderResp * list (string * duration) :=
  respond "amend" measured sendAt receivedAt
    (MkAmendOrderResp (GetID order) None None None None)
    (fun err => MkAmendOrderResp (GetID order) None None None (Some err))
    (fun arrivedAt => MkAmendOrderResp (GetID order) (Some amendDetail) (Some arrivedAt) (Some receivedAt) None) r.

End Agent.
