(* ===== verification/CoinExAgent.v ===== *)
(** * The agent of CoinEx (exchanges/coinex/agent/{agent,signer,endpoints}.go,
    exchanges/coinex/dtos/base_resp_body.go)

    [json.Marshal] of the DTOs and [http.NewRequest] for the constant URLs cannot
    fail, so their error branches are left out.  Warming up connections and
    replacing the transport after a reset are not part of the model: [http_result]
    is what [HttpClient.Do] returns. *)

From S2P Require Import Prelude GoStd Decimal QDecimal Domains Symbol Errors MutexMap Order OrderData.
From S2P Require Import BTree PriceLevel OrderBook Quote Trade Translate CoinExMessages.
From S2P Require Import RateLimiter Json Agent.
Local Open Scope Z_scope.

Definition hostName : string := "api.coinex.com".
Definition createOrderEndpoint : string := "/v2/futures/order".
Definition cancelOrderEndpoint : string := "/v2/futures/cancel-order".
Definition amendOrderEndpoint : string := "/v2/futures/modify-order".
Definition batchCreateOrderEndpoint : string := "/v2/futures/batch-order".
Definition batchCancelOrderEndpoint : string := "/v2/futures/cancel-batch-order".

(** ** Signatures *)

Definition signHttp `{HttpRuntime} (c : Credential) (method path : string) (timestamp : Z) (data : string) :
    list (string * string) :=
  let apiKey := GetApiKey c in
  let secret := GetSecret c in
  let timestampStr := FormatInt timestamp in
  [("Content-Type", "application/json; charset=utf-8"); ("Accept", "application/json");
   ("X-COINEX-KEY", apiKey); ("X-COINEX-TIMESTAMP", timestampStr);
   ("X-COINEX-SIGN", hmac_sha256 secret (method +:+ path +:+ data +:+ timestampStr))]%string.

(** [now] is the clock in milliseconds. *)
Definition signHttpPost `{HttpRuntime} (c : Credential) (path : string) (now : Z) (body : string) :
    list (string * string) :=
  signHttp c "POST" path now body.

Definition post `{HttpRuntime} (c : Credential) (now : Z) (path : string) (dto : json) : request :=
  MkRequest "POST" hostName path dto (signHttpPost c path now (Marshal dto)).

(** ** JSON of the DTOs *)

(** A field with [omitempty]. *)
Definition omitempty (name : string) (s : string) : list (string * json) :=
  if String.eqb s "" then [] else [(name, JString s)].

Definition json_OrderDto (d : OrderDto) : json :=
  JObject ([("market", JString (o_Symbol d)); ("market_type", JString (o_MarketType d));
            ("side", JString (o_Side d)); ("type", JString (o_Type d)); ("amount", JString (o_Amount d))]%string ++
           match o_Price d with Some p => [("price"%string, JString p)] | None => [] end ++
           [("client_id", JString (o_ClientID d)); ("is_hide", JBool (o_IsHide d))]%string).

(** A slice that nothing was appended to is nil, and nil is [null]. *)
Definition json_slice (l : list json) : json :=
  match l with [] => JNull | _ => JArray l end.

Definition json_OrderListDto (l : list OrderDto) : json :=
  JObject [("orders"%string, json_slice (map json_OrderDto l))].

Definition json_AmendDetailDto (d : AmendDetailDto) : json :=
  JObject ([("order_id", JNumber (FormatInt (a_PublicOrderID d))); ("market", JString (a_Symbol d));
            ("market_type", JString (a_MarketType d))]%string ++
           omitempty "amount" (a_Amount d) ++ omitempty "price" (a_Price d)).

(** ** JSON of the responses *)

#[export] Instance eta_BaseRespBody : Eta BaseRespBody := fun b => MkBaseRespBody (Code b) (Msg b).
#[export] Instance eta_OrderRespData : Eta OrderRespData := fun d =>
  MkOrderRespData (PublicOrderID d) (ClientID d) (UpdatedAt d).
#[export] Instance eta_OrderRespBody : Eta OrderRespBody := fun b => MkOrderRespBody (or_Base b) (or_Data b).

Definition zero_BaseRespBody : BaseRespBody := MkBaseRespBody 0 "".
Definition zero_OrderRespData : OrderRespData := MkOrderRespData 0 "" 0.
Definition zero_OrderRespBody : OrderRespBody := MkOrderRespBody zero_BaseRespBody None.

Definition dec_OrderRespData : decoder OrderRespData := dec_struct
  [field "order_id" PublicOrderID dec_int64; field "client_id" ClientID dec_string;
   field "updated_at" UpdatedAt dec_int64].

(** A field of the embedded [BaseRespBody]. *)
Definition base_field {B} (name : string) (get : BaseRespBody -> B) `{!Prelude.Update get} (d : decoder B) :
    string * decoder OrderRespBody :=
  (name, fun b j => let '(x, ok) := d (get (or_Base b)) j in
                    (b <| or_Base ::= Prelude.update get (fun _ => x) |>, ok)).

Definition dec_OrderRespBody : decoder OrderRespBody := dec_struct
  [base_field "code" Code dec_int64; base_field "message" Msg dec_string;
   field "data" or_Data (dec_ptr zero_OrderRespData dec_OrderRespData)].

(** The struct [aux]: the fields of [BaseRespBody], and [data] as it stands; [None] when there
    is none. *)
Record aux := MkAux { aux_Base : BaseRespBody; aux_Data : option json }.

#[export] Instance eta_aux : Eta aux := fun a => MkAux (aux_Base a) (aux_Data a).

Definition dec_aux : decoder aux := dec_struct
  [("code"%string, fun a j => let '(x, ok) := dec_int64 (Code (aux_Base a)) j in
      (a <| aux_Base ::= fun b => b <| Code := x |> |>, ok));
   ("message"%string, fun a j => let '(x, ok) := dec_string (Msg (aux_Base a)) j in
      (a <| aux_Base ::= fun b => b <| Msg := x |> |>, ok));
   ("data"%string, fun a j => (a <| aux_Data := Some j |>, true))].

(** Decoding [null] into [&aux] makes the pointer nil, and [aux.Data] panics. *)
Definition UnmarshalJSON (data : json) : result OrdersRespBody :=
  match data with
  | JNull => Panic
  | _ =>
      aux ← checked (Unmarshal dec_aux (MkAux zero_BaseRespBody None) (Text data));
      match aux_Data aux with
      | Some (JArray l) =>
          datas ← checked (Unmarshal (dec_slice zero_OrderRespBody dec_OrderRespBody) [] (Text (JArray l)));
          Ok (MkOrdersRespBody (aux_Base aux) datas)
      | _ => Ok (MkOrdersRespBody (aux_Base aux) [])
      end
  end.

(** ** The agent *)

Section Agent.
  Context {D : Decimal} {HR : HttpRuntime}.

(** The URLs are constants, the translators have no state. *)
Record PrivateAPIAgent := MkPrivateAPIAgent {
  signer : Credential;
  limits : rateLimiter (G := CoinEx.RateLimitGroup)
}.

Definition NewPrivateAPIAgent (credential : Credential) : PrivateAPIAgent :=
  MkPrivateAPIAgent credential CoinEx.newRateLimiter.

Definition group_number (g : CoinEx.RateLimitGroup) : Z :=
  match g with CoinEx.GroupOrder => 0 | CoinEx.GroupCancel => 1 end.

(** [consume] of the agent's limiter, with its error. *)
Definition take (group : CoinEx.RateLimitGroup) (n : Z) (a : PrivateAPIAgent) : error + PrivateAPIAgent :=
  match CoinEx.consume group n (limits a) with
  | None => inl (rate_limit_error (group_number group) (quota_of (quotas (limits a)) group) n)
  | Some l => inr (MkPrivateAPIAgent (signer a) l)
  end.

(** [handler] says that the handler is not nil. *)
Definition SendOrders (handler : bool) (symbol : Symbol.Symbol) (orders : list Order.Order) (now : Z)
    (a : PrivateAPIAgent) : PrivateAPIAgent * (error + request) :=
  if negb handler then (a, inl (message "handler is required"))
  else
    match take CoinEx.GroupOrder (Z.of_nat (length orders)) a with
    | inl err => (a, inl err)
    | inr a =>
        let listDto := TranslateToListDto symbol orders in
        (a, inr (post (signer a) now batchCreateOrderEndpoint (json_OrderListDto listDto)))
    end.

Definition SendOrder (handler : bool) (symbol : Symbol.Symbol) (order : Order.Order) (now : Z)
    (a : PrivateAPIAgent) : PrivateAPIAgent * (error + request) :=
  if negb handler then (a, inl (message "handler is required"))
  else
    match take CoinEx.GroupOrder 1 a with
    | inl err => (a, inl err)
    | inr a =>
        let orderDto := TranslateToDto symbol order in
        (a, inr (post (signer a) now createOrderEndpoint (json_OrderDto orderDto)))
    end.

(** The numbers of the orders, up to the first that is none. *)
Fixpoint public_ids (orders : list Order.Order) : option (list Z) :=
  match orders with
  | [] => Some []
  | order :: orders =>
      pID ← ParseInt (GetPublicID order);
      pIDs ← public_ids orders;
      Some (pID :: pIDs)
  end.

(** The message of strconv's error is left out. *)
Definition public_id_error : error := message "failed to convert public_id".

(** The quota stays taken when a number cannot be read. *)
Definition CancelOrders (handler : bool) (symbol : Symbol.Symbol) (orders : list Order.Order) (now : Z)
    (a : PrivateAPIAgent) : PrivateAPIAgent * (error + request) :=
  if negb handler then (a, inl (message "handler is required"))
  else
    match take CoinEx.GroupCancel (Z.of_nat (length orders)) a with
    | inl err => (a, inl err)
    | inr a =>
        match public_ids orders with
        | None => (a, inl public_id_error)
        | Some pIDs =>
            (a, inr (post (signer a) now batchCancelOrderEndpoint
              (JObject [("market", JString (Name symbol)); ("market_type", JString "FUTURES");
                        ("order_ids", json_slice (map (fun p => JNumber (FormatInt p)) pIDs))]%string)))
        end
    end.

Definition CancelOrder (handler : bool) (symbol : Symbol.Symbol) (order : Order.Order) (now : Z)
    (a : PrivateAPIAgent) : PrivateAPIAgent * (error + request) :=
  if negb handler then (a, inl (message "handler is required"))
  else
    match take CoinEx.GroupCancel 1 a with
    | inl err => (a, inl err)
    | inr a =>
        match ParseInt (GetPublicID order) with
        | None => (a, inl public_id_error)
        | Some pID =>
            (a, inr (post (signer a) now cancelOrderEndpoint
              (JObject [("market", JString (Name symbol)); ("market_type", JString "FUTURES");
                        ("order_id", JNumber (FormatInt pID))]%string)))
        end
    end.

Definition AmendOrder (handler : bool) (symbol : Symbol.Symbol) (order : Order.Order)
    (amendDetail : AmendDetail) (now : Z) (a : PrivateAPIAgent) : PrivateAPIAgent * (error + request) :=
  if negb handler then (a, inl (message "handler is required"))
  else
    match take CoinEx.GroupOrder 1 a with
    | inl err => (a, inl err)
    | inr a =>
        match TranslateToAmendDetailDto symbol (GetPublicID order) amendDetail with
        | Ok amendDetailDto =>
            (a, inr (post (signer a) now amendOrderEndpoint (json_AmendDetailDto amendDetailDto)))
        | _ => (a, inl public_id_error)
        end
    end.

Definition AmendOrders : option error := Some (message "not implemented").

(** ** The goroutines *)

Inductive read_body (A : Type) := BodyRead (b : A) | BodyFailed (text err : string) | BodyPanic.
Arguments BodyRead {A} _.
Arguments BodyFailed {A} _ _.
Arguments BodyPanic {A}.

Definition readOrdersRespBody (b : body) : read_body OrdersRespBody :=
  match b with
  | ReadFailed err => BodyFailed "" err
  | Body text Malformed => BodyFailed text (Unmarshal_error text)
  | Body text (Text j) =>
      match UnmarshalJSON j with
      | Ok r => BodyRead r
      | Failed => BodyFailed text (Unmarshal_error text)
      | Panic => BodyPanic
      end
  end.

Definition readOrderRespBody (b : body) : read_body OrderRespBody :=
  match b with
  | ReadFailed err => BodyFailed "" err
  | Body text value =>
      match Unmarshal dec_OrderRespBody zero_OrderRespBody value with
      | Some r => BodyRead r
      | None => BodyFailed text (Unmarshal_error text)
      end
  end.

Definition http_error (msg : string) : error := Error (Sentinel HttpRequestError) msg.

(** The beginning that all goroutines share, up to the check of the code; [what] names the
    operation in messages, [with_text] says whether the one of a body that cannot be read
    holds its text, [refused] is what the exchange's error is given to. *)
Definition respond {A B} (read : body -> read_body B) (base : B -> BaseRespBody) (what : string)
    (with_text : bool) (oResp : A) (refused : error -> handler_call A) (accepted : B -> handler_call A)
    (r : http_result) : handler_call A :=
  match r with
  | DoFailed err => Handler oResp (Some (http_error ("failed to do http request: " +:+ err)%string))
  | Response StatusCode b =>
      if negb (StatusCode =? StatusOK)
      then Handler oResp (Some (http_error
             ("failed to send " +:+ what +:+ " (http status " +:+ FormatInt StatusCode +:+ ")")%string))
      else
        match read b with
        | BodyFailed text err =>
            Handler oResp (Some (message (if with_text
              then ("failed to read body (" +:+ text +:+ "): " +:+ err)%string
              else ("failed to read body: " +:+ err)%string)))
        | BodyPanic => Crash
        | BodyRead baseBody =>
            if negb (IsRetCodeOK (base baseBody)) then refused (TranslateError (base baseBody))
            else accepted baseBody
        end
  end.

Definition SendOrder_response (order : Order.Order) (confirmedAt : time) (r : http_result) :
    handler_call CreateOrderResp :=
  respond readOrderRespBody or_Base "create order" true
    (MkCreateOrderResp (GetID order) "" None None None)
    (fun err => Handler (MkCreateOrderResp (GetID order) "" None None (Some err)) None)
    (fun baseBody =>
      nil_check (or_Data baseBody) (fun data =>
        Handler (MkCreateOrderResp (GetID order) (FormatInt (PublicOrderID data))
                   (Some (UnixMilli (UpdatedAt data))) (Some confirmedAt) None) None)) r.

Definition CancelOrder_response (order : Order.Order) (r : http_result) : handler_call CancelOrderResp :=
  respond readOrderRespBody or_Base "cancel order" false
    (MkCancelOrderResp (GetID order) None)
    (fun err => Handler (MkCancelOrderResp (GetID order) (Some err)) None)
    (fun _ => Handler (MkCancelOrderResp (GetID order) None) None) r.

Definition AmendOrder_response (order : Order.Order) (amendDetail : AmendDetail) (confirmedAt : time)
    (r : http_result) : handler_call AmendOrderResp :=
  respond readOrderRespBody or_Base "amend order" false
    (MkAmendOrderResp (GetID order) None None None None)
    (fun err => Handler (MkAmendOrderResp (GetID order) None None None (Some err)) None)
    (fun baseBody =>
      nil_check (or_Data baseBody) (fun data =>
        Handler (MkAmendOrderResp (GetID order) (Some amendDetail)
                   (Some (UnixMilli (UpdatedAt data))) (Some confirmedAt) None) None)) r.

(** The loops over [orders]: the responses by position, into a map that has every order; [None]:
    a panic. *)
Fixpoint fill {A} (i : nat) (ids : list string) (item : string -> nat -> option A)
    (respMap : gmap string (option A)) : option (gmap string (option A)) :=
  match ids with
  | [] => Some respMap
  | orderID :: ids =>
      oResp ← item orderID i;
      fill (S i) ids item (<[orderID := Some oResp]> respMap)
  end.

(** The map before the responses: every id, with a nil pointer. *)
Definition empty_responses {A} (orders : list Order.Order) : gmap string (option A) :=
  foldl (fun respMap order => <[GetID order := None]> respMap) ∅ orders.

Definition filled {A} (orders : list Order.Order) (item : string -> nat -> option A) :
    handler_call (gmap string (option A)) :=
  match fill 0 (map GetID orders) item (empty_responses orders) with
  | Some respMap => Handler respMap None
  | None => Crash
  end.

(** The body of the loop of [SendOrders]: an index out of range or a nil [Data] panics. *)
Definition created (datas : list OrderRespBody) (confirmedAt : time) (orderID : string) (i : nat) :
    option CreateOrderResp :=
  r ← datas !! i;
  if negb (IsRetCodeOK (or_Base r))
  then Some (MkCreateOrderResp orderID "" None None (Some (TranslateError (or_Base r))))
  else
    data ← or_Data r;
    Some (MkCreateOrderResp orderID (FormatInt (PublicOrderID data)) (Some (UnixMilli (UpdatedAt data)))
            (Some confirmedAt) None).

(** The body of the loop of [CancelOrders]. *)
Definition canceled (datas : list OrderRespBody) (orderID : string) (i : nat) : option CancelOrderResp :=
  r ← datas !! i;
  Some (MkCancelOrderResp orderID
    (if negb (IsRetCodeOK (or_Base r)) then Some (TranslateError (or_Base r)) else None)).

Definition SendOrders_response (orders : list Order.Order) (confirmedAt : time) (r : http_result) :
    handler_call CreateOrdersRespMap :=
  respond readOrdersRespBody os_Base "create orders" true
    (empty_responses orders)
    (fun err => Handler (empty_responses orders) (Some err))
    (fun baseBody => filled orders (created (os_Data baseBody) confirmedAt)) r.

Definition CancelOrders_response (orders : list Order.Order) (r : http_result) :
    handler_call CancelOrdersRespMap :=
  respond readOrdersRespBody os_Base "cancel orders" false
    (empty_responses orders)
    (fun err => Handler (empty_responses orders) (Some err))
    (fun baseBody => filled orders (canceled (os_Data baseBody))) r.

End Agent.
