(* ===== verification/AgentLimits.v ===== *)
(** * Agents under their rate limiters

    An agent over time: its operations, the goroutines that give quota back and
    the clock interleave; the requests that it sends are recorded.  Both agents
    are instances of [LimitedAgent], and the theorem about requests is proved
    against that interface, by a simulation of the limiter's own system.

    A request counts at the moment its quota is taken.  The code posts it from a goroutine
    that is started then, and runs as soon as the scheduler lets it: the theorem is about the
    requests that the agents let go, not about their arrival at the exchange. *)

From S2P Require Import Prelude GoStd Decimal QDecimal Domains Symbol Errors MutexMap Order OrderData.
From S2P Require Import RateLimiter Json Agent BybitAgent CoinExAgent.
Local Open Scope Z_scope.

(** What every operation of an agent does with its limiter: it is refused at once ([None]), or
    takes an amount of a group, and sends a request only when that was granted. *)
Class LimitedAgent (G A O : Type) `{Countable G} := {
  agent_limits : A -> rateLimiter (G := G);
  set_limits : rateLimiter (G := G) -> A -> A;
  perform : O -> Z -> A -> A * (error + request);
  cost : O -> option (G * Z);
  limits_set l a : agent_limits (set_limits l a) = l;
  perform_free o now a : cost o = None -> exists err, perform o now a = (a, inl err);
  perform_refused o now a g n :
    cost o = Some (g, n) -> consume g n (agent_limits a) = None ->
    exists err, perform o now a = (a, inl err);
  perform_granted o now a g n l :
    cost o = Some (g, n) -> consume g n (agent_limits a) = Some l ->
    agent_limits (fst (perform o now a)) = l
}.

Section System.
  Context {G A O : Type} `{LimitedAgent G A O}.

Record agent_system := MkAgentSystem {
  agent : A;
  now : time;
  sleepers : list (sleeper (G := G));
  (** the operations that sent a request, with their times *)
  sent : list (time * O)
}.

Inductive agent_event :=
  | Wait (d : Z)
  | Operate (o : O) (ms : Z)
  | GiveBack (i : nat).

Definition weigh (o : O) : G -> Z := fun g =>
  match cost o with Some (g', n) => if decide (g' = g) then n else 0 | None => 0 end.

(** A successful [consume] starts a goroutine, whatever becomes of the request; a request is
    recorded at the moment its quota is taken. *)
Definition agent_step (e : agent_event) (s : agent_system) : option agent_system :=
  match e with
  | Wait d => if 0 <=? d then Some (MkAgentSystem (agent s) (now s + d) (sleepers s) (sent s)) else None
  | Operate o ms =>
      let '(a, r) := perform o ms (agent s) in
      let granted := match cost o with
                     | Some (g, n) => match consume g n (agent_limits (agent s)) with
                                      | Some _ => [MkSleeper (now s + Second) g n]
                                      | None => []
                                      end
                     | None => []
                     end in
      Some (MkAgentSystem a (now s) (sleepers s ++ granted)
              (sent s ++ match r with inr _ => [(now s, o)] | inl _ => [] end))
  | GiveBack i =>
      sl ← sleepers s !! i;
      if wakes sl <=? now s
      then Some (MkAgentSystem (set_limits (give_back (sGroup sl) (sQuota sl) (agent_limits (agent s))) (agent s))
                   (now s) (delete i (sleepers s)) (sent s))
      else None
  end.

Fixpoint agent_run (es : list agent_event) (s : agent_system) : option agent_system :=
  match es with
  | [] => Some s
  | e :: es => s' ← agent_step e s; agent_run es s'
  end.

Definition agent_start (a : A) (t : time) : agent_system := MkAgentSystem a t [] [].

(** What was sent from [t] on and before [u], as the limits count it. *)
Fixpoint sent_between (g : G) (t u : time) (l : list (time * O)) : Z :=
  match l with
  | [] => 0
  | (t', o) :: l => (if (t <=? t') && (t' <? u) then weigh o g else 0) + sent_between g t u l
  end.

Definition cost_ok (e : agent_event) : Prop :=
  match e with Operate o _ => match cost o with Some (_, n) => 0 <= n <= int64_max | None => True end | _ => True end.

Lemma sent_between_app g t u l1 l2 :
  sent_between g t u (l1 ++ l2) = sent_between g t u l1 + sent_between g t u l2.
Proof. induction l1 as [|[t' o] l1 IH]; simpl; lia. Qed.

(** ** The simulation *)

(** The limiter's system does what the agent's limiter does, and grants what is sent. *)
Record simulated (s : agent_system) (s' : system (G := G)) : Prop := {
  si_limits : agent_limits (agent s) = limiter s';
  si_clock : now s = clock s';
  si_sleepers : sleepers s = sleeping s';
  si_sent : forall g t u, sent_between g t u (sent s) <= granted_between g t u (granted s')
}.

Lemma simulate_operate o ms s s1 s' :
  cost_ok (Operate o ms) -> simulated s s' -> agent_step (Operate o ms) s = Some s1 ->
  exists es, Forall request_ok es /\ exists s1', run es s' = Some s1' /\ simulated s1 s1'.
Proof.
  intros Hc [H1 H2 H3 H4] Hs. simpl in Hs, Hc. destruct (cost o) as [[g n]|] eqn:Hco.
  - rewrite H1 in Hs. destruct (consume g n (limiter s')) as [l|] eqn:Hcons.
    + exists [Consume g n]. split; [by apply Forall_singleton|]. simpl. rewrite Hcons. eexists. split; [done|].
      rewrite <- H1 in Hcons. pose proof (perform_granted o ms (agent s) g n l Hco Hcons) as Hl.
      destruct (perform o ms (agent s)) as [a r]. simpl in Hl. injection Hs as <-.
      split; simpl; [done|done|by rewrite H2, H3|]. intros g' t u.
      rewrite sent_between_app, granted_between_app. specialize (H4 g' t u). rewrite H2.
      destruct r; simpl; unfold weigh; rewrite ?Hco; repeat case_match; lia.
    + rewrite <- H1 in Hcons. destruct (perform_refused o ms (agent s) g n Hco Hcons) as [err Hp].
      rewrite Hp in Hs. injection Hs as <-. exists []. split; [constructor|]. eexists. split; [done|].
      split; simpl; rewrite ?app_nil_r; done.
  - destruct (perform_free o ms (agent s) Hco) as [err Hp]. rewrite Hp in Hs. injection Hs as <-.
    exists []. split; [constructor|]. eexists. split; [done|]. split; simpl; rewrite ?app_nil_r; done.
Qed.

Lemma simulate_step e s s1 s' :
  cost_ok e -> simulated s s' -> agent_step e s = Some s1 ->
  exists es, Forall request_ok es /\ exists s1', run es s' = Some s1' /\ simulated s1 s1'.
Proof.
  intros Hc Hsim Hs. destruct e as [d|o ms|i]; [|by eapply simulate_operate|].
  - exists [Pass d]. split; [by apply Forall_singleton|]. destruct Hsim as [H1 H2 H3 H4].
    simpl in *. destruct (0 <=? d); [|done]. injection Hs as <-. eexists. split; [done|].
    split; simpl; [done|by rewrite H2|done|done].
  - exists [Wake i]. split; [by apply Forall_singleton|]. destruct Hsim as [H1 H2 H3 H4].
    simpl in *. rewrite <- H3. apply bind_Some in Hs as (sl & Hi & Hs). rewrite Hi. simpl. rewrite <- H2.
    destruct (wakes sl <=? now s); [|done]. injection Hs as <-. eexists. split; [done|].
    split; simpl; [by rewrite limits_set, H1|done|done|done].
Qed.

Lemma limiter_run_app es1 es2 (s : system (G := G)) : run (es1 ++ es2) s = s' ← run es1 s; run es2 s'.
Proof.
  revert s. induction es1 as [|e es1 IH]; intros s; simpl; [done|]. destruct (step e s); simpl; [apply IH|done].
Qed.

Lemma simulate_run es s s1 s' :
  Forall cost_ok es -> simulated s s' -> agent_run es s = Some s1 ->
  exists es', Forall request_ok es' /\ exists s1', run es' s' = Some s1' /\ simulated s1 s1'.
Proof.
  intros Hc. revert s s'. induction Hc as [|e es He _ IH]; intros s s' Hsim; simpl.
  { intros [= <-]. exists []. split; [constructor|]. by exists s'. }
  intros (s2 & Hs & Hr)%bind_Some.
  destruct (simulate_step e s s2 s' He Hsim Hs) as (es1 & Hok1 & s2' & Hr1 & Hsim1).
  destruct (IH s2 s2' Hsim1 Hr) as (es2 & Hok2 & s3' & Hr2 & Hsim2).
  exists (es1 ++ es2). split; [by apply Forall_app|]. exists s3'. by rewrite limiter_run_app, Hr1.
Qed.

(** What an agent that starts with full quotas sends in a second. *)
Lemma sent_bounded caps a t0 es s g t :
  (forall g, 0 <= quota_of caps g <= int64_max) -> agent_limits a = MkRateLimiter caps caps ->
  Forall cost_ok es -> agent_run es (agent_start a t0) = Some s ->
  sent_between g t (t + Second) (sent s) <= quota_of caps g.
Proof.
  intros Hcaps Ha Hc Hr.
  destruct (simulate_run es (agent_start a t0) s (start (MkRateLimiter caps caps) t0) Hc) as (es' & Hok & s' & Hr' & Hsim);
    [by split; simpl|done|].
  etransitivity; [apply (si_sent _ _ Hsim)|]. by apply (window_bounded caps t0 es').
Qed.

End System.

(** ** The two agents *)

Section Agents.
  Context {D : Decimal} {HR : HttpRuntime}.

(** The operations; batches are not implemented by Bybit's. *)
Inductive bybit_operation :=
  | BybitSend (handler : bool) (symbol : Symbol.Symbol) (order : Order.Order)
  | BybitCancel (handler : bool) (symbol : Symbol.Symbol) (order : Order.Order)
  | BybitAmend (handler : bool) (symbol : Symbol.Symbol) (order : Order.Order) (detail : AmendDetail).

#[export] Instance bybit_limited :
  LimitedAgent Bybit.RateLimitGroup BybitAgent.PrivateAPIAgent bybit_operation.
Proof.
  refine {|
    agent_limits := BybitAgent.limits;
    set_limits l a := BybitAgent.MkPrivateAPIAgent (BybitAgent.signer a) l (measured a);
    perform o ms a := match o with
      | BybitSend h symbol order => BybitAgent.SendOrder h symbol order ms a
      | BybitCancel h symbol order => BybitAgent.CancelOrder h symbol order ms a
      | BybitAmend h symbol order detail => BybitAgent.AmendOrder h symbol order detail ms a
      end;
    cost o := match o with
      | BybitSend h _ _ => if h then Some (Bybit.GroupCreateOrder, 1) else None
      | BybitCancel h _ _ => if h then Some (Bybit.GroupCancelOrder, 1) else None
      | BybitAmend h _ _ _ => if h then Some (Bybit.GroupAmendOrder, 1) else None
      end
  |}; [done|..].
  - intros o now a Hc. destruct o as [[]|[]|[]]; try done; by eexists.
  - intros o now a g n Hc Hg. destruct o as [[]|[]|[]]; try done; injection Hc as <- <-; eexists; simpl;
      unfold BybitAgent.SendOrder, BybitAgent.CancelOrder, BybitAgent.AmendOrder, BybitAgent.take; simpl; by rewrite Hg.
  - intros o now a g n l Hc Hg. destruct o as [[]|[]|[]]; try done; injection Hc as <- <-; simpl;
      unfold BybitAgent.SendOrder, BybitAgent.CancelOrder, BybitAgent.AmendOrder, BybitAgent.take; simpl; by rewrite Hg.
Defined.

Inductive coinex_operation :=
  | CoinExSend (handler : bool) (symbol : Symbol.Symbol) (order : Order.Order)
  | CoinExSends (handler : bool) (symbol : Symbol.Symbol) (orders : list Order.Order)
  | CoinExCancel (handler : bool) (symbol : Symbol.Symbol) (order : Order.Order)
  | CoinExCancels (handler : bool) (symbol : Symbol.Symbol) (orders : list Order.Order)
  | CoinExAmend (handler : bool) (symbol : Symbol.Symbol) (order : Order.Order) (detail : AmendDetail).

Ltac unfold_coinex :=
  simpl; unfold CoinExAgent.SendOrder, CoinExAgent.SendOrders, CoinExAgent.CancelOrder, CoinExAgent.CancelOrders,
    CoinExAgent.AmendOrder, CoinExAgent.take, CoinEx.consume; simpl.

#[export] Instance coinex_limited :
  LimitedAgent CoinEx.RateLimitGroup CoinExAgent.PrivateAPIAgent coinex_operation.
Proof.
  refine {|
    agent_limits := CoinExAgent.limits;
    set_limits l a := CoinExAgent.MkPrivateAPIAgent (CoinExAgent.signer a) l;
    perform o ms a := match o with
      | CoinExSend h symbol order => CoinExAgent.SendOrder h symbol order ms a
      | CoinExSends h symbol orders => CoinExAgent.SendOrders h symbol orders ms a
      | CoinExCancel h symbol order => CoinExAgent.CancelOrder h symbol order ms a
      | CoinExCancels h symbol orders => CoinExAgent.CancelOrders h symbol orders ms a
      | CoinExAmend h symbol order detail => CoinExAgent.AmendOrder h symbol order detail ms a
      end;
    cost o := match o with
      | CoinExSend h _ _ => if h then Some (CoinEx.GroupOrder, 1) else None
      | CoinExSends h _ orders => if h then Some (CoinEx.GroupOrder, Z.of_nat (length orders)) else None
      | CoinExCancel h _ _ => if h then Some (CoinEx.GroupCancel, 1) else None
      | CoinExCancels h _ orders => if h then Some (CoinEx.GroupCancel, Z.of_nat (length orders)) else None
      | CoinExAmend h _ _ _ => if h then Some (CoinEx.GroupOrder, 1) else None
      end
  |}; [done|..].
  - intros o now a Hc. destruct o as [[]|[]|[]|[]|[]]; try done; by eexists.
  - intros o now a g n Hc Hg. destruct o as [[]|[]|[]|[]|[]]; try done; injection Hc as <- <-; eexists;
      unfold_coinex; by rewrite Hg.
  - intros o now a g n l Hc Hg. destruct o as [[]|[]|[]|[]|[]]; try done; injection Hc as <- <-;
      unfold_coinex; rewrite Hg; simpl; by repeat case_match.
Defined.

(** C28: in every window of one second, however operations, sleeping goroutines and the clock
    interleave, the requests that the agents let go (each at the moment its quota is taken,
    before its goroutine posts it) stay within the limits of the
    exchanges, a batch counting for all of its orders: 20 creations, 20 cancellations and
    10 amendments for Bybit, 20 created or amended and 40 canceled orders for CoinEx. *)
Theorem requests_within_limits credential measurer t0 es es' s s' t :
  Forall cost_ok es -> Forall cost_ok es' ->
  agent_run es (agent_start (BybitAgent.NewPrivateAPIAgent credential measurer) t0) = Some s ->
  agent_run es' (agent_start (CoinExAgent.NewPrivateAPIAgent credential) t0) = Some s' ->
  sent_between Bybit.GroupCreateOrder t (t + Second) (sent s) <= 20 /\
  sent_between Bybit.GroupCancelOrder t (t + Second) (sent s) <= 20 /\
  sent_between Bybit.GroupAmendOrder t (t + Second) (sent s) <= 10 /\
  sent_between CoinEx.GroupOrder t (t + Second) (sent s') <= 20 /\
  sent_between CoinEx.GroupCancel t (t + Second) (sent s') <= 40.
Proof.
  intros Hes Hes' Hr Hr'.
  pose proof (fun g => sent_bounded (quotas Bybit.newRateLimiter)
    (BybitAgent.NewPrivateAPIAgent credential measurer) t0 es s g t
    ltac:(by intros []) eq_refl Hes Hr) as Hb.
  pose proof (fun g => sent_bounded (quotas CoinEx.newRateLimiter)
    (CoinExAgent.NewPrivateAPIAgent credential) t0 es' s' g t
    ltac:(by intros []) eq_refl Hes' Hr') as Hc.
  split; [exact (Hb Bybit.GroupCreateOrder)|]. split; [exact (Hb Bybit.GroupCancelOrder)|].
  split; [exact (Hb Bybit.GroupAmendOrder)|]. split; [exact (Hc CoinEx.GroupOrder)|exact (Hc CoinEx.GroupCancel)].
Qed.

End Agents.
