(* ===== verification/AgentProps.v ===== *)
(** * What the agents tell the dealer

    The responses of both agents: whom they are about, how a batch is taken
    apart, and what a failed request does to the dealer that waits for it. *)

From S2P Require Import Prelude GoStd Decimal QDecimal Domains Symbol Errors MutexFlag MutexMap MutexSlice.
From S2P Require Import Order OrderData Position World Dealer DealerInv DealerEvents DealerSpecs.
From S2P Require Import BTree PriceLevel OrderBook Quote Trade Translate BybitMessages CoinExMessages MessagesProps.
From S2P Require Import RateLimiter Json Agent BybitAgent CoinExAgent AgentLimits.
Local Open Scope Z_scope.

(** The call satisfies a predicate, or the process ends. *)
Definition called_with {A} (P : A -> option error -> Prop) (h : handler_call A) : Prop :=
  match h with Handler resp err => P resp err | Crash => True end.

(** The request did not reach the exchange, or its answer is no answer. *)
Definition http_failed (r : http_result) : bool :=
  match r with DoFailed _ => true | Response code _ => negb (code =? StatusOK) end.

(** The JSON value of the body of a successful response. *)
Definition answer (r : http_result) : option raw :=
  match r with
  | Response code (Body _ value) => if code =? StatusOK then Some value else None
  | _ => None
  end.

Section Responses.
  Context {D : Decimal} {RT : GoRuntime} {HR : HttpRuntime}.

(** ** Single orders *)

Lemma bybit_null_body b : BybitAgent.readRespBody b = inr None <-> exists text, b = Body text (Text JNull).
Proof.
  destruct b as [err|text [|j]]; simpl; [split; [done|by intros []]..|].
  split; [|by intros [t [= -> ->]]]. destruct j; simpl; try done; [by eexists|].
  by destruct (foldl _ _ _) as [x []].
Qed.

Lemma bybit_respond_called {A} (P : A -> option error -> Prop) op m t1 t2 oResp we ok (r : http_result) :
  (forall e, P oResp (Some e)) -> (forall e, P (we e) None) -> (forall t, P (ok t) None) ->
  called_with P (fst (BybitAgent.respond op m t1 t2 oResp we ok r)) /\
  (fst (BybitAgent.respond op m t1 t2 oResp we ok r) = Crash <-> answer r = Some (Text JNull)).
Proof.
  intros H1 H2 H3. destruct r as [err|code b]; [split; [apply H1|by split]|]. unfold BybitAgent.respond, answer.
  destruct (code =? StatusOK); simpl; [|split; [apply H1|by destruct b; split]]. pose proof (bybit_null_body b) as Hb.
  destruct (BybitAgent.readRespBody b) as [err|[base|]].
  - split; [apply H1|]. split; [done|]. destruct b as [|text v]; [done|]. intros [= ->].
    by discriminate (proj2 Hb (ex_intro _ text eq_refl)).
  - split; [destruct (BybitMessages.IsRetCodeOK base); [apply H3|apply H2]|].
    split; [by destruct (BybitMessages.IsRetCodeOK base)|]. destruct b as [|text v]; [done|]. intros [= ->].
    by discriminate (proj2 Hb (ex_intro _ text eq_refl)).
  - split; [done|]. split; [|done]. by destruct (proj1 Hb eq_refl) as [text ->].
Qed.

(** An answer of CoinEx that says yes, without the data of the order. *)
Definition yes_without_data (v : raw) : bool :=
  match Unmarshal dec_OrderRespBody zero_OrderRespBody v with
  | Some b => CoinExMessages.IsRetCodeOK (or_Base b) && negb (bool_decide (is_Some (or_Data b)))
  | None => false
  end.

Lemma coinex_respond_called {A} (P : A -> option error -> Prop) what wt oResp we ok (r : http_result) :
  (forall e, P oResp (Some e)) -> (forall e, called_with P (we e)) -> (forall b, called_with P (ok b)) ->
  called_with P (CoinExAgent.respond readOrderRespBody or_Base what wt oResp we ok r).
Proof.
  intros H1 H2 H3. destruct r as [err|code b]; [apply H1|]. unfold CoinExAgent.respond.
  destruct (code =? StatusOK); [|apply H1]. simpl.
  destruct (readOrderRespBody b) as [x|text err|]; [|apply H1|done].
  destruct (CoinExMessages.IsRetCodeOK (or_Base x)); [apply H3|apply H2].
Qed.

Lemma coinex_respond_crash {A} what wt oResp we (ok : OrderRespBody -> handler_call A) (r : http_result) :
  (forall e, we e <> Crash) ->
  (CoinExAgent.respond readOrderRespBody or_Base what wt oResp we ok r = Crash <->
   exists v b, answer r = Some v /\ Unmarshal dec_OrderRespBody zero_OrderRespBody v = Some b /\
     CoinExMessages.IsRetCodeOK (or_Base b) = true /\ ok b = Crash).
Proof.
  intros He. destruct r as [err|code b]; [split; [done|by intros (? & ? & ? & _)]|].
  unfold CoinExAgent.respond, answer.
  destruct (code =? StatusOK); simpl; [|by destruct b; (split; [|intros (? & ? & ? & _)])].
  destruct b as [err|text v]; simpl; [by split; [|intros (? & ? & ? & _)]|].
  destruct (Unmarshal _ _ v) as [x|] eqn:Hx; cycle 1.
  { split; [done|]. intros (v' & y & [= <-] & Hy & _). congruence. }
  destruct (CoinExMessages.IsRetCodeOK (or_Base x)) eqn:Hok; simpl.
  - split; [intros Hc; by exists v, x|]. intros (v' & y & [= <-] & Hy & _ & Hc). congruence.
  - split; [by intros ?%He|]. intros (v' & y & [= <-] & Hy & Hok' & _). congruence.
Qed.

Lemma yes_without_data_spec v :
  yes_without_data v = true <->
  exists b, Unmarshal dec_OrderRespBody zero_OrderRespBody v = Some b /\
    CoinExMessages.IsRetCodeOK (or_Base b) = true /\ or_Data b = None.
Proof.
  unfold yes_without_data. destruct (Unmarshal _ _ v) as [b|]; [|by split; [|intros (? & ? & _)]].
  rewrite andb_true_iff, negb_true_iff, bool_decide_eq_false, <- eq_None_not_Some.
  split; [intros []; by exists b|by intros (? & [= <-] & ? & ?)].
Qed.

(** Every request for one order that an agent sends is answered to the dealer by one call
    of the handler, about that order, unless the answer makes the process panic: for
    Bybit the body [null], for CoinEx a success without the data of the order (which
    does not matter for a cancellation). *)
Theorem responses_are_own order detail m t1 t2 (r : http_result) :
  (called_with (fun resp _ => cr_OrderID resp = GetID order) (fst (BybitAgent.SendOrder_response order m t1 t2 r)) /\
   called_with (fun resp _ => ar_OrderID resp = GetID order) (fst (BybitAgent.AmendOrder_response order detail m t1 t2 r)) /\
   called_with (fun resp _ => xr_OrderID resp = GetID order) (fst (BybitAgent.CancelOrder_response order m t1 t2 r)) /\
   called_with (fun resp _ => cr_OrderID resp = GetID order) (CoinExAgent.SendOrder_response order t2 r) /\
   called_with (fun resp _ => ar_OrderID resp = GetID order) (CoinExAgent.AmendOrder_response order detail t2 r) /\
   called_with (fun resp _ => xr_OrderID resp = GetID order) (CoinExAgent.CancelOrder_response order r)) /\
  (fst (BybitAgent.SendOrder_response order m t1 t2 r) = Crash <-> answer r = Some (Text JNull)) /\
  (fst (BybitAgent.AmendOrder_response order detail m t1 t2 r) = Crash <-> answer r = Some (Text JNull)) /\
  (fst (BybitAgent.CancelOrder_response order m t1 t2 r) = Crash <-> answer r = Some (Text JNull)) /\
  (CoinExAgent.SendOrder_response order t2 r = Crash <-> exists v, answer r = Some v /\ yes_without_data v = true) /\
  (CoinExAgent.AmendOrder_response order detail t2 r = Crash <-> exists v, answer r = Some v /\ yes_without_data v = true) /\
  CoinExAgent.CancelOrder_response order r <> Crash.
Proof.
  assert (forall A (f : OrderRespData -> A), (forall v, (exists b, Unmarshal dec_OrderRespBody zero_OrderRespBody v = Some b /\
    CoinExMessages.IsRetCodeOK (or_Base b) = true /\
    nil_check (or_Data b) (fun d => Handler (f d) None) = Crash) <-> yes_without_data v = true)) as Hnil.
  { intros A f v. rewrite yes_without_data_spec. split; intros (b & H1 & H2 & H3); exists b; split_and!; try done;
      by destruct (or_Data b). }
  split; [split_and!|split_and!].
  1, 2, 3: by apply bybit_respond_called.
  1, 2, 3: apply coinex_respond_called; try done; intros b; destruct (or_Data b); simpl; done.
  1, 2, 3: by apply (bybit_respond_called (fun _ _ => True)).
  1, 2: unfold CoinExAgent.SendOrder_response, CoinExAgent.AmendOrder_response; rewrite coinex_respond_crash by done;
    split; [intros (v & b & Ha & Hb); exists v; (split; [exact Ha|]); eapply Hnil; exists b; exact Hb
           |intros (v & Ha & Hb); eapply Hnil in Hb as [b Hb]; exists v, b; split; [exact Ha|exact Hb]].
  unfold CoinExAgent.CancelOrder_response. rewrite coinex_respond_crash by done. by intros (v & b & _ & _ & _ & ?).
Qed.

End Responses.

(** ** Batches *)

Section Batches.
  Context {D : Decimal} {RT : GoRuntime} {HR : HttpRuntime} {A : Type}.

Lemma empty_responses_lookup (orders : list Order.Order) id :
  (empty_responses orders : gmap string (option A)) !! id =
    if bool_decide (id ∈ map GetID orders) then Some None else None.
Proof.
  unfold empty_responses. induction orders as [|o orders IH] using rev_ind; [done|].
  rewrite foldl_app. simpl. destruct (decide (GetID o = id)) as [<-|Hne].
  - rewrite (lookup_insert_eq (M := gmap string)), bool_decide_eq_true_2; [done|].
    rewrite map_app, elem_of_app. right. by apply list_elem_of_singleton.
  - rewrite (lookup_insert_ne (M := gmap string)), IH by done. rewrite map_app.
    replace (bool_decide (id ∈ map GetID orders ++ map GetID [o])) with (bool_decide (id ∈ map GetID orders)); [done|].
    apply bool_decide_ext. rewrite elem_of_app. simpl. rewrite list_elem_of_singleton. naive_solver.
Qed.

Lemma fill_lookup (item : string -> nat -> option A) ids i m m' :
  NoDup ids -> fill i ids item m = Some m' ->
  (forall j id, ids !! j = Some id -> exists x, item id (i + j)%nat = Some x /\ m' !! id = Some (Some x)) /\
  (forall id, id ∉ ids -> m' !! id = m !! id).
Proof.
  intros Hnd. revert i m. induction Hnd as [|id ids Hid Hnd IH]; intros i m; simpl.
  { intros [= <-]. split; [done|]. done. }
  intros (x & Hx & Hf)%bind_Some. destruct (IH _ _ Hf) as [IH1 IH2]. split.
  - intros [|j] id' Hj; simpl in Hj.
    + injection Hj as <-. exists x. rewrite Nat.add_0_r. split; [done|].
      by rewrite IH2, (lookup_insert_eq (M := gmap string)).
    + rewrite <- Nat.add_succ_comm. by apply IH1.
  - intros id' Hn. apply not_elem_of_cons in Hn as [Hne Hn].
    by rewrite IH2, (lookup_insert_ne (M := gmap string)).
Qed.

Lemma fill_crash (item : string -> nat -> option A) ids i m :
  fill i ids item m = None <-> exists j id, ids !! j = Some id /\ item id (i + j)%nat = None.
Proof.
  revert i m. induction ids as [|id ids IH]; intros i m; simpl.
  { split; [done|]. by intros (j & id & ? & _). }
  destruct (item id i) as [x|] eqn:Hx; simpl.
  - rewrite IH. split.
    + intros (j & id' & Hj & Hi). exists (S j), id'. by rewrite <- Nat.add_succ_comm.
    + intros ([|j] & id' & Hj & Hi); simpl in Hj.
      * injection Hj as <-. rewrite Nat.add_0_r in Hi. congruence.
      * exists j, id'. by rewrite Nat.add_succ_comm.
  - split; [|done]. intros _. exists 0%nat, id. by rewrite Nat.add_0_r.
Qed.

(** A response for every order and for nothing else: by position in the answer. *)
Definition by_position (orders : list Order.Order) (item : string -> nat -> option A)
    (respMap : gmap string (option A)) : Prop :=
  (forall i o, orders !! i = Some o ->
     exists resp, item (GetID o) i = Some resp /\ respMap !! GetID o = Some (Some resp)) /\
  (forall id, id ∉ map GetID orders -> respMap !! id = None).

Lemma filled_spec (orders : list Order.Order) (item : string -> nat -> option A) :
  NoDup (map GetID orders) ->
  (filled orders item = Crash <-> exists i o, orders !! i = Some o /\ item (GetID o) i = None) /\
  called_with (fun respMap err => err = None /\ by_position orders item respMap) (filled orders item).
Proof.
  intros Hnd. unfold filled. pose proof (fill_crash item (map GetID orders) 0 (empty_responses orders)) as Hc.
  assert ((exists i o, orders !! i = Some o /\ item (GetID o) i = None) <->
          (exists j id, map GetID orders !! j = Some id /\ item id (0 + j)%nat = None)) as ->.
  { split.
    - intros (i & o & Hi & Ho). exists i, (GetID o). change (map GetID orders) with (GetID <$> orders).
      by rewrite list_lookup_fmap, Hi.
    - intros (j & id & Hj & Hi). change (map GetID orders) with (GetID <$> orders) in Hj.
      rewrite list_lookup_fmap in Hj. destruct (orders !! j) as [o|] eqn:Ho; [|done]. injection Hj as <-.
      by exists j, o. }
  destruct (fill 0 _ item _) as [m|] eqn:Hf; simpl.
  - split; [by split; [|intros ?%Hc]|]. split; [done|].
    destruct (fill_lookup item _ 0 _ m Hnd Hf) as [H1 H2]. split.
    + intros i o Ho. apply (H1 i). change (map GetID orders) with (GetID <$> orders).
      by rewrite list_lookup_fmap, Ho.
    + intros id Hn. rewrite H2, empty_responses_lookup by done. by rewrite bool_decide_eq_false_2.
  - split; [|done]. split; [intros _; by apply Hc|done].
Qed.

End Batches.

Section BatchAnswers.
  Context {D : Decimal} {RT : GoRuntime} {HR : HttpRuntime}.

(** A batch of CoinEx that the exchange accepted as a whole. *)
Definition accepted_batch (r : http_result) (body : OrdersRespBody) : Prop :=
  exists j, answer r = Some (Text j) /\ UnmarshalJSON j = Ok body /\
    CoinExMessages.IsRetCodeOK (os_Base body) = true.

(** The response that the handler gets for an order, from the one of the exchange. *)
Definition creation_told (t : time) (r : OrderRespBody) (resp : CreateOrderResp) : Prop :=
  if CoinExMessages.IsRetCodeOK (or_Base r) then
    exists data, or_Data r = Some data /\ cr_PublicID resp = FormatInt (PublicOrderID data) /\
      cr_ArrivedAt resp = Some (UnixMilli (UpdatedAt data)) /\ cr_ConfirmedAt resp = Some t /\ cr_Err resp = None
  else cr_Err resp = Some (CoinExMessages.TranslateError (or_Base r)).

Definition cancellation_told (r : OrderRespBody) (resp : CancelOrderResp) : Prop :=
  xr_Err resp = if CoinExMessages.IsRetCodeOK (or_Base r) then None
                else Some (CoinExMessages.TranslateError (or_Base r)).

Lemma created_told datas t id i resp :
  created datas t id i = Some resp ->
  exists r, datas !! i = Some r /\ cr_OrderID resp = id /\ creation_told t r resp.
Proof.
  unfold created. intros (r & Hr & Hc)%bind_Some. exists r. split; [done|]. unfold creation_told.
  destruct (CoinExMessages.IsRetCodeOK (or_Base r)); simpl in Hc; [|by injection Hc as <-].
  apply bind_Some in Hc as (data & Hd & Hc). injection Hc as <-. split; [done|]. by exists data.
Qed.

Lemma created_None datas t id i :
  created datas t id i = None <->
  forall r, datas !! i = Some r -> CoinExMessages.IsRetCodeOK (or_Base r) = true /\ or_Data r = None.
Proof.
  unfold created. destruct (datas !! i) as [r|]; simpl; [|by split].
  split.
  - intros Hc r' [= <-]. destruct (CoinExMessages.IsRetCodeOK (or_Base r)); [|done]. simpl in Hc.
    by destruct (or_Data r).
  - intros H. destruct (H r eq_refl) as [Hok Hd]. by rewrite Hok, Hd.
Qed.

Lemma canceled_told datas id i resp :
  canceled datas id i = Some resp ->
  exists r, datas !! i = Some r /\ xr_OrderID resp = id /\ cancellation_told r resp.
Proof.
  unfold canceled, cancellation_told. intros (r & Hr & [= <-])%bind_Some. exists r. split; [done|]. simpl.
  split; [done|]. by destruct (CoinExMessages.IsRetCodeOK (or_Base r)).
Qed.

Lemma canceled_None datas id i : canceled datas id i = None <-> datas !! i = None.
Proof. unfold canceled. by destruct (datas !! i). Qed.

(** Every order gets what [told] makes of the response at its place, under its id; nothing else
    is in the map. *)
Definition told_by_position {A} (told : OrderRespBody -> A -> Prop) (id_of : A -> string)
    (datas : list OrderRespBody) (orders : list Order.Order) (respMap : gmap string (option A)) : Prop :=
  (forall i o, orders !! i = Some o -> exists r resp, datas !! i = Some r /\
     respMap !! GetID o = Some (Some resp) /\ id_of resp = GetID o /\ told r resp) /\
  (forall id, id ∉ map GetID orders -> respMap !! id = None).

Lemma by_position_told {A} told id_of datas (orders : list Order.Order) item (m : gmap string (option A)) :
  (forall id i resp, item id i = Some resp -> exists r, datas !! i = Some r /\ id_of resp = id /\ told r resp) ->
  by_position orders item m -> told_by_position told id_of datas orders m.
Proof.
  intros Hi [Hp Hn]. split; [|done]. intros i o Ho. destruct (Hp i o Ho) as (resp & Hr & Hm).
  destruct (Hi _ _ _ Hr) as (r & Hd & Hid & Ht). by exists r, resp.
Qed.

Lemma called_with_mono {A} (P Q : A -> option error -> Prop) h :
  (forall a e, P a e -> Q a e) -> called_with P h -> called_with Q h.
Proof. destruct h; simpl; auto. Qed.

(** C29: the answer to a batch is taken apart by position: every order gets the response that
    stands at its place, in a map with an entry for each order and no other, and the process
    panics exactly when there is no response at the place of some order, or, for a
    creation, one that says yes without data.  A batch that failed as a whole gives every
    order of the batch a nil entry, and the error. *)
Theorem batches_by_position orders t r :
  NoDup (map GetID orders) ->
  (forall body, accepted_batch r body ->
     called_with (fun m err => err = None /\ told_by_position (creation_told t) cr_OrderID (os_Data body) orders m)
       (SendOrders_response orders t r) /\
     (SendOrders_response orders t r = Crash <-> exists i o, orders !! i = Some o /\
        forall x, os_Data body !! i = Some x -> CoinExMessages.IsRetCodeOK (or_Base x) = true /\ or_Data x = None) /\
     called_with (fun m err => err = None /\ told_by_position cancellation_told xr_OrderID (os_Data body) orders m)
       (CancelOrders_response orders r) /\
     (CancelOrders_response orders r = Crash <-> (length (os_Data body) < length orders)%nat)) /\
  (http_failed r = true -> exists e e',
     SendOrders_response orders t r = Handler (empty_responses orders) (Some (Error (Sentinel HttpRequestError) e)) /\
     CancelOrders_response orders r = Handler (empty_responses orders) (Some (Error (Sentinel HttpRequestError) e'))).
Proof.
  intros Hnd. split.
  - intros body (j & Ha & Hu & Hok). destruct r as [|code [|text v]]; try done. simpl in Ha.
    destruct (code =? StatusOK) eqn:Hcode; [|done]. injection Ha as ->.
    unfold SendOrders_response, CancelOrders_response, CoinExAgent.respond. rewrite Hcode. simpl.
    rewrite Hu, Hok. simpl.
    destruct (filled_spec orders (created (os_Data body) t) Hnd) as [H1 H2].
    destruct (filled_spec orders (canceled (os_Data body)) Hnd) as [H3 H4].
    split.
    { eapply called_with_mono; [|exact H2]. intros m e [-> Hp]. split; [done|].
      eapply by_position_told; [|exact Hp]. intros. by apply created_told. }
    split; [rewrite H1; by setoid_rewrite created_None|]. split.
    { eapply called_with_mono; [|exact H4]. intros m e [-> Hp]. split; [done|].
      eapply by_position_told; [|exact Hp]. intros. by apply canceled_told. }
    rewrite H3. setoid_rewrite canceled_None. split.
    + intros (i & o & Hi & Hn). apply lookup_lt_Some in Hi. apply lookup_ge_None in Hn. lia.
    + intros Hl. destruct (lookup_lt_is_Some_2 orders (length (os_Data body)) Hl) as [o Ho].
      exists (length (os_Data body)), o. split; [done|]. by apply lookup_ge_None.
  - intros Hf. destruct r as [err|code b]; [by do 2 eexists|]. simpl in Hf.
    unfold SendOrders_response, CancelOrders_response, CoinExAgent.respond. rewrite Hf. by do 2 eexists.
Qed.

(** A request that did not reach the exchange ends the order as rejected with either
    agent, but Bybit's names no kind of error, so its dealer accepts no more orders after
    it, while CoinEx's names an HTTP error and its dealer goes on. *)
Theorem http_failure_stops_bybit w l o order m t1 t2 r :
  http_failed r = true -> GetID order = id o ->
  awaiting OrderStatusSending (id o) w l o -> l ∉ held w ->
  exists resp e resp' e', fst (BybitAgent.SendOrder_response order m t1 t2 r) = Handler resp (Some e) /\
    CoinExAgent.SendOrder_response order t2 r = Handler resp' (Some e') /\
    exists w1 w2, World.run (handleSendOrderResp resp (Some e)) w = Done w1 tt /\
      World.run (handleSendOrderResp resp' (Some e')) w = Done w2 tt /\
      (forall w', w' = w1 \/ w' = w2 -> exists o', heap w' !! l = Some o' /\ status o' = OrderStatusDone /\
         orderDoneReason o' = Some OrderDoneReasonRejected) /\
      MutexFlag.Get (acceptOrder (dealer w1)) = false /\
      MutexFlag.Get (acceptOrder (dealer w2)) = MutexFlag.Get (acceptOrder (dealer w)).
Proof.
  intros Hf Hid (Hk & Hl & Hs & _) Hn.
  assert (exists e e', critical e = true /\ critical e' = false /\
    fst (BybitAgent.SendOrder_response order m t1 t2 r) =
      Handler (MkCreateOrderResp (id o) "" None None None) (Some e) /\
    CoinExAgent.SendOrder_response order t2 r =
      Handler (MkCreateOrderResp (id o) "" None None None) (Some e'))
    as (e & e' & He & He' & -> & ->).
  { unfold BybitAgent.SendOrder_response, CoinExAgent.SendOrder_response. rewrite Hid.
    destruct r as [err|code b]; [|simpl in Hf; unfold BybitAgent.respond, CoinExAgent.respond; rewrite Hf];
      do 2 eexists; (split_and!; [| |reflexivity|reflexivity]); reflexivity. }
  eexists _, e, _, e'. split; [done|]. split; [done|].
  assert (forall e, exists w', World.run (handleSendOrderResp (MkCreateOrderResp (id o) "" None None None) (Some e)) w =
      Done w' tt /\ (exists o', heap w' !! l = Some o' /\ status o' = OrderStatusDone /\
        orderDoneReason o' = Some OrderDoneReasonRejected) /\
      MutexFlag.Get (acceptOrder (dealer w')) = MutexFlag.Get (acceptOrder (dealer w)) && negb (critical e)) as Hrun.
  { intros e0. apply run_unit_wp. unfold handleSendOrderResp. simpl. rewrite Hk. wp_sym.
    unfold GetStatus. rewrite Hs, decide_True by done. simpl. split; [done|]. wp_sym.
    rewrite wp_bind. apply wp_noticeError. intros w' [Hqh _ _ _] _ [Hra _] _. simpl in *.
    rewrite Hqh. split; [|by rewrite Hra]. eexists. split; [by rewrite lookup_insert_eq|done]. }
  destruct (Hrun e) as (w1 & Hr1 & Ho1 & Ha1), (Hrun e') as (w2 & Hr2 & Ho2 & Ha2).
  exists w1, w2. split; [done|]. split; [done|]. split; [by intros w' [->| ->]|].
  by rewrite Ha1, Ha2, He, He', andb_false_r, andb_true_r.
Qed.

End BatchAnswers.

(** ** At concrete requests *)

Section Example.

#[local] Instance plain_runtime : HttpRuntime := {|
  Marshal _ := "{}"; Unmarshal_error _ := "invalid character"; hmac_sha256 key text := (key +:+ text)%string
|}.

Definition batch (n : nat) (order : @Order.Order QDecimal) : agent_event (O := coinex_operation) :=
  Operate (CoinExSends true plain_symbol (replicate n order)) 1700000000000.

(** Fifteen orders, six more that are refused, and after a second six again. *)
Definition example_batches : list (agent_event (O := coinex_operation)) :=
  let order := example_order OrderStatusPending in
  [batch 15 order; batch 6 order; Wait Second; GiveBack 0; batch 6 order].

Lemma requests_within_limits_witness :
  exists s, agent_run example_batches
      (agent_start (CoinExAgent.NewPrivateAPIAgent (MkCredential "key" "secret")) 0) = Some s /\
    map fst (sent s) = [0; Second] /\
    sent_between CoinEx.GroupOrder 0 (0 + Second) (sent s) <= 20.
Proof.
  assert ((fun s => map fst (sent s)) <$> agent_run example_batches
      (agent_start (CoinExAgent.NewPrivateAPIAgent (MkCredential "key" "secret")) 0) = Some [0; Second]) as H
    by (vm_compute; reflexivity).
  destruct (agent_run example_batches _) as [s|] eqn:E; [|done]. exists s. split; [done|].
  split; [by injection H|].
  assert (Forall cost_ok example_batches) as Hc.
  { repeat constructor; simpl; unfold int64_max; lia. }
  apply (requests_within_limits (D := QDecimal) (MkCredential "key" "secret") false 0 [] example_batches
    (agent_start (BybitAgent.NewPrivateAPIAgent (MkCredential "key" "secret") false) 0) s 0
    (Forall_nil_2 _) Hc eq_refl E).
Defined.

(** Two orders are created; the exchange refuses the second. *)
Definition batch_answer : json :=
  JObject [("code", JNumber "0"); ("message", JString "OK"); ("data", JArray
    [JObject [("code", JNumber "0"); ("message", JString "OK");
              ("data", JObject [("order_id", JNumber "42"); ("updated_at", JNumber "1700000000000")])];
     JObject [("code", JNumber "3109"); ("message", JString "balance"); ("data", JNull)]])]%string.

Definition second_order : @Order.Order QDecimal := NewLimitOrder "b" 100%Q 2%Q SideSell false "".

Lemma batches_by_position_witness :
  let orders := [example_order OrderStatusSending; second_order] in
  exists m, SendOrders_response orders 7 (Response 200 (Body "" (Text batch_answer))) = Handler m None /\
    m !! "a"%string = Some (Some (MkCreateOrderResp "a" "42" (Some (UnixMilli 1700000000000)) (Some 7) None)).
Proof.
  intros orders. assert (NoDup (map GetID orders)) as Hnd.
  { repeat constructor; [|by intros ?%elem_of_nil]. by intros ?%list_elem_of_singleton. }
  destruct (batches_by_position orders 7 (Response 200 (Body "" (Text batch_answer))) Hnd) as [H _].
  destruct (H (MkOrdersRespBody (CoinExMessages.MkBaseRespBody 0 "OK")
    [MkOrderRespBody (CoinExMessages.MkBaseRespBody 0 "OK") (Some (MkOrderRespData 42 "" 1700000000000));
     MkOrderRespBody (CoinExMessages.MkBaseRespBody 3109 "balance") None])) as (Hc & _).
  { exists batch_answer. split; [reflexivity|]. split; [reflexivity|reflexivity]. }
  destruct (SendOrders_response _ _ _) as [m err|] eqn:E; cycle 1.
  { exfalso. assert (match SendOrders_response orders 7 (Response 200 (Body "" (Text batch_answer))) with
                     | Handler _ _ => true | Crash => false end = true) as Hh by (vm_compute; reflexivity).
    by rewrite E in Hh. }
  destruct Hc as [-> [Hp _]]. exists m. split; [done|].
  destruct (Hp 0%nat _ eq_refl) as (x & resp & Hx & Hm & Hid & Ht). injection Hx as <-.
  destruct Ht as (data & Hd & H1 & H2 & H3 & H4). injection Hd as <-. refine (eq_trans Hm _). do 2 f_equal.
  destruct resp. simpl in *. by subst.
Defined.

Lemma http_failure_stops_bybit_witness :
  let order := example_order OrderStatusSending in
  exists w', World.run (handleSendOrderResp (MkCreateOrderResp "a" "" None None None)
      (Some (message "failed to do http request: timeout"))) (example_world OrderStatusSending) = Done w' tt /\
    MutexFlag.Get (acceptOrder (dealer w')) = false.
Proof.
  intros order.
  destruct (http_failure_stops_bybit (example_world OrderStatusSending) 0 _ order true 0 0 (DoFailed "timeout")
    eq_refl eq_refl (example_awaiting _) (example_held _)) as (resp & e & resp' & e' & H1 & _ & w1 & w2 & Hr & _ & _ & Ha & _).
  exists w1. injection H1 as <- <-. split; [exact Hr|exact Ha].
Defined.

End Example.
