(* ===== verification/Receiver.v ===== *)
(** * The receiver of a connection (internal/gateways/message_receiver.go)

    [Start] reads frames until one fails; a frame is what [ReadMessage] returns.
    Handlers act on a state [S].  [gunzip] is compress/gzip on the payload of a
    binary frame.  Sending an error waits for the channel's loop; what was
    forwarded stays in [msgChan] in order. *)

From S2P Require Import Prelude GoStd MutexMap TTLCache Json Topic.
Local Open Scope Z_scope.

Section Receiver.
  Context {Bytes S : Type} (gunzip : Bytes -> option raw).

Inductive frame :=
  | ReadError
  | TextMessage (m : raw)
  | BinaryMessage (b : Bytes).

Definition MessageReceiveHandleFunc : Type := raw -> S -> handled S.

Definition SetHandler (handlers : list MessageReceiveHandleFunc) (handler : MessageReceiveHandleFunc) :
    list MessageReceiveHandleFunc := handlers ++ [handler].

(** The message of a frame; [None]: the error that ends the loop. *)
Definition decode (f : frame) : option raw :=
  match f with
  | ReadError => None
  | TextMessage m => Some m
  | BinaryMessage b => gunzip b
  end.

(** The loop over the handlers: the first error ends it. *)
Fixpoint run_handlers (handlers : list MessageReceiveHandleFunc) (m : raw) (s : S) : handled S :=
  match handlers with
  | [] => Handled s
  | h :: handlers =>
      match h m s with
      | Handled s => run_handlers handlers m s
      | e => e
      end
  end.

(** How far [Start] got: it waits for the next frame, has sent an error and closed the
    channels, or a handler panicked. *)
Inductive progress := Reading (s : S) | Closed (s : S) | ReceiverPanicked.

(** The messages that are forwarded, and the progress. *)
Fixpoint Start (handlers : list MessageReceiveHandleFunc) (frames : list frame) (s : S) : list raw * progress :=
  match frames with
  | [] => ([], Reading s)
  | f :: frames =>
      match decode f with
      | None => ([], Closed s)
      | Some m =>
          match run_handlers handlers m s with
          | Erred s => ([], Closed s)
          | Panicked => ([], ReceiverPanicked)
          | Handled s => let '(ms, p) := Start handlers frames s in (m :: ms, p)
          end
      end
  end.

(** ** What a receiver promises *)

(** The state after messages that no handler refuses. *)
Fixpoint all_handled (handlers : list MessageReceiveHandleFunc) (ms : list raw) (s : S) : option S :=
  match ms with
  | [] => Some s
  | m :: ms => match run_handlers handlers m s with Handled s => all_handled handlers ms s | _ => None end
  end.

(** A receiver forwards exactly the longest prefix of frames that can be read, decoded and
    are refused by no handler, in order; every handler has seen every forwarded message, and
    the first frame that fails ends it: nothing after it is read, handled or forwarded. *)
Theorem receiver_forwards_prefix handlers frames s :
  exists good rest s', frames = good ++ rest /\
    Forall2 (fun f m => decode f = Some m) good (fst (Start handlers frames s)) /\
    all_handled handlers (fst (Start handlers frames s)) s = Some s' /\
    match rest with
    | [] => snd (Start handlers frames s) = Reading s'
    | f :: _ =>
        match decode f with
        | None => snd (Start handlers frames s) = Closed s'
        | Some m =>
            match run_handlers handlers m s' with
            | Handled _ => False
            | Erred s'' => snd (Start handlers frames s) = Closed s''
            | Panicked => snd (Start handlers frames s) = ReceiverPanicked
            end
        end
    end.
Proof.
  revert s. induction frames as [|f frames IH]; intros s; simpl.
  { exists [], [], s. by repeat split. }
  destruct (decode f) as [m|] eqn:Hd; [|exists [], (f :: frames), s; rewrite Hd; by repeat split].
  destruct (run_handlers handlers m s) as [s1|s1|] eqn:Hh.
  - destruct (IH s1) as (good & rest & s' & -> & Hg & Ha & Hr). exists (f :: good), rest, s'.
    destruct (Start handlers (good ++ rest) s1) as [ms p]. simpl in *. rewrite Hh.
    split; [done|]. split; [by constructor|]. by split.
  - exists [], (f :: frames), s. rewrite Hd, Hh. by repeat split.
  - exists [], (f :: frames), s. rewrite Hd, Hh. by repeat split.
Qed.

End Receiver.

(** ** The Go channels of a receiver (internal/gateways/message_receiver.go)

    [Start] of Receiver.v is the loop over frames as a function.  Here the loop is a
    goroutine that forwards to the buffered [msgChan] and the unbuffered [errChan], step by
    step beside the loop of the channel that receives from them, and refines that
    function. *)

Module Flow.

Local Open Scope nat_scope.

Section Flow.
  Context {Bytes S : Type} (gunzip : Bytes -> option raw).

(** [make(chan []byte, 300)] *)
Definition msgChan_capacity : nat := 300.

(** Where the goroutine is: at [ReadMessage], at a send to one of the channels, or out. *)
Inductive position := AtRead | Forwarding (rawMsg : raw) | Reporting | Ended | Crashed.

(** [chanClosed] is [chanCloseOnce]: both channels are closed together. *)
Record MessageReceiver := MkMessageReceiver {
  handlers : list (MessageReceiveHandleFunc (S := S));
  msgChan : list raw;
  chanClosed : bool;
  hstate : S;
  at_pos : position
}.

#[export] Instance eta_MessageReceiver : Eta MessageReceiver := fun r =>
  MkMessageReceiver (handlers r) (msgChan r) (chanClosed r) (hstate r) (at_pos r).

Definition NewMessageReceiver (hs : list (MessageReceiveHandleFunc (S := S))) (s : S) : MessageReceiver :=
  MkMessageReceiver hs [] false s AtRead.

Definition chanClose (r : MessageReceiver) : MessageReceiver := r <| chanClosed := true |>.

(** What happens to a receiver: a frame is read, a message goes into the buffer, the error is
    handed over, and the other side receives a message or, from the closed and empty channel,
    nothing. *)
Inductive flow :=
  | Read (f : frame (Bytes := Bytes))
  | Forward
  | Report
  | Receive (rawMsg : raw)
  | ReceiveNothing.

(** After a frame: the handlers. *)
Definition handle_frame (f : frame (Bytes := Bytes)) (r : MessageReceiver) : MessageReceiver :=
  match decode gunzip f with
  | None => r <| at_pos := Reporting |>
  | Some m =>
      match run_handlers (handlers r) m (hstate r) with
      | Handled s => r <| hstate := s |> <| at_pos := Forwarding m |>
      | Erred s => r <| hstate := s |> <| at_pos := Reporting |>
      | Panicked => r <| at_pos := Crashed |>
      end
  end.

Inductive flow_step : flow -> MessageReceiver -> MessageReceiver -> Prop :=
  | flow_read f r : at_pos r = AtRead -> flow_step (Read f) r (handle_frame f r)
  | flow_forward m r : at_pos r = Forwarding m -> length (msgChan r) < msgChan_capacity ->
      flow_step Forward r (r <| msgChan ::= fun q => q ++ [m] |> <| at_pos := AtRead |>)
  (** the send meets the receive; then the deferred [chanClose] runs *)
  | flow_report r : at_pos r = Reporting -> flow_step Report r (chanClose r <| at_pos := Ended |>)
  | flow_receive m q r : msgChan r = m :: q -> flow_step (Receive m) r (r <| msgChan := q |>)
  | flow_nothing r : msgChan r = [] -> chanClosed r = true -> flow_step ReceiveNothing r r.

Inductive flow_steps : list flow -> MessageReceiver -> MessageReceiver -> Prop :=
  | flow_nil r : flow_steps [] r r
  | flow_cons e es r r1 r2 : flow_step e r r1 -> flow_steps es r1 r2 -> flow_steps (e :: es) r r2.

Definition frame_of (e : flow) : option (frame (Bytes := Bytes)) := match e with Read f => Some f | _ => None end.
Definition message_of (e : flow) : option raw := match e with Receive m => Some m | _ => None end.

(** The frames that were read, and the messages that were received. *)
Definition frames_of (es : list flow) : list frame := omap frame_of es.
Definition received_of (es : list flow) : list raw := omap message_of es.

(** The message on its way into the buffer. *)
Definition on_its_way (r : MessageReceiver) : list raw :=
  match at_pos r with Forwarding m => [m] | _ => [] end.

Definition progress_of (r : MessageReceiver) : progress :=
  match at_pos r with
  | AtRead | Forwarding _ => Reading (hstate r)
  | Reporting | Ended => Closed (hstate r)
  | Crashed => ReceiverPanicked
  end.

(** Frames that are read one after the other. *)
Lemma Start_app hs fs1 fs2 (s : S) :
  Start gunzip hs (fs1 ++ fs2) s =
  let '(ms, p) := Start gunzip hs fs1 s in
  match p with
  | Reading s' => let '(ms', p') := Start gunzip hs fs2 s' in (ms ++ ms', p')
  | _ => (ms, p)
  end.
Proof.
  revert s. induction fs1 as [|f fs1 IH]; intros s; simpl; [by destruct (Start gunzip hs fs2 s)|].
  destruct (decode gunzip f) as [m|]; [|done]. destruct (run_handlers hs m s) as [s1|s1|]; [|done..].
  rewrite IH. destruct (Start gunzip hs fs1 s1) as [ms [s'| |]]; [|done..].
  by destruct (Start gunzip hs fs2 s').
Qed.

(** The relation between a run and the function. *)
Record flows (hs : list MessageReceiveHandleFunc) (s : S) (es : list flow) (r : MessageReceiver) : Prop := {
  fl_handlers : handlers r = hs;
  fl_start : Start gunzip hs (frames_of es) s = (received_of es ++ msgChan r ++ on_its_way r, progress_of r);
  fl_room : length (msgChan r) <= msgChan_capacity;
  fl_closed : chanClosed r = true <-> at_pos r = Ended
}.

Lemma frames_snoc es e : frames_of (es ++ [e]) = frames_of es ++ option_list (frame_of e).
Proof. unfold frames_of. rewrite omap_app. simpl. by destruct (frame_of e). Qed.

Lemma received_snoc es e : received_of (es ++ [e]) = received_of es ++ option_list (message_of e).
Proof. unfold received_of. rewrite omap_app. simpl. by destruct (message_of e). Qed.

(** Reading one more frame. *)
Lemma flows_read hs s es f r :
  flows hs s es r -> at_pos r = AtRead -> flows hs s (es ++ [Read f]) (handle_frame f r).
Proof.
  intros [Hh Hs Hr Hc] Ha. unfold progress_of, on_its_way in Hs. rewrite Ha, app_nil_r in Hs.
  assert (Start gunzip hs (frames_of es ++ [f]) s =
    let '(ms', p') := Start gunzip hs [f] (hstate r) in ((received_of es ++ msgChan r) ++ ms', p')) as Hnext
    by (by rewrite Start_app, Hs).
  assert (chanClosed r = true -> False) as Hopen by (intros H%Hc; congruence).
  simpl in Hnext. unfold handle_frame. rewrite Hh.
  destruct (decode gunzip f) as [m|]; [destruct (run_handlers hs m (hstate r))|].
  all: constructor; simpl; rewrite ?frames_snoc, ?received_snoc; simpl; rewrite ?app_nil_r; try done.
  all: try (by rewrite Hnext, <- ?app_assoc, ?app_nil_r); split; intros H; by try apply Hopen in H.
Qed.

Lemma flows_step hs s es e r r' : flows hs s es r -> flow_step e r r' -> flows hs s (es ++ [e]) r'.
Proof.
  intros Hf Hst. destruct Hst as [f r Ha|m r Ha Hl|r Ha|m q r Hq|r Hq Hcl]; [by apply flows_read|..];
    destruct Hf as [Hh Hs Hr Hc]; unfold progress_of, on_its_way in Hs;
    constructor; simpl; rewrite ?frames_snoc, ?received_snoc; simpl; rewrite ?app_nil_r; try done.
  - by rewrite Hs, Ha.
  - rewrite length_app. simpl. lia.
  - by rewrite Hc, Ha.
  - by rewrite Hs, Ha, app_nil_r.
  - rewrite Hs, Hq. unfold progress_of, on_its_way. simpl. by rewrite <- app_assoc.
  - rewrite Hq in Hr. simpl in Hr. lia.
Qed.

Lemma flows_new hs s : flows hs s [] (NewMessageReceiver hs s).
Proof. by constructor; simpl; [| |unfold msgChan_capacity; lia|]. Qed.

Lemma flows_steps hs s es es' r r' : flows hs s es r -> flow_steps es' r r' -> flows hs s (es ++ es') r'.
Proof.
  intros Hf Hst. revert es Hf. induction Hst as [r|e es' r r1 r2 H1 _ IH]; intros es Hf; [by rewrite app_nil_r|].
  rewrite cons_middle, app_assoc. apply IH. by eapply flows_step.
Qed.

(** The goroutine and the channels do what the function does: what was received, what is in the
    buffer and the message at its send are, in order, the messages that [Start] forwards of
    the frames that were read; the buffer never holds more than its room, and the channels are
    closed exactly when the error has been handed over.  As long as nobody receives, the
    goroutine does not end: a connection that was replaced leaves it behind. *)
Theorem receiver_flows hs s es r :
  flow_steps es (NewMessageReceiver hs s) r ->
  Start gunzip hs (frames_of es) s = (received_of es ++ msgChan r ++ on_its_way r, progress_of r) /\
  length (msgChan r) <= msgChan_capacity /\
  (chanClosed r = true <-> at_pos r = Ended) /\
  ((forall e, e ∈ es -> e <> Report) -> at_pos r <> Ended).
Proof.
  intros Hst. destruct (flows_steps hs s [] es _ _ (flows_new hs s) Hst) as [Hh Hs Hr Hc].
  split; [done|]. split; [done|]. split; [done|]. clear -Hst.
  assert (forall es r r', flow_steps es r r' -> at_pos r <> Ended -> (forall e, e ∈ es -> e <> Report) -> at_pos r' <> Ended) as H.
  { clear. intros es r r' Hst. induction Hst as [r|e es r r1 r2 H1 _ IH]; intros Ha Hno; [done|].
    apply IH; [|intros e' He'; apply Hno; by right].
    assert (e <> Report) as He by (apply Hno; left).
    destruct H1 as [f r Hat|m r Hat Hl|r Hat|m q r Hq|r Hq Hcl]; simpl; try done.
    unfold handle_frame. by repeat case_match. }
  by apply (H _ _ _ Hst).
Qed.

(** The other side never waits in vain for a goroutine that has something for it: with room in the
    buffer, it can go on unless it waits for a frame, has ended, or a handler panicked. *)
Lemma receiver_goes_on r :
  length (msgChan r) < msgChan_capacity ->
  (exists e r', flow_step e r r' /\ match e with Forward | Report => True | _ => False end) <->
  match at_pos r with Forwarding _ | Reporting => True | _ => False end.
Proof.
  intros Hl. split.
  - intros (e & r' & Hst & He). destruct Hst as [f r Ha|m r Ha _|r Ha|m q r Hq|r Hq Hcl]; try done; by rewrite Ha.
  - destruct (at_pos r) eqn:Ha; try done; intros _.
    + exists Forward. eexists. split; [by apply flow_forward|done].
    + exists Report. eexists. split; [by apply flow_report|done].
Qed.

End Flow.

End Flow.
