(* ===== verification/Subscriptions.v ===== *)
(** * Subscriptions (ws/topics/manager.go of both exchanges, the [SubscribeMsg] methods of CoinEx's topics)

    What a channel sends to subscribe to its topics, and how an answer is told
    from other messages; an answer is only logged, so what is modelled is what is
    logged.  A topic of CoinEx keeps the id of its last request. *)

From S2P Require Import Prelude GoStd MutexMap TTLCache Json Topic BybitTopics CoinExTopics.
Local Open Scope Z_scope.

(** What [HandleSubscribeResp] makes of a message: an error, nothing, or a log entry. *)
Inductive subscribe_resp :=
  | RespError
  | NoResp
  | Subscribed (name : string)
  | NotSubscribed (name : string).

(** ** Bybit *)

Section Bybit.
  Context {RT : GoRuntime} {S : Type}.

Definition BybitSubscribeRequests (n : nat) (mg : BybitTopics.Manager S) : list json :=
  let topicNames := GetKeys n (BybitTopics.topicMap mg) in
  match topicNames with
  | [] => []
  | _ => [JObject [("op", JString "subscribe"); ("args", JArray (map JString topicNames))]%string]
  end.

Record bybit_resp := MkBybitResp { sr_Op : string; sr_Success : bool; sr_ConnID : string }.

#[export] Instance eta_bybit_resp : Eta bybit_resp := fun m => MkBybitResp (sr_Op m) (sr_Success m) (sr_ConnID m).

Definition BybitHandleSubscribeResp (rawMsg : raw) : subscribe_resp :=
  match Unmarshal (dec_struct [field "op" sr_Op dec_string; field "success" sr_Success dec_bool;
                     field "conn_id" sr_ConnID dec_string]) (MkBybitResp "" false "") rawMsg with
  | None => RespError
  | Some msg =>
      if negb (String.eqb (sr_Op msg) "subscribe") then NoResp
      else if sr_Success msg then Subscribed "bybit topics" else NotSubscribed "bybit topics"
  end.

End Bybit.

(** ** CoinEx *)

(** [genMsgID]: [u] is the number of the first eight bytes of a new UUID. *)
Definition genMsgID (u : Z) : Z :=
  let intVal := wrap64 u in
  if intVal <? 0 then Z.lnot intVal else intVal.

Lemma genMsgID_range u : 0 <= genMsgID u <= int64_max.
Proof.
  unfold genMsgID. pose proof (wrap64_in u) as H. unfold in_int64, int64_min, int64_max in *.
  destruct (Z.ltb_spec (wrap64 u) 0); [unfold Z.lnot; lia|lia].
Qed.

Inductive topic_kind := BookTickerTopic | OrderBookTopic | TradeTopic | OrderTopic | PositionTopic.

Record CoinExTopic := MkCoinExTopic { kind : topic_kind; market : string; msgID : string }.

#[export] Instance eta_CoinExTopic : Eta CoinExTopic := fun t => MkCoinExTopic (kind t) (market t) (msgID t).

(** The names that the constructors give. *)
Definition book_ticker_name (market : string) : string := ("bookTicker@" +:+ market)%string.
Definition order_book_name (market : string) : string := ("orderBook@" +:+ market)%string.
Definition trade_name (market : string) : string := ("trade@" +:+ market)%string.
Definition order_name (market : string) : string := ("personal.order@" +:+ market)%string.
Definition position_name (market : string) : string := ("personal.position@" +:+ market)%string.

Definition CoinExTopicName (t : CoinExTopic) : string :=
  match kind t with
  | BookTickerTopic => book_ticker_name (market t)
  | OrderBookTopic => order_book_name (market t)
  | TradeTopic => trade_name (market t)
  | OrderTopic => order_name (market t)
  | PositionTopic => position_name (market t)
  end.

Definition SubscribeMsgID (t : CoinExTopic) : string := msgID t.

Definition subscribe_request (method : string) (market_list : json) (id : Z) : json :=
  JObject [("method", JString method); ("params", JObject [("market_list", market_list)]);
           ("id", JNumber (FormatInt id))]%string.

Definition BookTickerSubscribeMsg (id : Z) (market : string) : json :=
  subscribe_request "bbo.subscribe" (JArray [JString market]) id.
Definition OrderBookSubscribeMsg (id : Z) (market : string) : json :=
  subscribe_request "depth.subscribe"
    (JArray [JArray [JString market; JNumber "50"; JString "0"; JBool true]]) id.
Definition TradeSubscribeMsg (id : Z) (market : string) : json :=
  subscribe_request "deals.subscribe" (JArray [JString market]) id.
Definition OrderSubscribeMsg (id : Z) (market : string) : json :=
  subscribe_request "order.subscribe" (JArray [JString market]) id.
Definition PositionSubscribeMsg (id : Z) (market : string) : json :=
  subscribe_request "position.subscribe" (JArray [JString market]) id.

(** The request, and the topic with its id. *)
Definition SubscribeMsg (u : Z) (t : CoinExTopic) : json * CoinExTopic :=
  let id := genMsgID u in
  (match kind t with
   | BookTickerTopic => BookTickerSubscribeMsg id (market t)
   | OrderBookTopic => OrderBookSubscribeMsg id (market t)
   | TradeTopic => TradeSubscribeMsg id (market t)
   | OrderTopic => OrderSubscribeMsg id (market t)
   | PositionTopic => PositionSubscribeMsg id (market t)
   end, t <| msgID := FormatInt id |>).

Record subscriptions := MkSubscriptions {
  topics : gmap string CoinExTopic;
  msgIDMap : gmap string string
}.

(** The loop over the topics; [us] are the numbers drawn, one for each. *)
Definition request_step (r : list json * subscriptions) (x : (string * CoinExTopic) * Z) : list json * subscriptions :=
  let '(result, mg) := r in
  let '((name, t), u) := x in
  let '(msg, t) := SubscribeMsg u t in
  (result ++ [msg],
   MkSubscriptions (<[name := t]> (topics mg)) (<[SubscribeMsgID t := CoinExTopicName t]> (msgIDMap mg))).

Definition CoinExSubscribeRequests `{GoRuntime} (n : nat) (us : list Z) (mg : subscriptions) :
    list json * subscriptions :=
  foldl request_step ([], mg) (zip (MutexMap.entries n (topics mg)) us).

Record coinex_resp := MkCoinexResp { cr_ID : Z; cr_Message : string }.

#[export] Instance eta_coinex_resp : Eta coinex_resp := fun m => MkCoinexResp (cr_ID m) (cr_Message m).

Definition CoinExHandleSubscribeResp (mg : subscriptions) (rawMsg : raw) : subscribe_resp :=
  match Unmarshal (dec_struct [field "id" cr_ID dec_int64; field "message" cr_Message dec_string])
          (MkCoinexResp 0 "") rawMsg with
  | None => RespError
  | Some msg =>
      let msgID := FormatInt (cr_ID msg) in
      match msgIDMap mg !! msgID with
      | None => NoResp
      | Some channelName =>
          if String.eqb (cr_Message msg) "OK" then Subscribed channelName else NotSubscribed channelName
      end
  end.

(** ** What subscriptions promise *)

(** The exchange's answer to a request: with its id. *)
Definition coinex_answer (request : json) (message : string) : raw :=
  match request with
  | JObject fields =>
      Text (JObject (match List.find (fun f => String.eqb (fst f) "id") fields with
                     | Some f => [f] | None => [] end ++ [("message"%string, JString message)]))
  | _ => Malformed
  end.

Definition bybit_answer (success : bool) (connID : string) : raw :=
  Text (JObject [("success", JBool success); ("ret_msg", JString ""); ("conn_id", JString connID);
                 ("req_id", JString ""); ("op", JString "subscribe")]%string).

Lemma answer_SubscribeMsg u t message mg :
  CoinExHandleSubscribeResp mg (coinex_answer (fst (SubscribeMsg u t)) message) =
    match msgIDMap mg !! FormatInt (genMsgID u) with
    | None => NoResp
    | Some name => if String.eqb message "OK" then Subscribed name else NotSubscribed name
    end.
Proof.
  assert (ParseInt (FormatInt (genMsgID u)) = Some (genMsgID u)) as Hp.
  { apply ParseInt_FormatInt. pose proof (genMsgID_range u). unfold in_int64, int64_min, int64_max in *. lia. }
  destruct t as [[] m i]; unfold CoinExHandleSubscribeResp; simpl; rewrite Hp; simpl; done.
Qed.

(** The requests of the loop, and what it records. *)
Definition request_of (x : (string * CoinExTopic) * Z) : json := fst (SubscribeMsg (snd x) (snd (fst x))).
Definition id_of (x : (string * CoinExTopic) * Z) : string := FormatInt (genMsgID (snd x)).

Lemma requests_foldl xs r mg :
  fst (foldl request_step (r, mg) xs) = r ++ map request_of xs.
Proof.
  revert r mg. induction xs as [|[[name t] u] xs IH]; intros r mg; simpl; [by rewrite app_nil_r|].
  rewrite IH. by rewrite <- app_assoc.
Qed.

Lemma recorded_other xs r mg id :
  id ∉ map id_of xs -> msgIDMap (snd (foldl request_step (r, mg) xs)) !! id = msgIDMap mg !! id.
Proof.
  revert r mg. induction xs as [|[[name t] u] xs IH]; intros r mg Hn; simpl; [done|].
  simpl in Hn. apply not_elem_of_cons in Hn as [Hne Hn]. rewrite IH by done. simpl.
  by apply (lookup_insert_ne (M := gmap string)).
Qed.

Lemma recorded_ids xs r mg x :
  NoDup (map id_of xs) -> x ∈ xs ->
  msgIDMap (snd (foldl request_step (r, mg) xs)) !! id_of x = Some (CoinExTopicName (snd (fst x))).
Proof.
  revert r mg. induction xs as [|[[name t] u] xs IH]; intros r mg Hnd Hx; [by apply elem_of_nil in Hx|].
  simpl in Hnd. apply NoDup_cons in Hnd as [Hni Hnd]. apply elem_of_cons in Hx as [->|Hx].
  - simpl. rewrite recorded_other by done. simpl. by rewrite (lookup_insert_eq (M := gmap string)).
  - simpl. by apply IH.
Qed.

(** C33: subscribing covers the topics.  Bybit's single request names every topic exactly once
    and nothing else, and its answer is logged as one.  CoinEx's requests are one for each topic, and when their ids differ, the
    exchange's answer to the request of a topic is logged for that topic, and a message with
    another id is not taken for an answer. *)
Theorem subscriptions_cover_topics `{GoRuntime} {S} n (bmg : BybitTopics.Manager S) (mg : subscriptions) us :
  (exists names, NoDup names /\ (forall name, name ∈ names <-> is_Some (BybitTopics.topicMap bmg !! name)) /\
     BybitSubscribeRequests n bmg =
       if decide (names = []) then []
       else [JObject [("op", JString "subscribe"); ("args", JArray (map JString names))]%string]) /\
  (forall success connID, BybitHandleSubscribeResp (bybit_answer success connID) =
     (if success then Subscribed else NotSubscribed) "bybit topics"%string) /\
  (length us = size (topics mg) -> NoDup (map (fun u => FormatInt (genMsgID u)) us) ->
   let '(requests, mg') := CoinExSubscribeRequests n us mg in
   exists pairs, requests = map request_of pairs /\ pairs.*1 ≡ₚ map_to_list (topics mg) /\ pairs.*2 = us /\
     (forall x message, x ∈ pairs ->
        CoinExHandleSubscribeResp mg' (coinex_answer (request_of x) message) =
          (if String.eqb message "OK" then Subscribed else NotSubscribed) (CoinExTopicName (snd (fst x)))) /\
     (forall id, id ∉ map id_of pairs -> msgIDMap mg' !! id = msgIDMap mg !! id)).
Proof.
  split; [|split; [by intros [] connID|]].
  - exists (GetKeys n (BybitTopics.topicMap bmg)). split; [apply NoDup_GetKeys|].
    split; [intros name; apply elem_of_GetKeys|]. unfold BybitSubscribeRequests.
    by destruct (GetKeys n (BybitTopics.topicMap bmg)).
  - intros Hl Hnd. unfold CoinExSubscribeRequests. set (xs := zip (MutexMap.entries n (topics mg)) us).
    assert (length (MutexMap.entries n (topics mg)) = length us) as Hlen.
    { rewrite (Permutation_length (entries_perm n (topics mg))), length_map_to_list. done. }
    assert (xs.*2 = us) as Hs by by apply snd_zip, Nat.eq_le_incl.
    assert (NoDup (map id_of xs)) as Hids.
    { unfold id_of. rewrite <- Hs in Hnd. change (xs.*2) with (map snd xs) in Hnd.
      by rewrite map_map in Hnd. }
    pose proof (requests_foldl xs [] mg) as Hr. destruct (foldl request_step ([], mg) xs) as [rs mg'] eqn:E.
    exists xs. split; [exact Hr|]. split.
    { rewrite <- (entries_perm n). unfold xs. by rewrite fst_zip by (rewrite Hlen; done). }
    split; [exact Hs|]. split.
    + intros x message Hx. unfold request_of. rewrite answer_SubscribeMsg.
      pose proof (recorded_ids xs [] mg x Hids Hx) as Hrec. rewrite E in Hrec. simpl in Hrec.
      unfold id_of in Hrec. rewrite Hrec. by destruct (String.eqb message "OK").
    + intros id Hn. pose proof (recorded_other xs [] mg id Hn) as Ho. by rewrite E in Ho.
Qed.

(** Two topics, subscribed with two ids. *)
Lemma subscriptions_cover_topics_witness :
  let t1 := MkCoinExTopic OrderBookTopic "BTCUSDT" "" in
  let t2 := MkCoinExTopic TradeTopic "BTCUSDT" "" in
  let mg := MkSubscriptions (<["orderBook@BTCUSDT"%string := t1]> (<["trade@BTCUSDT"%string := t2]> ∅)) ∅ in
  let us := [7; 2 ^ 64 - 12] in
  length (fst (CoinExSubscribeRequests (H := in_order) 0 us mg)) = 2%nat.
Proof.
  intros t1 t2 mg us.
  destruct (subscriptions_cover_topics (H := in_order) 0 (@NewBybitManager nat) mg us) as (_ & _ & Hc).
  assert (length us = size (topics mg)) as Hl by (vm_compute; reflexivity).
  assert (NoDup (map (fun u => FormatInt (genMsgID u)) us)) as Hnd.
  { apply (bool_decide_eq_true_1 _). vm_compute. reflexivity. }
  specialize (Hc Hl Hnd). destruct (CoinExSubscribeRequests 0 us mg) as [rs mg'].
  destruct Hc as (pairs & -> & _ & H2 & _). simpl. rewrite length_map.
  rewrite <- (length_fmap snd), H2. done.
Defined.
