(* ===== verification/Channel.v ===== *)
(** * The life cycle of a channel (internal/gateways/channel.go)

    [Start] sets a connection up and then selects among cancellation, alerts,
    errors, reconnection signals and messages, in any order.  What a step of the
    loop depends on comes with it: whether a dial succeeds, how many of the
    subscription requests can be written.  Connections are numbered as they are
    dialled.  The topic manager is given by its handler on the state [S] of the
    application; the requests that it makes come with the steps that write them.

    The receiver of a connection (Receiver.v) puts its messages into a buffer, [msgChan], from which
    the loop takes them.  A new connection comes with a receiver and a buffer of its own, so that
    what the old buffer still holds is not taken any more, and what the receiver of a
    replaced connection forwards later goes to a Go channel that nobody receives from: it is
    no event of the channel.

    A receiver, health checker or author that has ended closes its channels, and
    receiving from a closed channel never blocks: the cases of alerts and errors
    stay ready, so they are enabled in every state here.  A send to the full
    signal channel blocks the loop, which alone receives from it. *)

From S2P Require Import Prelude GoStd MutexMap TTLCache Json Topic Receiver.
Local Open Scope Z_scope.

Inductive ScopeType := ScopeTypeUnknown | ScopeTypePublic | ScopeTypePrivate.

#[export] Instance ScopeType_eq_dec : EqDecision ScopeType.
Proof. solve_decision. Defined.

Definition ScopeTypeString (t : ScopeType) : string :=
  match t with ScopeTypePublic => "public" | ScopeTypePrivate => "private" | _ => "" end.

Inductive ChannelStatus :=
  | ChannelStatusUnknown
  | ChannelStatusConnected
  | ChannelStatusDisconnected
  | ChannelStatusReconnecting.

#[export] Instance ChannelStatus_eq_dec : EqDecision ChannelStatus.
Proof. solve_decision. Defined.

(** The functions that [initialize] registers on a receiver. *)
Inductive handler_kind := PongHandler | LatencyHandler | SubscribeRespHandler | AuthHandler.

#[export] Instance handler_kind_eq_dec : EqDecision handler_kind.
Proof. solve_decision. Defined.

(** [reconnectSigChan] has room for this many signals. *)
Definition sig_capacity : nat := 1000.

(** Where [Start] is. *)
Inductive phase := NotStarted | Looping | Blocked | Returned (err : option string).

Section Channel.
  Context {S : Type}.

(** A connection: its number, the handlers of its receiver, whether its health checker and its
    author run under a context that is not cancelled, the requests written to it, and what its
    receiver has forwarded and the loop has not taken yet ([None]: an empty message), with
    whether the receiver has ended and closed its channels. *)
Record connection := MkConnection {
  number : nat;
  receiver : list handler_kind;
  checked : bool;
  authenticating : bool;
  written : list json;
  msgChan : list (option raw);
  receiver_ended : bool
}.

(** A message that the loop has taken: from which connection, and when. *)
Record taken_message := MkTaken { from_conn : nat; taken_at : time; taken_raw : option raw }.

Record Channel := MkChannel {
  scopeType : ScopeType;
  isRunning : bool;
  status : ChannelStatus;
  conn : option connection;
  (** nil until it is set *)
  topicMg : option (time -> raw -> S -> handled S);
  latencyMeasurer : option nat;
  reconnectCount : Z;
  reconnectSigChan : nat;
  (** dialled, and closed by the channel *)
  dialled : nat;
  closed : list nat;
  (** the state of the topics' handlers, and the messages that were taken *)
  app : S;
  taken : list taken_message;
  at_phase : phase
}.

#[export] Instance eta_connection : Eta connection := fun c =>
  MkConnection (number c) (receiver c) (checked c) (authenticating c) (written c) (msgChan c) (receiver_ended c).
#[export] Instance eta_Channel : Eta Channel := fun c =>
  MkChannel (scopeType c) (isRunning c) (status c) (conn c) (topicMg c) (latencyMeasurer c) (reconnectCount c) (reconnectSigChan c)
    (dialled c) (closed c) (app c) (taken c) (at_phase c).

(** [measurer]: a reference, or nil. *)
Definition NewChannel (scopeType' : ScopeType) (measurer : option nat) (app' : S) : Channel :=
  MkChannel scopeType' false ChannelStatusUnknown None None measurer 0 0 0 [] app' [] NotStarted.

Definition SetTopicMg (mg : time -> raw -> S -> handled S) (c : Channel) : Channel := c <| topicMg := Some mg |>.
Definition GetTopicMg (c : Channel) : option (time -> raw -> S -> handled S) := topicMg c.
Definition GetLatencyMeasurer (c : Channel) : option nat := latencyMeasurer c.
Definition IsRunning (c : Channel) : bool := isRunning c.
Definition GetStatus (c : Channel) : ChannelStatus := status c.
Definition isPrivateChan (c : Channel) : bool := bool_decide (scopeType c = ScopeTypePrivate).
Definition setStatus (s : ChannelStatus) (c : Channel) : Channel := c <| status := s |>.

(** ** Setting a connection up *)

(** [initialize]; [None]: the dial failed, and nothing changed. *)
Definition initialize (dial : bool) (c : Channel) : option Channel :=
  if negb dial then None
  else
    let handlers := [PongHandler; LatencyHandler; SubscribeRespHandler] in
    let handlers := if isPrivateChan c then handlers ++ [AuthHandler] else handlers in
    Some (c <| conn := Some (MkConnection (dialled c) handlers false false [] [] false) |>
            <| dialled ::= Datatypes.S |>).

(** The goroutines of [initAndListen] that depend on the context. *)
Definition start_watching (c : Channel) : Channel :=
  c <| conn ::= fmap (fun k => k <| checked := true |> <| authenticating := isPrivateChan c |>) |>.

(** [wsCancel] *)
Definition wsCancel (c : Channel) : Channel :=
  c <| conn ::= fmap (fun k => k <| checked := false |> <| authenticating := false |>) |>.

(** [sendSubscribeRequest]: the first [writable] requests are written; false: an error. *)
Definition sendSubscribeRequest (requests : list json) (writable : nat) (c : Channel) : Channel * bool :=
  (c <| conn ::= fmap (fun k => k <| written ::= fun w => w ++ take writable requests |>) |>,
   (length requests <=? writable)%nat).

Definition initAndListen (requests : list json) (dial : bool) (writable : nat) (c : Channel) : Channel * bool :=
  match initialize dial c with
  | None => (c, false)
  | Some c => sendSubscribeRequest requests writable (start_watching c)
  end.

(** ** The loop *)

Definition resetReconnectSigChan (c : Channel) : Channel := c <| reconnectSigChan := 0%nat |>.

(** [c.reconnectSigChan <- struct{}{}]; blocks when it is full. *)
Definition signal (c : Channel) : Channel :=
  if (reconnectSigChan c <? sig_capacity)%nat then c <| reconnectSigChan ::= Datatypes.S |>
  else c <| at_phase := Blocked |>.

(** An alert or an error: what follows a send that blocks is not run. *)
Definition disconnected (c : Channel) : Channel :=
  let c := signal c in
  match at_phase c with Blocked => c | _ => setStatus ChannelStatusDisconnected c end.

(** The case of [reconnectSigChan]. *)
Definition reconnect (requests : list json) (dial : bool) (writable : nat) (c : Channel) : Channel :=
  let c := c <| reconnectSigChan ::= Nat.pred |> in
  let c := setStatus ChannelStatusReconnecting c in
  let c := resetReconnectSigChan c in
  let c := wsCancel c in
  let '(c, ok) := initAndListen requests dial writable c in
  if negb ok then
    let c := setStatus ChannelStatusDisconnected c in
    let c := c <| reconnectCount ::= fun n => wrap64 (n + 1) |> in
    signal c
  else
    let c := setStatus ChannelStatusConnected c in
    c <| reconnectCount := 0 |>.

(** The case of cancellation. *)
Definition stop (c : Channel) : Channel :=
  let c := c <| closed ::= fun l => l ++ match conn c with Some k => [number k] | None => [] end |> in
  let c := wsCancel c in
  c <| isRunning := false |> <| at_phase := Returned None |>.

(** The beginning of [Start]. *)
Definition Start (requests : list json) (dial : bool) (writable : nat) (c : Channel) : Channel :=
  let c := c <| isRunning := true |> in
  let '(c, ok) := initAndListen requests dial writable c in
  if negb ok then wsCancel c <| at_phase := Returned (Some "failed to initialize or subscribe"%string) |>
  else setStatus ChannelStatusConnected c <| at_phase := Looping |>.

(** [handleTopicMessage]; an empty message is what a closed channel gives.  An error is logged;
    a panic, of a handler or because there is no manager, ends the process, and has no step. *)
Definition handleTopicMessage (timestamp : time) (rawMsg : option raw) (c : Channel) : option Channel :=
  match rawMsg with
  | None => Some c
  | Some m =>
      mg ← topicMg c;
      match mg timestamp m (app c) with
      | Handled s | Erred s => Some (c <| app := s |>)
      | Panicked => None
      end
  end.

(** The case of [msgChan]: it waits for a message, and the closed channel gives an empty one. *)
Definition take_message (timestamp : time) (c : Channel) : option Channel :=
  k ← conn c;
  match msgChan k with
  | rawMsg :: rest =>
      let c := c <| conn := Some (k <| msgChan := rest |>) |> in
      let c := c <| taken ::= fun l => l ++ [MkTaken (number k) timestamp rawMsg] |> in
      handleTopicMessage timestamp rawMsg c
  | [] => if receiver_ended k then handleTopicMessage timestamp None c else None
  end.

(** The receiver of the last connection: it forwards a message, or ends. *)
Definition forward (rawMsg : option raw) (k : connection) : connection := k <| msgChan ::= fun l => l ++ [rawMsg] |>.
Definition end_receiver (k : connection) : connection := k <| receiver_ended := true |>.

(** Where [initialize] gets past the dial it takes a method of the manager, and panics on nil. *)
Definition can_initialize (dial : bool) (c : Channel) : Prop := dial = true -> is_Some (topicMg c).

Inductive event :=
  | ESetTopicMg (mg : time -> raw -> S -> handled S)
  | EStart (requests : list json) (dial : bool) (writable : nat)
  | EAlert
  | EReconnect (requests : list json) (dial : bool) (writable : nat)
  | EForward (n : nat) (rawMsg : option raw)
  | EEnd (n : nat)
  | EMessage (timestamp : time)
  | ECancel.

(** [requests] are those of the manager; it is set before the channel is started. *)
Inductive cstep : event -> Channel -> Channel -> Prop :=
  | step_manager mg c :
      at_phase c = NotStarted -> cstep (ESetTopicMg mg) c (SetTopicMg mg c)
  | step_start requests dial writable c :
      at_phase c = NotStarted -> can_initialize dial c ->
      cstep (EStart requests dial writable) c (Start requests dial writable c)
  | step_alert c :
      at_phase c = Looping -> cstep EAlert c (disconnected c)
  | step_reconnect requests dial writable c :
      at_phase c = Looping -> (0 < reconnectSigChan c)%nat -> can_initialize dial c ->
      cstep (EReconnect requests dial writable) c (reconnect requests dial writable c)
  | step_forward k rawMsg c :
      conn c = Some k -> receiver_ended k = false -> (length (msgChan k) < Flow.msgChan_capacity)%nat ->
      cstep (EForward (number k) rawMsg) c (c <| conn := Some (forward rawMsg k) |>)
  | step_end k c :
      conn c = Some k -> receiver_ended k = false ->
      cstep (EEnd (number k)) c (c <| conn := Some (end_receiver k) |>)
  | step_message timestamp c c' :
      at_phase c = Looping -> take_message timestamp c = Some c' ->
      cstep (EMessage timestamp) c c'
  | step_cancel c :
      at_phase c = Looping -> cstep ECancel c (stop c).

Inductive csteps : list event -> Channel -> Channel -> Prop :=
  | steps_nil c : csteps [] c c
  | steps_cons e es c c1 c2 : cstep e c c1 -> csteps es c1 c2 -> csteps (e :: es) c c2.

End Channel.
