(* ===== verification/ChannelProps.v ===== *)
(** * Properties of the life cycle of a channel *)

From S2P Require Import Prelude GoStd MutexMap TTLCache Json Topic Receiver Channel.
Local Open Scope Z_scope.

Section Props.
  Context {S : Type}.

(** ** The state of a channel *)

Definition handlers_of (c : Channel (S := S)) : list handler_kind :=
  [PongHandler; LatencyHandler; SubscribeRespHandler] ++ (if isPrivateChan c then [AuthHandler] else []).

(** The connection that the channel uses is the last one dialled, and its receiver has the
    handlers of the channel's scope. *)
Definition last_connection (c : Channel) (k : connection) : Prop :=
  conn c = Some k /\ Datatypes.S (number k) = dialled c /\ receiver k = handlers_of c.

(** Connected: watched, with no signal pending and no failure counted; disconnected: a signal is
    pending, so a reconnection follows. *)
Definition looping_ok (c : Channel) : Prop :=
  isRunning c = true /\ closed c = [] /\ is_Some (topicMg c) /\ (exists k, last_connection c k /\
    (status c = ChannelStatusConnected ->
       checked k = true /\ authenticating k = isPrivateChan c)) /\
  ((status c = ChannelStatusConnected /\ reconnectSigChan c = 0%nat /\ reconnectCount c = 0) \/
   (status c = ChannelStatusDisconnected /\ (0 < reconnectSigChan c <= sig_capacity)%nat)).

Definition channel_ok (c : Channel) : Prop :=
  match at_phase c with
  | NotStarted => isRunning c = false /\ conn c = None /\ dialled c = 0%nat /\ closed c = [] /\
                  reconnectSigChan c = 0%nat /\ reconnectCount c = 0
  | Looping => looping_ok c
  | Blocked => reconnectSigChan c = sig_capacity
  | Returned None => isRunning c = false /\ exists k, last_connection c k /\ closed c = [number k] /\
                     checked k = false /\ authenticating k = false
  | Returned (Some _) => isRunning c = true /\ closed c = []
  end.

(** What setting a connection up gives: on a failed dial nothing, otherwise a new connection. *)
Lemma initAndListen_spec requests dial writable (c : Channel (S := S)) :
  let '(c', ok) := initAndListen requests dial writable c in
  ok = dial && (length requests <=? writable)%nat /\
  c' = if dial then c <| conn := Some (MkConnection (dialled c) (handlers_of c) true (isPrivateChan c)
                                         (take writable requests) [] false) |> <| dialled ::= Datatypes.S |>
       else c.
Proof.
  unfold initAndListen, initialize, start_watching, sendSubscribeRequest, handlers_of.
  destruct dial; simpl; [|done]. split; [done|]. destruct c as [st ? ? ? ? ? ? ? ? ? ? ? ?].
  unfold isPrivateChan. simpl. by destruct (bool_decide (st = ScopeTypePrivate)).
Qed.

(** Replaces the set-up in the goal by what it gives. *)
Ltac set_up c1 :=
  match goal with
  | |- context [initAndListen ?r ?d ?w ?c] =>
      set (c1 := c); let H := fresh in
      pose proof (initAndListen_spec r d w c1) as H; destruct (initAndListen r d w c1) as [? ?];
      destruct H as [-> ->]
  end.

Lemma signal_phase (c : Channel (S := S)) :
  at_phase c = Looping -> (reconnectSigChan c <= sig_capacity)%nat ->
  (at_phase (signal c) = Looping /\ reconnectSigChan (signal c) = Datatypes.S (reconnectSigChan c) /\
   signal c = c <| reconnectSigChan ::= Datatypes.S |> /\ (reconnectSigChan (signal c) <= sig_capacity)%nat) \/
  (signal c = c <| at_phase := Blocked |> /\ reconnectSigChan c = sig_capacity).
Proof.
  intros Hp Hle. unfold signal. destruct (Nat.ltb_spec (reconnectSigChan c) sig_capacity).
  - left. by split_and!.
  - right. split; [done|lia].
Qed.

Lemma reconnect_ok requests dial writable (c : Channel (S := S)) :
  at_phase c = Looping -> looping_ok c ->
  let c' := reconnect requests dial writable c in
  at_phase c' = Looping /\ looping_ok c' /\
  (status c' = ChannelStatusConnected <-> dial = true /\ (length requests <= writable)%nat).
Proof.
  intros Hp (Hrun & Hcl & Hmg & (k & (Hk & Hn & Hr) & Hw) & Hs). unfold reconnect. set_up c1.
  assert (handlers_of c1 = handlers_of c) as Hh by done.
  destruct dial; simpl.
  - destruct (Nat.leb_spec (length requests) writable); simpl.
    + split; [done|]. split; [|done]. split_and!; simpl; try done; [..|by left].
      eexists. split_and!; simpl; done.
    + unfold signal. simpl. rewrite Hp. split; [done|]. split; [|split; [done|intros []; lia]].
      split_and!; simpl; try done; [|right; unfold sig_capacity; split; [done|lia]].
      eexists. split_and!; simpl; done.
  - unfold signal. simpl. split; [done|]. split; [|by split; [|intros []]].
    split_and!; simpl; try done; [|right; unfold sig_capacity; split; [done|lia]].
    exists (k <| checked := false |> <| authenticating := false |>).
    (split; [split|]); simpl; try done. by rewrite Hk.
Qed.

(** What a receiver does to its connection matters to nothing but its messages. *)
Lemma receiver_step_ok (c : Channel (S := S)) k k' :
  conn c = Some k -> number k' = number k -> receiver k' = receiver k -> checked k' = checked k ->
  authenticating k' = authenticating k -> channel_ok c -> channel_ok (c <| conn := Some k' |>).
Proof.
  intros Hk Hn Hr Hch Ha. unfold channel_ok. simpl.
  assert (forall k0, last_connection c k0 -> k0 = k /\ last_connection (c <| conn := Some k' |>) k') as Hl.
  { intros k0 (Hk0 & Hd & Hr0). simplify_eq. split; [done|]. unfold last_connection. simpl. rewrite Hn, Hr. done. }
  destruct (at_phase c) as [| | |[err|]].
  - intros (_ & Hc & _). congruence.
  - intros (Hrun & Hcl & Hmg & (k0 & Hk0 & Hw) & Hs). split_and!; try done.
    exists k'. destruct (Hl k0 Hk0) as [-> Hl']. split; [done|]. by rewrite Hch, Ha.
  - done.
  - done.
  - intros (Hrun & k0 & Hk0 & Hcl & H1 & H2). split; [done|]. exists k'. destruct (Hl k0 Hk0) as [-> Hl'].
    split; [done|]. simpl. by rewrite Hn, Hch, Ha.
Qed.

Lemma handled_message timestamp rawMsg (c c' : Channel (S := S)) :
  handleTopicMessage timestamp rawMsg c = Some c' -> c' = c <| app := app c' |>.
Proof.
  unfold handleTopicMessage. destruct rawMsg as [m|]; [|intros [= <-]; by destruct c].
  destruct (topicMg c) as [mg|]; [|done]. simpl. destruct (mg timestamp m (app c)); try done; by intros [= <-].
Qed.

Lemma message_step_ok timestamp (c c' : Channel (S := S)) :
  take_message timestamp c = Some c' -> channel_ok c -> channel_ok c'.
Proof.
  intros (k & Hk & Hm)%bind_Some Hok. destruct (msgChan k) as [|rawMsg rest].
  - destruct (receiver_ended k); [|done]. by injection Hm as <-.
  - apply handled_message in Hm. rewrite Hm.
    by apply (receiver_step_ok c k (k <| msgChan := rest |>)) in Hok.
Qed.

Lemma cstep_ok e c c' : cstep e c c' -> channel_ok c -> channel_ok c'.
Proof.
  intros Hstep Hok. destruct Hstep as [mg c Hp|requests dial writable c Hp Hcan|c Hp|requests dial writable c Hp Hsig Hcan
    |k rawMsg c Hk He Hroom|k c Hk He|timestamp c c' Hp Hm|c Hp]; try (unfold channel_ok in Hok; rewrite Hp in Hok).
  - unfold channel_ok. simpl. by rewrite Hp.
  - destruct Hok as (Hrun & Hconn & Hd & Hcl & Hs & Hc). unfold Start. set_up c1.
    destruct dial; [destruct (Nat.leb_spec (length requests) writable)|]; simpl; unfold channel_ok; simpl; try done.
    split_and!; simpl; try done; [by apply Hcan| |by left]. eexists. split_and!; simpl; done.
  - destruct Hok as (Hrun & Hcl & Hmg & (k & Hk & Hw) & Hs). unfold disconnected.
    destruct (signal_phase c Hp) as [(Hp' & Hn & -> & Hle)|[-> Hfull]].
    + destruct Hs as [(_ & -> & _)|[_ Hs]]; lia.
    + simpl. rewrite Hp. unfold channel_ok. simpl. rewrite Hp. simpl in *.
      split_and!; simpl; try done; [|right; split; [done|lia]]. by exists k.
    + unfold channel_ok. by simpl.
  - destruct (reconnect_ok requests dial writable c Hp Hok) as (Hp' & Hok' & _).
    unfold channel_ok. by rewrite Hp'.
  - by apply (receiver_step_ok c k).
  - by apply (receiver_step_ok c k).
  - apply (message_step_ok timestamp c); [done|]. unfold channel_ok. by rewrite Hp.
  - destruct Hok as (Hrun & Hcl & _ & (k & (Hk & Hn & Hr) & Hw) & Hs). unfold channel_ok, stop. simpl.
    split; [done|]. rewrite Hk, Hcl. simpl.
    exists (k <| checked := false |> <| authenticating := false |>). split; [|done].
    (split; [|split]); simpl; try done. by rewrite Hk.
Qed.

Lemma csteps_ok es c c' : csteps es c c' -> channel_ok c -> channel_ok c'.
Proof. induction 1; [done|]. intros Hc. apply IHcsteps. by eapply cstep_ok. Qed.

Lemma new_ok scope lm s : channel_ok (NewChannel scope lm s).
Proof. by split_and!. Qed.

(** C30: the states of a channel, whatever happens in whatever order: while its loop runs it is
    either connected, with its last connection watched and nothing pending, or disconnected with a
    signal pending, at most a thousand of them, so that a reconnection follows; the
    status is never anything else between two steps.  Cancelled, it is not running, and
    it has closed its last connection and stopped its watchers. *)
Theorem channel_invariant scope lm s es c :
  csteps es (NewChannel scope lm s) c -> channel_ok c.
Proof. intros H. exact (csteps_ok es _ c H (new_ok scope lm s)). Qed.

(** C31: a channel that lost its connection gets it back: in every state that can be reached with
    the loop running and the status not connected, the reconnection is possible, and when
    the dial succeeds and all requests can be written, that one step connects: a new
    connection, watched, with all handlers and with every request written, nothing
    pending and no failure counted.  A connected channel does not reconnect. *)
Theorem reconnect_restores scope lm s es c requests writable :
  csteps es (NewChannel scope lm s) c -> at_phase c = Looping -> (length requests <= writable)%nat ->
  (status c = ChannelStatusConnected -> forall c', ~ cstep (EReconnect requests true writable) c c') /\
  (status c <> ChannelStatusConnected ->
     exists c' k, cstep (EReconnect requests true writable) c c' /\
       status c' = ChannelStatusConnected /\ reconnectSigChan c' = 0%nat /\ reconnectCount c' = 0 /\
       last_connection c' k /\ number k = dialled c /\ checked k = true /\
       authenticating k = isPrivateChan c /\ written k = requests).
Proof.
  intros Hr Hp Hl. pose proof (csteps_ok es _ c Hr (new_ok scope lm s)) as Hok. unfold channel_ok in Hok.
  rewrite Hp in Hok. pose proof Hok as (Hrun & Hcl & Hmg & (k & Hk & Hw) & Hs). split.
  - intros Hst c' Hstep. inversion Hstep; subst. destruct Hs as [(_ & Hs & _)|[Hs _]]; [lia|congruence].
  - intros Hst. destruct Hs as [(Hs & _)|[Hs Hsig]]; [congruence|].
    exists (reconnect requests true writable c). unfold reconnect.
    set (c1 := wsCancel _). pose proof (initAndListen_spec requests true writable c1) as H.
    pose proof (step_reconnect requests true writable c Hp ltac:(lia) (fun _ => Hmg)) as Hstep.
    unfold reconnect in Hstep. fold c1 in Hstep.
    destruct (initAndListen requests true writable c1) as [c2 ok]. destruct H as [-> ->].
    simpl in Hstep |- *. rewrite (proj2 (Nat.leb_le _ _) Hl) in Hstep |- *. simpl in *.
    eexists. split; [exact Hstep|]. split_and!; simpl; try done. by apply take_ge.
Qed.

(** ** Connections *)

(** The successful dials of a run. *)
Definition dials (es : list (event (S := S))) : nat :=
  length (List.filter (fun e => match e with EStart _ d _ | EReconnect _ d _ => d | _ => false end) es).

Lemma cstep_dialled e c c' : cstep e c c' -> dialled c' = (dials [e] + dialled c)%nat.
Proof.
  intros Hstep. destruct Hstep as [mg c Hp|requests dial writable c Hp Hcan|c Hp|requests dial writable c Hp Hsig Hcan
    |k rawMsg c Hk He Hroom|k c Hk He|timestamp c c' Hp Hm|c Hp].
  - done.
  - unfold Start, dials. set_up c1.
    by destruct dial, (length requests <=? writable)%nat.
  - unfold disconnected, signal. destruct (_ <? _)%nat; simpl; by destruct (at_phase c).
  - unfold reconnect, dials. set_up c1.
    unfold signal. destruct dial, (length requests <=? writable)%nat; simpl; done.
  - done.
  - done.
  - apply bind_Some in Hm as (k & Hk & Hm). destruct (msgChan k) as [|rawMsg rest].
    + destruct (receiver_ended k); [|done]. by injection Hm as <-.
    + apply handled_message in Hm. by rewrite Hm.
  - done.
Qed.

Lemma csteps_dialled es c c' : csteps es c c' -> dialled c' = (dials es + dialled c)%nat.
Proof.
  induction 1 as [|e es c c1 c2 Hs _ IH]; [done|]. rewrite IH, (cstep_dialled _ _ _ Hs).
  unfold dials. simpl. destruct (match e with EStart _ d _ | EReconnect _ d _ => d | _ => false end); simpl; lia.
Qed.

(** A channel never closes a connection that it replaces: while it runs nothing has been closed, so
    every connection it ever dialled is still open, and when it is cancelled only the last
    one is closed. *)
Theorem connections_stay_open scope lm s es c :
  csteps es (NewChannel scope lm s) c ->
  dialled c = dials es /\
  (at_phase c = Looping -> closed c = []) /\
  (at_phase c = Returned None -> exists k, dials es = Datatypes.S k /\ closed c = [k]).
Proof.
  intros Hr. pose proof (csteps_ok es _ c Hr (new_ok scope lm s)) as Hok.
  pose proof (csteps_dialled es _ c Hr) as Hd. simpl in Hd. rewrite Nat.add_0_r in Hd.
  split; [done|]. unfold channel_ok in Hok. split.
  - intros Hp. rewrite Hp in Hok. apply Hok.
  - intros Hp. rewrite Hp in Hok. destruct Hok as (_ & k & (_ & Hn & _) & Hc & _). exists (number k).
    by rewrite <- Hd, <- Hn.
Qed.

(** [Start] that cannot connect or subscribe returns its error and leaves the channel marked as
    running, although nothing runs. *)
Lemma failed_start_keeps_running requests writable (c : Channel (S := S)) :
  at_phase c = NotStarted -> conn c = None ->
  isRunning (Start requests false writable c) = true /\
  at_phase (Start requests false writable c) = Returned (Some "failed to initialize or subscribe"%string) /\
  (forall e c', ~ cstep e (Start requests false writable c) c').
Proof.
  intros Hp Hn. split; [done|]. split; [done|]. intros e c' Hs. inversion Hs; subst; simpl in *; rewrite ?Hn in *; done.
Qed.

(** ** Messages *)

(** What the receiver of the [n]-th connection has forwarded while it was the last one, and what
    the loop has taken of it. *)
Definition forwarded_by (n : nat) (es : list (event (S := S))) : list (option raw) :=
  flat_map (fun e => match e with EForward n' rawMsg => if Nat.eqb n' n then [rawMsg] else [] | _ => [] end) es.
Definition taken_from (n : nat) (c : Channel (S := S)) : list (option raw) :=
  map taken_raw (List.filter (fun t => Nat.eqb (from_conn t) n) (taken c)).

(** What the loop has taken, handled one message after the other. *)
Fixpoint handle_all (mg : time -> raw -> S -> handled S) (ts : list taken_message) (s : S) : option S :=
  match ts with
  | [] => Some s
  | t :: ts =>
      match taken_raw t with
      | None => handle_all mg ts s
      | Some m => s ← match mg (taken_at t) m s with Handled s | Erred s => Some s | Panicked => None end; handle_all mg ts s
      end
  end.

Lemma handle_all_app mg ts ts' s : handle_all mg (ts ++ ts') s = handle_all mg ts s ≫= handle_all mg ts'.
Proof.
  revert s. induction ts as [|t ts IH]; intros s; simpl; [done|]. destruct (taken_raw t) as [m|]; [|apply IH].
  destruct (mg (taken_at t) m s); simpl; [apply IH..|done].
Qed.

(** The number of the last connection and its buffer. *)
Definition buffer_of (c : Channel (S := S)) : option (nat * list (option raw)) :=
  (fun k => (number k, msgChan k)) <$> conn c.

(** What a step does to the messages. *)
Definition message_effect (e : event (S := S)) (c c' : Channel (S := S)) : Prop :=
  match e with
  | ESetTopicMg mg =>
      at_phase c = NotStarted /\ topicMg c' = Some mg /\ buffer_of c' = buffer_of c /\ dialled c' = dialled c /\
      taken c' = taken c /\ app c' = app c
  | EStart _ dial _ | EReconnect _ dial _ =>
      topicMg c' = topicMg c /\ taken c' = taken c /\ app c' = app c /\
      (if dial then buffer_of c' = Some (dialled c, []) /\ dialled c' = Datatypes.S (dialled c)
       else buffer_of c' = buffer_of c /\ dialled c' = dialled c)
  | EAlert | ECancel | EEnd _ =>
      topicMg c' = topicMg c /\ taken c' = taken c /\ app c' = app c /\ buffer_of c' = buffer_of c /\ dialled c' = dialled c
  | EForward n rawMsg =>
      topicMg c' = topicMg c /\ taken c' = taken c /\ app c' = app c /\ dialled c' = dialled c /\
      exists q, buffer_of c = Some (n, q) /\ (length q < Flow.msgChan_capacity)%nat /\ buffer_of c' = Some (n, q ++ [rawMsg])
  | EMessage timestamp =>
      topicMg c' = topicMg c /\ dialled c' = dialled c /\ exists n q, buffer_of c = Some (n, q) /\
      match q with
      | [] => taken c' = taken c /\ app c' = app c /\ buffer_of c' = buffer_of c
      | rawMsg :: q => let t := MkTaken n timestamp rawMsg in
          taken c' = taken c ++ [t] /\ buffer_of c' = Some (n, q) /\
          match rawMsg with
          | None => app c' = app c
          | Some _ => exists mg, topicMg c = Some mg /\ handle_all mg [t] (app c) = Some (app c')
          end
      end
  end.

Lemma cstep_messages e c c' : cstep e c c' -> message_effect e c c'.
Proof.
  intros Hstep. destruct Hstep as [mg c Hp|requests dial writable c Hp Hcan|c Hp|requests dial writable c Hp Hsig Hcan
    |k rawMsg c Hk He Hroom|k c Hk He|timestamp c c' Hp Hm|c Hp]; simpl; unfold buffer_of.
  - done.
  - unfold Start. set_up c1. destruct dial, (length requests <=? writable)%nat; simpl; split_and!; try done; by destruct (conn c).
  - unfold disconnected, signal. destruct (_ <? _)%nat; simpl; by destruct (at_phase c).
  - unfold reconnect. set_up c1. unfold signal.
    destruct dial, (length requests <=? writable)%nat; simpl; split_and!; try done; by destruct (conn c).
  - split_and!; try done. exists (msgChan k). by rewrite Hk.
  - by rewrite Hk.
  - unfold take_message in Hm. apply bind_Some in Hm as (k & Hk & Hm). rewrite Hk. destruct (msgChan k) as [|rawMsg rest] eqn:Hq.
    + destruct (receiver_ended k); [|done]. injection Hm as <-. rewrite Hk. simpl. rewrite Hq.
      split; [done|]. split; [done|]. by exists (number k), [].
    + pose proof (handled_message _ _ _ _ Hm) as Hc'.
      assert (topicMg c' = topicMg c /\ dialled c' = dialled c /\ conn c' = Some (k <| msgChan := rest |>) /\
        taken c' = taken c ++ [MkTaken (number k) timestamp rawMsg]) as (-> & -> & -> & ->) by (by rewrite Hc').
      split; [done|]. split; [done|]. exists (number k), (rawMsg :: rest). split; [simpl; by rewrite Hq|].
      split; [done|]. split; [done|]. clear Hc'. unfold handleTopicMessage in Hm. destruct rawMsg as [m|].
      * simpl in Hm. destruct (topicMg c) as [mg|]; [|done]. simpl in Hm. exists mg. split; [done|].
        destruct (mg timestamp m (app c)); try done; by injection Hm as <-.
      * by injection Hm as <-.
  - split_and!; try done. unfold stop, wsCancel. simpl. by destruct (conn c).
Qed.


(** The messages of a run that has come to the channel [c]. *)
Record messages_inv (es : list (event (S := S))) (s : S) (c : Channel (S := S)) : Prop := {
  mi_last : match buffer_of c with
    | Some (n, q) => Datatypes.S n = dialled c /\ taken_from n c ++ q = forwarded_by n es /\
                     (length q <= Flow.msgChan_capacity)%nat
    | None => dialled c = 0%nat /\ taken c = []
    end;
  mi_new : forall n, (dialled c <= n)%nat -> taken_from n c = [] /\ forwarded_by n es = [];
  mi_old : forall n, taken_from n c `prefix_of` forwarded_by n es;
  mi_sorted : forall i j t1 t2, (i <= j)%nat -> taken c !! i = Some t1 -> taken c !! j = Some t2 ->
    (from_conn t1 <= from_conn t2)%nat;
  mi_bound : Forall (fun t => Datatypes.S (from_conn t) <= dialled c)%nat (taken c);
  mi_app : match topicMg c with
    | Some mg => handle_all mg (taken c) s = Some (app c)
    | None => taken c = [] /\ app c = s
    end
}.

Lemma forwarded_by_snoc n es e :
  forwarded_by n (es ++ [e]) = forwarded_by n es ++ forwarded_by n [e].
Proof. unfold forwarded_by. by rewrite flat_map_app. Qed.

Lemma taken_from_same n (c c' : Channel (S := S)) : taken c' = taken c -> taken_from n c' = taken_from n c.
Proof. unfold taken_from. by intros ->. Qed.

(** Nothing was taken or forwarded, the last connection may be a new one. *)
Lemma messages_quiet es s e (c c' : Channel (S := S)) :
  (forall n, forwarded_by n [e] = []) -> topicMg c' = topicMg c -> taken c' = taken c -> app c' = app c ->
  (buffer_of c' = buffer_of c /\ dialled c' = dialled c \/
   buffer_of c' = Some (dialled c, []) /\ dialled c' = Datatypes.S (dialled c)) ->
  messages_inv es s c -> messages_inv (es ++ [e]) s c'.
Proof.
  intros Hf Hmg Ht Ha Hb [Hl Hn Ho Hs Hbd Hap].
  assert (forall n, forwarded_by n (es ++ [e]) = forwarded_by n es) as Hfw.
  { intros n. by rewrite forwarded_by_snoc, Hf, app_nil_r. }
  assert (forall n, taken_from n c' = taken_from n c) as Htk by (intros n; by apply taken_from_same).
  constructor; rewrite ?Hmg, ?Ht, ?Ha; try done.
  - destruct Hb as [[-> ->]|[-> ->]].
    + destruct (buffer_of c) as [[n q]|]; [by rewrite Htk, Hfw|done].
    + destruct (Hn (dialled c)) as [H1 H2]; [lia|]. rewrite Htk, Hfw, H1, H2. split_and!; [done|done|simpl; lia].
  - intros n Hle. rewrite Htk, Hfw. apply Hn. destruct Hb as [[_ H]|[_ H]]; lia.
  - intros n. rewrite Htk, Hfw. apply Ho.
  - eapply Forall_impl; [exact Hbd|]. cbn beta. intros t Hle. destruct Hb as [[_ H]|[_ H]]; lia.
Qed.

(** The receiver forwards a message. *)
Lemma messages_forward es s n rawMsg (c c' : Channel (S := S)) :
  message_effect (EForward n rawMsg) c c' -> messages_inv es s c -> messages_inv (es ++ [EForward n rawMsg]) s c'.
Proof.
  intros (Hmg & Ht & Ha & Hd & q & Hb & Hroom & Hb') [Hl Hn Ho Hs Hbd Hap].
  assert (forall m, forwarded_by m (es ++ [EForward n rawMsg]) = forwarded_by m es ++ if Nat.eqb n m then [rawMsg] else []) as Hfw.
  { intros m. rewrite forwarded_by_snoc. simpl. by destruct (Nat.eqb n m). }
  assert (forall m, taken_from m c' = taken_from m c) as Htk by (intros m; by apply taken_from_same).
  rewrite Hb in Hl. destruct Hl as (Hnd & Hq & Hlen).
  constructor; rewrite ?Hmg, ?Ht, ?Ha, ?Hd; try done.
  - rewrite Hb', Htk, Hfw, Nat.eqb_refl, app_assoc, Hq. split_and!; [done|done|]. rewrite length_app. cbn [length]. lia.
  - intros m Hle. rewrite Htk, Hfw. destruct (Hn m Hle) as [-> ->]. destruct (Nat.eqb_spec n m); [lia|done].
  - intros m. rewrite Htk, Hfw. etrans; [apply Ho|]. by eexists.
Qed.

Lemma taken_from_snoc n t (c c' : Channel (S := S)) :
  taken c' = taken c ++ [t] ->
  taken_from n c' = taken_from n c ++ if Nat.eqb (from_conn t) n then [taken_raw t] else [].
Proof.
  unfold taken_from. intros ->. rewrite List.filter_app, map_app. simpl. by destruct (Nat.eqb _ n).
Qed.

(** The loop takes a message, or finds the channel closed. *)
Lemma messages_taken es s timestamp (c c' : Channel (S := S)) :
  is_Some (topicMg c) -> message_effect (EMessage timestamp) c c' -> messages_inv es s c ->
  messages_inv (es ++ [EMessage timestamp]) s c'.
Proof.
  intros [mg Hset] (Hmg & Hd & n & [|rawMsg q] & Hb & H) Hinv.
  { destruct H as (Ht & Ha & Hb'). apply (messages_quiet _ _ _ c); try done. by left. }
  destruct H as (Ht & Hb' & Ha). destruct Hinv as [Hl Hn Ho Hs Hbd Hap].
  assert (forall m, forwarded_by m (es ++ [EMessage timestamp]) = forwarded_by m es) as Hfw.
  { intros m. rewrite forwarded_by_snoc. simpl. by rewrite app_nil_r. }
  pose proof (fun m => taken_from_snoc m _ _ _ Ht) as Htk. simpl in Htk.
  rewrite Hb in Hl. destruct Hl as (Hnd & Hq & Hlen). simpl in Hlen.
  constructor; rewrite ?Hmg, ?Hd.
  - rewrite Hb', Htk, Nat.eqb_refl, Hfw, <- Hq, <- app_assoc. split_and!; [done|done|lia].
  - intros m Hle. rewrite Htk, Hfw. destruct (Hn m Hle) as [-> ->]. destruct (Nat.eqb_spec n m); [lia|done].
  - intros m. rewrite Htk, Hfw. destruct (Nat.eqb_spec n m) as [<-|]; [|rewrite app_nil_r; apply Ho].
    rewrite <- Hq. exists q. by rewrite <- app_assoc.
  - intros i j t1 t2 Hij. rewrite Ht. intros [H1|[H1 H1']]%lookup_app_Some [H2|[H2 H2']]%lookup_app_Some.
    + by eapply Hs.
    + apply list_lookup_singleton_Some in H2' as [_ <-]. simpl. rewrite Forall_forall in Hbd.
      pose proof (Hbd t1 (list_elem_of_lookup_2 _ _ _ H1)). lia.
    + apply lookup_lt_Some in H2. lia.
    + apply list_lookup_singleton_Some in H1' as [_ <-], H2' as [_ <-]. done.
  - rewrite Ht. apply Forall_app. split; [done|]. constructor; [simpl; lia|constructor].
  - rewrite Ht, Hset in *. rewrite handle_all_app, Hap. destruct rawMsg as [m|]; [|by rewrite Ha].
    destruct Ha as (mg' & [= <-] & Hx). exact Hx.
Qed.

Lemma messages_step es s e (c c' : Channel (S := S)) :
  channel_ok c -> cstep e c c' -> messages_inv es s c -> messages_inv (es ++ [e]) s c'.
Proof.
  intros Hok Hstep Hinv. pose proof (cstep_messages _ _ _ Hstep) as Heff. destruct e as [mg|rs dial w| |rs dial w|n rawMsg|n|timestamp|].
  - destruct Heff as (Hp & Hmg & Hb & Hd & Ht & Ha). unfold channel_ok in Hok. rewrite Hp in Hok. destruct Hok as (_ & Hc & _).
    destruct Hinv as [Hl Hn Ho Hs Hbd Hap]. assert (taken c = [] /\ app c = s) as [Ht0 <-].
    { unfold buffer_of in Hl. rewrite Hc in Hl. destruct Hl as [_ Ht0]. split; [done|]. rewrite Ht0 in Hap.
      by destruct (topicMg c); [injection Hap|destruct Hap]. }
    assert (messages_inv (es ++ [ESetTopicMg mg]) (app c) (c' <| topicMg := topicMg c |>)) as [Hl' Hn' Ho' Hs' Hbd' _].
    { apply (messages_quiet es (app c) _ c); try done; first [by left|by constructor]. }
    constructor; try done. by rewrite Hmg, Ht, Ht0, Ha.
  - destruct Heff as (Hmg & Ht & Ha & Hb). apply (messages_quiet es s _ c); try done. destruct dial; [by right|by left].
  - destruct Heff as (Hmg & Ht & Ha & Hb). apply (messages_quiet es s _ c); try done. by left.
  - destruct Heff as (Hmg & Ht & Ha & Hb). apply (messages_quiet es s _ c); try done. destruct dial; [by right|by left].
  - by apply (messages_forward es s n rawMsg c).
  - destruct Heff as (Hmg & Ht & Ha & Hb). apply (messages_quiet es s _ c); try done. by left.
  - apply (messages_taken es s timestamp c); [|done..]. inversion Hstep as [| | | | | |? ? ? Hp _|]; subst.
    unfold channel_ok in Hok. rewrite Hp in Hok. by destruct Hok as (_ & _ & Hmg & _).
  - destruct Heff as (Hmg & Ht & Ha & Hb). apply (messages_quiet es s _ c); try done. by left.
Qed.

Lemma messages_steps es0 es s (c c' : Channel (S := S)) :
  csteps es c c' -> channel_ok c -> messages_inv es0 s c -> messages_inv (es0 ++ es) s c'.
Proof.
  intros Hs. revert es0. induction Hs as [c|e es c c1 c2 Hstep _ IH]; intros es0 Hok Hinv; [by rewrite app_nil_r|].
  change (e :: es) with ([e] ++ es). rewrite app_assoc. apply IH; [by eapply cstep_ok|by eapply messages_step].
Qed.

Lemma messages_new scope lm s : messages_inv [] s (NewChannel scope lm s).
Proof. by constructor. Qed.

(** After a replacement nothing of an earlier connection is taken, or forwarded to the channel. *)
Definition beyond (n : nat) (c : Channel (S := S)) : Prop :=
  exists m q, buffer_of c = Some (m, q) /\ (n < m)%nat /\ Datatypes.S m = dialled c.

Lemma beyond_step n e (c c' : Channel (S := S)) :
  cstep e c c' -> beyond n c -> beyond n c' /\ taken_from n c' = taken_from n c /\ forwarded_by n [e] = [].
Proof.
  intros Heff%cstep_messages (m & q & Hb & Hlt & Hd). unfold beyond.
  destruct e as [mg|rs dial w| |rs dial w|n' rawMsg|n'|timestamp|]; simpl in Heff.
  - destruct Heff as (_ & _ & -> & -> & Ht & _). split; [by exists m, q|]. by split; [apply taken_from_same|].
  - destruct Heff as (_ & Ht & _ & Hx). split; [|by split; [apply taken_from_same|]].
    destruct dial; destruct Hx as [-> ->]; [exists (dialled c), []; split_and!; [done|lia|done]|by exists m, q].
  - destruct Heff as (_ & Ht & _ & -> & ->). split; [by exists m, q|]. by split; [apply taken_from_same|].
  - destruct Heff as (_ & Ht & _ & Hx). split; [|by split; [apply taken_from_same|]].
    destruct dial; destruct Hx as [-> ->]; [exists (dialled c), []; split_and!; [done|lia|done]|by exists m, q].
  - destruct Heff as (_ & Ht & _ & -> & q' & Hb2 & _ & ->). rewrite Hb in Hb2. injection Hb2 as <- <-.
    split; [by exists m, (q ++ [rawMsg])|]. split; [by apply taken_from_same|]. simpl. destruct (Nat.eqb_spec m n); [lia|done].
  - destruct Heff as (_ & Ht & _ & -> & ->). split; [by exists m, q|]. by split; [apply taken_from_same|].
  - destruct Heff as (_ & -> & n' & q' & Hb2 & Hx). rewrite Hb in Hb2. injection Hb2 as <- <-. destruct q as [|rawMsg q].
    + destruct Hx as (Ht & _ & ->). split; [by exists m, []|]. by split; [apply taken_from_same|].
    + destruct Hx as (Ht & -> & _). split; [by exists m, q|]. split; [|done].
      rewrite (taken_from_snoc n _ _ _ Ht). simpl. destruct (Nat.eqb_spec m n); [lia|]. by rewrite app_nil_r.
  - destruct Heff as (_ & Ht & _ & -> & ->). split; [by exists m, q|]. by split; [apply taken_from_same|].
Qed.

Lemma beyond_steps n es (c c' : Channel (S := S)) :
  csteps es c c' -> beyond n c -> taken_from n c' = taken_from n c /\ forwarded_by n es = [].
Proof.
  induction 1 as [|e es c c1 c2 Hstep _ IH]; intros Hb; [done|].
  destruct (beyond_step _ _ _ _ Hstep Hb) as (Hb1 & Ht1 & Hf1). destruct (IH Hb1) as [-> Hf]. split; [done|].
  change (e :: es) with ([e] ++ es). unfold forwarded_by in *. by rewrite flat_map_app, Hf1, Hf.
Qed.

Lemma replacement e (c c' : Channel (S := S)) n q n' q' :
  cstep e c c' -> buffer_of c = Some (n, q) -> Datatypes.S n = dialled c -> buffer_of c' = Some (n', q') -> n' <> n ->
  beyond n c' /\ taken_from n c' = taken_from n c /\ forwarded_by n [e] = [].
Proof.
  intros Heff%cstep_messages Hb Hd Hb' Hne. unfold beyond. rewrite Hb'.
  destruct e as [mg|rs dial w| |rs dial w|m rawMsg|m|timestamp|]; simpl in Heff.
  - destruct Heff as (_ & _ & Hx & _). congruence.
  - destruct Heff as (_ & Ht & _ & Hx). destruct dial; destruct Hx as [Hx Hd']; [|congruence]. rewrite Hx in Hb'.
    injection Hb' as <- <-. split; [|by split; [apply taken_from_same|]]. exists (dialled c), []. split_and!; [done|lia|done].
  - destruct Heff as (_ & _ & _ & Hx & _). congruence.
  - destruct Heff as (_ & Ht & _ & Hx). destruct dial; destruct Hx as [Hx Hd']; [|congruence]. rewrite Hx in Hb'.
    injection Hb' as <- <-. split; [|by split; [apply taken_from_same|]]. exists (dialled c), []. split_and!; [done|lia|done].
  - destruct Heff as (_ & _ & _ & _ & q1 & H1 & _ & H2). congruence.
  - destruct Heff as (_ & _ & _ & Hx & _). congruence.
  - destruct Heff as (_ & _ & m & q1 & H1 & Hx). rewrite Hb in H1. injection H1 as <- <-.
    destruct q as [|rawMsg q]; [destruct Hx as (_ & _ & Hx)|destruct Hx as (_ & Hx & _)]; congruence.
  - destruct Heff as (_ & _ & _ & Hx & _). congruence.
Qed.

(** C32: the messages of a channel, whatever happens to its connections: what the loop takes of a
    connection is a beginning of what the receiver of that connection forwarded, in its order and
    once each, and once it takes from a connection it takes no more from an earlier
    one; as long as a connection is not replaced nothing is lost, what was not taken yet is in its
    buffer, of 300 at most; and when it is replaced exactly what its buffer holds at that moment is
    lost.  The state of the application is what the taken messages lead to. *)
Theorem messages_in_order scope lm s es c :
  csteps es (NewChannel scope lm s) c ->
  (forall n, taken_from n c `prefix_of` forwarded_by n es) /\
  (forall i j t1 t2, (i <= j)%nat -> taken c !! i = Some t1 -> taken c !! j = Some t2 -> (from_conn t1 <= from_conn t2)%nat) /\
  (forall k, conn c = Some k ->
     taken_from (number k) c ++ msgChan k = forwarded_by (number k) es /\ (length (msgChan k) <= 300)%nat) /\
  (forall es1 e es2 c1 c2 k k', es = es1 ++ e :: es2 ->
     csteps es1 (NewChannel scope lm s) c1 -> cstep e c1 c2 -> csteps es2 c2 c ->
     conn c1 = Some k -> conn c2 = Some k' -> number k' <> number k ->
     taken_from (number k) c ++ msgChan k = forwarded_by (number k) es) /\
  match topicMg c with
  | Some mg => handle_all mg (taken c) s = Some (app c)
  | None => taken c = [] /\ app c = s
  end.
Proof.
  intros Hr. pose proof (messages_steps [] es s _ c Hr (new_ok scope lm s) (messages_new scope lm s)) as [Hl _ Ho Hs _ Ha].
  split_and!; [exact Ho|exact Hs| | |exact Ha].
  - intros k Hk. unfold buffer_of in Hl. rewrite Hk in Hl. simpl in Hl. by destruct Hl as (_ & H1 & H2).
  - intros es1 e es2 c1 c2 k k' -> H1 He H2 Hk Hk' Hne.
    pose proof (messages_steps [] es1 s _ c1 H1 (new_ok scope lm s) (messages_new scope lm s)) as [Hl1 Hn1 _ _ _ _].
    unfold buffer_of in Hl1. rewrite Hk in Hl1. destruct Hl1 as (Hd & Hq & _).
    destruct (replacement e c1 c2 (number k) (msgChan k) (number k') (msgChan k')) as (Hb & Ht & Hf);
      [done|by unfold buffer_of; rewrite Hk|done|by unfold buffer_of; rewrite Hk'|done|].
    destruct (beyond_steps _ _ _ _ H2 Hb) as [-> Hf2].
    change (e :: es2) with ([e] ++ es2). unfold forwarded_by in *. by rewrite !flat_map_app, Hf, Hf2, !app_nil_r, Ht.
Qed.

End Props.

(** ** A run *)

Section Example.

Definition count (_ : time) (m : raw) (n : nat) : handled nat :=
  match m with Malformed => Erred n | Text _ => Handled (n + 1)%nat end.

Definition requests : list json := [JString "subscribe"].

(** A private channel gets its manager, connects and takes a message; two more are in the buffer
    when it loses the connection, of which it takes one, fails to connect once, and reconnects, so that
    the other is lost; it takes two messages of the new connection. *)
Definition example_run : list event :=
  [ESetTopicMg count; EStart requests true 1; EForward 0 (Some (Text JNull)); EMessage 1;
   EForward 0 (Some (Text (JBool true))); EForward 0 (Some (Text (JBool false))); EEnd 0; EAlert; EAlert; EMessage 2;
   EReconnect requests false 1; EReconnect requests true 1; EForward 1 (Some Malformed); EForward 1 None; EMessage 3; EMessage 4].

Definition example_start : Channel := NewChannel ScopeTypePrivate (Some 7%nat) 0%nat.

Definition example_end : Channel :=
  MkChannel ScopeTypePrivate true ChannelStatusConnected
    (Some (MkConnection 1 [PongHandler; LatencyHandler; SubscribeRespHandler; AuthHandler] true true requests [] false))
    (Some count) (Some 7%nat) 0 0 2 [] 2%nat
    [MkTaken 0 1 (Some (Text JNull)); MkTaken 0 2 (Some (Text (JBool true))); MkTaken 1 3 (Some Malformed); MkTaken 1 4 None] Looping.

(** A step, and the state after it evaluated. *)
Ltac one_step tac :=
  eapply steps_cons; [tac|];
  match goal with |- csteps _ ?c _ => let c' := eval vm_compute in c in replace c with c' by (vm_compute; reflexivity) end.

Ltac forward_step := one_step ltac:(eapply (step_forward (MkConnection _ _ _ _ _ _ _)); [reflexivity|reflexivity|simpl; unfold Flow.msgChan_capacity; lia]).
Ltac reconnect_step := one_step ltac:(apply step_reconnect; [done|simpl; lia|intros _; exists count; reflexivity]).

Lemma example_runs : csteps example_run example_start example_end.
Proof.
  one_step ltac:(by apply step_manager). one_step ltac:(apply step_start; [done|intros _; exists count; reflexivity]).
  forward_step. one_step ltac:(by apply step_message). forward_step. forward_step.
  one_step ltac:(by eapply (step_end (MkConnection _ _ _ _ _ _ _))).
  one_step ltac:(by apply step_alert). one_step ltac:(by apply step_alert). one_step ltac:(by apply step_message).
  reconnect_step. reconnect_step. forward_step. forward_step.
  one_step ltac:(by apply step_message). one_step ltac:(by apply step_message).
  apply steps_nil.
Qed.

Lemma channel_invariant_witness : channel_ok example_end /\ closed example_end = [].
Proof. split; [exact (channel_invariant ScopeTypePrivate (Some 7%nat) 0%nat _ _ example_runs)|reflexivity]. Defined.

Definition lost : Channel := disconnected (Start requests true 1 (SetTopicMg count example_start)).

Lemma lost_connection : csteps [ESetTopicMg count; EStart requests true 1; EAlert] example_start lost.
Proof.
  unfold lost.
  eapply steps_cons; [by apply step_manager|]. eapply steps_cons; [apply step_start; [done|intros _; exists count; reflexivity]|].
  eapply steps_cons; [by apply step_alert|]. apply steps_nil.
Qed.

Lemma reconnect_restores_witness :
  exists c', cstep (EReconnect requests true 5) lost c' /\ status c' = ChannelStatusConnected.
Proof.
  destruct (reconnect_restores ScopeTypePrivate (Some 7%nat) 0%nat _ _ requests 5 lost_connection eq_refl) as [_ H]; [simpl; lia|].
  destruct H as (c' & k & Hs & Hst & _); [done|]. by exists c'.
Defined.

Lemma connections_stay_open_witness : dialled example_end = 2%nat /\ closed example_end = [].
Proof.
  destruct (connections_stay_open ScopeTypePrivate (Some 7%nat) 0%nat _ _ example_runs) as (Hd & Hc & _).
  split; [exact Hd|exact (Hc eq_refl)].
Defined.

(** The connection that was replaced had forwarded three messages, of which two were taken. *)
Lemma messages_in_order_witness :
  taken_from 0 example_end `prefix_of` forwarded_by 0 example_run /\
  length (taken_from 0 example_end) = 2%nat /\ length (forwarded_by 0 example_run) = 3%nat /\
  handle_all count (taken example_end) 0%nat = Some 2%nat.
Proof.
  destruct (messages_in_order ScopeTypePrivate (Some 7%nat) 0%nat _ _ example_runs) as (Hp & _ & _ & _ & Ha).
  split; [exact (Hp 0%nat)|]. split; [reflexivity|]. split; [reflexivity|exact Ha].
Defined.

End Example.
