(* ===== verification/Connection.v ===== *)
(** * The handlers of a connection (internal/gateways/channel.go, with the receiver,
    the health checker, the author, the latency measurer and the managers)

    What [initialize] registers on the receiver of a connection, as functions on
    the state of the connection's watchers.  An exchange is given by how it
    measures, answers subscriptions and answers authentications. *)

From S2P Require Import Prelude GoStd Decimal QDecimal Domains Symbol Errors MutexMap Order OrderData.
From S2P Require Import BTree PriceLevel OrderBook Quote Trade Translate BybitMessages CoinExMessages MessagesProps.
From S2P Require Import TTLCache Json Topic BybitTopics CoinExTopics TopicsEndToEnd Subscriptions.
From S2P Require Import HealthChecker LatencyMeasurer Author Receiver Channel ChannelProps.
Local Open Scope Z_scope.

Record watchers := MkWatchers {
  checker : healthChecker;
  (** nil for a channel without one *)
  latencyMeasurer : option LatencyMeasurer;
  auth : author;
  (** the errors that the author has reported *)
  auth_errors : list auth_error
}.

#[export] Instance eta_watchers : Eta watchers := fun w =>
  MkWatchers (checker w) (latencyMeasurer w) (auth w) (auth_errors w).

Record exchange := MkExchange {
  MeasureLatency : time -> raw -> option (string * duration);
  HandleSubscribeResp : raw -> subscribe_resp;
  checkResponse : raw -> auth_response
}.

Definition bybit : exchange := {|
  MeasureLatency := BybitTopics.MeasureLatency;
  HandleSubscribeResp := BybitHandleSubscribeResp;
  checkResponse := bybitCheckAuthResponse
|}.

(** A connection of CoinEx knows its subscriptions and the number of its request. *)
Definition coinex (mg : subscriptions) (authMsgID : Z) : exchange := {|
  MeasureLatency := CoinExTopics.MeasureLatency;
  HandleSubscribeResp := CoinExHandleSubscribeResp mg;
  checkResponse := coinexCheckResponse authMsgID
|}.

Section Handlers.
  Context (ex : exchange) (now : time) (sent : bool).

Definition pongHandler : MessageReceiveHandleFunc (S := watchers) := fun rawMsg w =>
  match PongReceiveHandleFunc rawMsg now (checker w) with
  | Some c => Handled (w <| checker := c |>)
  | None => Panicked
  end.

Definition recordLatencyHandleFunc : MessageReceiveHandleFunc (S := watchers) := fun rawMsg w =>
  match latencyMeasurer w with
  | None => Handled w
  | Some m =>
      match MeasureLatency ex now rawMsg with
      | None => Erred w
      | Some (tName, latency) =>
          if String.eqb tName "" then Handled w
          else Handled (w <| latencyMeasurer := Some (RecordLatency tName latency m) |>)
      end
  end.

Definition subscribeRespHandler : MessageReceiveHandleFunc (S := watchers) := fun rawMsg w =>
  match HandleSubscribeResp ex rawMsg with RespError => Erred w | _ => Handled w end.

(** [sent]: a request that the author sends in answer is sent without an error. *)
Definition authHandler : MessageReceiveHandleFunc (S := watchers) := fun rawMsg w =>
  let '(h, (a, errs)) := HandleAuthMessage (checkResponse ex rawMsg) sent (auth w) in
  let w := w <| auth := a |> <| auth_errors ::= fun l => l ++ errs |> in
  match h with
  | NoError => Handled w
  | WithError => Erred w
  | SendOnClosedChannel => Panicked
  end.

Definition handler_of (k : handler_kind) : MessageReceiveHandleFunc (S := watchers) :=
  match k with
  | PongHandler => pongHandler
  | LatencyHandler => recordLatencyHandleFunc
  | SubscribeRespHandler => subscribeRespHandler
  | AuthHandler => authHandler
  end.

End Handlers.

(** ** What passes *)

(** A message that no handler has a use for, except for its latency. *)
Record plain_message (ex : exchange) (w : watchers) (m : raw) (name : string) (ts : Z) : Prop := {
  pm_pong : match matchPong (checker w) with Some f => f m = false | None => True end;
  pm_latency : forall now, MeasureLatency ex now m = Some (name, time_Sub now (UnixMilli ts));
  pm_subscribe : HandleSubscribeResp ex m = NoResp;
  pm_auth : checkResponse ex m = Unrelated;
  pm_name : name <> ""%string
}.

Definition recorded (now : time) (name : string) (ts : Z) (w : watchers) : watchers :=
  w <| latencyMeasurer ::= fmap (RecordLatency name (time_Sub now (UnixMilli ts))) |>.

Lemma plain_message_passes ex now sent private w m name ts :
  plain_message ex w m name ts ->
  run_handlers (map (handler_of ex now sent)
    ([PongHandler; LatencyHandler; SubscribeRespHandler] ++ (if private : bool then [AuthHandler] else []))) m w =
    Handled (recorded now name ts w).
Proof.
  intros [Hp Hl Hs Ha Hn]. simpl. unfold pongHandler, PongReceiveHandleFunc.
  assert (forall w', run_handlers (map (handler_of ex now sent) (SubscribeRespHandler :: (if private then [AuthHandler] else []))) m w' =
    Handled w') as Hrest.
  { intros w'. simpl. unfold subscribeRespHandler. rewrite Hs. destruct private; [|done]. simpl.
    unfold authHandler, HandleAuthMessage. rewrite Ha. destruct w'. unfold Prelude.update. simpl. by rewrite app_nil_r. }
  assert (w <| checker := checker w |> = w) as Hw by by destruct w.
  destruct (matchPong (checker w)) as [f|]; [rewrite Hp|]; rewrite Hw.
  all: unfold recordLatencyHandleFunc; destruct (latencyMeasurer w) as [lm|] eqn:Hm.
  all: rewrite ?Hl, ?(proj2 (String.eqb_neq _ _) Hn).
  all: simpl in Hrest; rewrite Hrest; unfold recorded; f_equal; destruct w; simpl in *; by subst.
Qed.

(** A text that is not JSON is an error to the handler of subscriptions, if not before. *)
Lemma malformed_refused ex now sent (private : bool) w :
  (forall f, matchPong (checker w) = Some f -> f Malformed = false) ->
  (forall now, MeasureLatency ex now Malformed = None) -> HandleSubscribeResp ex Malformed = RespError ->
  run_handlers (map (handler_of ex now sent)
    ([PongHandler; LatencyHandler; SubscribeRespHandler] ++ (if private then [AuthHandler] else []))) Malformed w =
    Erred w.
Proof.
  intros Hp Hl Hs. simpl. unfold pongHandler, PongReceiveHandleFunc.
  assert (w <| checker := checker w |> = w) as Hw by by destruct w.
  assert (match matchPong (checker w) with
          | Some matches => if matches Malformed then pong now (checker w) else Some (checker w)
          | None => Some (checker w)
          end = Some (checker w)) as ->.
  { destruct (matchPong (checker w)) as [f|]; [|done]. by rewrite (Hp f). }
  rewrite Hw. unfold recordLatencyHandleFunc. destruct (latencyMeasurer w); [by rewrite Hl|].
  unfold subscribeRespHandler. by rewrite Hs.
Qed.

Section Books.
  Context {D : Decimal}.

(** A time in milliseconds that is not zero. *)
Lemma bybit_book_plain w symbol_name depth type ts seq bids asks :
  matchPong (checker w) = None -> in_int64 ts -> ts <> 0 ->
  plain_message bybit w (bybit_book_json ("orderbook." +:+ FormatInt depth +:+ "." +:+ symbol_name) type ts seq bids asks)
    ("orderbook." +:+ FormatInt depth +:+ "." +:+ symbol_name)%string ts.
Proof.
  intros Hm Hts Hz. split; [by rewrite Hm| |done|done|done].
  intros now. simpl. unfold BybitTopics.MeasureLatency, bybit_book_json. simpl.
  rewrite ParseInt_FormatInt by done. simpl. by rewrite !(proj2 (Z.eqb_neq ts 0) Hz).
Qed.

Lemma coinex_book_plain mg id w market full ts bids asks :
  matchPong (checker w) = Some coinexPongMatcher -> in_int64 ts -> ts <> 0 ->
  msgIDMap mg !! FormatInt 0 = None -> id <> 0 ->
  plain_message (coinex mg id) w (coinex_book_json market full ts bids asks) ("orderBook@" +:+ market)%string ts.
Proof.
  intros Hm Hts Hz Hid Hn. split; [by rewrite Hm| | | |done].
  - intros now. simpl. unfold CoinExTopics.MeasureLatency, coinex_book_json. simpl.
    rewrite ParseInt_FormatInt by done. simpl. by rewrite !(proj2 (Z.eqb_neq ts 0) Hz).
  - simpl. unfold CoinExHandleSubscribeResp. simpl. by rewrite Hid.
  - simpl. unfold coinexCheckResponse. simpl. by destruct id.
Qed.

End Books.

(** ** A connection that delivers books *)

Section Deliveries.
  Context {D : Decimal} {Bytes : Type} (gunzip : Bytes -> option raw).

(** A book message as either exchange sends it, with the name of its topic and its time. *)
Inductive book_of : exchange -> watchers -> raw -> string -> Z -> Prop :=
  | bybit_book w symbol_name depth type ts seq bids asks :
      matchPong (checker w) = None -> in_int64 ts -> ts <> 0 ->
      book_of bybit w
        (bybit_book_json ("orderbook." +:+ FormatInt depth +:+ "." +:+ symbol_name)%string type ts seq bids asks)
        ("orderbook." +:+ FormatInt depth +:+ "." +:+ symbol_name)%string ts
  | coinex_book mg id w market full ts bids asks :
      matchPong (checker w) = Some coinexPongMatcher -> in_int64 ts -> ts <> 0 ->
      msgIDMap mg !! FormatInt 0 = None -> id <> 0 ->
      book_of (coinex mg id) w (coinex_book_json market full ts bids asks) ("orderBook@" +:+ market)%string ts.

Lemma book_plain ex w m name ts : book_of ex w m name ts -> plain_message ex w m name ts.
Proof. intros []; [by apply bybit_book_plain|by apply coinex_book_plain]. Qed.

(** A frame of a message: as text, or compressed. *)
Definition frame_of (f : frame (Bytes := Bytes)) (m : raw) : Prop := decode gunzip f = Some m.

Lemma book_of_recorded ex w m name ts now name' ts' :
  book_of ex w m name ts -> book_of ex (recorded now name' ts' w) m name ts.
Proof. intros []; by constructor. Qed.

(** The watchers after a list of books. *)
Definition all_recorded (now : time) (books : list (string * Z)) (w : watchers) : watchers :=
  foldl (fun w '(name, ts) => recorded now name ts w) w books.

(** The book messages of either exchange pass all handlers of a connection, public or private: the
    receiver forwards them in order, whether they come as text or compressed, and the
    latency of each one is recorded under its topic; a text that is not JSON ends the connection:
    it is reported as an error, and nothing after it is read. *)
Theorem books_pass_receiver ex now sent (c : Channel.Channel (S := unit)) w frames ms books rest :
  ex = bybit \/ (exists mg id, ex = coinex mg id) ->
  matchPong (checker w) = None \/ matchPong (checker w) = Some coinexPongMatcher ->
  Forall2 frame_of frames ms ->
  Forall2 (fun m b => book_of ex w m (fst b) (snd b)) ms books ->
  Receiver.Start gunzip (map (handler_of ex now sent) (handlers_of c)) (frames ++ TextMessage Malformed :: rest) w =
    (ms, Closed (all_recorded now books w)).
Proof.
  intros Hex Hpong Hf Hb. revert w Hpong books Hb. unfold handlers_of.
  induction Hf as [|f m frames ms Hfm _ IH]; intros w Hpong books Hb.
  - inversion Hb; subst. rewrite app_nil_l. cbn [Receiver.Start decode].
    rewrite (malformed_refused ex now sent (isPrivateChan c) w); [done|..].
    + intros g Hg. destruct Hpong as [Hp|Hp]; rewrite Hp in Hg; [done|]. by injection Hg as <-.
    + destruct Hex as [->|(mg & id & ->)]; done.
    + destruct Hex as [->|(mg & id & ->)]; done.
  - inversion Hb as [|? [name ts] ? books' Hm Hms]; subst. simpl in Hm.
    rewrite <- (app_comm_cons frames _ f). cbn [Receiver.Start]. unfold frame_of in Hfm. rewrite Hfm.
    rewrite (plain_message_passes ex now sent (isPrivateChan c) w m name ts) by by apply book_plain.
    rewrite (IH (recorded now name ts w)) with (books := books'); [done|done|].
    eapply Forall2_impl; [exact Hms|]. intros m' [name' ts'] Hm'. by apply book_of_recorded.
Qed.

End Deliveries.

(** Two books of Bybit, the second compressed, and then a text that is no JSON. *)
Section Example.

Definition book1 : raw := bybit_book_json (D := QDecimal) "orderbook.1.BTCUSDT" "delta" 1700000000000 9 [] [].
Definition book2 : raw := bybit_book_json (D := QDecimal) "orderbook.1.BTCUSDT" "delta" 1700000000001 10 [] [].

Definition fresh_watchers : watchers :=
  MkWatchers (bybit_health_checker (3 * Second) (3 * Second)) (Some (NewLatencyMeasurer Second)) (NewAuthor 3) [].

Lemma books_pass_receiver_witness :
  fst (Receiver.Start (fun b : raw => Some b)
    (map (handler_of bybit (UnixMilli 1700000000005) true) (handlers_of (Channel.NewChannel ScopeTypePublic (Some 0%nat) tt)))
    ([TextMessage book1; BinaryMessage book2] ++ [TextMessage Malformed])
    fresh_watchers) = [book1; book2].
Proof.
  rewrite (books_pass_receiver (D := QDecimal) (fun b : raw => Some b) bybit (UnixMilli 1700000000005) true
    (Channel.NewChannel ScopeTypePublic (Some 0%nat) tt) fresh_watchers
    [TextMessage book1; BinaryMessage book2] [book1; book2]
    [("orderbook.1.BTCUSDT"%string, 1700000000000); ("orderbook.1.BTCUSDT"%string, 1700000000001)] []); [done|..].
  - by left.
  - by left.
  - by repeat constructor.
  - constructor; [|constructor; [|constructor]]; apply (bybit_book (D := QDecimal) _ "BTCUSDT" 1); try done;
      unfold in_int64, int64_min, int64_max; lia.
Defined.

End Example.
