(* ===== verification/Insights.v ===== *)
(** * The insights of an application (initializers/exchanges, the parts that both exchanges share)

    Trades, order books and quotes are objects that are shared by pointer between
    the maps of an exchange's insights and the handlers of its topics.  A pointer
    is a position in [objects]; a topic, with the handlers that were set on it,
    is a value [topic] of which [topic_of] is the interface. *)

From S2P Require Import Prelude GoStd Decimal QDecimal Domains Symbol Errors MutexMap Order OrderData.
From S2P Require Import BTree PriceLevel OrderBook OrderBookProps OrderBookViews Quote Trade Translate BybitMessages CoinExMessages.
From S2P Require Import TTLCache Json Topic ChannelGroup BybitTopics CoinExTopics.
Local Open Scope Z_scope.

Section Insights.
  Context {D : Decimal} {B : BTree}.

Inductive object :=
  | TradeObject (t : TradeImpl)
  | BookObject (b : OrderBookImpl)
  | QuoteObject (q : QuoteImpl).

(** [called]: the callbacks that were run, each with the object it was set on. *)
Record store := MkStore {
  objects : list object;
  clock_reads : nat;
  called : list (nat * nat)
}.

#[export] Instance eta_store : Eta store := fun s => MkStore (objects s) (clock_reads s) (called s).

Definition is_ready (o : object) : bool :=
  match o with
  | TradeObject t => Trade.IsReady t
  | BookObject b => OrderBook.IsReady b
  | QuoteObject q => Quote.IsReady q
  end.

(** A new object, and the pointer to it. *)
Definition alloc (o : object) (s : store) : store * nat :=
  (s <| objects ::= fun os => os ++ [o] |>, length (objects s)).

Definition write (p : nat) (o : object) (calls : list nat) (s : store) : store :=
  s <| objects ::= fun os => <[p := o]> os |> <| called ::= fun cs => cs ++ map (pair p) calls |>.

(** ** Loops that create objects

    [keyof] is the key and the new object of an element, [None] for the nil
    dereference on which the loop panics; [put] enters the pointer in the map. *)

Section Setup.
  Context {A K Mp : Type} (keyof : A -> option (K * object)).
  Context (put : K -> nat -> Mp -> Mp) (get : K -> Mp -> option nat).

Definition setup (l : list A) (m : Mp) (s : store) : option (Mp * store) :=
  foldM (fun '(m, s) a =>
    '(k, o) ← keyof a;
    let '(s, p) := alloc o s in
    Some (put k p m, s)) l (m, s).

(** What such a loop has created: [s0] is the store before it. *)
Record created (s0 : store) (l : list A) (m : Mp) (s : store) : Prop := {
  cr_older : objects s0 `prefix_of` objects s;
  cr_all a : a ∈ l -> exists k o p, keyof a = Some (k, o) /\ get k m = Some p;
  cr_at k p : get k m = Some p -> exists a o, a ∈ l /\ keyof a = Some (k, o) /\
    (length (objects s0) <= p)%nat /\ objects s !! p = Some o;
  cr_inj k k' p : get k m = Some p -> get k' m = Some p -> k = k'
}.

Context `{EqDecision K}.
Context (get_put : forall k k' p m, get k' (put k p m) = if decide (k = k') then Some p else get k' m).

Lemma created_nil s0 m : (forall k, get k m = None) -> created s0 [] m s0.
Proof.
  intros He. split; [done|by intros a ?%not_elem_of_nil|intros k p; by rewrite He|].
  intros k k' p. by rewrite He.
Qed.

Lemma created_snoc s0 l m s a k o :
  created s0 l m s -> keyof a = Some (k, o) ->
  created s0 (l ++ [a]) (put k (length (objects s)) m) (fst (alloc o s)).
Proof.
  intros [Ho Hall Hat Hinj] Ha.
  assert (forall k' p, get k' m = Some p -> (p < length (objects s))%nat) as Hlt.
  { intros k' p Hg. destruct (Hat k' p Hg) as (? & ? & _ & _ & _ & Hl). by eapply lookup_lt_Some. }
  split; simpl.
  - etrans; [done|]. by apply prefix_app_r.
  - intros a' [Hin| ->%list_elem_of_singleton]%elem_of_app.
    + destruct (Hall a' Hin) as (k' & o' & p & Hk & Hg). exists k', o'. rewrite get_put.
      destruct (decide (k = k')); eauto.
    + exists k, o. rewrite get_put, decide_True by done. eauto.
  - intros k' p. rewrite get_put. destruct (decide (k = k')) as [<-|].
    + intros [= <-]. exists a, o. split; [set_solver|]. split; [done|]. split.
      * by apply prefix_length.
      * rewrite lookup_app_r, Nat.sub_diag by done. done.
    + intros Hg. destruct (Hat k' p Hg) as (a' & o' & Hin & Hk & Hle & Hl). exists a', o'.
      split; [set_solver|]. split_and!; [done|done|]. by apply lookup_app_l_Some.
  - intros k1 k2 p. rewrite !get_put.
    destruct (decide (k = k1)) as [<-|], (decide (k = k2)) as [<-|]; try done.
    + intros [= <-] Hg. apply Hlt in Hg. lia.
    + intros Hg [= <-]. apply Hlt in Hg. lia.
    + apply Hinj.
Qed.

Lemma setup_created l m0 s0 m s :
  (forall k, get k m0 = None) -> setup l m0 s0 = Some (m, s) -> created s0 l m s.
Proof.
  intros He Hs. apply (foldM_ind (fun l '(m, s) => created s0 l m s)) in Hs; [done|by apply created_nil|].
  clear l m s Hs. intros l a [m s] [m' s'] Hc. destruct (keyof a) as [[k o]|] eqn:Ha; simpl; [|done].
  intros [= <- <-]. by apply (created_snoc s0 l m s a k o).
Qed.

End Setup.

Definition pointee_ready (s : store) (p : nat) : bool :=
  match objects s !! p with Some o => is_ready o | None => false end.

(** New objects for a symbol, as a pointer to it is read. *)
Section New.
  Context (r : registry).

Definition new_trade (symbol : nat) : option (nat * object) :=
  s ← symbols r !! symbol; Some (symbol, TradeObject (NewTrade s)).
Definition new_quote (symbol : nat) : option (nat * object) :=
  s ← symbols r !! symbol; Some (symbol, QuoteObject (NewQuote s)).

(** Symbols of the same name are the same. *)
Definition names_told (l : list nat) : Prop :=
  forall sy sy', sy ∈ l -> sy' ∈ l -> Symbol.Name <$> symbols r !! sy = Symbol.Name <$> symbols r !! sy' -> sy = sy'.

End New.

Lemma insert_get (k k' p : nat) (m : gmap nat nat) :
  <[k := p]> m !! k' = if decide (k = k') then Some p else m !! k'.
Proof. apply lookup_insert. Qed.

(** ** Handlers *)

(** The answers of [time.Now()], in order. *)
Context (clock : nat -> time).

(** The method value [trade.Update]. *)
Definition trade_Update (p : nat) (datas : list TradeData) (s : store) : store :=
  match objects s !! p with
  | Some (TradeObject t) =>
      let '(t, calls) := Trade.Update datas (clock (clock_reads s)) t in
      write p (TradeObject t) (map fst calls) (s <| clock_reads ::= S |>)
  | _ => s
  end.

(** The method value [orderBook.UpdateByOBData]. *)
Definition book_Update (p : nat) (data : OrderBookData) (s : store) : store :=
  match objects s !! p with
  | Some (BookObject b) => let '(b, calls) := UpdateByOBData data b in write p (BookObject b) calls s
  | _ => s
  end.

(** The method value [quote.Update]. *)
Definition quote_Update (p : nat) (data : QuoteData) (s : store) : store :=
  match objects s !! p with
  | Some (QuoteObject q) => let '(q, calls) := Quote.Update data q in write p (QuoteObject q) calls s
  | _ => s
  end.

(** ** What a handler leaves alone *)

Lemma write_frame p o calls s q : q <> p -> objects (write p o calls s) !! q = objects s !! q.
Proof. intros Hq. unfold write. simpl. by apply list_lookup_insert_ne. Qed.

Lemma write_at p o calls s : is_Some (objects s !! p) -> objects (write p o calls s) !! p = Some o.
Proof. intros Hp. unfold write. simpl. apply list_lookup_insert_eq. by apply lookup_lt_is_Some. Qed.

Lemma trade_Update_frame p datas s q : q <> p -> objects (trade_Update p datas s) !! q = objects s !! q.
Proof.
  intros Hq. unfold trade_Update. destruct (objects s !! p) as [[t| |]|]; try done.
  destruct (Trade.Update datas _ t). by rewrite write_frame.
Qed.

Lemma book_Update_frame p data s q : q <> p -> objects (book_Update p data s) !! q = objects s !! q.
Proof.
  intros Hq. unfold book_Update. destruct (objects s !! p) as [[| b|]|]; try done.
  destruct (UpdateByOBData data b). by rewrite write_frame.
Qed.

Lemma quote_Update_frame p data s q : q <> p -> objects (quote_Update p data s) !! q = objects s !! q.
Proof.
  intros Hq. unfold quote_Update. destruct (objects s !! p) as [[| |b]|]; try done.
  destruct (Quote.Update data b). by rewrite write_frame.
Qed.

(** ** Topics that share no object

    An object is [driven] by a topic through a step when the topic's handler acts on it as the
    step says, whatever the other objects are; it is [left_alone] by the topics
    that do not change it. *)

Definition left_alone (p : nat) (tp : Topic store) : Prop :=
  forall t m s s', after (MsgHandler tp t m s) = Some s' -> objects s' !! p = objects s !! p.

Definition driven {V} (view : object -> V) (step : time -> raw -> V -> V) (p : nat) (tp : Topic store) : Prop :=
  forall t m s s' v, after (MsgHandler tp t m s) = Some s' ->
    view <$> objects s !! p = Some v -> view <$> objects s' !! p = Some (step t m v).

(** What the messages say, of those that can be read. *)
Definition accepted_data {A} (f : time -> raw -> result A) (ds : list delivery) : list A :=
  flat_map (fun d => match f (at_time d) (message d) with Ok x => [x] | _ => [] end) ds.

(** The messages of a topic, told by their routes. *)
Definition addressed (route : raw -> option string) (name : string) (ds : list delivery) : list delivery :=
  filter (fun d => route (message d) = Some name) ds.

Definition run_steps {V} (step : time -> raw -> V -> V) (ds : list delivery) (v : V) : V :=
  foldl (fun v d => step (at_time d) (message d) v) v ds.

Context {M : Type -> Type} `{TopicManager M}.

Lemma deliver_driven {V} (view : object -> V) step p name tp ts ds s s' v :
  find_topic name ts = Some tp -> driven view step p tp ->
  (forall name' tp', name' <> name -> find_topic name' ts = Some tp' -> left_alone p tp') ->
  deliver_plain (M := M) ts ds s = Some s' -> view <$> objects s !! p = Some v ->
  view <$> objects s' !! p = Some (run_steps step (addressed route name ds) v).
Proof.
  intros Hf Hd Hl. revert s v. induction ds as [|d ds IH]; intros s v; simpl; [by intros [= ->]|].
  destruct (after (handle_plain ts (at_time d) (message d) s)) as [s1|] eqn:Ha; simpl; [|done].
  intros Hr Hv. unfold handle_plain in Ha. unfold addressed. rewrite filter_cons.
  destruct (route (message d)) as [name'|] eqn:Hroute; [|injection Ha as <-; by apply (IH s)].
  destruct (decide (name' = name)) as [->|Hne]; [rewrite decide_True by done|rewrite decide_False by congruence].
  - rewrite Hf in Ha. simpl. apply (IH s1); [done|]. by apply (Hd _ _ s).
  - apply (IH s1); [done|]. destruct (find_topic name' ts) as [tp'|] eqn:Hf'; [|by injection Ha as <-].
    by rewrite (Hl name' tp' Hne Hf' _ _ _ _ Ha).
Qed.

Lemma deliver_left_alone p ts ds s s' :
  (forall name tp, find_topic name ts = Some tp -> left_alone p tp) ->
  deliver_plain (M := M) ts ds s = Some s' -> objects s' !! p = objects s !! p.
Proof.
  intros Hl. revert s. induction ds as [|d ds IH]; intros s; simpl; [by intros [= ->]|].
  destruct (after (handle_plain ts (at_time d) (message d) s)) as [s1|] eqn:Ha; simpl; [|done].
  intros Hr. rewrite (IH s1 Hr). unfold handle_plain in Ha.
  destruct (route (message d)) as [name|]; [|by injection Ha as <-].
  destruct (find_topic name ts) as [tp|] eqn:Hf; [|by injection Ha as <-]. by eapply Hl.
Qed.

End Insights.
