(* ===== verification/BybitInsights.v ===== *)
(** * The insights of Bybit (initializers/exchanges/bybit/insights_initializer.go, gateways.go)

    A [*OrderBookDesignator] is a position in the list of designators: the manager's
    map of order book topics is keyed by that pointer, not by what it points to.
    [InitInsights] runs once, after [InitGatewayManager]. *)

From S2P Require Import Prelude GoStd Decimal QDecimal Domains Symbol Errors MutexMap Order OrderData.
From S2P Require Import BTree PriceLevel OrderBook OrderBookProps OrderBookViews Quote Trade Translate BybitMessages.
From S2P Require Import TTLCache TTLCacheProps Json Topic ChannelGroup BybitTopics Insights.
Local Open Scope Z_scope.

Definition LinearOBDepth1 : Z := 1.

Record OrderBookDesignator := MkDesignator { d_Symbol : nat; d_Depth : Z }.

Section BybitInsights.
  Context {D : Decimal} {B : BTree} {RT : GoRuntime} (clock : nat -> time).

(** ** Topics and their handlers *)

(** The handlers of order book topics: a book's method, and the closure of a quote. *)
Inductive ob_handler := ToBook (p : nat) | ToQuote (p : nat).

Definition run_ob_handler (h : ob_handler) (data : OrderBookData) (s : store) : store :=
  match h with
  | ToBook p => book_Update p data s
  | ToQuote p =>
      match Convert data with
      | Ok btData => quote_Update p btData s
      | _ => s
      end
  end.

Record OrderBookTopic := MkOrderBookTopic {
  obt_symbol : Symbol.Symbol;
  obt_depth : Z;
  dataHandlers : list ob_handler
}.

Record TradeTopic := MkTradeTopic { tt_symbol : Symbol.Symbol; tt_handlers : list nat }.

Definition ob_topic (t : OrderBookTopic) : Topic store :=
  BybitTopics.NewOrderBookTopic (obt_symbol t) (obt_depth t) (map run_ob_handler (dataHandlers t)).
Definition trade_topic (t : TradeTopic) : Topic store :=
  BybitTopics.NewTradeTopic (tt_symbol t) (map (trade_Update clock) (tt_handlers t)).

(** ** The gateway manager *)

Record GatewayManager := MkGatewayManager {
  designators : list OrderBookDesignator;
  orderBookTopicMap : gmap nat OrderBookTopic;
  tradeTopicMap : gmap nat TradeTopic
}.

#[export] Instance eta_GatewayManager : Eta GatewayManager := fun m =>
  MkGatewayManager (designators m) (orderBookTopicMap m) (tradeTopicMap m).

Definition InitGatewayManager (ds : list OrderBookDesignator) : GatewayManager :=
  MkGatewayManager ds ∅ ∅.

Context (r : registry).

(** The topic of the pointer is in the map afterwards. *)
Definition getTradeTopic (symbol : nat) (m : GatewayManager) : option GatewayManager :=
  match tradeTopicMap m !! symbol with
  | Some _ => Some m
  | None =>
      s ← symbols r !! symbol;
      Some (m <| tradeTopicMap ::= <[symbol := MkTradeTopic s []]> |>)
  end.

Definition getOrderBookTopic (designator : nat) (m : GatewayManager) : option GatewayManager :=
  match orderBookTopicMap m !! designator with
  | Some _ => Some m
  | None =>
      d ← designators m !! designator;
      s ← symbols r !! d_Symbol d;
      Some (m <| orderBookTopicMap ::= <[designator := MkOrderBookTopic s (d_Depth d) []]> |>)
  end.

Definition trade_SetHandler (symbol : nat) (h : nat) (m : GatewayManager) : GatewayManager :=
  m <| tradeTopicMap ::= alter (fun t => MkTradeTopic (tt_symbol t) (tt_handlers t ++ [h])) symbol |>.
Definition ob_SetHandler (designator : nat) (h : ob_handler) (m : GatewayManager) : GatewayManager :=
  m <| orderBookTopicMap ::= alter (fun t => MkOrderBookTopic (obt_symbol t) (obt_depth t) (dataHandlers t ++ [h])) designator |>.

(** ** InitInsights *)

Record bybitInsights := MkBybitInsights {
  trades : gmap nat nat;
  orderBooks : gmap nat (gmap Z nat);
  quotes : gmap nat nat
}.

(** The pointer to the trades, or quote, of a symbol; nil if there is none. *)
Definition GetTrade (symbol : nat) (i : bybitInsights) : option nat := trades i !! symbol.
Definition GetQuote (symbol : nat) (i : bybitInsights) : option nat := quotes i !! symbol.
Definition GetOrderBook (d : OrderBookDesignator) (i : bybitInsights) : option nat :=
  obs ← orderBooks i !! d_Symbol d; obs !! d_Depth d.

(** The order of the maps does not matter; Bybit does not ask the trades. *)
Definition IsEverythingReady (i : bybitInsights) (s : store) : bool :=
  forallb (fun '(_, obs) => forallb (fun '(_, ob) => pointee_ready s ob) (map_to_list obs)) (map_to_list (orderBooks i)) &&
  forallb (fun '(_, q) => pointee_ready s q) (map_to_list (quotes i)).

Definition new_book (ds : list OrderBookDesignator) (designator : nat) : option ((nat * Z) * object) :=
  d ← ds !! designator; s ← symbols r !! d_Symbol d; Some ((d_Symbol d, d_Depth d), BookObject (NewOrderBook s)).

Definition put_book (k : nat * Z) (p : nat) (m : gmap nat (gmap Z nat)) : gmap nat (gmap Z nat) :=
  match m !! fst k with
  | None => <[fst k := {[snd k := p]}]> m
  | Some obs => <[fst k := <[snd k := p]> obs]> m
  end.
Definition get_book (k : nat * Z) (m : gmap nat (gmap Z nat)) : option nat :=
  obs ← m !! fst k; obs !! snd k.

(** The loop over the map of trades; [n] is the number of its order. *)
Definition setup_trade_topics (n : nat) (tradeMap : gmap nat nat) (m : GatewayManager) :
    option (GatewayManager * list nat) :=
  foldM (fun '(m, linearTradeTopics) '(symbol, trade) =>
    m ← getTradeTopic symbol m;
    Some (trade_SetHandler symbol trade m, linearTradeTopics ++ [symbol]))
    (MutexMap.entries n tradeMap) (m, []).

Definition setup_book_topics (obDesignators : list nat) (books : gmap nat (gmap Z nat)) (m : GatewayManager) :
    option (GatewayManager * list nat) :=
  foldM (fun '(m, linearOBTopics) designator =>
    d ← designators m !! designator;
    orderBook ← get_book (d_Symbol d, d_Depth d) books;
    m ← getOrderBookTopic designator m;
    Some (ob_SetHandler designator (ToBook orderBook) m, linearOBTopics ++ [designator]))
    obDesignators (m, []).

Record quote_setup := MkQuoteSetup {
  qs_quotes : gmap nat nat;
  qs_manager : GatewayManager;
  qs_topics : list nat;
  qs_store : store
}.

Definition setup_quote (st : quote_setup) (symbol : nat) : option quote_setup :=
  s ← symbols r !! symbol;
  let '(s', quote) := alloc (QuoteObject (NewQuote s)) (qs_store st) in
  let designator := length (designators (qs_manager st)) in
  let m := (qs_manager st) <| designators ::= fun ds => ds ++ [MkDesignator symbol LinearOBDepth1] |> in
  m ← getOrderBookTopic designator m;
  Some {|
    qs_quotes := <[symbol := quote]> (qs_quotes st);
    qs_manager := ob_SetHandler designator (ToQuote quote) m;
    qs_topics := qs_topics st ++ [designator];
    qs_store := s'
  |}.

(** What [InitInsights] leaves: the insights, and the topics it sets on the public group,
    those of the trades first. *)
Record initialised := MkInitialised {
  insights : bybitInsights;
  linearTradeTopics : list (Topic store);
  linearOBTopics : list (Topic store);
  initial : store
}.

Definition InitInsights (n : nat) (tradeSymbols obDesignators quoteSymbols : list nat) (m : GatewayManager)
    (s : store) : option initialised :=
  '(tradeMap, s) ← setup (new_trade r) (fun k p => <[k := p]>) tradeSymbols (∅ : gmap nat nat) s;
  '(m, tradeTopics) ← setup_trade_topics n tradeMap m;
  '(books, s) ← setup (new_book (designators m)) put_book obDesignators ∅ s;
  '(m, obTopics) ← setup_book_topics obDesignators books m;
  st ← foldM setup_quote quoteSymbols (MkQuoteSetup ∅ m obTopics s);
  Some {|
    insights := MkBybitInsights tradeMap books (qs_quotes st);
    linearTradeTopics := map trade_topic (omap (fun p => tradeTopicMap (qs_manager st) !! p) tradeTopics);
    linearOBTopics := map ob_topic (omap (fun p => orderBookTopicMap (qs_manager st) !! p) (qs_topics st));
    initial := qs_store st
  |}.

End BybitInsights.
