(* ===== verification/BybitInsightsProps.v ===== *)
(** * Properties of Bybit's insights

    First what a message does to the objects, then what the loops of [InitInsights] leave,
    then what follows for all interleavings of the channels of the public group. *)

From S2P Require Import Prelude GoStd Decimal QDecimal Domains Symbol Errors MutexMap Order OrderData.
From S2P Require Import BTree PriceLevel OrderBook OrderBookProps OrderBookViews Quote Trade Translate BybitMessages.
From S2P Require Import TTLCache TTLCacheProps Json Topic ChannelGroup BybitTopics TopicsProps Insights BybitInsights.
Local Open Scope Z_scope.

Section Messages.
  Context {D : Decimal} {B : BTree} {RT : GoRuntime} (clock : nat -> time).

(** What an order book message says. *)
Definition book_data (t : time) (m : raw) : result OrderBookData :=
  match Unmarshal (dec_ptr zero_OrderBookMsgDto dec_OrderBookMsgDto) (Some zero_OrderBookMsgDto) m with
  | None => Failed
  | Some dto => dto ← deref dto; TranslateOrderBook t dto
  end.

(** What it says to a quote. *)
Definition quote_data (t : time) (m : raw) : result QuoteData := data ← book_data t m; Convert data.

Lemma ob_topic_after tp t m s :
  after (MsgHandler (ob_topic tp) t m s) =
    match book_data t m with
    | Ok data => Some (call_all (map run_ob_handler (dataHandlers tp)) data s)
    | Failed => Some s
    | Panic => None
    end.
Proof.
  unfold ob_topic, BybitTopics.NewOrderBookTopic, book_data. simpl.
  destruct (Unmarshal _ _ m) as [dto|]; [|done]. by destruct (dto ← deref dto; TranslateOrderBook t dto).
Qed.

Definition target (h : ob_handler) : nat := match h with ToBook p | ToQuote p => p end.

Lemma run_ob_handler_frame h data s p :
  p <> target h -> objects (run_ob_handler h data s) !! p = objects s !! p.
Proof.
  destruct h; simpl; intros Hp; [by apply book_Update_frame|].
  destruct (Convert data); [by apply quote_Update_frame|done..].
Qed.

Lemma ob_topic_left_alone tp p : p ∉ map target (dataHandlers tp) -> left_alone p (ob_topic tp).
Proof.
  intros Hp t m s s'. rewrite ob_topic_after. destruct (book_data t m) as [data| |]; [|by intros [= ->]|done].
  intros [= <-]. unfold call_all. revert s. induction (dataHandlers tp) as [|h hs IH]; intros s; [done|].
  simpl in *. apply not_elem_of_cons in Hp as [Hh Hp]. rewrite (IH Hp). by apply run_ob_handler_frame.
Qed.

Lemma trade_topic_left_alone tp p : p ∉ tt_handlers tp -> left_alone p (trade_topic clock tp).
Proof.
  intros Hp t m s s'. unfold trade_topic, BybitTopics.NewTradeTopic. cbn [MsgHandler].
  destruct (Unmarshal _ _ m) as [dto|]; [|by intros [= ->]].
  destruct (dto ← deref dto; TranslateDatas t dto) as [datas| |]; [|by intros [= ->]|done].
  intros [= <-]. unfold call_all. revert s. induction (tt_handlers tp) as [|h hs IH]; intros s; [done|].
  simpl in *. apply not_elem_of_cons in Hp as [Hh Hp]. rewrite (IH Hp). by apply trade_Update_frame.
Qed.

Definition book_step (t : time) (m : raw) (o : object) : object :=
  match o, book_data t m with
  | BookObject b, Ok data => BookObject (fst (UpdateByOBData data b))
  | _, _ => o
  end.

Definition quote_step (t : time) (m : raw) (o : object) : object :=
  match o, quote_data t m with
  | QuoteObject q, Ok data => QuoteObject (fst (Quote.Update data q))
  | _, _ => o
  end.

Lemma ob_topic_book s d p : driven Datatypes.id book_step p (ob_topic (MkOrderBookTopic s d [ToBook p])).
Proof.
  intros t m st st' o. rewrite ob_topic_after. unfold book_step.
  destruct (book_data t m) as [data| |]; [intros [= <-]|intros [= <-]|done]; cycle 1.
  { rewrite !option_fmap_id. intros ->. by destruct o. }
  rewrite !option_fmap_id. unfold call_all. cbn [foldl map dataHandlers run_ob_handler]. intros Ho. unfold book_Update. rewrite Ho. destruct o as [|b|]; [done| |done].
  destruct (UpdateByOBData data b) as [b' calls]. rewrite write_at; [done|by eexists].
Qed.

Lemma ob_topic_quote s d p : driven Datatypes.id quote_step p (ob_topic (MkOrderBookTopic s d [ToQuote p])).
Proof.
  intros t m st st' o. rewrite ob_topic_after. unfold quote_step, quote_data.
  destruct (book_data t m) as [data| |]; simpl; [intros [= <-]|intros [= <-]|done]; cycle 1.
  { rewrite !option_fmap_id. intros ->. by destruct o. }
  rewrite !option_fmap_id. intros Ho. destruct (Convert data) as [btData| |]; [|by destruct o..].
  unfold quote_Update. rewrite Ho. destruct o as [| |q]; [done|done|].
  destruct (Quote.Update btData q) as [q' calls]. rewrite write_at; [done|by eexists].
Qed.

Lemma run_book_steps ds b :
  run_steps book_step ds (BookObject b) = BookObject (OrderBookViews.update_all (accepted_data book_data ds) b).
Proof.
  revert b. induction ds as [|d ds IH]; intros b; [done|]. unfold run_steps in *. simpl.
  destruct (book_data (at_time d) (message d)); by rewrite IH.
Qed.

Lemma run_quote_steps ds q :
  run_steps quote_step ds (QuoteObject q) =
    QuoteObject (fst (Quote.update_all (accepted_data quote_data ds) q)).
Proof.
  revert q. induction ds as [|d ds IH]; intros q; [done|]. unfold run_steps in *. simpl.
  destruct (quote_data (at_time d) (message d)) as [data| |]; rewrite IH; [|done..].
  simpl. destruct (Quote.Update data q) as [q' calls]. simpl. by destruct (Quote.update_all _ q').
Qed.

(** What a message says to the trades of a symbol, and whether they are ready. *)
Definition trade_data (t : time) (m : raw) : result (list TradeData) :=
  match Unmarshal (dec_ptr zero_TradeMsgDto dec_TradeMsgDto) (Some zero_TradeMsgDto) m with
  | None => Failed
  | Some dto => dto ← deref dto; TranslateDatas t dto
  end.

Definition trade_ready (o : object) : option bool :=
  match o with TradeObject t => Some (Trade.IsReady t) | _ => None end.

Definition trade_step (t : time) (m : raw) (v : option bool) : option bool :=
  match trade_data t m with Ok _ => (fun _ => true) <$> v | _ => v end.

Lemma trade_topic_trades s p : driven trade_ready trade_step p (trade_topic clock (MkTradeTopic s [p])).
Proof.
  intros t m st st' v. unfold trade_topic, BybitTopics.NewTradeTopic, trade_step, trade_data. cbn [MsgHandler].
  destruct (Unmarshal _ _ m) as [dto|]; [|by intros [= ->]].
  destruct (dto ← deref dto; TranslateDatas t dto) as [datas| |]; [intros [= <-]|by intros [= ->]|done].
  unfold call_all. cbn [foldl map tt_handlers]. unfold trade_Update.
  destruct (objects st !! p) as [o|] eqn:Ho; [|done]. simpl. intros [= <-].
  destruct o as [tr| |]; simpl; [|by rewrite Ho..]. by rewrite list_lookup_insert_eq by by eapply lookup_lt_Some.
Qed.

Lemma run_trade_steps ds v :
  run_steps trade_step ds (Some v) =
    Some (match accepted_data trade_data ds with [] => v | _ => true end).
Proof.
  revert v. induction ds as [|d ds IH]; intros v; [done|]. unfold run_steps in *. simpl. unfold trade_step at 2.
  destruct (trade_data (at_time d) (message d)); simpl; rewrite IH; [|done..]. by destruct (accepted_data _ _).
Qed.

End Messages.

(** ** What the loops leave *)

Section Setup.
  Context {D : Decimal} {B : BTree} {RT : GoRuntime} (clock : nat -> time) (r : registry).

(** The topic of the trades of a symbol, whose handler is the one of its object. *)
Definition trade_wired (tradeMap : gmap nat nat) (m : GatewayManager) (symbol : nat) : Prop :=
  exists s p, symbols r !! symbol = Some s /\ tradeMap !! symbol = Some p /\
    tradeTopicMap m !! symbol = Some (MkTradeTopic s [p]).

Lemma setup_trade_topics_spec n tradeMap m m' ts :
  tradeTopicMap m = ∅ -> setup_trade_topics r n tradeMap m = Some (m', ts) ->
  designators m' = designators m /\ orderBookTopicMap m' = orderBookTopicMap m /\
  (forall symbol, symbol ∈ ts <-> is_Some (tradeMap !! symbol)) /\ Forall (trade_wired tradeMap m') ts.
Proof.
  intros He Hs. unfold setup_trade_topics in Hs.
  assert (forall sy p, (sy, p) ∈ MutexMap.entries n tradeMap -> tradeMap !! sy = Some p) as Hin.
  { intros sy p. by rewrite elem_of_entries. }
  assert (NoDup (MutexMap.entries n tradeMap).*1) as Hnd by apply (NoDup_GetKeys n tradeMap).
  apply (foldM_ind (fun l '(m', ts) => NoDup l.*1 -> (forall sy p, (sy, p) ∈ l -> tradeMap !! sy = Some p) ->
    designators m' = designators m /\ orderBookTopicMap m' = orderBookTopicMap m /\ ts = l.*1 /\
    (forall sy, is_Some (tradeTopicMap m' !! sy) -> sy ∈ ts) /\ Forall (trade_wired tradeMap m') ts)) in Hs.
  - destruct (Hs Hnd Hin) as (-> & -> & -> & _ & H). split_and!; [done|done| |done].
    intros sy. apply elem_of_GetKeys.
  - intros _ _. split_and!; [done|done|done| |constructor]. intros sy. rewrite He, lookup_empty. by intros [].
  - clear Hnd Hin m' ts Hs. intros l [sy p] [m1 ts] [m2 ts'] IH Hstep Hnd Hin.
    rewrite fmap_app, NoDup_app in Hnd. destruct Hnd as (Hnd & Hnew & _).
    destruct (IH Hnd) as (Hd & Ho & -> & Hk & Hw); [intros; apply Hin; set_solver|].
    assert (sy ∉ l.*1) as Hsy by (intros Hc; apply (Hnew sy Hc); set_solver).
    unfold getTradeTopic in Hstep. destruct (tradeTopicMap m1 !! sy) as [t|] eqn:Ht; [by destruct Hsy; apply Hk; rewrite Ht|].
    destruct (symbols r !! sy) as [s|] eqn:Hs; simpl in Hstep; [|done]. injection Hstep as <- <-. simpl.
    rewrite fmap_app. split_and!; [done|done|done|..].
    + intros sy'. rewrite lookup_alter_is_Some, lookup_insert_is_Some. intros [->|[_ H]]; [set_solver|].
      apply elem_of_app. by left; apply Hk.
    + apply Forall_app. split.
      * eapply Forall_impl; [exact Hw|]. intros sy' (s' & p' & Hs' & Hp' & Ht'). exists s', p'.
        assert (sy <> sy') by (intros <-; congruence). simpl. rewrite lookup_alter_ne, lookup_insert_ne by done. done.
      * constructor; [|constructor]. exists s, p. split; [done|]. split; [apply Hin; set_solver|].
        simpl. by rewrite lookup_alter_eq, lookup_insert_eq.
Qed.

(** The topic of a designator: its handlers lead to the book of the designator, and there
    is one if the designator was passed once. *)
Definition book_wired (ds : list OrderBookDesignator) (books : gmap nat (gmap Z nat)) (l : list nat)
    (m : gmap nat OrderBookTopic) (dp : nat) : Prop :=
  exists d s p hs, ds !! dp = Some d /\ symbols r !! d_Symbol d = Some s /\
    get_book (d_Symbol d, d_Depth d) books = Some p /\
    m !! dp = Some (MkOrderBookTopic s (d_Depth d) hs) /\
    Forall (eq (ToBook p)) hs /\ (NoDup l -> hs = [ToBook p]).

Lemma book_wired_snoc ds books l m dp x :
  book_wired ds books l m dp -> book_wired ds books (l ++ [x]) m dp.
Proof.
  intros (d & s & p & hs & H1 & H2 & H3 & H4 & H5 & H6). exists d, s, p, hs.
  split_and!; [done..|]. intros [Hnd _]%NoDup_app. by apply H6.
Qed.

Lemma book_wired_same ds books l m m' dp :
  m' !! dp = m !! dp -> book_wired ds books l m dp -> book_wired ds books l m' dp.
Proof. intros Hm. unfold book_wired. by rewrite Hm. Qed.

Lemma setup_book_topics_spec obDesignators books m m' ts :
  orderBookTopicMap m = ∅ -> setup_book_topics r obDesignators books m = Some (m', ts) ->
  designators m' = designators m /\ tradeTopicMap m' = tradeTopicMap m /\ ts = obDesignators /\
  (forall dp, is_Some (orderBookTopicMap m' !! dp) -> dp ∈ obDesignators) /\
  Forall (book_wired (designators m) books obDesignators (orderBookTopicMap m')) obDesignators.
Proof.
  intros He Hs. unfold setup_book_topics in Hs.
  apply (foldM_ind (fun l '(m', ts) =>
    designators m' = designators m /\ tradeTopicMap m' = tradeTopicMap m /\ ts = l /\
    (forall dp, is_Some (orderBookTopicMap m' !! dp) -> dp ∈ l) /\
    Forall (book_wired (designators m) books l (orderBookTopicMap m')) l)) in Hs; [done|..].
  { split_and!; [done|done|done| |constructor]. intros dp. rewrite He, lookup_empty. by intros []. }
  clear m' ts Hs. intros l dp [m1 ts] [m2 ts'] (Hd & Ht & -> & Hk & Hw) Hstep.
  rewrite Hd in Hstep. destruct (designators m !! dp) as [d|] eqn:Hdp; simpl in Hstep; [|done].
  destruct (get_book _ books) as [p|] eqn:Hp; simpl in Hstep; [|done].
  unfold getOrderBookTopic in Hstep. rewrite Forall_forall in Hw.
  destruct (orderBookTopicMap m1 !! dp) as [t|] eqn:Htp.
  - simpl in Hstep. injection Hstep as <- <-. simpl. split_and!; [done|done|done|..].
    + intros dp'. rewrite lookup_alter_is_Some. intros H. apply elem_of_app. left. by apply Hk.
    + destruct (Hw dp) as (d0 & s & p0 & hs & H1 & H2 & H3 & H4 & H5 & H6); [by apply Hk|].
      apply Forall_forall. intros dp' Hin. destruct (decide (dp' = dp)) as [->|Hne].
      * exists d0, s, p0, (hs ++ [ToBook p]). rewrite lookup_alter_eq, H4. simplify_eq.
        split_and!; [done..| |]; [apply Forall_app; by repeat constructor|].
        intros (_ & Hn & _)%NoDup_app. exfalso. apply (Hn dp); [by apply Hk|set_solver].
      * apply book_wired_snoc, (book_wired_same _ _ _ (orderBookTopicMap m1)); [by rewrite lookup_alter_ne|].
        apply Hw. set_solver.
  - rewrite Hd, Hdp in Hstep. simpl in Hstep. destruct (symbols r !! d_Symbol d) as [s|] eqn:Hs; simpl in Hstep; [|done].
    injection Hstep as <- <-. simpl. split_and!; [done|done|done|..].
    + intros dp'. rewrite lookup_alter_is_Some, lookup_insert_is_Some. intros [->|[_ H]]; [set_solver|].
      apply elem_of_app. left. by apply Hk.
    + apply Forall_app. split.
      * apply Forall_forall. intros dp' Hin.
        assert (dp' <> dp) by (intros ->; destruct (Hw dp Hin) as (? & ? & ? & ? & ? & ? & ? & ? & ?); congruence).
        apply book_wired_snoc, (book_wired_same _ _ _ (orderBookTopicMap m1)); [|by apply Hw].
        simpl. by rewrite lookup_alter_ne, lookup_insert_ne.
      * constructor; [|constructor]. exists d, s, p, [ToBook p]. rewrite lookup_alter_eq, lookup_insert_eq.
        split_and!; [done..|by repeat constructor|done].
Qed.

(** The topic of a quote: a fresh designator of depth 1 whose only handler leads to the
    quote, which is the one of its symbol if the symbol was passed once. *)
Definition quote_wired (s0 : store) (l : list nat) (st : quote_setup) (dp sy : nat) : Prop :=
  exists s q, symbols r !! sy = Some s /\ (length (objects s0) <= q)%nat /\
    objects (qs_store st) !! q = Some (QuoteObject (NewQuote s)) /\
    orderBookTopicMap (qs_manager st) !! dp = Some (MkOrderBookTopic s LinearOBDepth1 [ToQuote q]) /\
    (NoDup l -> qs_quotes st !! sy = Some q).

Lemma quote_loop quoteSymbols m ts s0 st :
  (forall dp, is_Some (orderBookTopicMap m !! dp) -> (dp < length (designators m))%nat) ->
  foldM (setup_quote r) quoteSymbols (MkQuoteSetup ∅ m ts s0) = Some st ->
  created (new_quote r) (fun k (m : gmap nat nat) => m !! k) s0 quoteSymbols (qs_quotes st) (qs_store st) /\
  tradeTopicMap (qs_manager st) = tradeTopicMap m /\
  (forall dp, (dp < length (designators m))%nat -> orderBookTopicMap (qs_manager st) !! dp = orderBookTopicMap m !! dp) /\
  qs_topics st = ts ++ seq (length (designators m)) (length quoteSymbols) /\
  Forall2 (quote_wired s0 quoteSymbols st) (seq (length (designators m)) (length quoteSymbols)) quoteSymbols.
Proof.
  intros Hlt Hs. set (L := length (designators m)) in *.
  apply (foldM_ind (fun l st =>
    created (new_quote r) (fun k (m : gmap nat nat) => m !! k) s0 l (qs_quotes st) (qs_store st) /\
    tradeTopicMap (qs_manager st) = tradeTopicMap m /\
    (forall dp, (dp < L)%nat -> orderBookTopicMap (qs_manager st) !! dp = orderBookTopicMap m !! dp) /\
    qs_topics st = ts ++ seq L (length l) /\ Forall2 (quote_wired s0 l st) (seq L (length l)) l /\
    length (designators (qs_manager st)) = (L + length l)%nat /\
    (forall dp, is_Some (orderBookTopicMap (qs_manager st) !! dp) -> (dp < L + length l)%nat))) in Hs.
  { by destruct Hs as (H1 & H2 & H3 & H4 & H5 & _). }
  { split_and!; try done; simpl; [by apply created_nil|by rewrite app_nil_r|intros dp Hdp%Hlt; lia]. }
  clear st Hs. intros l sy st st' (Hc & Ht & Ho & Hts & Hw & Hd & Hk) Hstep.
  unfold setup_quote in Hstep. destruct (symbols r !! sy) as [s|] eqn:Hsy; simpl in Hstep; [|done].
  assert (orderBookTopicMap (qs_manager st) !! (L + length l)%nat = None) as Hnone.
  { apply eq_None_not_Some. intros H%Hk. lia. }
  unfold getOrderBookTopic in Hstep. simpl in Hstep. rewrite Hd, Hnone in Hstep.
  rewrite lookup_app_r in Hstep by lia. rewrite Hd, Nat.sub_diag in Hstep. simpl in Hstep.
  rewrite Hsy in Hstep. simpl in Hstep. injection Hstep as <-. simpl.
  assert (created (new_quote r) (fun k (m : gmap nat nat) => m !! k) s0 (l ++ [sy])
    (<[sy := length (objects (qs_store st))]> (qs_quotes st)) (fst (alloc (QuoteObject (NewQuote s)) (qs_store st)))) as Hc'.
  { apply (created_snoc (new_quote r) _ (fun k m => m !! k) insert_get s0 l (qs_quotes st) (qs_store st) sy sy); [done|].
    unfold new_quote. by rewrite Hsy. }
  split_and!; [exact Hc'|done| | | | |].
  - intros dp Hdp. rewrite lookup_alter_ne, lookup_insert_ne by lia. by apply Ho.
  - rewrite Hts, length_app, seq_app, <- app_assoc. done.
  - rewrite length_app, seq_app. apply Forall2_app; [|constructor; [|constructor]].
    + eapply Forall2_impl; [exact Hw|]. intros dp sy' (s' & q & H1 & H2 & H3 & H4 & H5).
      assert (dp <> (L + length l)%nat) as Hdp by (intros ->; congruence).
      exists s', q. simpl. rewrite lookup_alter_ne, lookup_insert_ne by done.
      split_and!; [done|done|by apply lookup_app_l_Some|done|]. intros (Hnd & Hnew & _)%NoDup_app.
      rewrite lookup_insert_ne; [by apply H5|]. intros <-. apply (Hnew sy); [|set_solver].
      destruct (cr_at _ _ _ _ _ _ Hc sy q (H5 Hnd)) as (a & o & Ha & Hk' & _).
      unfold new_quote in Hk'. by destruct (symbols r !! a); simplify_eq/=.
    + exists s, (length (objects (qs_store st))). simpl.
      rewrite lookup_alter_eq, lookup_insert_eq, lookup_app_r, Nat.sub_diag by done.
      split_and!; [done|apply prefix_length, (cr_older _ _ _ _ _ _ Hc)|done|done|].
      intros _. by rewrite lookup_insert_eq.
  - rewrite !length_app. simpl. lia.
  - intros dp. rewrite lookup_alter_is_Some, lookup_insert_is_Some, length_app. simpl. intros [<-|[_ H%Hk]]; lia.
Qed.

Lemma put_get_book (k k' : nat * Z) p m :
  get_book k' (put_book k p m) = if decide (k = k') then Some p else get_book k' m.
Proof.
  unfold get_book, put_book. destruct k as [a b], k' as [a' b']; simpl.
  destruct (decide (a = a')) as [<-|Hne]; cycle 1.
  { rewrite decide_False by congruence. by destruct (m !! a); rewrite lookup_insert_ne. }
  destruct (m !! a) as [obs|]; rewrite lookup_insert_eq; simpl; rewrite ?lookup_singleton, ?lookup_insert.
  all: repeat case_decide; congruence.
Qed.

Lemma topics_of {A A' C E} (f : C -> E) (g : A -> option C) (Q : A -> A' -> Prop) (P : A' -> E -> Prop) l l' :
  Forall2 Q l l' -> (forall x z, Q x z -> exists y, g x = Some y /\ P z (f y)) -> Forall2 P l' (map f (omap g l)).
Proof.
  intros HQ H. induction HQ as [|x z l l' Hxz _ IH]; simpl; [done|].
  destruct (H x z Hxz) as (y & Hy & HP). rewrite Hy. by constructor.
Qed.

Lemma diagonal {A} (P : A -> Prop) l : Forall P l -> Forall2 (fun x y => x = y /\ P x) l l.
Proof. induction 1; by constructor. Qed.

(** ** What InitInsights leaves *)

Definition is_trade_topic (i : initialised) (sy : nat) (tp : Topic store) : Prop :=
  exists s p, symbols r !! sy = Some s /\ trades (insights i) !! sy = Some p /\
    tp = trade_topic clock (MkTradeTopic s [p]).

Definition is_book_topic (ds : list OrderBookDesignator) (l : list nat) (i : initialised) (dp : nat) (tp : Topic store) : Prop :=
  exists d s p hs, ds !! dp = Some d /\ symbols r !! d_Symbol d = Some s /\ GetOrderBook d (insights i) = Some p /\
    tp = ob_topic (MkOrderBookTopic s (d_Depth d) hs) /\ Forall (eq (ToBook p)) hs /\ (NoDup l -> hs = [ToBook p]).

Definition is_quote_topic (l : list nat) (i : initialised) (sy : nat) (tp : Topic store) : Prop :=
  exists s q, symbols r !! sy = Some s /\ objects (initial i) !! q = Some (QuoteObject (NewQuote s)) /\
    tp = ob_topic (MkOrderBookTopic s LinearOBDepth1 [ToQuote q]) /\ (NoDup l -> quotes (insights i) !! sy = Some q).

Record wired (ds : list OrderBookDesignator) (tradeSymbols obDesignators quoteSymbols : list nat) (i : initialised) : Prop := {
  w_trade_topics : exists l, (forall sy, sy ∈ tradeSymbols -> sy ∈ l) /\ Forall2 (is_trade_topic i) l (linearTradeTopics i);
  w_ob_topics : exists bs qs, linearOBTopics i = bs ++ qs /\
    Forall2 (is_book_topic ds obDesignators i) obDesignators bs /\
    Forall2 (is_quote_topic quoteSymbols i) quoteSymbols qs;
  w_trades sy p : trades (insights i) !! sy = Some p ->
    sy ∈ tradeSymbols /\ exists s, symbols r !! sy = Some s /\ objects (initial i) !! p = Some (TradeObject (NewTrade s));
  w_books d p : GetOrderBook d (insights i) = Some p ->
    exists s, symbols r !! d_Symbol d = Some s /\ objects (initial i) !! p = Some (BookObject (NewOrderBook s));
  w_trades_inj sy sy' p : trades (insights i) !! sy = Some p -> trades (insights i) !! sy' = Some p -> sy = sy';
  w_books_inj d d' p : GetOrderBook d (insights i) = Some p -> GetOrderBook d' (insights i) = Some p -> d = d';
  w_quotes_inj sy sy' p : quotes (insights i) !! sy = Some p -> quotes (insights i) !! sy' = Some p -> sy = sy'
}.

Lemma InitInsights_wired n ts obs qs ds i :
  InitInsights clock r n ts obs qs (InitGatewayManager ds) (MkStore [] 0 []) = Some i ->
  wired ds ts obs qs i.
Proof.
  unfold InitInsights. intros Hi.
  destruct (setup _ _ ts ∅ _) as [[tradeMap s1]|] eqn:H1; simpl in Hi; [|done].
  destruct (setup_trade_topics r n tradeMap _) as [[m1 tradeTopics]|] eqn:H2; simpl in Hi; [|done].
  destruct (setup _ put_book obs ∅ s1) as [[books s2]|] eqn:H3; simpl in Hi; [|done].
  destruct (setup_book_topics r obs books m1) as [[m2 obTopics]|] eqn:H4; simpl in Hi; [|done].
  destruct (foldM (setup_quote r) qs _) as [st|] eqn:H5; simpl in Hi; [|done]. injection Hi as <-.
  apply (setup_created _ _ (fun k m => m !! k) insert_get) in H1; [|apply lookup_empty].
  apply setup_trade_topics_spec in H2 as (Hd & Hob & Hts & Htw); [|done].
  rewrite Hd in H3.
  apply (setup_created _ _ get_book put_get_book) in H3; [|intros k; unfold get_book; by rewrite lookup_empty].
  apply setup_book_topics_spec in H4 as (Hd2 & Htm & -> & Hk & Hbw); [|by rewrite Hob].
  rewrite Hd in Hd2, Hbw. simpl in Hd2, Hbw. pose proof (proj1 (Forall_forall _ _) Hbw) as Hbw'.
  apply quote_loop in H5 as (H5 & Htm2 & Hold & Hqt & Hqw); cycle 1.
  { intros dp Hdp. apply Hk, Hbw' in Hdp as (d & _ & _ & _ & Hdp & _). rewrite Hd2. by eapply lookup_lt_Some. }
  split; simpl.
  - exists tradeTopics. split.
    { intros sy Hsy. apply Hts. destruct (cr_all _ _ _ _ _ _ H1 sy Hsy) as (k & o & p & Hk' & Hp).
      unfold new_trade in Hk'. destruct (symbols r !! sy); simplify_eq/=. by eexists. }
    apply (topics_of _ _ _ _ _ _ (diagonal _ _ Htw)). intros sy _ (<- & s & p & Hs & Hp & Ht).
    eexists. rewrite Htm2, Htm. split; [exact Ht|]. by exists s, p.
  - rewrite Hqt, omap_app, map_app. eexists _, _. split; [done|]. split.
    + apply (topics_of _ _ _ _ _ _ (diagonal _ _ Hbw)).
      intros dp _ (<- & d & s & p & hs & Hl & Hs & Hg & Ht & Hhs & Hnd).
      eexists. rewrite Hold by (rewrite Hd2; by eapply lookup_lt_Some). split; [exact Ht|].
      by exists d, s, p, hs.
    + apply (topics_of _ _ _ _ _ _ Hqw). intros dp sy (s & q & H1' & H2' & H3' & H4' & H5').
      eexists. split; [exact H4'|]. by exists s, q.
  - intros sy p Hp. destruct (cr_at _ _ _ _ _ _ H1 sy p Hp) as (a & o & Ha & Hk' & _ & Hl).
    unfold new_trade in Hk'. destruct (symbols r !! a) as [s|] eqn:Hs; simplify_eq/=. split; [done|]. exists s. split; [done|].
    eapply prefix_lookup_Some, (cr_older _ _ _ _ _ _ H5). by eapply prefix_lookup_Some, (cr_older _ _ _ _ _ _ H3).
  - intros d p Hp. destruct (cr_at _ _ _ _ _ _ H3 (d_Symbol d, d_Depth d) p Hp) as (a & o & Ha & Hk' & _ & Hl).
    unfold new_book in Hk'. simpl in Hk'. destruct (ds !! a) as [d'|]; simpl in Hk'; [|done].
    destruct (symbols r !! d_Symbol d') as [s|] eqn:Hs; simpl in Hk'; [|done]. injection Hk' as <- _ <-. exists s. split; [done|].
    by eapply prefix_lookup_Some, (cr_older _ _ _ _ _ _ H5).
  - apply (cr_inj _ _ _ _ _ _ H1).
  - intros [sy dep] [sy' dep'] p Hp Hp'. pose proof (cr_inj _ _ _ _ _ _ H3 (sy, dep) (sy', dep') p Hp Hp') as E. by injection E as -> ->.
  - apply (cr_inj _ _ _ _ _ _ H5).
Qed.

End Setup.

(** ** All deliveries to the public group *)

Section Group.
  Context {D : Decimal} {B : BTree} {RT : GoRuntime} (clock : nat -> time) (r : registry).

Definition ob_name (s : Symbol.Symbol) (depth : Z) : string :=
  ("orderbook." +:+ FormatInt depth +:+ "." +:+ Symbol.Name s)%string.
Definition trade_name (s : Symbol.Symbol) : string := ("publicTrade." +:+ Symbol.Name s)%string.

(** The topics of the order books and then of the quotes, as the exchange knows them. *)
Definition ob_names (ds : list OrderBookDesignator) (obs qs : list nat) : list (option string) :=
  map (fun dp => d ← ds !! dp; s ← symbols r !! d_Symbol d; Some (ob_name s (d_Depth d))) obs ++
  map (fun sy => s ← symbols r !! sy; Some (ob_name s LinearOBDepth1)) qs.

(** [publicLinearChGroup], with its topics. *)
Definition public_group (k : nat) (dedupTTL : duration) (i : initialised) : ChannelGroup (M := Manager) :=
  GroupSetTopics (linearOBTopics i) (GroupSetTopics (linearTradeTopics i) (NewChannelGroup k dedupTTL)).

Definition all_topics (i : initialised) : list (Topic store) := linearTradeTopics i ++ linearOBTopics i.

Lemma public_group_topics k ttl i :
  public_group k ttl i = GroupSetTopics (all_topics i) (NewChannelGroup k ttl).
Proof.
  unfold public_group, GroupSetTopics. simpl. f_equal. rewrite map_map. apply map_ext. intros mg.
  unfold BybitSetTopics, all_topics, set_topics. simpl. by rewrite map_app, foldl_app.
Qed.

Context (ds : list OrderBookDesignator) (ts obs qs : list nat) (i : initialised).
Context (Hw : wired clock r ds ts obs qs i).

Lemma topic_cases tp : tp ∈ all_topics i ->
  (exists sy, is_trade_topic clock r i sy tp) \/ (exists dp, is_book_topic r ds obs i dp tp) \/
  (exists sy, is_quote_topic r qs i sy tp).
Proof.
  destruct Hw as [(l & _ & Ht) (bs & qts & Hob & Hb & Hq) _ _ _ _ _]. unfold all_topics. rewrite Hob, !elem_of_app.
  intros [Hin|[Hin|Hin]].
  - destruct (Forall2_elem_r _ _ _ _ Ht Hin) as (x & _ & H). eauto.
  - destruct (Forall2_elem_r _ _ _ _ Hb Hin) as (x & _ & H). eauto.
  - destruct (Forall2_elem_r _ _ _ _ Hq Hin) as (x & _ & H). eauto.
Qed.

Lemma topic_names : map (fun tp => Some (TopicName tp)) (linearOBTopics i) = ob_names ds obs qs.
Proof.
  destruct Hw as [_ (bs & qts & Hob & Hb & Hq) _ _ _ _ _]. rewrite Hob, map_app. unfold ob_names. f_equal.
  - clear -Hb. induction Hb as [|dp tp l l' (d & s & p & hs & Hd & Hs & _ & -> & _) _ IH]; [done|].
    simpl. rewrite Hd. simpl. rewrite Hs. simpl. by rewrite IH.
  - clear -Hq. induction Hq as [|sy tp l l' (s & q & Hs & _ & -> & _) _ IH]; [done|].
    simpl. rewrite Hs. simpl. by rewrite IH.
Qed.

Lemma topics_named : named (all_topics i).
Proof.
  apply Forall_forall. intros tp Hin.
  destruct (topic_cases tp Hin) as [(sy & s & p & _ & _ & ->)|[(dp & d & s & p & hs & _ & _ & _ & -> & _)|(sy & s & q & _ & _ & -> & _)]]; done.
Qed.

Lemma to_book_alone s d p p' hs :
  Forall (eq (ToBook p')) hs -> p <> p' -> left_alone p (ob_topic (MkOrderBookTopic s d hs)).
Proof.
  intros Hhs Hne. apply ob_topic_left_alone. simpl. change (map target hs) with (target <$> hs).
  rewrite list_elem_of_fmap. intros (h & -> & Hh). rewrite Forall_forall in Hhs. by rewrite <- (Hhs h Hh) in Hne.
Qed.

(** The object of a book is left to its topic. *)
Lemma book_alone d s p tp :
  symbols r !! d_Symbol d = Some s -> GetOrderBook d (insights i) = Some p ->
  tp ∈ all_topics i -> TopicName tp <> ob_name s (d_Depth d) -> left_alone p tp.
Proof.
  intros Hs Hp Hin Hn. destruct (w_books _ _ _ _ _ _ _ Hw d p Hp) as (s' & _ & Ho).
  destruct (topic_cases tp Hin) as [(sy & s1 & p1 & _ & Hp1 & ->)|[(dp & d1 & s1 & p1 & hs & _ & Hs1 & Hp1 & -> & Hhs & _)|(sy & s1 & q & _ & Hq & -> & _)]].
  - apply trade_topic_left_alone. simpl. intros ->%list_elem_of_singleton.
    destruct (w_trades _ _ _ _ _ _ _ Hw sy p1 Hp1) as (_ & s2 & _ & Ho'). congruence.
  - apply (to_book_alone _ _ _ p1); [done|]. intros ->.
    pose proof (w_books_inj _ _ _ _ _ _ _ Hw d d1 p1 Hp Hp1) as <-. apply Hn. by simplify_eq.
  - apply ob_topic_left_alone. simpl. intros ->%list_elem_of_singleton. congruence.
Qed.

(** A topic of a book or a quote is found, if the names are distinct. *)
Lemma ob_found tp : NoDup (ob_names ds obs qs) -> tp ∈ linearOBTopics i ->
  find_topic (TopicName tp) (all_topics i) = Some tp.
Proof.
  intros Hnd Hin. apply find_topic_unique; [apply elem_of_app; by right|].
  intros tp' [Hin'|Hin']%elem_of_app Hn.
  - destruct Hw as [(l & _ & Ht) (bs & qts & Hob & Hb & Hq) _ _ _ _ _].
    destruct (Forall2_elem_r _ _ _ _ Ht Hin') as (sy & _ & s & p & _ & _ & ->).
    rewrite Hob in Hin. apply elem_of_app in Hin as [Hin|Hin].
    + by destruct (Forall2_elem_r _ _ _ _ Hb Hin) as (dp & _ & d & s' & p' & hs & _ & _ & _ & -> & _).
    + by destruct (Forall2_elem_r _ _ _ _ Hq Hin) as (sy' & _ & s' & q & _ & _ & -> & _).
  - rewrite <- topic_names in Hnd. eapply (NoDup_map_inj _ _ _ _ Hnd); [done|done|]. simpl. by rewrite Hn.
Qed.

Lemma book_found dp d : NoDup (ob_names ds obs qs) -> dp ∈ obs -> ds !! dp = Some d ->
  exists s p, symbols r !! d_Symbol d = Some s /\ GetOrderBook d (insights i) = Some p /\
    objects (initial i) !! p = Some (BookObject (NewOrderBook s)) /\
    find_topic (ob_name s (d_Depth d)) (all_topics i) = Some (ob_topic (MkOrderBookTopic s (d_Depth d) [ToBook p])).
Proof.
  intros Hnd Hdp Hd. destruct (w_ob_topics _ _ _ _ _ _ _ Hw) as (bs & qts & Hob & Hb & _).
  destruct (Forall2_elem_l _ _ _ _ Hb Hdp) as (tp & Hin & d' & s & p & hs & Hd' & Hs & Hp & Htp & _ & Hhs).
  rewrite Hd in Hd'. injection Hd' as <-. exists s, p. split; [done|]. split; [done|]. split.
  { destruct (w_books _ _ _ _ _ _ _ Hw d p Hp) as (s' & Hs' & Ho). congruence. }
  assert (NoDup obs) as Hobs by (apply NoDup_app in Hnd as [Hnd _]; by apply NoDup_fmap_1 in Hnd).
  rewrite (Hhs Hobs) in Htp. rewrite <- Htp. apply (f_equal TopicName) in Htp as Hn. simpl in Hn. unfold ob_name.
  rewrite <- Hn. apply ob_found; [done|]. rewrite Hob. apply elem_of_app. by left.
Qed.

Lemma quote_found sy : NoDup (ob_names ds obs qs) -> sy ∈ qs ->
  exists s q, symbols r !! sy = Some s /\ GetQuote sy (insights i) = Some q /\
    objects (initial i) !! q = Some (QuoteObject (NewQuote s)) /\
    find_topic (ob_name s LinearOBDepth1) (all_topics i) = Some (ob_topic (MkOrderBookTopic s LinearOBDepth1 [ToQuote q])).
Proof.
  intros Hnd Hsy. destruct (w_ob_topics _ _ _ _ _ _ _ Hw) as (bs & qts & Hob & _ & Hq).
  destruct (Forall2_elem_l _ _ _ _ Hq Hsy) as (tp & Hin & s & q & Hs & Ho & Htp & Hqs).
  exists s, q. split; [done|]. split; [|split; [done|]].
  { apply Hqs. apply NoDup_app in Hnd as (_ & _ & Hnd). by apply NoDup_fmap_1 in Hnd. }
  rewrite <- Htp. apply (f_equal TopicName) in Htp as Hn. simpl in Hn. unfold ob_name.
  rewrite <- Hn. apply ob_found; [done|]. rewrite Hob. apply elem_of_app. by right.
Qed.

(** The object of a quote is left to its topic. *)
Lemma quote_alone sy s q tp :
  NoDup qs -> symbols r !! sy = Some s -> GetQuote sy (insights i) = Some q ->
  objects (initial i) !! q = Some (QuoteObject (NewQuote s)) ->
  tp ∈ all_topics i -> TopicName tp <> ob_name s LinearOBDepth1 -> left_alone q tp.
Proof.
  intros Hnd Hs Hq Ho Hin Hn.
  destruct (topic_cases tp Hin) as [(sy1 & s1 & p1 & _ & Hp1 & ->)|[(dp & d1 & s1 & p1 & hs & _ & Hs1 & Hp1 & -> & Hhs & _)|(sy1 & s1 & q1 & Hs1 & Hq1 & -> & Hqs)]].
  - apply trade_topic_left_alone. simpl. intros ->%list_elem_of_singleton.
    destruct (w_trades _ _ _ _ _ _ _ Hw sy1 p1 Hp1) as (_ & s2 & _ & Ho'). congruence.
  - apply (to_book_alone _ _ _ p1); [done|]. intros ->.
    destruct (w_books _ _ _ _ _ _ _ Hw d1 p1 Hp1) as (s2 & _ & Ho'). congruence.
  - apply ob_topic_left_alone. simpl. intros ->%list_elem_of_singleton. apply Hn.
    pose proof (w_quotes_inj _ _ _ _ _ _ _ Hw sy sy1 q1 Hq (Hqs Hnd)) as <-. by simplify_eq.
Qed.

(** The trades of a symbol. *)
Lemma trade_found sy : names_told r ts -> sy ∈ ts ->
  exists s p, symbols r !! sy = Some s /\ GetTrade sy (insights i) = Some p /\
    objects (initial i) !! p = Some (TradeObject (NewTrade s)) /\
    find_topic (trade_name s) (all_topics i) = Some (trade_topic clock (MkTradeTopic s [p])) /\
    (forall tp, tp ∈ all_topics i -> TopicName tp <> trade_name s -> left_alone p tp).
Proof.
  intros Hnames Hsy. destruct (w_trade_topics _ _ _ _ _ _ _ Hw) as (l & Hl & Ht).
  destruct (Forall2_elem_l _ _ _ _ Ht (Hl sy Hsy)) as (tp & Hin & s & p & Hs & Hp & Htp).
  destruct (w_trades _ _ _ _ _ _ _ Hw sy p Hp) as (_ & s' & Hs' & Ho). simplify_eq.
  exists s, p. split_and!; [done|done|done|..].
  - apply (find_topic_unique (all_topics i) (trade_topic clock (MkTradeTopic s [p]))); [apply elem_of_app; by left|].
    intros tp' Hin' Hn. destruct (topic_cases tp' Hin') as [(sy1 & s1 & p1 & Hs1 & Hp1 & ->)|[(dp & d1 & s1 & p1 & hs & _ & _ & _ & -> & _)|(sy1 & s1 & q & _ & _ & -> & _)]]; [|done..].
    assert (sy1 = sy) as ->; [|congruence]. apply Hnames; [by apply (w_trades _ _ _ _ _ _ _ Hw sy1 p1)|done|].
    rewrite Hs, Hs1. simpl. f_equal. simpl in Hn. by apply (inj (String.append "publicTrade.")) in Hn.
  - intros tp' Hin' Hn. destruct (topic_cases tp' Hin') as [(sy1 & s1 & p1 & Hs1 & Hp1 & ->)|[(dp & d1 & s1 & p1 & hs & _ & _ & Hp1 & -> & Hhs & _)|(sy1 & s1 & q & _ & Hq & -> & _)]].
    + apply trade_topic_left_alone. simpl. intros ->%list_elem_of_singleton. apply Hn.
      pose proof (w_trades_inj _ _ _ _ _ _ _ Hw sy sy1 p1 Hp Hp1) as <-. by simplify_eq.
    + apply (to_book_alone _ _ _ p1); [done|]. intros ->.
      destruct (w_books _ _ _ _ _ _ _ Hw d1 p1 Hp1) as (s2 & _ & Ho'). congruence.
    + apply ob_topic_left_alone. simpl. intros ->%list_elem_of_singleton. congruence.
Qed.

(** The id of a message that has a topic is the one of Bybit's topics. *)
Lemma bybit_id_of m : id_of (M := Manager) (all_topics i) m <> "" ->
  id_of (M := Manager) (all_topics i) m = BaseMessageID m.
Proof.
  unfold id_of. simpl. destruct (getTopicName m) as [name|]; [|done].
  destruct (find_topic name (all_topics i)) as [tp|] eqn:Hf; [|done]. apply find_topic_in in Hf as [Hin _].
  destruct (topic_cases tp Hin) as [(sy & s & p & _ & _ & ->)|[(dp & d & s & p & hs & _ & _ & _ & -> & _)|(sy & s & q & _ & _ & -> & _)]]; done.
Qed.

End Group.

(** ** Theorems *)

Section Theorems.
  Context {D : Decimal} {B : BTree} {RT : GoRuntime} (clock : nat -> time) (r : registry).

(** What the handlers of a topic have been called with: the messages under its name that the
    group let through, in the order of their handlers ([group_handles_once] says which these are). *)
Definition heard (g : group_run (S := store)) (name : string) : list delivery :=
  addressed (route (M := Manager)) name (dispatched g).

(** C34: Bybit's insights follow their topics, if all books and quotes have topics of different
    names (a book of depth 1 and a quote of the same symbol do not: [quoted_book_starves]).
    However the redundant channels and the cleaner of the cache interleave, every order book is
    the empty one updated with the data of the messages of its own topic that the group let
    through, in the order in which they were handled, every quote is the fresh one updated in the
    same way, and the trades of a symbol are ready once a message of theirs was
    translated; no other message has an effect on them.  Of every message of a topic that came
    on any channel, exactly one copy is among those, when all its copies came within the
    time to live and no goroutine is still with one. *)
Theorem bybit_insights_follow n ts obs qs dsl i es ttl t g :
  InitInsights clock r n ts obs qs (InitGatewayManager dsl) (MkStore [] 0 []) = Some i ->
  NoDup (ob_names r dsl obs qs) -> names_told r ts ->
  group_runs (M := Manager) (all_topics i) es (group_begin ttl t (initial i)) = Some g ->
  (forall dp d, dp ∈ obs -> dsl !! dp = Some d -> exists sy p,
    symbols r !! d_Symbol d = Some sy /\ GetOrderBook d (insights i) = Some p /\
    objects (app g) !! p = Some (BookObject (OrderBookViews.update_all
      (accepted_data book_data (heard g (ob_name sy (d_Depth d)))) (NewOrderBook sy)))) /\
  (forall x, x ∈ qs -> exists sy q,
    symbols r !! x = Some sy /\ GetQuote x (insights i) = Some q /\
    objects (app g) !! q = Some (QuoteObject (fst (Quote.update_all
      (accepted_data quote_data (heard g (ob_name sy LinearOBDepth1))) (NewQuote sy))))) /\
  (forall x, x ∈ ts -> exists sy p,
    symbols r !! x = Some sy /\ GetTrade x (insights i) = Some p /\
    trade_ready <$> objects (app g) !! p = Some (Some
      (match accepted_data trade_data (heard g (trade_name sy)) with [] => false | _ => true end))) /\
  (forall d name, let id := id_of (M := Manager) (all_topics i) (message d) in
    d ∈ arrived g -> route (M := Manager) (message d) = Some name -> id <> ""%string ->
    at_rest (M := Manager) (all_topics i) ttl id g ->
    length (copies (M := Manager) (all_topics i) id (heard g name)) = 1%nat).
Proof.
  intros Hi Hnd Hts Hd. apply InitInsights_wired in Hi as Hw.
  pose proof (group_runs_plain (M := Manager) _ _ _ _ _ _ Hd) as Hr. split_and!.
  - intros dp d Hdp Hdl. destruct (book_found clock r _ _ _ _ _ Hw dp d Hnd Hdp Hdl) as (sy & p & Hs & Hp & Hob & Hf).
    exists sy, p. split; [done|]. split; [done|]. rewrite <- run_book_steps.
    rewrite <- (option_fmap_id (objects (app g) !! p)).
    eapply deliver_driven; [exact Hf|apply ob_topic_book| |exact Hr|by rewrite option_fmap_id].
    intros name tp Hn [Hin Htp]%find_topic_in. eapply book_alone; [done..|]. congruence.
  - intros x Hx. destruct (quote_found clock r _ _ _ _ _ Hw x Hnd Hx) as (sy & q & Hs & Hq & Hob & Hf).
    exists sy, q. split; [done|]. split; [done|]. rewrite <- run_quote_steps.
    rewrite <- (option_fmap_id (objects (app g) !! q)).
    eapply deliver_driven; [exact Hf|apply ob_topic_quote| |exact Hr|by rewrite option_fmap_id].
    intros name tp Hn [Hin Htp]%find_topic_in. eapply quote_alone; [done| |done..|congruence].
    apply NoDup_app in Hnd as (_ & _ & Hnd). by apply NoDup_fmap_1 in Hnd.
  - intros x Hx. destruct (trade_found clock r _ _ _ _ _ Hw x Hts Hx) as (sy & p & Hs & Hp & Hob & Hf & Ha).
    exists sy, p. split; [done|]. split; [done|]. rewrite <- run_trade_steps.
    eapply deliver_driven; [exact Hf|apply trade_topic_trades| |exact Hr|by rewrite Hob].
    intros name tp Hn [Hin Htp]%find_topic_in. apply Ha; [done|]. congruence.
  - intros d name id Hin Hname Hne Hrest. eapply settled_once; [exact Hd|exact Hin|exact Hne|exact Hrest|].
    intros d' _ Hid. rewrite <- Hname. symmetry. simpl. subst id.
    pose proof (bybit_id_of clock r _ _ _ _ _ Hw (message d) Hne) as H1.
    rewrite <- Hid in Hne. pose proof (bybit_id_of clock r _ _ _ _ _ Hw (message d') Hne) as H2.
    apply bybit_id_route; congruence.
Qed.

(** A book of depth 1 and a quote of the same symbol have topics of the same name, and
    the one of the quote is set last: the book is never updated, and the insights are
    never ready, whatever is delivered. *)
Theorem quoted_book_starves n ts obs qs dsl i dp d es ttl t g :
  InitInsights clock r n ts obs qs (InitGatewayManager dsl) (MkStore [] 0 []) = Some i ->
  dp ∈ obs -> dsl !! dp = Some d -> d_Depth d = LinearOBDepth1 -> d_Symbol d ∈ qs ->
  group_runs (M := Manager) (all_topics i) es (group_begin ttl t (initial i)) = Some g ->
  exists sy p, GetOrderBook d (insights i) = Some p /\
    objects (app g) !! p = Some (BookObject (NewOrderBook sy)) /\ IsEverythingReady (insights i) (app g) = false.
Proof.
  intros Hi Hdp Hd Hdep Hq Hdel. apply InitInsights_wired in Hi as Hw.
  pose proof (group_runs_plain (M := Manager) _ _ _ _ _ _ Hdel) as Hr.
  destruct (w_ob_topics _ _ _ _ _ _ _ Hw) as (bs & qts & Hob & Hb & Hqt).
  destruct (Forall2_elem_l _ _ _ _ Hb Hdp) as (tp & _ & d' & sy & p & _ & Hd' & Hs & Hp & _). simplify_eq.
  destruct (w_books _ _ _ _ _ _ _ Hw d p Hp) as (sy' & Hs' & Hobj). simplify_eq. exists sy, p.
  assert (objects (app g) !! p = Some (BookObject (NewOrderBook sy))) as Hs0.
  { rewrite <- Hobj. eapply deliver_left_alone; [|exact Hr]. intros name tp' Hf.
    apply find_topic_in in Hf as Hin. destruct Hin as [Hin Hn].
    destruct (decide (name = ob_name sy LinearOBDepth1)) as [->|Hne];
      [|eapply book_alone; [done..|]; rewrite Hn, Hdep; done].
    destruct (Forall2_elem_l _ _ _ _ Hqt Hq) as (tq & Htq & sq & q & Hsq & Hqo & -> & _). simplify_eq.
    unfold all_topics in Hf. rewrite Hob, app_assoc, find_topic_app in Hf.
    destruct (find_topic_some qts _ Htq) as [tq' Hfq]. simpl in Hfq. unfold ob_name in Hf. rewrite Hfq in Hf. simpl in Hf.
    simplify_eq. apply find_topic_in in Hfq as [Hinq _].
    destruct (Forall2_elem_r _ _ _ _ Hqt Hinq) as (x & _ & sx & qx & _ & Hqx & -> & _).
    apply ob_topic_left_alone. simpl. intros ->%list_elem_of_singleton. congruence. }
  split; [done|]. split; [done|]. apply andb_false_iff. left. apply not_true_is_false. intros Hall.
  rewrite forallb_forall in Hall. unfold GetOrderBook in Hp.
  destruct (orderBooks (insights i) !! d_Symbol d) as [m|] eqn:Hm; simpl in Hp; [|done].
  specialize (Hall (d_Symbol d, m)). rewrite forallb_forall in Hall.
  specialize (Hall (proj1 (list_elem_of_In _ _) (proj2 (elem_of_map_to_list _ _ _) Hm)) (d_Depth d, p)
    (proj1 (list_elem_of_In _ _) (proj2 (elem_of_map_to_list _ _ _) Hp))).
  simpl in Hall. unfold pointee_ready in Hall. by rewrite Hs0 in Hall.
Qed.

End Theorems.

(** ** Examples

    A symbol whose trades, book of depth 50 and quote are asked for, and the same
    with a book of depth 1. *)

#[local] Existing Instance sorted_lists.
#[local] Existing Instance GoStd.in_order.

Definition btc : @Symbol.Symbol QDecimal :=
  MkSymbol "Bybit_linear_BTCUSDT" "Bybit" "linear" "BTCUSDT" (1 # 2)%Q (1 # 1000)%Q AssetBTC.
Definition one_symbol : @registry QDecimal := Registry [btc] ∅ ∅.

Definition book_text (topic type ts : string) : raw :=
  Text (JObject
    [("topic"%string, JString topic); ("type"%string, JString type); ("ts"%string, JNumber ts);
     ("data"%string, JObject
       [("b"%string, JArray [JArray [JString "99"; JString "4"]]);
        ("a"%string, JArray [JArray [JString "100"; JString "1"]]);
        ("u"%string, JNumber "9")])]).

(** A snapshot that arrives on both channels, whose goroutines overlap, and another. *)
Definition book_events (topic : string) : list group_event :=
  [GArrive 0 (book_text topic "snapshot" "1700000000000"); GGo 0; GPass 1;
   GArrive 1 (book_text topic "snapshot" "1700000000000"); GGo 1; GGo 1; GGo 0; GGo 1; GPass 1;
   GArrive 1 (book_text topic "snapshot" "1700000000001"); GGo 1; GGo 1; GClean; GGo 1].

Definition initialise (ds : list OrderBookDesignator) : option initialised :=
  InitInsights (fun _ => 0) one_symbol 0 [0%nat] [0%nat] [0%nat] (InitGatewayManager ds) (MkStore [] 0 []).
Definition after_events (ds : list OrderBookDesignator) (topic : string) : option (group_run (S := store)) :=
  i ← initialise ds; group_runs (M := Manager) (all_topics i) (book_events topic) (group_begin Second 5 (initial i)).

Lemma one_name : names_told one_symbol [0%nat].
Proof. intros x y ->%list_elem_of_singleton ->%list_elem_of_singleton. done. Qed.

Lemma bybit_insights_follow_witness :
  exists i g p, after_events [MkDesignator 0 50] "orderbook.50.BTCUSDT" = Some g /\
    initialise [MkDesignator 0 50] = Some i /\ GetOrderBook (MkDesignator 0 50) (insights i) = Some p /\
    objects (app g) !! p = Some (BookObject (OrderBookViews.update_all
      (accepted_data book_data (heard g "orderbook.50.BTCUSDT")) (NewOrderBook btc))).
Proof.
  assert (is_some (after_events [MkDesignator 0 50] "orderbook.50.BTCUSDT") = true) as Hsome by (vm_compute; reflexivity).
  unfold after_events in *. destruct (initialise [MkDesignator 0 50]) as [i|] eqn:Hi; [|discriminate Hsome].
  cbn [mbind option_bind] in *. destruct (group_runs _ _ _) as [g|] eqn:Hg; [|discriminate Hsome].
  destruct (bybit_insights_follow (fun _ => 0) one_symbol 0 [0%nat] [0%nat] [0%nat] [MkDesignator 0 50] i
    (book_events "orderbook.50.BTCUSDT") Second 5 g Hi) as (Hb & _); [|exact one_name|exact Hg|].
  - apply (bool_decide_unpack _). reflexivity.
  - destruct (Hb 0%nat (MkDesignator 0 50)) as (sy & p & Hs & Hp & H); [left|reflexivity|]. injection Hs as <-.
    exists i, g, p. exact (conj eq_refl (conj eq_refl (conj Hp H))).
Defined.

Lemma quoted_book_starves_witness :
  exists i g, after_events [MkDesignator 0 1] "orderbook.1.BTCUSDT" = Some g /\
    initialise [MkDesignator 0 1] = Some i /\ IsEverythingReady (insights i) (app g) = false.
Proof.
  assert (is_some (after_events [MkDesignator 0 1] "orderbook.1.BTCUSDT") = true) as Hsome by (vm_compute; reflexivity).
  unfold after_events in *. destruct (initialise [MkDesignator 0 1]) as [i|] eqn:Hi; [|discriminate Hsome].
  cbn [mbind option_bind] in *. destruct (group_runs _ _ _) as [g|] eqn:Hg; [|discriminate Hsome].
  destruct (quoted_book_starves (fun _ => 0) one_symbol 0 [0%nat] [0%nat] [0%nat] [MkDesignator 0 1] i 0
    (MkDesignator 0 1) (book_events "orderbook.1.BTCUSDT") Second 5 g Hi) as (_ & _ & _ & _ & H);
    [left|reflexivity|reflexivity|left|exact Hg|].
  exists i, g. exact (conj eq_refl (conj eq_refl H)).
Defined.

(** Both orders of events as they come out: the book of depth 50 is ready after its two
    snapshots, and the quote is not; of the two readers of depth 1, only the quote hears them. *)
Definition ready_objects (ds : list OrderBookDesignator) (topic : string) : option (list bool) :=
  (fun g => map is_ready (objects (app g))) <$> after_events ds topic.

Example book_hears : ready_objects [MkDesignator 0 50] "orderbook.50.BTCUSDT" = Some [false; true; false].
Proof. vm_compute. reflexivity. Qed.
Example quote_hears : ready_objects [MkDesignator 0 1] "orderbook.1.BTCUSDT" = Some [false; false; true].
Proof. vm_compute. reflexivity. Qed.
