(* ===== verification/CoinExInsights.v ===== *)
(** * The insights of CoinEx (initializers/exchanges/coinex/insights_initializer.go)

    One topic for every symbol and kind of source.  [InitInsights] runs once, after
    [InitGatewayManager]. *)

From S2P Require Import Prelude GoStd Decimal QDecimal Domains Symbol Errors MutexMap Order OrderData.
From S2P Require Import BTree PriceLevel OrderBook OrderBookProps OrderBookViews Quote Trade Translate CoinExMessages.
From S2P Require Import TTLCache TTLCacheProps Json Topic ChannelGroup CoinExTopics Insights.
Local Open Scope Z_scope.

Section CoinExInsights.
  Context {D : Decimal} {B : BTree} {RT : GoRuntime} (clock : nat -> time) (r : registry).

Record coinexInsights := MkCoinexInsights {
  trades : gmap nat nat;
  orderBooks : gmap nat nat;
  quotes : gmap nat nat
}.

(** The pointers to what is kept of a symbol; nil if it was not asked for. *)
Definition GetOrderBook (symbol : nat) (i : coinexInsights) : option nat := orderBooks i !! symbol.
Definition GetTrade (symbol : nat) (i : coinexInsights) : option nat := trades i !! symbol.
Definition GetQuote (symbol : nat) (i : coinexInsights) : option nat := quotes i !! symbol.

Definition IsEverythingReady (i : coinexInsights) (s : store) : bool :=
  forallb (fun '(_, tr) => pointee_ready s tr) (map_to_list (trades i)) &&
  forallb (fun '(_, ob) => pointee_ready s ob) (map_to_list (orderBooks i)) &&
  forallb (fun '(_, q) => pointee_ready s q) (map_to_list (quotes i)).

(** ** InitInsights *)

Definition new_book (symbol : nat) : option (nat * object) :=
  s ← symbols r !! symbol; Some (symbol, BookObject (NewOrderBook s)).

Definition trade_topic (s : Symbol.Symbol) (p : nat) : Topic store := NewTradeTopic s [trade_Update clock p].
Definition book_topic (s : Symbol.Symbol) (p : nat) : Topic store := NewOrderBookTopic s [book_Update p].
Definition quote_topic (s : Symbol.Symbol) (p : nat) : Topic store := NewBookTickerTopic s [quote_Update p].

(** The loop over a map of objects that creates their topics; [n] is the number of its order. *)
Definition setup_topics (topic : Symbol.Symbol -> nat -> Topic store) (n : nat) (m : gmap nat nat) : option (list (Topic store)) :=
  foldM (fun topics '(symbol, p) => s ← symbols r !! symbol; Some (topics ++ [topic s p])) (MutexMap.entries n m) [].

(** The topics are set on the public group in this order. *)
Record initialised := MkInitialised {
  insights : coinexInsights;
  tradeTopics : list (Topic store);
  obTopics : list (Topic store);
  quoteTopics : list (Topic store);
  initial : store
}.

Definition InitInsights (n : nat) (tradeSymbols obSymbols quoteSymbols : list nat) (s : store) : option initialised :=
  '(tradeMap, s) ← setup (new_trade r) (fun k p => <[k := p]>) tradeSymbols (∅ : gmap nat nat) s;
  tradeTs ← setup_topics trade_topic n tradeMap;
  '(books, s) ← setup new_book (fun k p => <[k := p]>) obSymbols (∅ : gmap nat nat) s;
  obTs ← setup_topics book_topic (S n) books;
  '(quoteMap, s) ← setup (new_quote r) (fun k p => <[k := p]>) quoteSymbols (∅ : gmap nat nat) s;
  quoteTs ← setup_topics quote_topic (S (S n)) quoteMap;
  Some (MkInitialised (MkCoinexInsights tradeMap books quoteMap) tradeTs obTs quoteTs s).

End CoinExInsights.

(** ** Properties

    The three kinds of sources are treated alike: a kind has its topics, its objects and
    what a message does to them. *)

Section Kinds.
  Context {D : Decimal} {B : BTree} {RT : GoRuntime} (clock : nat -> time).

Inductive kind := KTrade | KBook | KQuote.

Definition topic_of (k : kind) : Symbol.Symbol -> nat -> Topic store :=
  match k with KTrade => trade_topic clock | KBook => book_topic | KQuote => quote_topic end.

Definition object_of (k : kind) (s : Symbol.Symbol) : object :=
  match k with
  | KTrade => TradeObject (NewTrade s)
  | KBook => BookObject (NewOrderBook s)
  | KQuote => QuoteObject (NewQuote s)
  end.

Definition kind_name (k : kind) (s : Symbol.Symbol) : string :=
  match k with
  | KTrade => "trade@" +:+ Symbol.Name s
  | KBook => "orderBook@" +:+ Symbol.Name s
  | KQuote => "bookTicker@" +:+ Symbol.Name s
  end%string.

Definition trade_data (t : time) (m : raw) : result (list TradeData) :=
  match Unmarshal dec_TradeMsgDto [] m with None => Failed | Some dto => TranslateToDatas t dto end.
Definition book_data (t : time) (m : raw) : result OrderBookData :=
  match Unmarshal dec_OrderBookMsgDto zero_OBDeltaDataDto m with None => Failed | Some dto => TranslateOrderBook t dto end.
Definition quote_data (t : time) (m : raw) : result QuoteData :=
  match Unmarshal dec_BookTickerMsgDto zero_BTDataDto m with None => Failed | Some dto => TranslateBookTicker t dto end.

(** Trades keep the time of the last update, which is not told by the messages. *)
Definition timeless (o : object) : object :=
  match o with
  | TradeObject t => TradeObject (MkTrade (Trade.symbol t) (Trade.handlers t) ((fun _ => 0) <$> Trade.lastUpdateAt t))
  | o => o
  end.

Definition step (k : kind) (t : time) (m : raw) (o : object) : object :=
  match k, o with
  | KTrade, TradeObject tr => match trade_data t m with Ok d => TradeObject (fst (Trade.Update d 0 tr)) | _ => o end
  | KBook, BookObject b => match book_data t m with Ok d => BookObject (fst (UpdateByOBData d b)) | _ => o end
  | KQuote, QuoteObject q => match quote_data t m with Ok d => QuoteObject (fst (Quote.Update d q)) | _ => o end
  | _, _ => o
  end.

Lemma topic_of_name k s p : TopicName (topic_of k s p) = kind_name k s.
Proof. by destruct k. Qed.

Lemma kind_name_inj k k' s s' :
  kind_name k s = kind_name k' s' -> k = k' /\ Symbol.Name s = Symbol.Name s'.
Proof.
  destruct k, k'; try done; intros H; split; try done; simpl in H.
  - by apply (inj (String.append "trade@")) in H.
  - by apply (inj (String.append "orderBook@")) in H.
  - by apply (inj (String.append "bookTicker@")) in H.
Qed.

(** The effect of a handler with one reader. *)
Lemma after_finish {A} (h : A -> store -> store) (d : result A) (s : store) :
  after (finish [h] d s) = match d with Ok x => Some (h x s) | Failed => Some s | Panic => None end.
Proof. by destruct d. Qed.

Lemma topic_of_after k s p t m st :
  after (MsgHandler (topic_of k s p) t m st) =
    match k with
    | KTrade => match trade_data t m with Ok d => Some (trade_Update clock p d st) | Failed => Some st | Panic => None end
    | KBook => match book_data t m with Ok d => Some (book_Update p d st) | Failed => Some st | Panic => None end
    | KQuote => match quote_data t m with Ok d => Some (quote_Update p d st) | Failed => Some st | Panic => None end
    end.
Proof.
  destruct k; simpl; unfold trade_data, book_data, quote_data.
  all: by destruct (Unmarshal _ _ m); [apply after_finish|].
Qed.

Lemma topic_of_left_alone k s p q : q <> p -> left_alone q (topic_of k s p).
Proof.
  intros Hq t m st st'. rewrite topic_of_after.
  destruct k; [destruct (trade_data t m)|destruct (book_data t m)|destruct (quote_data t m)]; intros E; simplify_eq; try done.
  - by apply trade_Update_frame.
  - by apply book_Update_frame.
  - by apply quote_Update_frame.
Qed.

Lemma topic_of_driven k s p : driven timeless (step k) p (topic_of k s p).
Proof.
  intros t m st st' v. rewrite topic_of_after. intros Ha Ho.
  destruct (objects st !! p) as [o|] eqn:Hp; [|done]. injection Ho as <-.
  assert (is_Some (objects st !! p)) as Hsome by (by rewrite Hp).
  destruct k; [destruct (trade_data t m) as [d| |] eqn:E|destruct (book_data t m) as [d| |] eqn:E|destruct (quote_data t m) as [d| |] eqn:E];
    simplify_eq; rewrite ?Hp; unfold step.
  all: try (destruct o; cbn [timeless fmap option_fmap option_map]; by rewrite ?E).
  - unfold trade_Update. rewrite Hp. destruct o as [tr| |]; [|by rewrite Hp..]. simpl.
    rewrite list_lookup_insert_eq by by eapply lookup_lt_Some. by rewrite E.
  - unfold book_Update. rewrite Hp. destruct o as [|b|]; [by rewrite Hp| |by rewrite Hp]. cbn [timeless]. rewrite E.
    destruct (UpdateByOBData d b). by rewrite write_at.
  - unfold quote_Update. rewrite Hp. destruct o as [| |q]; [by rewrite Hp..|]. cbn [timeless]. rewrite E.
    destruct (Quote.Update d q). by rewrite write_at.
Qed.

End Kinds.

(** ** What InitInsights leaves *)

Section Wired.
  Context {D : Decimal} {B : BTree} {RT : GoRuntime} (clock : nat -> time) (r : registry).

Definition map_of (k : kind) (i : coinexInsights) : gmap nat nat :=
  match k with KTrade => trades i | KBook => orderBooks i | KQuote => quotes i end.
Definition topics_in (k : kind) (i : initialised) : list (Topic store) :=
  match k with KTrade => tradeTopics i | KBook => obTopics i | KQuote => quoteTopics i end.
Definition all_topics (i : initialised) : list (Topic store) :=
  tradeTopics i ++ obTopics i ++ quoteTopics i.

Lemma elem_of_all_topics tp i : tp ∈ all_topics i <-> exists k, tp ∈ topics_in k i.
Proof.
  unfold all_topics. rewrite !elem_of_app. split.
  - intros [H|[H|H]]; [by exists KTrade|by exists KBook|by exists KQuote].
  - intros [[] H]; auto.
Qed.

(** The lists of symbols that were passed, by kind. *)
Record wired (lists : kind -> list nat) (i : initialised) : Prop := {
  w_topics k tp : tp ∈ topics_in k i <-> exists sy s p,
    map_of k (insights i) !! sy = Some p /\ symbols r !! sy = Some s /\ tp = topic_of clock k s p;
  w_all k sy : sy ∈ lists k -> is_Some (map_of k (insights i) !! sy);
  w_at k sy p : map_of k (insights i) !! sy = Some p -> sy ∈ lists k /\
    exists s, symbols r !! sy = Some s /\ objects (initial i) !! p = Some (object_of k s);
  w_inj k sy sy' p : map_of k (insights i) !! sy = Some p -> map_of k (insights i) !! sy' = Some p -> sy = sy'
}.

Lemma setup_topics_spec topic n m ts :
  setup_topics r topic n m = Some ts ->
  forall tp, tp ∈ ts <-> exists sy s p, m !! sy = Some p /\ symbols r !! sy = Some s /\ tp = topic s p.
Proof.
  intros Hs tp. unfold setup_topics in Hs.
  assert (forall l (acc ts : list (Topic store)),
    foldM (fun topics '(symbol, p) => s ← symbols r !! symbol; Some (topics ++ [topic s p])) l acc = Some ts ->
    tp ∈ ts <-> tp ∈ acc \/ exists sy s p, (sy, p) ∈ l /\ symbols r !! sy = Some s /\ tp = topic s p) as H.
  { intros l. induction l as [|[sy p] l IH]; intros acc ts'; simpl.
    - intros [= <-]. split; [auto|]. intros [|(? & ? & ? & []%elem_of_nil & _)]; done.
    - destruct (symbols r !! sy) as [s|] eqn:Hsy; simpl; [|done]. intros ->%IH.
      rewrite elem_of_app, list_elem_of_singleton. setoid_rewrite elem_of_cons. naive_solver. }
  rewrite (H _ _ _ Hs). split.
  - intros [[]%elem_of_nil|(sy & s & p & Hin & H')]. exists sy, s, p. by rewrite <- elem_of_entries.
  - intros (sy & s & p & Hin & H'). right. exists sy, s, p. by rewrite elem_of_entries.
Qed.

(** The objects that a loop over symbols creates. *)
Lemma created_objects k l s0 m s :
  setup (fun sy => s ← symbols r !! sy; Some (sy, object_of k s)) (fun k p => <[k := p]>) l (∅ : gmap nat nat) s0 = Some (m, s) ->
  objects s0 `prefix_of` objects s /\
  (forall sy, sy ∈ l -> is_Some (m !! sy)) /\
  (forall sy p, m !! sy = Some p -> sy ∈ l /\ exists s', symbols r !! sy = Some s' /\ objects s !! p = Some (object_of k s')) /\
  (forall sy sy' p, m !! sy = Some p -> m !! sy' = Some p -> sy = sy').
Proof.
  intros Hs. apply (setup_created _ _ (fun k m => m !! k) insert_get) in Hs as [H1 H2 H3 H4]; [|apply lookup_empty].
  split_and!; [done| | |exact H4].
  - intros sy Hsy. destruct (H2 sy Hsy) as (sy' & o & p & Hk & Hp).
    destruct (symbols r !! sy); simplify_eq/=. by eexists.
  - intros sy p Hp. destruct (H3 sy p Hp) as (a & o & Ha & Hk & _ & Ho).
    destruct (symbols r !! a) as [s'|] eqn:Hs'; simplify_eq/=. eauto.
Qed.

Lemma coinex_wired n ts obs qs i :
  InitInsights clock r n ts obs qs (MkStore [] 0 []) = Some i ->
  wired (fun k => match k with KTrade => ts | KBook => obs | KQuote => qs end) i.
Proof.
  unfold InitInsights. intros Hi.
  destruct (setup _ _ ts ∅ _) as [[tradeMap s1]|] eqn:H1; simpl in Hi; [|done].
  destruct (setup_topics r _ n tradeMap) as [tts|] eqn:T1; simpl in Hi; [|done].
  destruct (setup _ _ obs ∅ s1) as [[books s2]|] eqn:H2; simpl in Hi; [|done].
  destruct (setup_topics r _ (S n) books) as [bts|] eqn:T2; simpl in Hi; [|done].
  destruct (setup _ _ qs ∅ s2) as [[quoteMap s3]|] eqn:H3; simpl in Hi; [|done].
  destruct (setup_topics r _ (S (S n)) quoteMap) as [qts|] eqn:T3; simpl in Hi; [|done]. injection Hi as <-.
  apply (created_objects KTrade) in H1 as (_ & A1 & B1 & C1).
  apply (created_objects KBook) in H2 as (P2 & A2 & B2 & C2).
  apply (created_objects KQuote) in H3 as (P3 & A3 & B3 & C3).
  split.
  - intros []; [exact (setup_topics_spec _ _ _ _ T1)|exact (setup_topics_spec _ _ _ _ T2)|exact (setup_topics_spec _ _ _ _ T3)].
  - intros []; simpl; auto.
  - intros [] sy p; simpl; [intros (Hin & s & Hs & Ho)%B1|intros (Hin & s & Hs & Ho)%B2|apply B3]; (split; [done|]); exists s; (split; [done|]).
    + eapply prefix_lookup_Some, P3. by eapply prefix_lookup_Some, P2.
    + by eapply prefix_lookup_Some, P3.
  - intros []; simpl; auto.
Qed.

(** ** The source of a symbol *)

Context (lists : kind -> list nat) (i : initialised) (Hw : wired lists i).

Lemma coinex_topics_named : named (all_topics i).
Proof.
  apply Forall_forall. intros tp [k Hk]%elem_of_all_topics.
  apply (w_topics _ _ Hw) in Hk as (sy & s & p & _ & _ & ->). rewrite topic_of_name. by destruct k.
Qed.

(** A source has the only topic of its name, and its object is left to it. *)
Lemma source_found k sy :
  names_told r (lists k) -> sy ∈ lists k ->
  exists s p, symbols r !! sy = Some s /\ map_of k (insights i) !! sy = Some p /\
    objects (initial i) !! p = Some (object_of k s) /\
    find_topic (kind_name k s) (all_topics i) = Some (topic_of clock k s p) /\
    (forall tp, tp ∈ all_topics i -> TopicName tp <> kind_name k s -> left_alone p tp).
Proof.
  intros Hn Hsy. destruct (w_all _ _ Hw k sy Hsy) as [p Hp].
  destruct (w_at _ _ Hw k sy p Hp) as (_ & s & Hs & Ho). exists s, p. split_and!; [done..| |].
  - rewrite <- (topic_of_name clock k s p). apply find_topic_unique.
    { apply elem_of_all_topics. exists k. apply (w_topics _ _ Hw). eauto 7. }
    intros tp' [k' Hin]%elem_of_all_topics Hname.
    apply (w_topics _ _ Hw) in Hin as (sy' & s' & p' & Hp' & Hs' & ->).
    rewrite !topic_of_name in Hname. apply kind_name_inj in Hname as [-> Hname].
    assert (sy' = sy) as ->; [|congruence]. apply Hn; [by apply (w_at _ _ Hw k sy' p')|done|].
    rewrite Hs, Hs'. simpl. by rewrite Hname.
  - intros tp' [k' Hin]%elem_of_all_topics Hname.
    apply (w_topics _ _ Hw) in Hin as (sy' & s' & p' & Hp' & Hs' & ->). apply topic_of_left_alone.
    intros <-. destruct (w_at _ _ Hw k' sy' p Hp') as (_ & s2 & Hs2 & Ho2). simplify_eq.
    assert (k = k') as <- by (destruct k, k'; done).
    pose proof (w_inj _ _ Hw k sy sy' p Hp Hp') as <-. simplify_eq. by rewrite topic_of_name in Hname.
Qed.

End Wired.

(** ** All deliveries to the public group *)

Section Theorems.
  Context {D : Decimal} {B : BTree} {RT : GoRuntime} (clock : nat -> time) (r : registry).

(** [publicChGroup], with its topics. *)
Definition public_group (k : nat) (dedupTTL : duration) (i : initialised) : ChannelGroup (M := Manager) :=
  GroupSetTopics (quoteTopics i) (GroupSetTopics (obTopics i) (GroupSetTopics (tradeTopics i) (NewChannelGroup k dedupTTL))).

Lemma coinex_group_topics k ttl i :
  public_group k ttl i = GroupSetTopics (all_topics i) (NewChannelGroup k ttl).
Proof.
  unfold public_group, GroupSetTopics. simpl. f_equal. rewrite !map_map. apply map_ext. intros mg.
  unfold CoinExSetTopics, all_topics, set_topics. simpl. by rewrite !map_app, !foldl_app.
Qed.

(** What the handlers of a topic have been called with: the messages under its name that the
    group let through, in the order of their handlers. *)
Definition heard (g : group_run (S := store)) (name : string) : list delivery :=
  addressed (route (M := Manager)) name (dispatched g).

Lemma run_kind_steps k s ds :
  run_steps (step k) ds (object_of k s) =
    match k with
    | KTrade => TradeObject (MkTrade s [] (match accepted_data trade_data ds with [] => None | _ => Some 0 end))
    | KBook => BookObject (OrderBookViews.update_all (accepted_data book_data ds) (NewOrderBook s))
    | KQuote => QuoteObject (fst (Quote.update_all (accepted_data quote_data ds) (NewQuote s)))
    end.
Proof.
  unfold run_steps. destruct k; unfold object_of.
  - change (NewTrade s) with (MkTrade s [] (None : option time)). generalize (None : option time).
    induction ds as [|d ds IH]; intros o; [done|]. simpl.
    destruct (trade_data (at_time d) (message d)); rewrite IH; simpl; [by destruct (accepted_data _ _)|done..].
  - generalize (NewOrderBook s). induction ds as [|d ds IH]; intros b; [done|]. simpl.
    destruct (book_data (at_time d) (message d)); by rewrite IH.
  - generalize (NewQuote s). induction ds as [|d ds IH]; intros q; [done|]. simpl.
    destruct (quote_data (at_time d) (message d)) as [data| |]; rewrite IH; [|done..].
    simpl. destruct (Quote.Update data q) as [q' calls]. simpl. by destruct (Quote.update_all _ q').
Qed.

Lemma quote_data_complete ds : Forall complete (accepted_data quote_data ds).
Proof.
  induction ds as [|d ds IH]; [done|]. unfold accepted_data. simpl. apply Forall_app. split; [|exact IH].
  unfold quote_data. destruct (Unmarshal _ _ _) as [dto|]; [|done]. unfold TranslateBookTicker.
  destruct (translateQuoteRecord _ (AskPrice dto) _) as [ask| |]; simpl; [|done..].
  destruct (translateQuoteRecord _ (BidPrice dto) _) as [bid| |]; simpl; [|done..].
  by repeat econstructor.
Qed.

Context {DL : DecimalLaws D} {BL : BTreeLaws (B := B)}.

(** When the object of a source is ready. *)
Lemma ready_steps k s ds :
  is_ready (run_steps (step k) ds (object_of k s)) =
    match k with
    | KTrade => negb (length (accepted_data trade_data ds) =? 0)%nat
    | KBook => (2 <=? length (accepted_data book_data ds))%nat
    | KQuote => (2 <=? length (from_first (accepted_data quote_data ds)))%nat
    end.
Proof.
  rewrite run_kind_steps. destruct k; simpl.
  - by destruct (accepted_data trade_data ds).
  - apply book_ready_updates.
  - apply quote_ready_updates, quote_data_complete.
Qed.

Lemma everything_ready i s :
  IsEverythingReady i s = true <-> forall k x p, map_of k i !! x = Some p -> pointee_ready s p = true.
Proof.
  assert (forall m : gmap nat nat, forallb (fun '(_, p) => pointee_ready s p) (map_to_list m) = true <->
    forall x p, m !! x = Some p -> pointee_ready s p = true) as Hm.
  { intros m. rewrite forallb_forall. split.
    - intros H x p Hx%elem_of_map_to_list. by apply (H (x, p)), list_elem_of_In.
    - intros H [x p] Hx%list_elem_of_In%elem_of_map_to_list. by eapply H. }
  unfold IsEverythingReady. rewrite !andb_true_iff, !Hm. split; [intros [[] ] []; simpl; eauto|].
  intros H. split_and!; [apply (H KTrade)|apply (H KBook)|apply (H KQuote)].
Qed.

(** The objects after the deliveries. *)
Lemma source_follows n ts obs qs i es ttl t g :
  let lists := fun k => match k with KTrade => ts | KBook => obs | KQuote => qs end in
  InitInsights clock r n ts obs qs (MkStore [] 0 []) = Some i ->
  (forall k, names_told r (lists k)) ->
  group_runs (M := Manager) (all_topics i) es (group_begin ttl t (initial i)) = Some g ->
  forall kd x, x ∈ lists kd -> exists sy p,
    symbols r !! x = Some sy /\ map_of kd (insights i) !! x = Some p /\
    timeless <$> objects (app g) !! p = Some (run_steps (step kd) (heard g (kind_name kd sy)) (object_of kd sy)).
Proof.
  intros lists Hi Hn Hd kd x Hx. apply coinex_wired in Hi as Hw. fold lists in Hw.
  destruct (source_found clock r lists i Hw kd x (Hn kd) Hx) as (sy & p & Hs & Hp & Hobj & Hf & Ha).
  exists sy, p. split; [done|]. split; [done|].
  eapply deliver_driven; [exact Hf|apply topic_of_driven| | |].
  - intros name tp Hne [Hin Htp]%find_topic_in. apply Ha; [done|]. congruence.
  - exact (group_runs_plain (M := Manager) _ _ _ _ _ _ Hd).
  - rewrite Hobj. by destruct kd.
Qed.

(** C35: CoinEx's insights follow the messages of their topics that the group lets through:
    however the redundant channels and the cleaner of the cache interleave, every order book and
    every quote is a fresh one updated with the data of those messages of its own topic, in
    the order in which they were handled, and trades are updated once such a message of theirs was
    translated; so the insights are ready exactly when all trades have had a message, all books
    two, and all quotes a message that they accept and another.  Of a message that came on any
    channel exactly one copy is among those, when all its copies came within the time to live, no
    goroutine is still with one, and no message of another topic has its id; the last
    can fail, since the ids of CoinEx do not name the market: then the message of another market
    takes the place of one's own, which is lost ([coinex_markets_collide]). *)
Theorem coinex_insights_follow n ts obs qs i es ttl t g :
  InitInsights clock r n ts obs qs (MkStore [] 0 []) = Some i ->
  names_told r ts -> names_told r obs -> names_told r qs ->
  group_runs (M := Manager) (all_topics i) es (group_begin ttl t (initial i)) = Some g ->
  let trades_of sy := accepted_data trade_data (heard g (kind_name KTrade sy)) in
  let books_of sy := accepted_data book_data (heard g (kind_name KBook sy)) in
  let quotes_of sy := accepted_data quote_data (heard g (kind_name KQuote sy)) in
  (forall x, x ∈ obs -> exists sy p, symbols r !! x = Some sy /\ GetOrderBook x (insights i) = Some p /\
    objects (app g) !! p = Some (BookObject (OrderBookViews.update_all (books_of sy) (NewOrderBook sy)))) /\
  (forall x, x ∈ qs -> exists sy p, symbols r !! x = Some sy /\ GetQuote x (insights i) = Some p /\
    objects (app g) !! p = Some (QuoteObject (fst (Quote.update_all (quotes_of sy) (NewQuote sy))))) /\
  (IsEverythingReady (insights i) (app g) = true <->
    (forall x sy, x ∈ ts -> symbols r !! x = Some sy -> trades_of sy <> []) /\
    (forall x sy, x ∈ obs -> symbols r !! x = Some sy -> (2 <= length (books_of sy))%nat) /\
    (forall x sy, x ∈ qs -> symbols r !! x = Some sy -> (2 <= length (from_first (quotes_of sy)))%nat)) /\
  (forall d name, let id := id_of (M := Manager) (all_topics i) (message d) in
    d ∈ arrived g -> route (M := Manager) (message d) = Some name -> id <> ""%string ->
    at_rest (M := Manager) (all_topics i) ttl id g ->
    (forall d', d' ∈ arrived g -> id_of (M := Manager) (all_topics i) (message d') = id ->
       route (M := Manager) (message d') = Some name) ->
    length (copies (M := Manager) (all_topics i) id (heard g name)) = 1%nat).
Proof.
  intros Hi Ht Hb Hq Hd trades_of books_of quotes_of.
  pose proof (source_follows n ts obs qs i es ttl t g Hi) as Hsrc. simpl in Hsrc.
  assert (forall kd, names_told r (match kd with KTrade => ts | KBook => obs | KQuote => qs end)) as Hn by by intros [].
  specialize (Hsrc Hn Hd). apply coinex_wired in Hi as Hw. split_and!.
  - intros x Hx. destruct (Hsrc KBook x Hx) as (sy & p & Hs & Hp & Hobj). exists sy, p. split; [done|]. split; [done|].
    rewrite run_kind_steps in Hobj. by destruct (objects (app g) !! p) as [[]|]; simplify_eq/=.
  - intros x Hx. destruct (Hsrc KQuote x Hx) as (sy & p & Hs & Hp & Hobj). exists sy, p. split; [done|]. split; [done|].
    rewrite run_kind_steps in Hobj. by destruct (objects (app g) !! p) as [[]|]; simplify_eq/=.
  - assert (forall kd x sy p, symbols r !! x = Some sy -> map_of kd (insights i) !! x = Some p ->
      pointee_ready (app g) p = is_ready (run_steps (step kd) (heard g (kind_name kd sy)) (object_of kd sy))) as Hr.
    { intros kd x sy p Hs Hp. destruct (w_at _ _ _ _ Hw kd x p Hp) as (Hx & _).
      destruct (Hsrc kd x Hx) as (sy' & p' & Hs' & Hp' & Hobj). simplify_eq. unfold pointee_ready.
      destruct (objects (app g) !! p) as [o|]; [|done]. injection Hobj as <-. by destruct o as [[? ? []]| |]. }
    rewrite everything_ready. split.
    + intros Hall. assert (forall kd x sy, x ∈ (match kd with KTrade => ts | KBook => obs | KQuote => qs end) ->
        symbols r !! x = Some sy -> is_ready (run_steps (step kd) (heard g (kind_name kd sy)) (object_of kd sy)) = true) as H.
      { intros kd x sy Hx Hs. destruct (w_all _ _ _ _ Hw kd x Hx) as [p Hp]. rewrite <- (Hr kd x sy p Hs Hp). by eapply Hall. }
      split_and!; intros x sy Hx Hs; [specialize (H KTrade x sy Hx Hs)|specialize (H KBook x sy Hx Hs)|specialize (H KQuote x sy Hx Hs)];
        rewrite ready_steps in H; [|by apply Nat.leb_le..].
      intros E. unfold trades_of in E. by rewrite E in H.
    + intros (H1 & H2 & H3) kd x p Hp. destruct (w_at _ _ _ _ Hw kd x p Hp) as (Hx & sy & Hs & _).
      rewrite (Hr kd x sy p Hs Hp), ready_steps. destruct kd; [|by apply Nat.leb_le; eauto..].
      specialize (H1 x sy Hx Hs). unfold trades_of in H1. by destruct (accepted_data trade_data _).
  - intros d name id Hin Hname Hne Hrest Hown. by eapply settled_once.
Qed.

End Theorems.

(** ** Examples

    A market of which everything is asked for. *)

#[local] Existing Instance sorted_lists.
#[local] Existing Instance GoStd.in_order.

Definition market : @Symbol.Symbol QDecimal :=
  MkSymbol "CoinEx_futures_BTCUSDT" "CoinEx" "futures" "BTCUSDT" (1 # 2)%Q (1 # 1000)%Q AssetBTC.
Definition one_market : @registry QDecimal := Registry [market] ∅ ∅.

Definition of_market (method : string) (fields : list (string * json)) : raw :=
  Text (JObject [("method"%string, JString method); ("data"%string, JObject (("market"%string, JString "BTCUSDT") :: fields))]).
Definition book_text (ts : string) : raw := of_market chanOB
  [("is_full"%string, JBool true); ("depth"%string, JObject
     [("asks"%string, JArray [JArray [JString "100"; JString "1"]]);
      ("bids"%string, JArray [JArray [JString "99"; JString "4"]]); ("updated_at"%string, JNumber ts)])].
Definition quote_text (ts : string) : raw := of_market chanBT
  [("updated_at"%string, JNumber ts); ("best_bid_price"%string, JString "99"); ("best_bid_size"%string, JString "4");
   ("best_ask_price"%string, JString "100"); ("best_ask_size"%string, JString "1")].
Definition trade_text (id : string) : raw := of_market chanTrade
  [("deal_list"%string, JArray [JObject [("deal_id"%string, JNumber id); ("created_at"%string, JNumber "17");
     ("side"%string, JString "buy"); ("price"%string, JString "100"); ("amount"%string, JString "1")]])].

(** The book comes on both channels at once, the rest one after the other. *)
Definition market_events : list group_event :=
  [GArrive 0 (book_text "1"); GArrive 1 (book_text "1"); GGo 1; GGo 0; GGo 0; GGo 1; GPass 1; GGo 0;
   GArrive 1 (book_text "2"); GGo 1; GGo 1; GGo 1; GArrive 0 (quote_text "1"); GGo 0; GGo 0; GGo 0;
   GArrive 1 (trade_text "3"); GGo 1; GClean; GGo 1; GGo 1; GArrive 0 (quote_text "2"); GGo 0; GGo 0; GGo 0].

Definition initialise : option initialised :=
  InitInsights (fun _ => 0) one_market 0 [0%nat] [0%nat] [0%nat] (MkStore [] 0 []).
Definition after_market (es : list group_event) : option (group_run (S := store)) :=
  i ← initialise; group_runs (M := Manager) (all_topics i) es (group_begin Second 5 (initial i)).

Lemma coinex_insights_follow_witness :
  exists i g p, after_market market_events = Some g /\
    initialise = Some i /\ GetOrderBook 0 (insights i) = Some p /\
    objects (app g) !! p = Some (BookObject (OrderBookViews.update_all
      (accepted_data book_data (heard g "orderBook@BTCUSDT")) (NewOrderBook market))).
Proof.
  assert (is_some (after_market market_events) = true) as Hsome by (vm_compute; reflexivity).
  unfold after_market in *. destruct initialise as [i|] eqn:Hi; [|discriminate Hsome].
  cbn [mbind option_bind] in *. destruct (group_runs _ _ _) as [g|] eqn:Hg; [|discriminate Hsome].
  assert (names_told one_market [0%nat]) as Hn by by intros x y ->%list_elem_of_singleton ->%list_elem_of_singleton.
  destruct (coinex_insights_follow (BL := sorted_lists_laws) (fun _ => 0) one_market 0 [0%nat] [0%nat] [0%nat] i
    market_events Second 5 g Hi Hn Hn Hn) as (Hb & _); [exact Hg|].
  destruct (Hb 0%nat) as (sy & p & Hs & Hp & H); [left|]. injection Hs as <-.
  exists i, g, p. exact (conj eq_refl (conj eq_refl (conj Hp H))).
Defined.

(** Everything is ready with the last message, and not before. *)
Definition ready_after (n : nat) : option bool :=
  i ← initialise; g ← after_market (firstn n market_events); Some (IsEverythingReady (insights i) (app g)).

Example market_ready : map ready_after (seq 0 26) = map Some (replicate 25 false ++ [true]).
Proof. vm_compute. reflexivity. Qed.
