(* ===== verification/Lapua.v ===== *)
(** * Starting an application (initializers/lapua/initializer.go, initializers/exchanges/common.go)

    The file paths, the registry of insights and the loop that waits for all of
    them.  An insight is a pointer, here a number; [ready k] says which insights answer
    [IsEverythingReady] with true in the [k]-th round of the loop. *)

From S2P Require Import Prelude GoStd MutexMap.
Local Open Scope Z_scope.

(** ** File paths *)

Record paths := MkPaths { configFilePath : string; secretFilePath : string; logFilePath : string }.

(** The text of a panic, or the paths. *)
Definition initFilePaths (Getenv : string -> string) : string + paths :=
  let configFilePath := Getenv "LAPUA_CONFIG_PATH"%string in
  let secretFilePath := Getenv "LAPUA_SECRET_PATH"%string in
  let logFilePath := Getenv "LAPUA_LOG_PATH"%string in
  if String.eqb configFilePath "" then inl "LAPUA_CONFIG_PATH environment variable is not set"%string
  else if String.eqb secretFilePath "" then inl "LAPUA_SECRET_PATH environment variable is not set"%string
  else if String.eqb logFilePath "" then inl "LAPUA_LOG_PATH environment variable is not set"%string
  else inr (MkPaths configFilePath secretFilePath logFilePath).

(** ** The registry *)

Definition AppendInsight (ins : nat) (Insights : list nat) : list nat := Insights ++ [ins].

Definition genInsReadyStates (Insights : list nat) : gmap nat bool :=
  foldl (fun states ins => <[ins := false]> states) ∅ Insights.

(** ** Waiting *)

Section Wait.
  Context {RT : GoRuntime} (ready : nat -> nat -> bool).

Definition areAllInsReady (insReadyStates : gmap nat bool) : bool :=
  forallb snd (map_to_list insReadyStates).

(** The insights whose readiness is logged are added to [log]. *)
Definition updateInsReadyStates (k : nat) (st : gmap nat bool * list nat) (ins : nat) : gmap nat bool * list nat :=
  let '(insReadyStates, log) := st in
  let before := default false (insReadyStates !! ins) in
  let current := ready k ins in
  (<[ins := current]> insReadyStates, if negb before && current then log ++ [ins] else log).

(** A round of the loop, after its second of sleep; the loop over the map updates the
    entry it is at. *)
Definition wait_round (k : nat) (st : gmap nat bool * list nat) : gmap nat bool * list nat :=
  foldl (updateInsReadyStates k) st (MutexMap.GetKeys k (fst st)).

(** [Some k]: returned in round [k]. *)
Fixpoint wait_from (fuel k : nat) (st : gmap nat bool * list nat) : option nat * list nat :=
  match fuel with
  | O => (None, snd st)
  | S fuel =>
      let st := wait_round k st in
      if areAllInsReady (fst st) then (Some k, snd st) else wait_from fuel (S k) st
  end.

Definition WaitForInsightsToBeReady (fuel : nat) (Insights : list nat) : option nat * list nat :=
  wait_from fuel 0 (genInsReadyStates Insights, []).

(** ** Facts *)

Definition all_ready (Insights : list nat) (k : nat) : bool := forallb (ready k) Insights.

Lemma gen_states Insights ins :
  genInsReadyStates Insights !! ins = if decide (ins ∈ Insights) then Some false else None.
Proof.
  unfold genInsReadyStates. induction Insights as [|x l IH] using rev_ind; [done|].
  rewrite foldl_app. simpl. rewrite lookup_insert, IH. repeat case_decide; set_solver.
Qed.

Lemma round_states k l st ins :
  fst (foldl (updateInsReadyStates k) st l) !! ins = if decide (ins ∈ l) then Some (ready k ins) else fst st !! ins.
Proof.
  revert st. induction l as [|x l IH]; intros st; simpl; [done|].
  rewrite IH. destruct st as [m log]. simpl. rewrite lookup_insert. repeat case_decide; set_solver.
Qed.

(** The states hold the answers of the last round. *)
Definition states_of (Insights : list nat) (answer : nat -> bool) (m : gmap nat bool) : Prop :=
  forall ins, m !! ins = if decide (ins ∈ Insights) then Some (answer ins) else None.

Lemma wait_round_states Insights answer k st :
  states_of Insights answer (fst st) -> states_of Insights (ready k) (fst (wait_round k st)).
Proof.
  intros Hst ins. unfold wait_round. rewrite round_states.
  destruct (decide (ins ∈ GetKeys k (fst st))) as [Hin|Hin]; rewrite elem_of_GetKeys, Hst in Hin.
  - destruct (decide (ins ∈ Insights)); [done|by destruct Hin].
  - rewrite Hst. destruct (decide (ins ∈ Insights)); [|done]. by destruct Hin.
Qed.

Lemma states_all_ready Insights k m :
  states_of Insights (ready k) m -> areAllInsReady m = all_ready Insights k.
Proof.
  intros Hm. apply eq_true_iff_eq. unfold areAllInsReady, all_ready. rewrite !forallb_forall. split.
  - intros H ins Hin%list_elem_of_In. specialize (H (ins, ready k ins)). apply H.
    apply list_elem_of_In, elem_of_map_to_list. by rewrite Hm, decide_True.
  - intros H [ins b] Hin%list_elem_of_In%elem_of_map_to_list. rewrite Hm in Hin. case_decide; [|done].
    injection Hin as <-. by apply H, list_elem_of_In.
Qed.

(** The first round from [k] on, of [fuel] rounds, in which all insights are ready. *)
Fixpoint first_ready (Insights : list nat) (fuel k : nat) : option nat :=
  match fuel with
  | O => None
  | S fuel => if all_ready Insights k then Some k else first_ready Insights fuel (S k)
  end.

Lemma wait_from_first Insights answer fuel k st :
  states_of Insights answer (fst st) -> fst (wait_from fuel k st) = first_ready Insights fuel k.
Proof.
  revert answer k st. induction fuel as [|fuel IH]; intros answer k st Hst; [done|]. simpl.
  apply (wait_round_states _ _ k) in Hst. rewrite (states_all_ready Insights k) by done.
  destruct (all_ready Insights k); [done|]. by eapply IH.
Qed.

Lemma first_ready_spec Insights fuel k j :
  first_ready Insights fuel k = Some j <->
  (k <= j < k + fuel)%nat /\ all_ready Insights j = true /\ (forall j', (k <= j' < j)%nat -> all_ready Insights j' = false).
Proof.
  revert k. induction fuel as [|fuel IH]; intros k; simpl; [split; [done|lia]|].
  destruct (all_ready Insights k) eqn:E.
  - split; [intros [= <-]; split_and!; [lia..|done|lia]|]. intros (H1 & H2 & H3). f_equal.
    destruct (decide (k = j)); [done|]. rewrite H3 in E; [done|lia].
  - rewrite IH. split.
    + intros (H1 & H2 & H3). split_and!; [lia..|done|]. intros j' Hj.
      destruct (decide (k = j')) as [<-|]; [done|]. apply H3. lia.
    + intros (H1 & H2 & H3). assert (k <> j) by congruence. split_and!; [lia..|done|]. intros j' Hj. apply H3. lia.
Qed.

(** The wait ends in the first round in which all registered insights are ready at once,
    and goes on for ever if there is no such round; a readiness that was seen in an
    earlier round does not count. *)
Theorem wait_until_ready Insights :
  (forall k fuel, (k < fuel)%nat ->
    fst (WaitForInsightsToBeReady fuel Insights) = Some k <->
    all_ready Insights k = true /\ (forall j, (j < k)%nat -> all_ready Insights j = false)) /\
  ((forall k, all_ready Insights k = false) <-> forall fuel, fst (WaitForInsightsToBeReady fuel Insights) = None).
Proof.
  assert (forall fuel, fst (WaitForInsightsToBeReady fuel Insights) = first_ready Insights fuel 0) as Hw.
  { intros fuel. apply (wait_from_first _ (fun _ => false)). intros ins. apply gen_states. }
  split.
  - intros k fuel Hk. rewrite Hw, first_ready_spec. split; [intros (_ & H & H'); split; [done|]; intros; apply H'; lia|].
    intros (H & H'). split_and!; [lia..|done|]. intros; apply H'; lia.
  - split.
    + intros H fuel. rewrite Hw. destruct (first_ready Insights fuel 0) eqn:E; [|done].
      apply first_ready_spec in E as (_ & E & _). congruence.
    + intros H k. destruct (all_ready Insights k) eqn:E; [|done]. exfalso.
      assert (exists j, (j <= k)%nat /\ first_ready Insights (S k) 0 = Some j) as (j & _ & Hj).
      { clear -E. assert (forall f a, (a <= k < a + f)%nat -> exists j, (j <= k)%nat /\ first_ready Insights f a = Some j) as H.
        - intros f. induction f as [|f IH]; intros a Ha; [lia|]. simpl.
          destruct (all_ready Insights a) eqn:Ea; [exists a; split; [lia|done]|].
          apply IH. assert (a <> k) by congruence. lia.
        - apply H. lia. }
      by rewrite <- Hw, H in Hj.
Qed.

End Wait.
