(* ===== verification/Config.v ===== *)
(** * Configuration (configs/config.go, raw_config.go)

    [ParamMap] keeps what was parsed as values of any type: [value], with the type
    that [cached.(T)] asserts.  A method returns [Panic] where that assertion fails.
    The syntax of JSON and floating point numbers are parameters ([ConfigText]),
    and so are reading a file and fsnotify. *)

From S2P Require Import Prelude GoStd Decimal QDecimal Domains Symbol Translate Json.
Local Open Scope Z_scope.

(** [strconv.ParseBool] *)
Definition ParseBool (s : string) : option bool :=
  if bool_decide (s ∈ ["1"; "t"; "T"; "TRUE"; "true"; "True"]%string) then Some true
  else if bool_decide (s ∈ ["0"; "f"; "F"; "FALSE"; "false"; "False"]%string) then Some false
  else None.

Class ConfigText {D : Decimal} := {
  parse_json : string -> raw;
  float32 : Type;
  float32_zero : float32;
  (** [strconv.ParseFloat(s, 64)], converted *)
  ParseFloat : string -> option float32;
  dec_float32 : decoder float32;
  NewFromFloat32 : float32 -> dec
}.

Section Config.
  Context {D : Decimal} {CT : ConfigText} (r : registry).

(** ** Values *)

Inductive ty := TBool | TInt | TInt64 | TFloat32 | TListStr | TListInt | TListInt64 | TListFloat | TSymbol.

#[export] Instance ty_eq_dec : EqDecision ty.
Proof. solve_decision. Defined.

(** [*domains.Symbol] is nil or a pointer. *)
Inductive value :=
  | VBool (b : bool) | VInt (n : Z) | VInt64 (n : Z) | VFloat32 (f : float32)
  | VListStr (l : list string) | VListInt (l : list Z) | VListInt64 (l : list Z)
  | VListFloat (l : list float32) | VSymbol (s : option nat).

Definition dynamic_type (v : value) : ty :=
  match v with
  | VBool _ => TBool | VInt _ => TInt | VInt64 _ => TInt64 | VFloat32 _ => TFloat32
  | VListStr _ => TListStr | VListInt _ => TListInt | VListInt64 _ => TListInt64
  | VListFloat _ => TListFloat | VSymbol _ => TSymbol
  end.

Definition zero_value (t : ty) : value :=
  match t with
  | TBool => VBool false | TInt => VInt 0 | TInt64 => VInt64 0 | TFloat32 => VFloat32 float32_zero
  | TListStr => VListStr [] | TListInt => VListInt [] | TListInt64 => VListInt64 []
  | TListFloat => VListFloat [] | TSymbol => VSymbol None
  end.

Definition type_name (t : ty) : string :=
  match t with
  | TBool => "bool" | TInt => "int" | TInt64 => "int64" | TFloat32 => "float32"
  | TListStr => "[]string" | TListInt => "[]int" | TListInt64 => "[]int64"
  | TListFloat => "[]float32" | TSymbol => "Symbol"
  end%string.

(** ** ParamMap *)

Record failedParam := MkFailedParam { rawValue : string; typeName : string }.

(** [m] is the map of the current configuration. *)
Record ParamMap := MkParamMap {
  m : gmap string string;
  cache : gmap string value;
  failedKeys : gmap string failedParam
}.

#[export] Instance eta_ParamMap : Eta ParamMap := fun p => MkParamMap (m p) (cache p) (failedKeys p).

Definition setParams (params : gmap string string) (p : ParamMap) : ParamMap :=
  p <| m := params |> <| failedKeys := ∅ |>.

Definition cacheHit (key : string) (val : value) (p : ParamMap) : result value * ParamMap :=
  (Ok val, p <| cache ::= <[key := val]> |> <| failedKeys ::= delete key |>).

Definition cacheFallback (t : ty) (key raw : string) (p : ParamMap) : result value * ParamMap :=
  let p := p <| failedKeys ::= <[key := MkFailedParam raw (type_name t)]> |> in
  (match cache p !! key with
   | None => Ok (zero_value t)
   | Some cached => if decide (dynamic_type cached = t) then Ok cached else Panic
   end, p).

(** What a missing key reads as. *)
Definition raw_param (key : string) (p : ParamMap) : string := default ""%string (m p !! key).

Definition Get (key : string) (p : ParamMap) : string :=
  match m p !! key with None => ""%string | Some v => v end.

Definition GetBool (key : string) (p : ParamMap) : result value * ParamMap :=
  match m p !! key with
  | None => cacheFallback TBool key "" p
  | Some v =>
      match ParseBool v with
      | None => cacheFallback TBool key v p
      | Some boolValue => cacheHit key (VBool boolValue) p
      end
  end.

(** [int] has 64 bits. *)
Definition GetInt (key : string) (p : ParamMap) : result value * ParamMap :=
  let raw := raw_param key p in
  match ParseInt raw with
  | None => cacheFallback TInt key raw p
  | Some n => cacheHit key (VInt n) p
  end.

Definition GetInt64 (key : string) (p : ParamMap) : result value * ParamMap :=
  let raw := raw_param key p in
  match ParseInt raw with
  | None => cacheFallback TInt64 key raw p
  | Some n => cacheHit key (VInt64 n) p
  end.

Definition GetFloat32 (key : string) (p : ParamMap) : result value * ParamMap :=
  let raw := raw_param key p in
  match ParseFloat raw with
  | None => cacheFallback TFloat32 key raw p
  | Some n => cacheHit key (VFloat32 n) p
  end.

Definition GetListStr (key : string) (p : ParamMap) : result value * ParamMap :=
  let raw := raw_param key p in
  match Unmarshal (dec_slice ""%string dec_string) [] (parse_json raw) with
  | None => cacheFallback TListStr key raw p
  | Some l => cacheHit key (VListStr l) p
  end.

Definition GetListInt (key : string) (p : ParamMap) : result value * ParamMap :=
  let raw := raw_param key p in
  match Unmarshal (dec_slice 0 dec_int64) [] (parse_json raw) with
  | None => cacheFallback TListInt key raw p
  | Some l => cacheHit key (VListInt l) p
  end.

Definition GetListInt64 (key : string) (p : ParamMap) : result value * ParamMap :=
  let raw := raw_param key p in
  match Unmarshal (dec_slice 0 dec_int64) [] (parse_json raw) with
  | None => cacheFallback TListInt64 key raw p
  | Some l => cacheHit key (VListInt64 l) p
  end.

Definition GetListFloat (key : string) (p : ParamMap) : result value * ParamMap :=
  let raw := raw_param key p in
  match Unmarshal (dec_slice float32_zero dec_float32) [] (parse_json raw) with
  | None => cacheFallback TListFloat key raw p
  | Some l => cacheHit key (VListFloat l) p
  end.

Definition GetSymbol (key : string) (p : ParamMap) : result value * ParamMap :=
  let raw := raw_param key p in
  let symbol := Symbol.GetSymbol r raw in
  if decide (symbol = SymbolUnknown) then cacheFallback TSymbol key raw p
  else cacheHit key (VSymbol (Some symbol)) p.

(** ** Derived getters *)

(** The number that [GetInt] or [GetInt64] has returned. *)
Definition number (v : value) : Z := match v with VInt n | VInt64 n => n | _ => 0 end.
Definition float_of (v : value) : float32 := match v with VFloat32 f => f | _ => float32_zero end.
Definition floats_of (v : value) : list float32 := match v with VListFloat l => l | _ => [] end.

Definition map_result' {A C} (f : A -> C) (x : result A * ParamMap) : result C * ParamMap :=
  (v ← fst x; Ok (f v), snd x).

Definition Hour : duration := 3600 * Second.

Definition GetListDecimal (key : string) (p : ParamMap) : result (list dec) * ParamMap :=
  map_result' (fun v => map NewFromFloat32 (floats_of v)) (GetListFloat key p).
Definition GetFromInt (key : string) (p : ParamMap) : result dec * ParamMap :=
  map_result' (fun v => NewFromInt (number v)) (GetInt64 key p).
Definition GetFromFloat (key : string) (p : ParamMap) : result dec * ParamMap :=
  map_result' (fun v => NewFromFloat32 (float_of v)) (GetFloat32 key p).
Definition GetMilliSec (key : string) (p : ParamMap) : result duration * ParamMap :=
  map_result' (fun v => wrap64 (number v * Millisecond)) (GetInt key p).
Definition GetHour (key : string) (p : ParamMap) : result duration * ParamMap :=
  map_result' (fun v => wrap64 (number v * Hour)) (GetInt key p).
Definition GetSec (key : string) (p : ParamMap) : result duration * ParamMap :=
  map_result' (fun v => wrap64 (number v * Second)) (GetInt key p).

(** ** Config *)

Record RawConfig := MkRawConfig { strategyName : string; Params : gmap string string }.

(** [true]: no error. *)
Definition validate (c : RawConfig) : bool := negb (String.eqb (strategyName c) "").

(** [yaml]: the file as it is read and parsed, [None] for an error of either. *)
Definition readRawConfig (yaml : option RawConfig) : option RawConfig :=
  config ← yaml; if validate config then Some config else None.

Record Config := MkConfig { Name : string; params : ParamMap }.

Definition newConfig (raw : RawConfig) : Config :=
  MkConfig (strategyName raw) (MkParamMap (Params raw) ∅ ∅).

Definition updateParams (raw : RawConfig) (c : Config) : Config :=
  MkConfig (Name c) (setParams (Params raw) (params c)).

End Config.
