(* ===== verification/ConfigProps.v ===== *)
(** * Properties of the configuration

    What a sequence of reads and reloads returns, what the getters of one key have
    to agree on, and what the lock of [ParamMap] allows. *)

From S2P Require Import Prelude GoStd MutexMap Decimal QDecimal Domains Symbol Translate Json Config.
Local Open Scope Z_scope.

Section Props.
  Context {D : Decimal} {CT : ConfigText} (r : registry).

(** ** One getter for every type *)

(** The getter of a type, and what it parses. *)
Definition getter (t : ty) : string -> ParamMap -> result value * ParamMap :=
  match t with
  | TBool => GetBool | TInt => GetInt | TInt64 => GetInt64 | TFloat32 => GetFloat32
  | TListStr => GetListStr | TListInt => GetListInt | TListInt64 => GetListInt64
  | TListFloat => GetListFloat | TSymbol => GetSymbol r
  end.

Definition parse (t : ty) (raw : string) : option value :=
  match t with
  | TBool => VBool <$> ParseBool raw
  | TInt => VInt <$> ParseInt raw
  | TInt64 => VInt64 <$> ParseInt raw
  | TFloat32 => VFloat32 <$> ParseFloat raw
  | TListStr => VListStr <$> Unmarshal (dec_slice ""%string dec_string) [] (parse_json raw)
  | TListInt => VListInt <$> Unmarshal (dec_slice 0 dec_int64) [] (parse_json raw)
  | TListInt64 => VListInt64 <$> Unmarshal (dec_slice 0 dec_int64) [] (parse_json raw)
  | TListFloat => VListFloat <$> Unmarshal (dec_slice float32_zero dec_float32) [] (parse_json raw)
  | TSymbol => let symbol := Symbol.GetSymbol r raw in
      if decide (symbol = SymbolUnknown) then None else Some (VSymbol (Some symbol))
  end.

Lemma parse_type t raw v : parse t raw = Some v -> dynamic_type v = t.
Proof.
  destruct t; simpl; try (intros (x & _ & ->)%fmap_Some; done).
  case_decide; [done|]. by intros [= <-].
Qed.

Lemma getter_spec t key p :
  getter t key p =
    match parse t (raw_param key p) with
    | Some v => cacheHit key v p
    | None => cacheFallback t key (raw_param key p) p
    end.
Proof.
  destruct t; simpl; unfold GetInt, GetInt64, GetFloat32, GetListStr, GetListInt, GetListInt64, GetListFloat, GetSymbol.
  all: try (match goal with |- match ?x with _ => _ end = _ => by destruct x end).
  - unfold GetBool, raw_param. destruct (m p !! key) as [v|]; simpl; [by destruct (ParseBool v)|done].
Qed.

(** ** Reads and reloads *)

Inductive op := Read (t : ty) (key : string) | Reload (params : gmap string string).

(** The values that the reads return, and the map after them; [None] if one of them panics. *)
Fixpoint run_ops (ops : list op) (p : ParamMap) : option (list value * ParamMap) :=
  match ops with
  | [] => Some ([], p)
  | Read t key :: ops =>
      match getter t key p with
      | (Ok v, p) => '(vs, p) ← run_ops ops p; Some (v :: vs, p)
      | _ => None
      end
  | Reload params :: ops => run_ops ops (setParams params p)
  end.

(** The same from what the reads have parsed so far. *)
Fixpoint expected (ops : list op) (params : gmap string string) (last : string -> option value) : list value :=
  match ops with
  | [] => []
  | Read t key :: ops =>
      match parse t (default ""%string (params !! key)) with
      | Some v => v :: expected ops params (fun k => if decide (k = key) then Some v else last k)
      | None => default (zero_value t) (last key) :: expected ops params last
      end
  | Reload params :: ops => expected ops params last
  end.

(** The keys that are reported: those whose last read since the last reload failed. *)
Fixpoint failing (ops : list op) (params : gmap string string) (failed : gmap string failedParam) : gmap string failedParam :=
  match ops with
  | [] => failed
  | Read t key :: ops =>
      let raw := default ""%string (params !! key) in
      failing ops params (match parse t raw with
                          | Some _ => delete key failed
                          | None => <[key := MkFailedParam raw (type_name t)]> failed
                          end)
  | Reload params :: ops => failing ops params ∅
  end.

(** Every key is read with one type. *)
Definition read_at (type_of : string -> ty) (o : op) : Prop :=
  match o with Read t key => t = type_of key | Reload _ => True end.

Definition cache_typed (type_of : string -> ty) (p : ParamMap) : Prop :=
  forall key v, cache p !! key = Some v -> dynamic_type v = type_of key.

Lemma expected_ext ops params last last' :
  (forall k, last k = last' k) -> expected ops params last = expected ops params last'.
Proof.
  revert params last last'. induction ops as [|[t key|params'] ops IH]; intros params last last' H; simpl; [done| |by apply IH].
  destruct (parse t _); f_equal; [|by rewrite H|by apply IH]. apply IH. intros k. by destruct (decide (k = key)).
Qed.

Lemma run_ops_expected type_of ops p :
  Forall (read_at type_of) ops -> cache_typed type_of p ->
  exists p', run_ops ops p = Some (expected ops (m p) (fun k => cache p !! k), p') /\
    failedKeys p' = failing ops (m p) (failedKeys p).
Proof.
  revert p. induction ops as [|[t key|params'] ops IH]; intros p Ho Hp; [by exists p| |].
  - apply Forall_cons in Ho as [-> Ho]. simpl. rewrite getter_spec. unfold raw_param.
    destruct (parse (type_of key) _) as [v|] eqn:Hv; simpl.
    + destruct (IH (p <| cache ::= <[key := v]> |> <| failedKeys ::= delete key |>) Ho) as (p' & -> & Hf).
      { intros k v' Hk. simpl in Hk. rewrite lookup_insert in Hk.
        destruct (decide (key = k)) as [<-|]; [|by apply Hp]. injection Hk as <-. by eapply parse_type. }
      exists p'. split; [|done]. simpl. do 3 f_equal. apply expected_ext. intros k. rewrite lookup_insert.
      destruct (decide (key = k)), (decide (k = key)); congruence.
    + set (q := p <| failedKeys ::= _ |>). destruct (IH q Ho Hp) as (p' & Hr & Hf).
      exists p'. destruct (cache p !! key) as [v|] eqn:Hc; simpl.
      * rewrite decide_True by by apply Hp. by rewrite Hr.
      * by rewrite Hr.
  - apply Forall_cons in Ho as [_ Ho]. simpl. by apply (IH (setParams params' p)).
Qed.

(** C36: if every key is read with one type, no getter panics, whatever the files hold: a getter
    returns the value of its parameter if it can be parsed, else the value that was
    parsed at the last read of the key where it could, before or after any number of
    reloads, and zero if there was none; the keys that are reported are those whose
    last read since the last reload failed. *)
Theorem getters_fall_back type_of raw ops :
  Forall (read_at type_of) ops ->
  exists p, run_ops ops (params (newConfig raw)) = Some (expected ops (Params raw) (fun _ => None), p) /\
    failedKeys p = failing ops (Params raw) ∅.
Proof.
  intros Ho. destruct (run_ops_expected type_of ops (params (newConfig raw)) Ho) as (p & Hr & Hf).
  { intros k v. simpl. by rewrite lookup_empty. }
  exists p. split; [|done]. by rewrite Hr.
Qed.

(** Two getters of different types for one key do not fall back on each other's value:
    the second panics when its parameter cannot be parsed. *)
Theorem getter_types_clash t t' key v p :
  parse t (raw_param key p) = Some v -> t <> t' ->
  forall params', parse t' (default ""%string (params' !! key)) = None ->
  run_ops [Read t key; Reload params'; Read t' key] p = None.
Proof.
  intros Hv Ht params' Hp. cbn [run_ops]. rewrite getter_spec, Hv. simpl.
  rewrite getter_spec. unfold raw_param. simpl. rewrite Hp. unfold cacheFallback. simpl.
  rewrite lookup_insert_eq, decide_False; [done|]. apply parse_type in Hv. congruence.
Qed.

(** ** Durations *)

(** Durations of milliseconds, seconds and hours are the number of the parameter in the
    unit while it is in range, and wrap around beyond: 2562047 hours are the most. *)
Theorem durations_in_range key p n :
  ParseInt (raw_param key p) = Some n ->
  fst (GetMilliSec key p) = Ok (wrap64 (n * Millisecond)) /\
  fst (GetSec key p) = Ok (wrap64 (n * Second)) /\
  fst (GetHour key p) = Ok (wrap64 (n * Hour)) /\
  (wrap64 (n * Millisecond) = n * Millisecond <-> -9223372036854 <= n <= 9223372036854) /\
  (wrap64 (n * Second) = n * Second <-> -9223372036 <= n <= 9223372036) /\
  (wrap64 (n * Hour) = n * Hour <-> -2562047 <= n <= 2562047).
Proof.
  intros Hn. unfold GetMilliSec, GetSec, GetHour, map_result', GetInt. rewrite Hn. simpl.
  split_and!; [done..| | |].
  all: split; [intros H; pose proof (wrap64_in (n * Millisecond)); pose proof (wrap64_in (n * Second)); pose proof (wrap64_in (n * Hour))
              |intros H; apply wrap64_id];
    unfold in_int64, int64_min, int64_max, Millisecond, Second, Hour, Second in *; lia.
Qed.

End Props.

(** ** A configuration with one file and two reloads *)

(** Texts without lists, and no number with a fraction. *)
Definition plain_text : @ConfigText QDecimal := {|
  parse_json := fun _ => Malformed;
  float32 := Z;
  float32_zero := 0;
  ParseFloat := ParseInt;
  dec_float32 := dec_int64;
  NewFromFloat32 := inject_Z
|}.

Definition example_type (key : string) : ty := if String.eqb key "size" then TInt else TBool.

Definition example_raw : RawConfig := MkRawConfig "maker" {["size" := "5"; "on" := "maybe"]}%string.

Definition example_ops : list op :=
  [Read TInt "size"; Read TBool "on"; Reload {["size" := "five"; "on" := "true"]}; Read TInt "size"; Read TBool "on";
   Reload {["size" := "6"]}; Read TInt "size"; Read TBool "on"]%string.

Lemma getters_fall_back_witness :
  exists p, run_ops (CT := plain_text) master_symbols example_ops (params (newConfig example_raw)) =
      Some ([VInt 5; VBool false; VInt 5; VBool true; VInt 6; VBool true], p) /\
    failedKeys p = {["on" := MkFailedParam "" "bool"]}%string.
Proof.
  destruct (getters_fall_back (CT := plain_text) master_symbols example_type example_raw example_ops) as (p & Hr & Hf).
  - repeat (apply Forall_cons; split; [done|]). by apply Forall_nil.
  - exists p. split; [exact Hr|exact Hf].
Defined.

Lemma getter_types_clash_witness :
  run_ops (CT := plain_text) master_symbols [Read TInt "size"; Reload ∅; Read TBool "size"]%string
    (params (newConfig example_raw)) = None.
Proof. apply (getter_types_clash (CT := plain_text) master_symbols TInt TBool "size" (VInt 5)); done. Defined.

Lemma durations_in_range_witness :
  fst (GetMilliSec (CT := plain_text) "size"%string (params (newConfig example_raw))) = Ok (5 * Millisecond).
Proof.
  destruct (durations_in_range (CT := plain_text) "size"%string (params (newConfig example_raw)) 5) as (-> & _); [done|].
  reflexivity.
Defined.

(** ** The report of the parameters that cannot be parsed (configs/config.go)

    The table that the watcher logs every minute.  Texts are taken to be ASCII;
    [quoted] is what the verb [%q] prints. *)

Module FailedKeys.

Local Open Scope nat_scope.

Section FailedKeys.
  Context {D : Decimal} {CT : ConfigText} {RT : GoRuntime} (quoted : string -> string).

Fixpoint spaces (n : nat) : string :=
  match n with O => "" | S n => " " +:+ spaces n end%string.

(** The verb [%-*s]. *)
Definition pad_right (width : nat) (s : string) : string := (s +:+ spaces (width - String.length s))%string.

(** The widths of the two columns; [n] is the number of the loop over the map. *)
Definition column_widths (n : nat) (failedKeys : gmap string failedParam) : nat * nat :=
  foldl (fun '(maxKeyLen, maxRawLen) '(k, fp) =>
    let l := String.length k + 1 in
    let maxKeyLen := if maxKeyLen <? l then l else maxKeyLen in
    let l := String.length (quoted (rawValue fp)) in
    (maxKeyLen, if maxRawLen <? l then l else maxRawLen))
    (0, 0) (MutexMap.entries n failedKeys).

Definition failed_line (widths : nat * nat) (x : string * failedParam) : string :=
  let '(k, fp) := x in
  (pad_right (fst widths) (k +:+ ":") +:+ "  " +:+ pad_right (snd widths) (quoted (rawValue fp)) +:+ "  " +:+ typeName fp)%string.

(** The lines of the message. *)
Definition formatFailedKeys (n : nat) (failedKeys : gmap string failedParam) : list string :=
  ["The following config params failed to parse, using cached values";
   "===== key / raw value / expected type ====="]%string ++
  map (failed_line (column_widths n failedKeys)) (MutexMap.entries (S n) failedKeys).

(** What is logged: nothing if nothing fails. *)
Definition logFailedKeys (n : nat) (p : ParamMap) : option (list string) :=
  if size (failedKeys p) =? 0 then None else Some (formatFailedKeys n (failedKeys p)).

(** ** Facts *)

Lemma length_spaces n : String.length (spaces n) = n.
Proof. induction n as [|n IH]; [done|]. cbn [spaces]. by rewrite length_append, IH. Qed.

Lemma length_pad_right w s : String.length s <= w -> String.length (pad_right w s) = w.
Proof. intros H. unfold pad_right. rewrite length_append, length_spaces. lia. Qed.

Lemma column_widths_enough n keys k fp :
  keys !! k = Some fp ->
  String.length k + 1 <= fst (column_widths n keys) /\ String.length (quoted (rawValue fp)) <= snd (column_widths n keys).
Proof.
  intros Hk. apply (elem_of_entries n) in Hk. unfold column_widths. revert Hk. generalize (MutexMap.entries n keys).
  induction l as [|[k' fp'] l IH] using rev_ind; [by intros ?%not_elem_of_nil|].
  rewrite foldl_app. simpl. destruct (foldl _ (0, 0) l) as [a b]. simpl in *.
  assert (forall m x : nat, m <= (if m <? x then x else m) /\ x <= (if m <? x then x else m)) as Hmax
    by (intros m x; destruct (Nat.ltb_spec m x); lia).
  destruct (Hmax a (String.length k' + 1)), (Hmax b (String.length (quoted (rawValue fp')))).
  intros [Hin|[= -> ->]%list_elem_of_singleton]%elem_of_app; [|done]. destruct (IH Hin). lia.
Qed.

(** Every failing parameter, and nothing else, has a line, once; the raw values and the types of all
    lines begin at the same columns, and no text is cut off. *)
Theorem failed_keys_reported n keys :
  exists wk wr, Permutation (drop 2 (formatFailedKeys n keys)) (map (failed_line (wk, wr)) (map_to_list keys)) /\
  forall k fp, keys !! k = Some fp ->
    exists left mid, failed_line (wk, wr) (k, fp) = (left +:+ mid +:+ typeName fp)%string /\
      String.length left = wk + 2 /\ String.length mid = wr + 2 /\
      (exists s, left = (k +:+ ":" +:+ s)%string) /\ (exists s, mid = (quoted (rawValue fp) +:+ s)%string).
Proof.
  destruct (column_widths n keys) as [wk wr] eqn:Hw. exists wk, wr. split.
  - unfold formatFailedKeys. rewrite Hw. simpl. rewrite drop_0. apply Permutation_map, entries_perm.
  - intros k fp Hk. destruct (column_widths_enough n keys k fp Hk) as [H1 H2]. rewrite Hw in H1, H2. simpl in *.
    exists (pad_right wk (k +:+ ":") +:+ "  ")%string, (pad_right wr (quoted (rawValue fp)) +:+ "  ")%string.
    assert (String.length (k +:+ ":") <= wk) by (rewrite length_append; simpl; lia).
    split_and!.
    + by rewrite <- !append_assoc.
    + rewrite length_append, length_pad_right by done. simpl. lia.
    + rewrite length_append, length_pad_right by done. simpl. lia.
    + eexists. unfold pad_right. by rewrite <- !append_assoc.
    + eexists. unfold pad_right. by rewrite <- !append_assoc.
Qed.

End FailedKeys.

End FailedKeys.
