(* ===== verification/Watcher.v ===== *)
(** * Secrets, the watcher of the files, and the lock of the parameters
    (configs/secret.go, raw_secret.go, watcher.go, config.go)

    What fsnotify, the file system and the YAML parser answer is part of an event:
    whether a path was added again, and the file as it is read and parsed. *)

From S2P Require Import Prelude GoStd Decimal QDecimal Domains Symbol Translate Json Config ConfigProps.
Local Open Scope Z_scope.

(** ** Secrets *)

Record Credential := MkCredential { apiKey : string; secret : string }.
Record AuthConfig := MkAuthConfig { url : string; token : string }.
Record DiscordConfig := MkDiscordConfig { infoUrl : string; warnUrl : string; emergencyUrl : string }.
Record Secret := MkSecret { CoinEx : Credential; InfluxDB : AuthConfig; Discord : DiscordConfig }.

#[export] Instance eta_Credential : Eta Credential := fun c => MkCredential (apiKey c) (secret c).
#[export] Instance eta_AuthConfig : Eta AuthConfig := fun c => MkAuthConfig (url c) (token c).
#[export] Instance eta_DiscordConfig : Eta DiscordConfig := fun c => MkDiscordConfig (infoUrl c) (warnUrl c) (emergencyUrl c).
#[export] Instance eta_Secret : Eta Secret := fun s => MkSecret (CoinEx s) (InfluxDB s) (Discord s).

Definition setApiKey (apiKey' : string) (c : Credential) : Credential := c <| apiKey := apiKey' |>.
Definition setSecret (secret' : string) (c : Credential) : Credential := c <| secret := secret' |>.
Definition setUrl (url' : string) (a : AuthConfig) : AuthConfig := a <| url := url' |>.
Definition setToken (token' : string) (a : AuthConfig) : AuthConfig := a <| token := token' |>.
Definition setInfoUrl (url' : string) (d : DiscordConfig) : DiscordConfig := d <| infoUrl := url' |>.
Definition setWarnUrl (url' : string) (d : DiscordConfig) : DiscordConfig := d <| warnUrl := url' |>.
Definition setEmergencyUrl (url' : string) (d : DiscordConfig) : DiscordConfig := d <| emergencyUrl := url' |>.

(** The file, with the names of its keys left out. *)
Record RawSecret := MkRawSecret {
  raw_APIKey : string; raw_Secret : string;
  raw_Url : string; raw_Token : string;
  raw_InfoUrl : string; raw_WarnUrl : string; raw_EmergencyUrl : string
}.

Definition newSecret (raw : RawSecret) : Secret := {|
  CoinEx := MkCredential (raw_APIKey raw) (raw_Secret raw);
  InfluxDB := MkAuthConfig (raw_Url raw) (raw_Token raw);
  Discord := MkDiscordConfig (raw_InfoUrl raw) (raw_WarnUrl raw) (raw_EmergencyUrl raw)
|}.

Definition differ (a b : string) : bool := negb (String.eqb a b).

(** The writes of [Secret.update], one after the other: a reader in another goroutine can
    see the secret between any two of them. *)
Definition update_writes (raw : RawSecret) (s : Secret) : list (Secret -> Secret) :=
  (if differ (apiKey (CoinEx s)) (raw_APIKey raw) || differ (secret (CoinEx s)) (raw_Secret raw)
   then [fun s => s <| CoinEx ::= setApiKey (raw_APIKey raw) |>; fun s => s <| CoinEx ::= setSecret (raw_Secret raw) |>]
   else []) ++
  (if differ (url (InfluxDB s)) (raw_Url raw) || differ (token (InfluxDB s)) (raw_Token raw)
   then [fun s => s <| InfluxDB ::= setUrl (raw_Url raw) |>; fun s => s <| InfluxDB ::= setToken (raw_Token raw) |>]
   else []) ++
  (if differ (infoUrl (Discord s)) (raw_InfoUrl raw) || differ (warnUrl (Discord s)) (raw_WarnUrl raw)
      || differ (emergencyUrl (Discord s)) (raw_EmergencyUrl raw)
   then [fun s => s <| Discord ::= setInfoUrl (raw_InfoUrl raw) |>;
         fun s => s <| Discord ::= setWarnUrl (raw_WarnUrl raw) |>;
         fun s => s <| Discord ::= setEmergencyUrl (raw_EmergencyUrl raw) |>]
   else []).

Definition update (raw : RawSecret) (s : Secret) : Secret :=
  foldl (fun s write => write s) s (update_writes raw s).

(** The secrets that can be seen while [update] runs. *)
Definition seen_during (raw : RawSecret) (s : Secret) : list Secret :=
  map (fun n => foldl (fun s write => write s) s (firstn n (update_writes raw s)))
    (seq 0 (S (length (update_writes raw s)))).

(** ** The watcher *)

Record Event := MkEvent { event_Name : string; has_Write : bool; has_Rename : bool }.

Section Watcher.
  Context {D : Decimal} {CT : ConfigText}.

Record Watcher := MkWatcher {
  configFilePath : string;
  secretFilePath : string;
  config : Config;
  secrets : Secret;
  (** the cause with which the application was cancelled *)
  cancelled : option string
}.

#[export] Instance eta_Watcher : Eta Watcher := fun w =>
  MkWatcher (configFilePath w) (secretFilePath w) (config w) (secrets w) (cancelled w).

(** An error, or the watcher: [created], [config_added] and [secret_added] are what
    fsnotify answers. *)
Definition NewWatcher (configFilePath secretFilePath : string) (created config_added secret_added : bool)
    (yaml : option RawConfig) (yaml_secret : option RawSecret) : string + Watcher :=
  if negb created then inl "failed to create fsnotify watcher"%string
  else if negb config_added then inl "failed to watch config file"%string
  else if negb secret_added then inl "failed to watch secret file"%string
  else
    match readRawConfig yaml with
    | None => inl "failed to read config file"%string
    | Some rawConf =>
        match yaml_secret with
        | None => inl "failed to read secret file"%string
        | Some rawSecret => inr (MkWatcher configFilePath secretFilePath (newConfig rawConf) (newSecret rawSecret) None)
        end
    end.

(** The first cause is kept. *)
Definition cancelCause (cause : string) (cancelled : option string) : option string :=
  Some (default cause cancelled).

(** [None]: an error. *)
Definition updateConfig (yaml : option RawConfig) (w : Watcher) : option Watcher :=
  rawConf ← readRawConfig yaml; Some (w <| config ::= updateParams rawConf |>).

Definition updateSecretFromFile (yaml : option RawSecret) (w : Watcher) : option Watcher :=
  rawSecret ← yaml; Some (w <| secrets ::= update rawSecret |>).

(** [added]: the path could be added again. *)
Definition handleConfigEvent (event : Event) (added : bool) (yaml : option RawConfig) (w : Watcher) : Watcher :=
  if has_Rename event && negb added
  then w <| cancelled ::= cancelCause "failed to re-watch config file" |>
  else if has_Write event || has_Rename event then default w (updateConfig yaml w)
  else w.

Definition handleSecretEvent (event : Event) (added : bool) (yaml : option RawSecret) (w : Watcher) : Watcher :=
  if has_Rename event && negb added
  then w <| cancelled ::= cancelCause "failed to re-watch secret file" |>
  else if has_Write event || has_Rename event then default w (updateSecretFromFile yaml w)
  else w.

(** The files as they are when the event is handled. *)
Record input := MkInput {
  event : Event;
  added : bool;
  config_yaml : option RawConfig;
  secret_yaml : option RawSecret
}.

Definition handleEvent (i : input) (w : Watcher) : Watcher :=
  if String.eqb (event_Name (event i)) (configFilePath w) then handleConfigEvent (event i) (added i) (config_yaml i) w
  else if String.eqb (event_Name (event i)) (secretFilePath w) then handleSecretEvent (event i) (added i) (secret_yaml i) w
  else w.

(** The loop up to the cancellation of its context; a tick only writes to the log. *)
Definition Start (inputs : list input) (w : Watcher) : Watcher := foldl (fun w i => handleEvent i w) w inputs.

(** ** Facts *)

Lemma differ_false a b : differ a b = false <-> a = b.
Proof. unfold differ. rewrite negb_false_iff. apply String.eqb_eq. Qed.

(** [update] is assignment: what it leaves out is equal already. *)
Lemma update_newSecret raw s : update raw s = newSecret raw.
Proof.
  destruct s as [[k c] [u t] [i w e]]. unfold update, update_writes. simpl.
  destruct (differ k _ || differ c _) eqn:E1, (differ u _ || differ t _) eqn:E2, (differ i _ || differ w _ || differ e _) eqn:E3; simpl.
  all: repeat match goal with
    | H : (_ || _) = false |- _ => apply orb_false_iff in H as [? ?]
    | H : differ _ _ = false |- _ => apply differ_false in H
    end; by subst.
Qed.

(** An update replaces the secret by what the file says; while it runs, a goroutine that signs
    a request can read the new key of CoinEx with the old secret. *)
Theorem secret_update_spec raw s :
  update raw s = newSecret raw /\ last (seen_during raw s) = Some (newSecret raw) /\
  (apiKey (CoinEx s) <> raw_APIKey raw -> secret (CoinEx s) <> raw_Secret raw ->
   exists s', s' ∈ seen_during raw s /\ CoinEx s' = MkCredential (raw_APIKey raw) (secret (CoinEx s)) /\
     CoinEx s' <> CoinEx s /\ CoinEx s' <> CoinEx (newSecret raw)).
Proof.
  split; [apply update_newSecret|]. split.
  { unfold seen_during. rewrite seq_S, map_app. cbn [map]. rewrite last_snoc, <- (update_newSecret raw s).
    unfold update. by rewrite Nat.add_0_l, firstn_all. }
  intros Hk Hc. exists (s <| CoinEx ::= setApiKey (raw_APIKey raw) |>). simpl. split_and!.
  - unfold seen_during. apply list_elem_of_In, in_map_iff. exists 1%nat.
    assert (exists l, update_writes raw s = (fun s => s <| CoinEx ::= setApiKey (raw_APIKey raw) |>) :: l) as [l Hl].
    { unfold update_writes. destruct (differ (apiKey (CoinEx s)) (raw_APIKey raw)) eqn:E; [by eexists|].
      by apply differ_false in E. }
    rewrite Hl. split; [done|]. apply in_seq. simpl. lia.
  - done.
  - intros [= E]%(f_equal apiKey). by apply Hk.
  - intros [= E]%(f_equal secret). by apply Hc.
Qed.

(** The events that a watcher acts on, and what it reads then. *)
Definition config_read (path : string) (i : input) : option RawConfig :=
  if String.eqb (event_Name (event i)) path && (has_Write (event i) || has_Rename (event i))
     && (added i || negb (has_Rename (event i)))
  then readRawConfig (config_yaml i) else None.

Definition secret_read (config_path path : string) (i : input) : option RawSecret :=
  if negb (String.eqb (event_Name (event i)) config_path) && String.eqb (event_Name (event i)) path
     && (has_Write (event i) || has_Rename (event i)) && (added i || negb (has_Rename (event i)))
  then secret_yaml i else None.

(** The last event of a list for which something was read. *)
Definition last_read {A} (f : input -> option A) (inputs : list input) : option A := last (omap f inputs).

Lemma last_read_snoc {A} (f : input -> option A) l i :
  last_read f (l ++ [i]) = or_else (f i) (last_read f l).
Proof.
  unfold last_read. rewrite omap_app. simpl. destruct (f i) as [x|]; simpl; [by rewrite last_snoc|].
  by rewrite app_nil_r.
Qed.

(** A path that could not be watched again. *)
Definition lost (config_path secret_path : string) (i : input) : bool :=
  (String.eqb (event_Name (event i)) config_path || String.eqb (event_Name (event i)) secret_path)
  && has_Rename (event i) && negb (added i).

(** C37: the watcher follows its files: after any events the parameters are those of the configuration
    that was last read without an error and with a strategy name, the secrets are those of the file
    that was last read, the name of the strategy is still the first one, and the
    application was cancelled if and only if a renamed file could not be watched again;
    a file that cannot be read changes nothing. *)
Theorem watcher_follows_files cp sp rawConf rawSecret inputs w :
  NewWatcher cp sp true true true (Some rawConf) (Some rawSecret) = inr w ->
  let w' := Start inputs w in
  Config.m (params (config w')) = Params (default rawConf (last_read (config_read cp) inputs)) /\
  Name (config w') = strategyName rawConf /\
  secrets w' = newSecret (default rawSecret (last_read (secret_read cp sp) inputs)) /\
  (is_Some (cancelled w') <-> existsb (lost cp sp) inputs = true).
Proof.
  unfold NewWatcher. simpl. destruct (validate rawConf); simpl; [|done]. intros [= <-].
  set (w := MkWatcher _ _ _ _ _). cbv zeta.
  assert (configFilePath (Start inputs w) = cp /\ secretFilePath (Start inputs w) = sp /\
    Config.m (params (config (Start inputs w))) = Params (default rawConf (last_read (config_read cp) inputs)) /\
    Name (config (Start inputs w)) = strategyName rawConf /\
    secrets (Start inputs w) = newSecret (default rawSecret (last_read (secret_read cp sp) inputs)) /\
    (is_Some (cancelled (Start inputs w)) <-> existsb (lost cp sp) inputs = true)) as (_ & _ & H); [|exact H].
  induction inputs as [|i l IH] using rev_ind.
  { split_and!; try done. simpl. split; [by intros []|done]. }
  unfold Start. rewrite foldl_app. simpl. fold (Start l w). destruct IH as (Hc & Hs & Hm & Hn & Hsec & Hl).
  rewrite !last_read_snoc, existsb_app. unfold handleEvent. rewrite Hc, Hs. simpl.
  unfold config_read at 1, secret_read at 1, lost at 2. destruct (String.eqb (event_Name (event i)) cp) eqn:E1; simpl.
  - unfold handleConfigEvent. destruct (has_Write (event i)), (has_Rename (event i)), (added i); simpl.
    all: rewrite ?orb_false_r, ?orb_true_r; unfold updateConfig; try destruct (readRawConfig (config_yaml i)) as [c|]; simpl.
    all: split_and!; try done; try (by split; [|eexists]); auto.
  - destruct (String.eqb (event_Name (event i)) sp) eqn:E2; simpl; [|by rewrite orb_false_r].
    unfold handleSecretEvent. destruct (has_Write (event i)), (has_Rename (event i)), (added i); simpl.
    all: rewrite ?orb_false_r, ?orb_true_r; unfold updateSecretFromFile; try destruct (secret_yaml i) as [c|]; simpl.
    all: split_and!; try done; try (by split; [|eexists]); auto using update_newSecret.
Qed.

End Watcher.

(** ** The lock of ParamMap

    Threads at [RWMutex]: a getter holds it for reading while it writes the cache and
    the failed keys, [setParams] holds it for writing. *)

Inductive phase := Outside | Reading | WritingCache | Reloading.

Inductive lock_step (st : nat -> phase) : (nat -> phase) -> Prop :=
  | getter_RLock i :
      st i = Outside -> (forall j, st j <> Reloading) -> lock_step st (fun j => if decide (j = i) then Reading else st j)
  | getter_cache i :
      st i = Reading -> lock_step st (fun j => if decide (j = i) then WritingCache else st j)
  | getter_cached i :
      st i = WritingCache -> lock_step st (fun j => if decide (j = i) then Reading else st j)
  | getter_RUnlock i :
      st i = Reading -> lock_step st (fun j => if decide (j = i) then Outside else st j)
  | setParams_Lock i :
      (forall j, st j = Outside) -> lock_step st (fun j => if decide (j = i) then Reloading else st j)
  | setParams_Unlock i :
      st i = Reloading -> lock_step st (fun j => if decide (j = i) then Outside else st j).

Definition reachable_locks (st : nat -> phase) : Prop := rtc lock_step (fun _ => Outside) st.

Definition exclusive (st : nat -> phase) : Prop :=
  forall i j, st i = Reloading -> j <> i -> st j = Outside.

Lemma lock_step_exclusive st st' : exclusive st -> lock_step st st' -> exclusive st'.
Proof.
  intros He Hs i j. destruct Hs as [k Hk Hn|k Hk|k Hk|k Hk|k Hn|k Hk]; simpl.
  all: destruct (decide (i = k)) as [->|Hik]; intros Hi Hj; try done.
  all: try (specialize (He i k Hi); exfalso; rewrite He in Hk; by auto).
  - by destruct (Hn i).
  - by rewrite decide_False.
  - by rewrite Hn in Hi.
Qed.

(** The lock keeps reloads apart from everything else, but not the getters from each
    other: two of them can be writing the cache at the same time, which the Go
    runtime answers by ending the process. *)
Theorem getters_write_together :
  (forall st, reachable_locks st -> exclusive st) /\
  (forall i j, i <> j -> exists st, reachable_locks st /\ st i = WritingCache /\ st j = WritingCache).
Proof.
  split.
  - intros st H. unfold reachable_locks in H. assert (exclusive (fun _ => Outside)) as H0 by done.
    induction H as [|st1 st2 st3 H12 _ IH]; [done|]. apply IH. by eapply lock_step_exclusive.
  - intros i j Hij. eexists. split_and!.
    + eapply rtc_l; [apply (getter_RLock _ i); done|]. eapply rtc_l; [apply (getter_RLock _ j); simpl|].
      { by rewrite decide_False. }
      { intros k. by case_decide. }
      eapply rtc_l; [apply (getter_cache _ i); simpl|].
      { by rewrite decide_False, decide_True. }
      eapply rtc_l; [apply (getter_cache _ j); simpl|apply rtc_refl].
      by rewrite decide_False, decide_True.
    + simpl. by rewrite decide_False, decide_True.
    + simpl. by rewrite decide_True.
Qed.

(** ** A watcher with two files *)

Definition raw_secret (key secret : string) : RawSecret := MkRawSecret key secret "" "" "" "" "".

Definition example_inputs : list input :=
  [MkInput (MkEvent "config" true false) true (Some (MkRawConfig "other" {["a" := "2"]}%string)) None;
   MkInput (MkEvent "config" true false) true (Some (MkRawConfig "" {["a" := "3"]}%string)) None;
   MkInput (MkEvent "secret" false true) true None (Some (raw_secret "k2" "s2"));
   MkInput (MkEvent "secret" true false) true None None;
   MkInput (MkEvent "config" false true) false None None]%string.

Lemma watcher_follows_files_witness :
  exists w : Watcher (CT := plain_text),
    NewWatcher "config" "secret" true true true (Some (MkRawConfig "maker" {["a" := "1"]}))
      (Some (raw_secret "k1" "s1")) = inr w /\
    Config.m (params (config (Start example_inputs w))) = {["a" := "2"]} /\
    Name (config (Start example_inputs w)) = "maker" /\
    secrets (Start example_inputs w) = newSecret (raw_secret "k2" "s2") /\
    is_Some (cancelled (Start example_inputs w)).
Proof.
  eexists. split; [reflexivity|].
  match goal with |- context [Start example_inputs ?w] =>
    destruct (watcher_follows_files (CT := plain_text) "config" "secret" (MkRawConfig "maker" {["a" := "1"]})
      (raw_secret "k1" "s1") example_inputs w) as (Hm & Hn & Hs & Hc); [reflexivity|]
  end.
  split; [exact Hm|]. split; [exact Hn|]. split; [exact Hs|]. by apply Hc.
Defined.
