(* ===== verification/Exporter.v ===== *)
(** * Metrics (metrics/exporter.go, metrics/measurements, metrics/translators)

    The points of the InfluxDB client, and whether it could write them, are
    parameters.  The exporter is a step relation over what its goroutines do: a tick
    starts one that takes the queue of custom metrics and writes it, and one that does so
    with the latencies. *)

From S2P Require Import Prelude GoStd Decimal MutexMap LatencyMeasurer.
Local Open Scope Z_scope.

(** A pointer to a point is the point that the chain of calls has made. *)
Class InfluxPoints := {
  Point : Type;
  NewPointWithMeasurement : string -> Point;
  SetTimestamp : time -> Point -> Point;
  SetTag : string -> string -> Point -> Point;
  SetInt : string -> Z -> Point -> Point;
  SetFloat : string -> float64 -> Point -> Point
}.

Definition exportInterval : duration := 5 * Second.
Definition wsLatencyMeasurementName : string := "ws_latency".

Section Exporter.
  Context {RT : GoRuntime} {IP : InfluxPoints}.

(** ** Measurements *)

Record CustomMetric := MkCustomMetric {
  measurement : string;
  timestamp : time;
  tags : gmap string string;
  fields : gmap string float64
}.

Definition NewCustomMetric (timestamp : time) (measurement : string) (tags : gmap string string)
    (fields : gmap string float64) : CustomMetric := MkCustomMetric measurement timestamp tags fields.

Definition validate (m : CustomMetric) : bool := (0 <? size (fields m))%nat.

(** [None]: the nil point; [n] is the number of the loops over its maps. *)
Definition CustomToPoint (n : nat) (strategyName : string) (m : CustomMetric) : option Point :=
  if negb (validate m) then None
  else
    let point := SetTimestamp (timestamp m) (NewPointWithMeasurement (measurement m)) in
    let point := if String.eqb strategyName "" then point else SetTag "strategy" strategyName point in
    let point := foldl (fun point '(k, v) => SetTag k v point) point (MutexMap.entries n (tags m)) in
    Some (foldl (fun point '(k, v) => SetFloat k v point) point (MutexMap.entries (S n) (fields m))).

Record Latency := MkLatency {
  l_Time : time;
  Topic : string;
  AvgMilliSec : option Z;
  MaxMilliSec : option Z;
  MinMilliSec : option Z
}.

Definition setPointerValue (name : string) (ptrValue : option Z) (point : Point) : Point :=
  match ptrValue with Some v => SetInt name v point | None => point end.

Definition LatencyToPoint (strategyName : string) (l : Latency) : Point :=
  let point := SetTimestamp (l_Time l) (SetTag "topic" (Topic l) (NewPointWithMeasurement wsLatencyMeasurementName)) in
  let point := if String.eqb strategyName "" then point else SetTag "strategy" strategyName point in
  let point := setPointerValue "avg_ms" (AvgMilliSec l) point in
  let point := setPointerValue "max_ms" (MaxMilliSec l) point in
  setPointerValue "min_ms" (MinMilliSec l) point.

Definition ToPoints (strategyName : string) (ls : list Latency) : list Point := map (LatencyToPoint strategyName) ls.

(** ** The translator *)

Definition translateToLatency (t : time) (topicName : string) (aggLatency : AggLatency) : Latency := {|
  l_Time := t;
  Topic := topicName;
  AvgMilliSec := Milliseconds <$> Avg aggLatency;
  MaxMilliSec := Milliseconds <$> Max aggLatency;
  MinMilliSec := Milliseconds <$> Min aggLatency
|}.

Definition translateToLatencies (n : nat) (t : time) (aggMap : gmap string AggLatency) : list Latency :=
  map (fun '(topicName, aggLatency) => translateToLatency t topicName aggLatency) (MutexMap.entries n aggMap).

Definition TranslateToLatencies (n : nat) (withTimes : list AggLatencyMapWithTime) : list Latency :=
  flat_map (fun withTime => translateToLatencies n (Time withTime) (aggLatencyMap withTime)) withTimes.

(** ** The exporter *)

Record Exporter := MkExporter {
  noopMode : bool;
  strategyName : string;
  latencyMeasurers : list LatencyMeasurer;
  customMetricQueue : list CustomMetric
}.

#[export] Instance eta_Exporter : Eta Exporter := fun c =>
  MkExporter (noopMode c) (strategyName c) (latencyMeasurers c) (customMetricQueue c).

(** [client]: whether the client could be created; [None] is the error. *)
Definition NewExporter (bucketName strategyName url token : string) (client : bool) : option Exporter :=
  if String.eqb url "" || String.eqb token "" then Some (MkExporter true "" [] [])
  else if client then Some (MkExporter false strategyName [] []) else None.

Definition SetLatencyMeasurer (measurer : LatencyMeasurer) (c : Exporter) : Exporter :=
  c <| latencyMeasurers ::= fun l => l ++ [measurer] |>.

Definition WriteCustomMetrics (metrics : list CustomMetric) (c : Exporter) : Exporter :=
  c <| customMetricQueue ::= fun q => q ++ metrics |>.

Definition discardWSLatencies (c : Exporter) : Exporter :=
  c <| latencyMeasurers ::= map (fun measurer => fst (Export measurer)) |>.

Definition discardCustomMetrics (c : Exporter) : Exporter := c <| customMetricQueue := [] |>.

Definition collectLatencies (n : nat) (c : Exporter) : Exporter * list Latency :=
  (c <| latencyMeasurers ::= map (fun measurer => fst (Export measurer)) |>,
   flat_map (fun measurer => TranslateToLatencies n (snd (Export measurer))) (latencyMeasurers c)).

(** The calls of [WritePoints]: none for nothing. *)
Definition exportLatencies (c : Exporter) (latencies : list Latency) : list (list Point) :=
  match latencies with [] => [] | _ => [ToPoints (strategyName c) latencies] end.

Definition exportCustomMetrics (n : nat) (c : Exporter) (metrics : list CustomMetric) : list (list Point) :=
  match metrics with [] => [] | _ => [omap (CustomToPoint n (strategyName c)) metrics] end.

(** ** Its goroutines

    [pending]: goroutines for custom metrics, and for latencies, that have not taken
    anything yet; [batches], [latency_batches]: what others have taken and not yet
    written; [written]: the calls of [WritePoints].  [accepted] and [done_custom] are
    what was given to [WriteCustomMetrics], and what was written of it. *)
Record exporting := MkExporting {
  exporter : Exporter;
  accepted : list CustomMetric;
  pending : nat * nat;
  batches : list (list CustomMetric);
  latency_batches : list (list Latency);
  done_custom : list (list CustomMetric);
  written : list (list Point)
}.

#[export] Instance eta_exporting : Eta exporting := fun s =>
  MkExporting (exporter s) (accepted s) (pending s) (batches s) (latency_batches s) (done_custom s) (written s).

Inductive export_step (n : nat) : exporting -> exporting -> Prop :=
  | step_metrics metrics s :
      export_step n s (s <| exporter ::= WriteCustomMetrics metrics |> <| accepted ::= fun l => l ++ metrics |>)
  | step_record i topic latency s :
      export_step n s (s <| exporter ::= fun c => c <| latencyMeasurers ::= alter (RecordLatency topic latency) i |> |>)
  | step_aggregate i now s :
      export_step n s (s <| exporter ::= fun c => c <| latencyMeasurers ::= alter (aggregate now) i |> |>)
  | step_tick_noop s :
      noopMode (exporter s) = true ->
      export_step n s (s <| exporter ::= fun c => discardCustomMetrics (discardWSLatencies c) |>)
  | step_tick s :
      noopMode (exporter s) = false ->
      export_step n s (s <| pending ::= fun '(a, b) => (S a, S b) |>)
  | step_take_custom a b s :
      pending s = (S a, b) ->
      export_step n s (s <| pending := (a, b) |>
        <| batches ::= fun l => l ++ [customMetricQueue (exporter s)] |> <| exporter ::= discardCustomMetrics |>)
  | step_take_latencies a b s :
      pending s = (a, S b) ->
      export_step n s (s <| pending := (a, b) |>
        <| latency_batches ::= fun l => l ++ [snd (collectLatencies n (exporter s))] |>
        <| exporter := fst (collectLatencies n (exporter s)) |>)
  | step_write_custom l batch l' s :
      batches s = l ++ batch :: l' ->
      export_step n s (s <| batches := l ++ l' |> <| done_custom ::= fun d => d ++ [batch] |>
        <| written ::= fun w => w ++ exportCustomMetrics n (exporter s) batch |>)
  | step_write_latencies l batch l' s :
      latency_batches s = l ++ batch :: l' ->
      export_step n s (s <| latency_batches := l ++ l' |>
        <| written ::= fun w => w ++ exportLatencies (exporter s) batch |>).

Definition start_exporting (c : Exporter) : exporting := MkExporting c [] (0, 0)%nat [] [] [] [].

(** ** Facts *)

(** Where the accepted metrics are. *)
Record accounted (s : exporting) : Prop := {
  acc_custom : accepted s ≡ₚ concat (done_custom s) ++ concat (batches s) ++ customMetricQueue (exporter s);
  acc_noop : noopMode (exporter s) = false
}.

Lemma concat_middle {A} (l l' : list (list A)) x : concat (l ++ x :: l') ≡ₚ x ++ concat (l ++ l').
Proof. rewrite !concat_app. simpl. apply Permutation_app_swap_app. Qed.

Lemma accounted_step n s s' : accounted s -> export_step n s s' -> accounted s'.
Proof.
  intros [Ha Hn] Hs.
  destruct Hs as [metrics s|i tp d s|i now s|s Hnoop|s Hnoop|a b s Hp|a b s Hp|l batch l' s Hb|l batch l' s Hb];
    simpl in *; try done; split; simpl; try done.
  - by rewrite Ha, <- !app_assoc.
  - congruence.
  - by rewrite Ha, concat_app; simpl; rewrite !app_nil_r.
  - by rewrite Ha, Hb, concat_middle, (concat_app (done_custom s)); simpl; rewrite app_nil_r, <- !app_assoc.
Qed.

Lemma noop_step n s s' :
  noopMode (exporter s) = true /\ pending s = (0, 0)%nat /\ batches s = [] /\ latency_batches s = [] /\ written s = [] ->
  export_step n s s' ->
  noopMode (exporter s') = true /\ pending s' = (0, 0)%nat /\ batches s' = [] /\ latency_batches s' = [] /\ written s' = [].
Proof.
  intros (Hn & Hp & Hb & Hl & Hw) Hs.
  destruct Hs as [metrics s|i tp d s|i now s|s Hnoop|s Hnoop|a b s Hp'|a b s Hp'|l batch l' s Hb'|l batch l' s Hb'];
    simpl in *; try done; try congruence.
  all: rewrite Hb' in *; by destruct l.
Qed.

(** No custom metric is lost or written twice: in every state of the exporter, each one that
    was accepted was written in exactly one batch, is in exactly one batch that a
    goroutine is about to write, or waits in the queue; without a client nothing is ever written. *)
Theorem metrics_written_once c n s :
  customMetricQueue c = [] -> rtc (export_step n) (start_exporting c) s ->
  (noopMode c = false ->
    accepted s ≡ₚ concat (done_custom s) ++ concat (batches s) ++ customMetricQueue (exporter s)) /\
  (noopMode c = true -> written s = []).
Proof.
  intros Hq Hr. split; intros Hc.
  - assert (accounted (start_exporting c)) as H0 by (split; simpl; [by rewrite Hq|done]).
    revert H0. induction Hr as [s|s1 s2 s3 H12 _ IH]; [by intros []|]. intros H1. apply IH. by eapply accounted_step.
  - assert (noopMode (exporter (start_exporting c)) = true /\ pending (start_exporting c) = (0, 0)%nat /\
      batches (start_exporting c) = [] /\ latency_batches (start_exporting c) = [] /\ written (start_exporting c) = []) as H0 by done.
    revert H0. induction Hr as [s|s1 s2 s3 H12 _ IH]; [by intros (_ & _ & _ & _ & ->)|].
    intros H1. apply IH. by eapply noop_step.
Qed.

(** One entry for every topic of every interval; an aggregate without latencies has no values. *)
Lemma translated_topics n withTimes t topicName :
  (exists l, l ∈ TranslateToLatencies n withTimes /\ l_Time l = t /\ Topic l = topicName) <->
  exists withTime, withTime ∈ withTimes /\ Time withTime = t /\ is_Some (aggLatencyMap withTime !! topicName).
Proof.
  unfold TranslateToLatencies, translateToLatencies. setoid_rewrite list_elem_of_In. setoid_rewrite in_flat_map. split.
  - intros (l & (w & Hw & Hl) & Ht & Hn). apply in_map_iff in Hl as ([k a] & <- & Hk). simpl in *.
    exists w. split; [done|]. split; [done|]. subst. exists a. by rewrite <- (elem_of_entries n), list_elem_of_In.
  - intros (w & Hw & Ht & [a Ha]). exists (translateToLatency t topicName a). split; [|done]. exists w. split; [done|].
    apply in_map_iff. exists (topicName, a). split; [by subst|]. by rewrite <- list_elem_of_In, elem_of_entries.
Qed.

End Exporter.
