(* ===== verification/Deals.v ===== *)
(** * From the private channels to the dealers
    (initializers/exchanges/bybit/deals_initializer.go, coinex/deals_initializer.go)

    The dealers of an exchange, one for each symbol, and the topics of its private
    channel.  What reaches a dealer are the calls of its [HandleOrderData] and
    [HandlePositionData], in their order: the events of DealerEvents.v that come from
    the exchange. *)

From S2P Require Import Prelude GoStd Decimal QDecimal Domains Symbol Errors MutexMap Order OrderData Position.
From S2P Require Import World Dealer DealerInv DealerSteps DealerEvents.
From S2P Require Import BTree PriceLevel OrderBook Quote Trade Translate BybitMessages CoinExMessages.
From S2P Require Import TTLCache Json Topic ChannelGroup BybitTopics CoinExTopics Insights.
Local Open Scope Z_scope.

Section Deals.
  Context {D : Decimal} {RT : GoRuntime} (r : registry).

(** The events of every dealer. *)
Abbreviation inboxes := (gmap nat (list Event)).

(** The method values of the dealer of a symbol. *)
Definition handle_orders (symbol : nat) (datas : list OrderData.OrderData) (s : inboxes) : inboxes :=
  alter (fun es => es ++ [EvOrderData datas]) symbol s.
Definition handle_position (symbol : nat) (datas : list PositionData) (s : inboxes) : inboxes :=
  alter (fun es => es ++ [EvPositionData datas]) symbol s.

(** The dealers that are made: every symbol once. *)
Definition setup_dealers (symbols : list nat) : inboxes :=
  foldl (fun dealers symbol => <[symbol := []]> dealers) ∅ symbols.

(** Whether the symbol has a dealer; nil if not. *)
Definition GetDealer (symbol : nat) (dealers : inboxes) : option nat := (fun _ => symbol) <$> dealers !! symbol.

(** ** Bybit: one topic for all orders and one for all positions *)

Definition bybit_order_handlers (n : nat) (dealers : inboxes) : gmap nat (list (list OrderData.OrderData -> inboxes -> inboxes)) :=
  foldl (fun handlersMap '(symbol, _) => SetHandlers symbol (handle_orders symbol) handlersMap) ∅ (MutexMap.entries n dealers).
Definition bybit_position_handlers (n : nat) (dealers : inboxes) : gmap nat (list (list PositionData -> inboxes -> inboxes)) :=
  foldl (fun handlersMap '(symbol, _) => SetHandlers symbol (handle_position symbol) handlersMap) ∅ (MutexMap.entries n dealers).

(** The dealers and the topics set on the private channel; [n] is the number of the loops,
    [k] that of the loops of the handlers. *)
Definition BybitInitDeals (n k : nat) (symbols : list nat) : inboxes * list (Topic inboxes) :=
  let dealers := setup_dealers symbols in
  (dealers, [BybitTopics.NewOrderTopic k r (bybit_order_handlers n dealers);
             BybitTopics.NewPositionTopic k r (bybit_position_handlers (S n) dealers)]).

(** ** CoinEx: a topic for the orders and one for the position of every symbol *)

Definition coinex_topics {A} (topic : Symbol.Symbol -> list (A -> inboxes -> inboxes) -> Topic inboxes)
    (handler : nat -> A -> inboxes -> inboxes) (n : nat) (dealers : inboxes) : option (list (Topic inboxes)) :=
  foldM (fun topics '(symbol, _) => s ← symbols r !! symbol; Some (topics ++ [topic s [handler symbol]]))
    (MutexMap.entries n dealers) [].

(** The two lists of topics are set one after the other. *)
Definition CoinExInitDeals (n : nat) (symbols : list nat) : option (inboxes * (list (Topic inboxes) * list (Topic inboxes))) :=
  let dealers := setup_dealers symbols in
  orderTopics ← coinex_topics CoinExTopics.NewOrderTopic handle_orders n dealers;
  posTopics ← coinex_topics CoinExTopics.NewPositionTopic handle_position (S n) dealers;
  Some (dealers, (orderTopics, posTopics)).

End Deals.

(** ** What reaches the dealers

    The messages of a private channel as events of the dealers, for both exchanges. *)

Section Collect.
  Context {RT : GoRuntime} {A B : Type} (translate : A -> result B) (symbol_of : A -> nat).

(** The data of a message with their symbols, in order; all of them, or none. *)
Definition translate_all (dtos : list (option A)) : result (list (nat * B)) :=
  map_result (fun dto => dto ← Translate.deref dto; data ← translate dto; Ok (symbol_of dto, data)) dtos.

Definition data_of (symbol : nat) (l : list (nat * B)) : list B :=
  omap (fun '(s, data) => if decide (s = symbol) then Some data else None) l.

Definition add_data (m : gmap nat (list B)) (x : nat * B) : gmap nat (list B) :=
  match m !! fst x with
  | Some datas => <[fst x := datas ++ [snd x]]> m
  | None => <[fst x := [snd x]]> m
  end.

Lemma collect_spec dtos :
  collect translate symbol_of dtos = (l ← translate_all dtos; Ok (foldl add_data ∅ l)).
Proof.
  unfold collect. generalize (∅ : gmap nat (list B)). induction dtos as [|dto dtos IH]; intros m0; [done|].
  assert (forall (r : result (gmap nat (list B))) l, r = Failed \/ r = Panic ->
    foldl (fun r dto => datasBySymbol ← r; dto ← Translate.deref dto; data ← translate dto;
      let symbol := symbol_of dto in
      match datasBySymbol !! symbol with
      | Some datas => Ok (<[symbol := datas ++ [data]]> datasBySymbol)
      | None => Ok (<[symbol := [data]]> datasBySymbol)
      end) r l = r) as Hstop.
  { intros r0 l. induction l as [|x l IHl]; intros [->| ->]; simpl; auto. }
  simpl. unfold translate_all. simpl. destruct dto as [dto|]; simpl; [|by rewrite Hstop by auto].
  destruct (translate dto) as [data| |]; simpl; [|by rewrite Hstop by auto..].
  assert ((match m0 !! symbol_of dto with
           | Some datas => Ok (<[symbol_of dto := datas ++ [data]]> m0)
           | None => Ok (<[symbol_of dto := [data]]> m0)
           end) = Ok (add_data m0 (symbol_of dto, data))) as ->.
  { unfold add_data. simpl. by destruct (m0 !! symbol_of dto). }
  rewrite IH. unfold translate_all. by destruct (map_result _ dtos).
Qed.

Lemma foldl_add_lookup l m0 symbol :
  foldl add_data m0 l !! symbol =
    match m0 !! symbol, data_of symbol l with
    | Some datas, new => Some (datas ++ new)
    | None, [] => None
    | None, new => Some new
    end.
Proof.
  revert m0. induction l as [|[s d] l IH]; intros m0; simpl; [destruct (m0 !! symbol); by rewrite ?app_nil_r|].
  rewrite IH. unfold add_data. simpl. destruct (decide (s = symbol)) as [->|Hne].
  - destruct (m0 !! symbol) as [datas|]; rewrite lookup_insert_eq; simpl; [by rewrite <- app_assoc|done].
  - by destruct (m0 !! s); rewrite lookup_insert_ne.
Qed.

Lemma collected symbol l :
  foldl add_data ∅ l !! symbol = match data_of symbol l with [] => None | datas => Some datas end.
Proof. rewrite foldl_add_lookup, lookup_empty. by destruct (data_of symbol l). Qed.

(** ** Dispatching to one handler for each symbol *)

Context {E : Type} (event : list B -> E).

Definition inbox_handler (symbol : nat) (datas : list B) (s : gmap nat (list E)) : gmap nat (list E) :=
  alter (fun es => es ++ [event datas]) symbol s.

Definition handlers_of (symbols : gset nat) (hm : gmap nat (list (list B -> gmap nat (list E) -> gmap nat (list E)))) : Prop :=
  forall symbol, hm !! symbol = if decide (symbol ∈ symbols) then Some [inbox_handler symbol] else None.

Lemma dispatch_list hm (l : list (nat * list B)) s symbol :
  handlers_of (dom s) hm -> NoDup l.*1 ->
  foldl (fun s '(symbol, datas) => match hm !! symbol with Some handlers => call_all handlers datas s | None => s end) s l !! symbol =
  (fun es => es ++ match (list_to_map l : gmap nat (list B)) !! symbol with Some datas => [event datas] | None => [] end) <$> s !! symbol.
Proof.
  intros Hh. induction l as [|[sy datas] l IH] using rev_ind; intros Hl; simpl.
  { rewrite lookup_empty. destruct (s !! symbol); simpl; [by rewrite app_nil_r|done]. }
  rewrite fmap_app, NoDup_app in Hl. destruct Hl as (Hl & Hnew & _). specialize (IH Hl).
  rewrite foldl_app. simpl. rewrite Hh. set (s1 := foldl _ s l) in *.
  assert (sy ∉ l.*1) as Hsy by (intros Hc; apply (Hnew sy Hc); set_solver).
  rewrite list_to_map_app. simpl. destruct (decide (sy = symbol)) as [->|Hne].
  - rewrite lookup_union_r by by apply not_elem_of_list_to_map_1. rewrite lookup_insert_eq.
    rewrite (not_elem_of_list_to_map_1 l symbol) in IH by done.
    destruct (decide (symbol ∈ dom s)) as [Hd|Hd].
    + unfold call_all. simpl. unfold inbox_handler. rewrite lookup_alter_eq, IH.
      destruct (s !! symbol); simpl; [by rewrite app_nil_r|done].
    + apply not_elem_of_dom in Hd. rewrite IH, Hd. done.
  - assert ((list_to_map l ∪ <[sy := datas]> ∅ : gmap nat (list B)) !! symbol = (list_to_map l : gmap nat (list B)) !! symbol) as ->.
    { rewrite lookup_union, lookup_insert_ne, lookup_empty by done. by destruct (list_to_map l !! symbol). }
    rewrite <- IH. destruct (decide (sy ∈ dom s)); [|done]. unfold call_all. simpl. unfold inbox_handler.
    by rewrite lookup_alter_ne.
Qed.

Lemma dispatch_lookup n hm datasBySymbol s symbol :
  handlers_of (dom s) hm ->
  dispatch n hm datasBySymbol s !! symbol =
    (fun es => es ++ match datasBySymbol !! symbol with Some datas => [event datas] | None => [] end) <$> s !! symbol.
Proof.
  intros Hh. assert (NoDup (MutexMap.entries n datasBySymbol).*1) as Hnd by apply (NoDup_GetKeys n datasBySymbol).
  unfold dispatch. rewrite dispatch_list by done.
  assert ((list_to_map (MutexMap.entries n datasBySymbol) : gmap nat (list B)) !! symbol = datasBySymbol !! symbol) as ->; [|done].
  apply option_eq. intros datas. rewrite <- elem_of_list_to_map by done. apply elem_of_entries.
Qed.

End Collect.

Section Dealers.
  Context {D : Decimal} {RT : GoRuntime} (r : registry).

(** The messages of a private channel, which has one manager and no deduplication. *)
Definition private_run {M S} `{TopicManager M} (mg : M S) (ds : list delivery) (s : S) : option S :=
  foldM (fun s d => after (HandleTopicMessage mg (at_time d) (message d) s)) ds s.

Lemma setup_dealers_lookup symbols sy :
  setup_dealers symbols !! sy = if decide (sy ∈ symbols) then Some [] else None.
Proof.
  unfold setup_dealers. induction symbols as [|x l IH] using rev_ind; [done|].
  rewrite foldl_app. simpl. rewrite lookup_insert, IH. repeat case_decide; set_solver.
Qed.

Lemma dom_setup_dealers symbols : dom (setup_dealers symbols) = list_to_set symbols.
Proof.
  apply set_eq. intros sy. rewrite elem_of_dom, setup_dealers_lookup, elem_of_list_to_set.
  case_decide; naive_solver.
Qed.

Lemma SetHandlers_all {B S} (h : nat -> list B -> S -> S) (l : list (nat * list Event)) sy :
  NoDup l.*1 ->
  foldl (fun handlersMap '(symbol, _) => SetHandlers symbol (h symbol) handlersMap) ∅ l !! sy =
    if decide (sy ∈ l.*1) then Some [h sy] else None.
Proof.
  induction l as [|[x es] l IH] using rev_ind; [done|]. rewrite fmap_app, NoDup_app. intros (Hl & Hnew & _).
  rewrite foldl_app. simpl. unfold SetHandlers. specialize (IH Hl).
  set (hm := foldl _ ∅ l) in *. assert (x ∉ l.*1) as Hx by (intros Hc; apply (Hnew x Hc); set_solver).
  destruct (decide (x = sy)) as [->|Hne].
  - rewrite decide_False in IH by done. rewrite IH, lookup_insert_eq, decide_True; [done|set_solver].
  - destruct (hm !! x); rewrite lookup_insert_ne, IH by done; apply decide_ext; set_solver.
Qed.

(** ** Bybit *)

(** What a message says, with the symbols that it says it of; nothing if it is for
    another topic. *)
Definition bybit_orders (t : time) (m : raw) : result (list (nat * OrderData.OrderData)) :=
  match Unmarshal (dec_ptr BybitTopics.zero_OrderMsgDto BybitTopics.dec_OrderMsgDto) (Some BybitTopics.zero_OrderMsgDto) m with
  | None => Failed
  | Some msg => msg ← Translate.deref msg;
      translate_all (BybitMessages.TranslateOrderData (Some t))
        (fun d => bybit_symbol r (BybitMessages.od_Category d) (BybitMessages.od_Symbol d)) (om_DataDto msg)
  end.

Definition bybit_positions (m : raw) : result (list (nat * PositionData)) :=
  match Unmarshal (dec_ptr BybitTopics.zero_PositionMsgDto BybitTopics.dec_PositionMsgDto) (Some BybitTopics.zero_PositionMsgDto) m with
  | None => Failed
  | Some msg => msg ← Translate.deref msg;
      translate_all BybitMessages.TranslatePosition
        (fun d => bybit_symbol r (BybitMessages.p_Category d) (BybitMessages.p_Symbol d)) (pm_DataDto msg)
  end.

Definition event_of {B} (event : list B -> Event) (datas : list B) : list Event :=
  match datas with [] => [] | _ => [event datas] end.

(** The events of a dealer that a message makes. *)
Definition bybit_events (sy : nat) (d : delivery) : list Event :=
  match BybitTopics.getTopicName (message d) with
  | Some "order"%string =>
      match bybit_orders (at_time d) (message d) with Ok l => event_of EvOrderData (data_of sy l) | _ => [] end
  | Some "position"%string =>
      match bybit_positions (message d) with Ok l => event_of EvPositionData (data_of sy l) | _ => [] end
  | _ => []
  end.

Lemma event_of_lookup {B} (event : list B -> Event) (l : list (nat * B)) sy :
  match foldl add_data ∅ l !! sy with Some datas => [event datas] | None => [] end = event_of event (data_of sy l).
Proof. rewrite collected. by destruct (data_of sy l). Qed.

Lemma bybit_handlers {B} (h : nat -> list B -> gmap nat (list Event) -> gmap nat (list Event)) event n (dealers s : gmap nat (list Event)) :
  (forall sy, h sy = inbox_handler event sy) -> dom s = dom dealers ->
  handlers_of event (dom s) (foldl (fun handlersMap '(symbol, _) => SetHandlers symbol (h symbol) handlersMap) ∅ (MutexMap.entries n dealers)).
Proof.
  intros Hh Hd sy. rewrite SetHandlers_all by apply (NoDup_GetKeys n dealers). rewrite Hh, Hd.
  apply decide_ext. rewrite elem_of_dom. apply (elem_of_GetKeys n).
Qed.

Lemma find_of_two {S} (t1 t2 : Topic S) name :
  find_topic name [t1; t2] =
    if String.eqb (TopicName t2) name then Some t2 else if String.eqb (TopicName t1) name then Some t1 else None.
Proof. done. Qed.

Lemma bybit_message n k symbols d s s' :
  dom s = dom (setup_dealers symbols) ->
  after (handle_plain (M := BybitTopics.Manager) (snd (BybitInitDeals r n k symbols)) (at_time d) (message d) s) = Some s' ->
  forall sy, s' !! sy = (fun es => es ++ bybit_events sy d) <$> s !! sy.
Proof.
  intros Hd. unfold handle_plain, BybitInitDeals, bybit_events. cbn [snd route bybit_manager].
  assert (forall sy, s !! sy = (fun es => es ++ []) <$> s !! sy) as Hnone.
  { intros sy. destruct (s !! sy); simpl; [by rewrite app_nil_r|done]. }
  destruct (BybitTopics.getTopicName (message d)) as [name|]; [|simpl; intros [= <-]; exact Hnone].
  rewrite find_of_two. cbn [TopicName BybitTopics.NewPositionTopic BybitTopics.NewOrderTopic].
  destruct (String.eqb_spec "position" name) as [<-|Hp].
  - unfold bybit_positions, BybitTopics.NewPositionTopic. cbn [MsgHandler]. destruct (Unmarshal _ _ (message d)) as [msg|]; [|simpl; intros [= <-]; exact Hnone].
    destruct msg as [msg|]; simpl; [|done]. rewrite collect_spec.
    destruct (translate_all _ _ _) as [l| |]; simpl; [|simpl; intros [= <-]; exact Hnone|done].
    intros [= <-] sy. rewrite (dispatch_lookup EvPositionData) by by apply (bybit_handlers handle_position).
    by rewrite event_of_lookup.
  - destruct (String.eqb_spec "order" name) as [<-|Ho].
    + unfold bybit_orders, BybitTopics.NewOrderTopic. cbn [MsgHandler]. destruct (Unmarshal _ _ (message d)) as [msg|]; [|simpl; intros [= <-]; exact Hnone].
      destruct msg as [msg|]; simpl; [|done]. rewrite collect_spec.
      destruct (translate_all _ _ _) as [l| |]; simpl; [|simpl; intros [= <-]; exact Hnone|done].
      intros [= <-] sy. rewrite (dispatch_lookup EvOrderData) by by apply (bybit_handlers handle_orders).
      by rewrite event_of_lookup.
    + intros [= <-] sy. rewrite Hnone at 1. by repeat (case_match; try done; subst).
Qed.

(** ** The dealers take what reaches them *)

Context {AG : Agent}.

(** The events that come from the exchange. *)
Definition from_exchange (ev : Event) : Prop :=
  match ev with EvOrderData _ | EvPositionData _ => True | _ => False end.

(** A dealer that handles events one after the other; [None] if it does not end or panics. *)
Fixpoint play (es : list Event) (w : World) : option World :=
  match es with
  | [] => Some w
  | ev :: es => match World.run (event_prog ev) w with Done w' _ => play es w' | _ => None end
  end.

Lemma play_exchange es w E :
  WF E w -> held w = ∅ -> Forall from_exchange es ->
  exists w', play es w = Some w' /\ held w' = ∅ /\ exists E', WF E' w'.
Proof.
  intros Hwf Hn Hes. revert w E Hwf Hn. induction Hes as [|ev es Hev _ IH]; intros w E Hwf Hn; [by eauto 6|].
  assert (valid w ev /\ spares w ev) as [Hv Hsp] by by destruct ev.
  destruct (proj1 (wp_run _ _ _) (event_spares E w ev Hwf Hn Hv Hsp)) as (w1 & xs & Hr & Hwf1 & _ & Hn1).
  simpl. rewrite Hr. apply (IH w1 (E ++ xs)); [done|congruence].
Qed.

Lemma event_of_exchange {B} (event : list B -> Event) datas :
  (forall l, from_exchange (event l)) -> Forall from_exchange (event_of event datas).
Proof. intros He. destruct datas; repeat constructor; apply He. Qed.

Lemma bybit_events_exchange sy d : Forall from_exchange (bybit_events sy d).
Proof.
  unfold bybit_events. destruct (BybitTopics.getTopicName (message d)) as [name|]; [|constructor].
  repeat (case_match; try constructor).
  all: try (destruct (bybit_orders _ _); by try apply event_of_exchange).
  all: by apply event_of_exchange.
Qed.

(** All messages, from what one message does. *)
Lemma private_run_inboxes {M} `{TopicManagerLaws M} (ts : list (Topic (gmap nat (list Event)))) (events : nat -> delivery -> list Event) ds s0 s :
  named ts ->
  (forall d s s', dom s = dom s0 -> after (handle_plain (M := M) ts (at_time d) (message d) s) = Some s' ->
    forall sy, s' !! sy = (fun es => es ++ events sy d) <$> s !! sy) ->
  private_run (SetTopics ts (NewManager (M := M))) ds s0 = Some s ->
  forall sy, s !! sy = (fun es => es ++ flat_map (events sy) ds) <$> s0 !! sy.
Proof.
  intros Hn Hstep Hr.
  refine (foldM_ind (fun ds s => forall sy, s !! sy = (fun es => es ++ flat_map (events sy) ds) <$> s0 !! sy) _ _ _ _ Hr _ _).
  { intros sy. destruct (s0 !! sy); simpl; [by rewrite app_nil_r|done]. }
  clear ds s Hr. intros l d s s' IH Hd sy. rewrite HandleTopicMessage_route in Hd by done.
  rewrite (Hstep d s s'); [|..|exact Hd]; cycle 1.
  { apply set_eq. intros x. rewrite !elem_of_dom, IH. by rewrite fmap_is_Some. }
  rewrite IH, flat_map_app. destruct (s0 !! sy); simpl; [|done]. by rewrite app_nil_r, <- app_assoc.
Qed.

(** C38: what Bybit sends on its private channel reaches the dealers: after any messages each dealer has
    got, in their order and for every message that could be read as a whole, the data
    of its own symbol, and nothing else; and a dealer in a well-formed state handles all
    of it without a panic or a deadlock. *)
Theorem bybit_messages_reach_dealers n k symbols ds s :
  let '(dealers, topics) := BybitInitDeals r n k symbols in
  private_run (SetTopics topics (NewManager (M := BybitTopics.Manager))) ds dealers = Some s ->
  (forall sy, s !! sy = if decide (sy ∈ symbols) then Some (flat_map (bybit_events sy) ds) else None) /\
  (forall sy es w E, s !! sy = Some es -> WF E w -> held w = ∅ ->
    exists w', play es w = Some w' /\ held w' = ∅ /\ exists E', WF E' w').
Proof.
  destruct (BybitInitDeals r n k symbols) as [dealers topics] eqn:Hi. intros Hr.
  assert (dealers = setup_dealers symbols) as -> by by injection Hi.
  assert (topics = snd (BybitInitDeals r n k symbols)) as -> by by rewrite Hi.
  assert (forall sy, s !! sy = if decide (sy ∈ symbols) then Some (flat_map (bybit_events sy) ds) else None) as Hs.
  { intros sy. rewrite (private_run_inboxes (M := BybitTopics.Manager) (snd (BybitInitDeals r n k symbols)) bybit_events ds (setup_dealers symbols) s); [|by repeat constructor| |exact Hr].
    - rewrite setup_dealers_lookup. by case_decide.
    - intros d s1 s2. apply bybit_message. }
  split; [exact Hs|]. intros sy es w E He Hwf Hn. rewrite Hs in He. case_decide; [|done]. injection He as <-.
  apply (play_exchange _ _ E); [done|done|]. clear. induction ds as [|d ds IH]; [constructor|].
  simpl. apply Forall_app. split; [apply bybit_events_exchange|exact IH].
Qed.

(** ** CoinEx *)

Definition coinex_order (t : time) (m : raw) : result OrderData.OrderData :=
  match Unmarshal CoinExTopics.dec_OrderMsgDto None m with
  | None => Failed
  | Some data => data ← Translate.deref data; CoinExMessages.TranslateOrderData (Some t) data
  end.

Definition coinex_position (m : raw) : result PositionData :=
  match Unmarshal CoinExTopics.dec_PositionMsgDto (""%string, None) m with
  | None => Failed
  | Some (_, data) => data ← Translate.deref data; CoinExMessages.TranslatePosition data
  end.

Definition order_name (s : Symbol.Symbol) : string := ("personal.order@" +:+ Symbol.Name s)%string.
Definition position_name (s : Symbol.Symbol) : string := ("personal.position@" +:+ Symbol.Name s)%string.

(** The events of a dealer that a message makes: it is for one symbol. *)
Definition coinex_events (sy : nat) (d : delivery) : list Event :=
  match symbols r !! sy, CoinExTopics.getTopicName (message d) with
  | Some s, Some name =>
      if String.eqb name (order_name s) then
        match coinex_order (at_time d) (message d) with Ok x => [EvOrderData [x]] | _ => [] end
      else if String.eqb name (position_name s) then
        match coinex_position (message d) with Ok x => [EvPositionData [x]] | _ => [] end
      else []
  | _, _ => []
  end.

Lemma coinex_topics_in {A} (topic : Symbol.Symbol -> list (A -> gmap nat (list Event) -> gmap nat (list Event)) -> Topic (gmap nat (list Event)))
    handler n dealers ts :
  coinex_topics r topic handler n dealers = Some ts ->
  forall tp, tp ∈ ts <-> exists sy s, is_Some (dealers !! sy) /\ symbols r !! sy = Some s /\ tp = topic s [handler sy].
Proof.
  intros Hs tp. unfold coinex_topics in Hs.
  assert (tp ∈ ts <-> exists sy s, sy ∈ (MutexMap.entries n dealers).*1 /\ symbols r !! sy = Some s /\ tp = topic s [handler sy]) as ->.
  { refine (foldM_ind (fun l ts => tp ∈ ts <-> exists sy s, sy ∈ l.*1 /\ symbols r !! sy = Some s /\ tp = topic s [handler sy]) _ _ _ _ Hs _ _).
    - split; [by intros ?%not_elem_of_nil|]. by intros (? & ? & ?%not_elem_of_nil & _).
    - clear ts Hs. intros l [sy es] ts ts' IH. destruct (symbols r !! sy) as [s|] eqn:Hsy; simpl; [|done].
      intros [= <-]. rewrite elem_of_app, list_elem_of_singleton, fmap_app. setoid_rewrite elem_of_app. rewrite IH. simpl.
      setoid_rewrite list_elem_of_singleton. naive_solver. }
  split; intros (sy & s & Hsy & H); exists sy, s; (split; [|exact H]); by apply (elem_of_GetKeys n).
Qed.

Definition coinex_all (topics : list (Topic (gmap nat (list Event))) * list (Topic (gmap nat (list Event)))) :
    list (Topic (gmap nat (list Event))) := fst topics ++ snd topics.

(** The topics of a private channel, and whose they are. *)
Lemma coinex_all_in n symbols' dealers topics :
  CoinExInitDeals r n symbols' = Some (dealers, topics) ->
  dealers = setup_dealers symbols' /\
  forall tp, tp ∈ coinex_all topics <-> exists sy s, sy ∈ symbols' /\ symbols r !! sy = Some s /\
    (tp = CoinExTopics.NewOrderTopic s [handle_orders sy] \/ tp = CoinExTopics.NewPositionTopic s [handle_position sy]).
Proof.
  unfold CoinExInitDeals. intros Hi.
  destruct (coinex_topics r _ handle_orders n _) as [ots|] eqn:Ho; simpl in Hi; [|done].
  destruct (coinex_topics r _ handle_position (S n) _) as [pts|] eqn:Hp; simpl in Hi; [|done].
  injection Hi as <- <-. split; [done|]. intros tp. unfold coinex_all. simpl. rewrite elem_of_app.
  rewrite (coinex_topics_in _ _ _ _ _ Ho), (coinex_topics_in _ _ _ _ _ Hp).
  assert (forall sy, is_Some (setup_dealers symbols' !! sy) <-> sy ∈ symbols') as Hd.
  { intros sy. rewrite setup_dealers_lookup. case_decide; naive_solver. }
  setoid_rewrite Hd. naive_solver.
Qed.

Lemma order_not_position s s' : order_name s <> position_name s'.
Proof. unfold order_name, position_name. done. Qed.

(** A handler of one dealer, run on what was translated. *)
Lemma inbox_step {B} sy0 (x : result B) (event : B -> Event) (s s' : gmap nat (list Event)) (events : nat -> list Event) :
  after (match x with Ok y => Handled (alter (fun es => es ++ [event y]) sy0 s) | Failed => Erred s | Translate.Panic => Panicked end) = Some s' ->
  (is_Some (s !! sy0) -> events sy0 = match x with Ok y => [event y] | _ => [] end) ->
  (forall sy es, s !! sy = Some es -> sy <> sy0 -> events sy = []) ->
  forall sy, s' !! sy = (fun es => es ++ events sy) <$> s !! sy.
Proof.
  intros Ha H0 Hne sy. destruct (s !! sy) as [es|] eqn:He; simpl.
  - destruct (decide (sy = sy0)) as [->|Hs].
    + rewrite H0 by by eexists. destruct x; simplify_eq/=; [by rewrite lookup_alter_eq, He|by rewrite He, app_nil_r].
    + rewrite (Hne sy es) by done. rewrite app_nil_r. destruct x; simplify_eq/=; [by rewrite lookup_alter_ne|done].
  - destruct x; simplify_eq/=; [|done]. destruct (decide (sy0 = sy)) as [->|]; [by rewrite lookup_alter_eq, He|by rewrite lookup_alter_ne].
Qed.

Lemma order_handler_spec x sy t m s :
  MsgHandler (CoinExTopics.NewOrderTopic x [handle_orders sy]) t m s =
    match coinex_order t m with
    | Ok y => Handled (alter (fun es => es ++ [EvOrderData [y]]) sy s)
    | Failed => Erred s
    | Translate.Panic => Panicked
    end.
Proof.
  unfold coinex_order, CoinExTopics.NewOrderTopic, finish. cbn [MsgHandler].
  destruct (Unmarshal _ _ m) as [[data|]|]; [|done..]. simpl. by destruct (CoinExMessages.TranslateOrderData _ data).
Qed.

Lemma position_handler_spec x sy t m s :
  MsgHandler (CoinExTopics.NewPositionTopic x [handle_position sy]) t m s =
    match coinex_position m with
    | Ok y => Handled (alter (fun es => es ++ [EvPositionData [y]]) sy s)
    | Failed => Erred s
    | Translate.Panic => Panicked
    end.
Proof.
  unfold coinex_position, CoinExTopics.NewPositionTopic, finish. cbn [MsgHandler].
  destruct (Unmarshal _ _ m) as [[method [data|]]|]; [|done..]. simpl. by destruct (CoinExMessages.TranslatePosition data).
Qed.

Lemma coinex_message n symbols' dealers topics d s s' :
  CoinExInitDeals r n symbols' = Some (dealers, topics) -> names_told r symbols' ->
  dom s = dom dealers ->
  after (handle_plain (M := CoinExTopics.Manager) (coinex_all topics) (at_time d) (message d) s) = Some s' ->
  forall sy, s' !! sy = (fun es => es ++ coinex_events sy d) <$> s !! sy.
Proof.
  intros Hi Hnames Hdom. destruct (coinex_all_in _ _ _ _ Hi) as [-> Hin].
  assert (forall sy es, s !! sy = Some es -> sy ∈ symbols') as Hsy.
  { intros sy es He. apply elem_of_dom_2 in He. rewrite Hdom, dom_setup_dealers in He. set_solver. }
  assert (forall ev, (forall sy es, s !! sy = Some es -> ev sy = []) -> forall sy, s !! sy = (fun es => es ++ ev sy) <$> s !! sy) as Hnone.
  { intros ev Hev sy. destruct (s !! sy) as [es|] eqn:He; simpl; [|done]. by rewrite (Hev sy es He), app_nil_r. }
  unfold handle_plain. cbn [route coinex_manager]. unfold coinex_events.
  destruct (CoinExTopics.getTopicName (message d)) as [name|] eqn:Hname; cycle 1.
  { intros [= <-]. apply Hnone. intros sy es _. by destruct (symbols r !! sy). }
  destruct (find_topic name (coinex_all topics)) as [tp|] eqn:Hf; cycle 1.
  { intros [= <-]. apply Hnone. intros sy es He. destruct (symbols r !! sy) as [x|] eqn:Hx; [|done].
    destruct (String.eqb_spec name (order_name x)) as [->|_].
    - destruct (find_topic_some (coinex_all topics) (CoinExTopics.NewOrderTopic x [handle_orders sy])) as [tp' Htp'].
      + apply Hin. exists sy, x. eauto.
      + simpl in Htp'. unfold order_name in Hf. congruence.
    - destruct (String.eqb_spec name (position_name x)) as [->|_]; [|done].
      destruct (find_topic_some (coinex_all topics) (CoinExTopics.NewPositionTopic x [handle_position sy])) as [tp' Htp'].
      + apply Hin. exists sy, x. eauto.
      + simpl in Htp'. unfold position_name in Hf. congruence. }
  apply find_topic_in in Hf as [Htp <-]. apply Hin in Htp as (sy0 & x0 & Hsy0 & Hx0 & Htp).
  assert (forall sy es x, s !! sy = Some es -> symbols r !! sy = Some x -> Symbol.Name x = Symbol.Name x0 -> sy = sy0) as Hone.
  { intros sy es x He Hx Hn. apply Hnames; [by eapply Hsy|done|]. rewrite Hx, Hx0. simpl. by rewrite Hn. }
  destruct Htp as [-> | ->]; cbn [TopicName CoinExTopics.NewOrderTopic CoinExTopics.NewPositionTopic].
  - rewrite order_handler_spec. fold (order_name x0). intros Ha. eapply (inbox_step sy0 (coinex_order (at_time d) (message d)) (fun x => EvOrderData [x]) s s'); [exact Ha|..].
    + intros Hsome. rewrite Hx0. by rewrite (proj2 (String.eqb_eq _ _)).
    + intros sy es He Hne. destruct (symbols r !! sy) as [x|] eqn:Hx; [|done].
      destruct (String.eqb_spec (order_name x0) (order_name x)) as [E|_]; [|destruct (String.eqb_spec (order_name x0) (position_name x)) as [E|_]; [by destruct (order_not_position x0 x)|done]].
      apply (inj (String.append "personal.order@")) in E. destruct Hne. by eapply Hone.
  - rewrite position_handler_spec. fold (position_name x0). intros Ha. eapply (inbox_step sy0 (coinex_position (message d)) (fun x => EvPositionData [x]) s s'); [exact Ha|..].
    + intros Hsome. rewrite Hx0. rewrite (proj2 (String.eqb_neq (position_name x0) (order_name x0))), String.eqb_refl; [done|].
      intros E. by destruct (order_not_position x0 x0).
    + intros sy es He Hne. destruct (symbols r !! sy) as [x|] eqn:Hx; [|done].
      destruct (String.eqb_spec (position_name x0) (order_name x)) as [E|_]; [by destruct (order_not_position x x0)|].
      destruct (String.eqb_spec (position_name x0) (position_name x)) as [E|_]; [|done].
      apply (inj (String.append "personal.position@")) in E. destruct Hne. by eapply Hone.
Qed.

Lemma coinex_events_exchange sy d : Forall from_exchange (coinex_events sy d).
Proof.
  unfold coinex_events. destruct (symbols r !! sy) as [s|]; [|constructor].
  destruct (CoinExTopics.getTopicName (message d)) as [name|]; [|constructor].
  destruct (String.eqb name (order_name s)); [by destruct (coinex_order _ _); repeat constructor|].
  destruct (String.eqb name (position_name s)); [by destruct (coinex_position _); repeat constructor|constructor].
Qed.

Lemma coinex_all_named n symbols' dealers topics :
  CoinExInitDeals r n symbols' = Some (dealers, topics) -> named (coinex_all topics).
Proof.
  intros Hi. apply Forall_forall. intros tp Hin. apply (coinex_all_in _ _ _ _ Hi) in Hin as (sy & s & _ & _ & [-> | ->]); done.
Qed.

(** The topics are set in two calls. *)
Definition coinex_private (topics : list (Topic (gmap nat (list Event))) * list (Topic (gmap nat (list Event)))) :
    CoinExTopics.Manager (gmap nat (list Event)) :=
  SetTopics (snd topics) (SetTopics (fst topics) NewManager).

Lemma coinex_private_all topics : coinex_private topics = SetTopics (coinex_all topics) (NewManager (M := CoinExTopics.Manager)).
Proof. unfold coinex_private, coinex_all. simpl. unfold CoinExSetTopics, set_topics. simpl. by rewrite foldl_app. Qed.

(** What CoinEx sends on its private channel reaches the dealers: with markets of distinct names,
    after any messages each dealer has got, in their order, the data of the messages for
    its own market that could be read, and nothing else; and a dealer in a
    well-formed state handles all of it without a panic or a deadlock. *)
Theorem coinex_messages_reach_dealers n symbols' dealers topics ds s :
  CoinExInitDeals r n symbols' = Some (dealers, topics) -> names_told r symbols' ->
  private_run (coinex_private topics) ds dealers = Some s ->
  (forall sy, s !! sy = if decide (sy ∈ symbols') then Some (flat_map (coinex_events sy) ds) else None) /\
  (forall sy es w E, s !! sy = Some es -> WF E w -> held w = ∅ ->
    exists w', play es w = Some w' /\ held w' = ∅ /\ exists E', WF E' w').
Proof.
  intros Hi Hn Hr. rewrite coinex_private_all in Hr.
  assert (forall sy, s !! sy = if decide (sy ∈ symbols') then Some (flat_map (coinex_events sy) ds) else None) as Hs.
  { intros sy. rewrite (private_run_inboxes (M := CoinExTopics.Manager) (coinex_all topics) coinex_events ds dealers s); [|by eapply coinex_all_named| |exact Hr].
    - destruct (coinex_all_in _ _ _ _ Hi) as [-> _]. rewrite setup_dealers_lookup. by case_decide.
    - intros d s1 s2. by apply (coinex_message n symbols'). }
  split; [exact Hs|]. intros sy es w E He Hwf Hw. rewrite Hs in He. case_decide; [|done]. injection He as <-.
  apply (play_exchange _ _ E); [done|done|]. clear. induction ds as [|d ds IH]; [constructor|].
  simpl. apply Forall_app. split; [apply coinex_events_exchange|exact IH].
Qed.

End Dealers.

(** ** Examples: two positions of one symbol in a message, and one of a symbol without a dealer *)

#[local] Existing Instance GoStd.in_order.
#[local] Instance willing_agent : Agent := fun _ _ => None.

Definition position_symbol (exchange product name : string) : @Symbol.Symbol QDecimal :=
  MkSymbol (exchange +:+ "_" +:+ product +:+ "_" +:+ name) exchange product name (1 # 2)%Q (1 # 1000)%Q AssetUSDT.
Definition two_exchanges : @registry QDecimal :=
  Registry [position_symbol "Unknown" "Unknown" "Unknown"; position_symbol "Bybit" "linear" "BTCUSDT"; position_symbol "CoinEx" "futures" "BTCUSDT"]
    {["Bybit_linear_BTCUSDT"%string := 1%nat; "CoinEx_futures_BTCUSDT"%string := 2%nat]} ∅.

Definition bybit_position_text : raw :=
  let position symbol := JObject
    [("positionIdx"%string, JNumber "0"); ("side"%string, JString "Buy"); ("size"%string, JString "3");
     ("category"%string, JString "linear"); ("symbol"%string, JString symbol); ("updatedTime"%string, JString "17")] in
  Text (JObject [("topic"%string, JString "position");
    ("data"%string, JArray [position "BTCUSDT"%string; position "DOGEUSDT"%string; position "BTCUSDT"%string])]).

Definition coinex_position_text : raw := Text (JObject
  [("method"%string, JString chanPos); ("data"%string, JObject
     [("event"%string, JString "update"); ("position"%string, JObject
        [("market"%string, JString "BTCUSDT"); ("side"%string, JString "long"); ("open_interest"%string, JString "3");
         ("created_at"%string, JNumber "16"); ("updated_at"%string, JNumber "17")])])]).

(** The data of the events, by their numbers. *)
Definition sizes (es : list (@Event QDecimal)) : list nat :=
  map (fun ev => match ev with EvOrderData ds => length ds | EvPositionData ds => length ds | _ => 0%nat end) es.

Lemma bybit_messages_reach_dealers_witness :
  exists s, private_run (SetTopics (snd (BybitInitDeals two_exchanges 0 0 [1%nat])) (NewManager (M := BybitTopics.Manager)))
      [MkDelivery 0 5 bybit_position_text] (fst (BybitInitDeals two_exchanges 0 0 [1%nat])) = Some s /\
    sizes <$> s !! 1%nat = Some [2%nat].
Proof.
  destruct (private_run (SetTopics (snd (BybitInitDeals two_exchanges 0 0 [1%nat])) (NewManager (M := BybitTopics.Manager)))
      [MkDelivery 0 5 bybit_position_text] (fst (BybitInitDeals two_exchanges 0 0 [1%nat]))) as [s|] eqn:Hr.
  - exists s. split; [reflexivity|].
    destruct (bybit_messages_reach_dealers two_exchanges 0 0 [1%nat] [MkDelivery 0 5 bybit_position_text] s Hr) as [Hs _].
    rewrite Hs. vm_compute. reflexivity.
  - exfalso. apply (f_equal is_some) in Hr. vm_compute in Hr. discriminate Hr.
Defined.

Lemma coinex_messages_reach_dealers_witness :
  match CoinExInitDeals two_exchanges 0 [2%nat] with
  | Some (dealers, topics) =>
      exists s, private_run (coinex_private topics) [MkDelivery 0 5 coinex_position_text; MkDelivery 0 6 coinex_position_text] dealers = Some s /\
        sizes <$> s !! 2%nat = Some [1%nat; 1%nat]
  | None => False
  end.
Proof.
  destruct (CoinExInitDeals two_exchanges 0 [2%nat]) as [[dealers topics]|] eqn:Hi.
  - destruct (private_run (coinex_private topics) [MkDelivery 0 5 coinex_position_text; MkDelivery 0 6 coinex_position_text] dealers) as [s|] eqn:Hr.
    + exists s. split; [reflexivity|].
      assert (names_told two_exchanges [2%nat]) as Hn by by intros x y ->%list_elem_of_singleton ->%list_elem_of_singleton.
      destruct (coinex_messages_reach_dealers two_exchanges 0 [2%nat] dealers topics _ s Hi Hn Hr) as [Hs _].
      rewrite Hs. vm_compute. reflexivity.
    + exfalso. injection Hi as <- <-. apply (f_equal is_some) in Hr. vm_compute in Hr. discriminate Hr.
  - apply (f_equal is_some) in Hi. vm_compute in Hi. discriminate Hi.
Defined.
