(* ===== verification/Providers.v ===== *)
(** * What a strategy reads prices from (domains/insights/providers.go)

    The interface [Quote] as a class of the types that implement it, with the laws a
    strategy can rely on; order books and quotes are its instances, and the
    theorem is about any of them. *)

From S2P Require Import Prelude GoStd Decimal QDecimal Domains Symbol BTree PriceLevel OrderBook OrderBookProps.
From S2P Require Import OrderBookViews Quote.
Local Open Scope Z_scope.

Section Providers.
  Context {D : Decimal}.

(** [None] where a method panics, and for a nil pointer. *)
Class QuoteProvider (T : Type) := {
  IsReady : T -> bool;
  CalcBestPrice : T -> dec -> option (dec * dec);
  GetBestAsk : T -> option PriceLevel;
  GetBestBid : T -> option PriceLevel;
  GetDiffBestAsk : T -> option PriceLevel;
  GetDiffBestBid : T -> option PriceLevel;
  GetLastExecAt : T -> option time;
  GetLastArrivedAt : T -> option time;
  GetTickSize : T -> dec;
  GetMinOrderQty : T -> dec;
  RoundToTickSize : T -> dec -> option dec;
  SetUpdateCallback : nat -> T -> T
}.

Class QuoteProviderLaws (T : Type) `{QuoteProvider T} : Prop := {
  (** both types round by the tick size alone *)
  RoundToTickSize_law q price : RoundToTickSize q price = round_down (GetTickSize q) price;
  CalcBestPrice_law q midPrice :
    CalcBestPrice q midPrice = (bid ← RoundToTickSize q midPrice; Some (Add bid (GetTickSize q), bid));
  (** a provider that is ready has prices and differences *)
  IsReady_law q : IsReady q = true -> exists ask bid before_ask before_bid,
    GetBestAsk q = Some ask /\ GetBestBid q = Some bid /\
    GetDiffBestAsk q = Some (level_diff ask before_ask) /\ GetDiffBestBid q = Some (level_diff bid before_bid);
  SetUpdateCallback_law c q :
    GetTickSize (SetUpdateCallback c q) = GetTickSize q /\ IsReady (SetUpdateCallback c q) = IsReady q /\
    GetBestAsk (SetUpdateCallback c q) = GetBestAsk q /\ GetBestBid (SetUpdateCallback c q) = GetBestBid q
}.

Context {B : BTree}.

#[export] Instance book_provider : QuoteProvider OrderBookImpl := {|
  IsReady := OrderBook.IsReady;
  CalcBestPrice := OrderBook.CalcBestPrice;
  GetBestAsk := OrderBook.GetBestAsk;
  GetBestBid := OrderBook.GetBestBid;
  GetDiffBestAsk := OrderBook.GetDiffBestAsk;
  GetDiffBestBid := OrderBook.GetDiffBestBid;
  GetLastExecAt := OrderBook.GetLastExecAt;
  GetLastArrivedAt := OrderBook.GetLastArrivedAt;
  GetTickSize := OrderBook.GetTickSize;
  GetMinOrderQty := OrderBook.GetMinOrderQty;
  RoundToTickSize := OrderBook.RoundToTickSize;
  SetUpdateCallback := OrderBook.SetUpdateCallback
|}.

#[export] Instance quote_provider : QuoteProvider QuoteImpl := {|
  IsReady := Quote.IsReady;
  CalcBestPrice := Quote.CalcBestPrice;
  GetBestAsk := Quote.GetBestAsk;
  GetBestBid := Quote.GetBestBid;
  GetDiffBestAsk := Quote.GetDiffBestAsk;
  GetDiffBestBid := Quote.GetDiffBestBid;
  GetLastExecAt := Quote.GetLastExecAt;
  GetLastArrivedAt := Quote.GetLastArrivedAt;
  GetTickSize := Quote.GetTickSize;
  GetMinOrderQty := Quote.GetMinOrderQty;
  RoundToTickSize := Quote.RoundToTickSize;
  SetUpdateCallback := Quote.SetUpdateCallback
|}.

#[export] Instance book_provider_laws : QuoteProviderLaws OrderBookImpl.
Proof.
  split; simpl; [done| | |done].
  - intros q midPrice. unfold OrderBook.CalcBestPrice. by destruct (OrderBook.RoundToTickSize q midPrice).
  - intros q. unfold OrderBook.IsReady, OrderBook.GetBestAsk, OrderBook.GetBestBid, OrderBook.GetDiffBestAsk, OrderBook.GetDiffBestBid.
    destruct (OrderBook.currentBestBid q), (OrderBook.currentBestAsk q), (OrderBook.beforeBestBid q), (OrderBook.beforeBestAsk q); simpl; try done.
    intros _. by do 4 eexists.
Qed.

#[export] Instance quote_provider_laws : QuoteProviderLaws QuoteImpl.
Proof.
  split; simpl; [done| | |done].
  - intros q midPrice. unfold Quote.CalcBestPrice. by destruct (Quote.RoundToTickSize q midPrice).
  - intros q. unfold Quote.IsReady, Quote.GetBestAsk, Quote.GetBestBid, Quote.GetDiffBestAsk, Quote.GetDiffBestBid.
    destruct (bestBid q), (bestAsk q), (beforeBestBid q), (beforeBestAsk q); simpl; try done.
    intros _. by do 4 eexists.
Qed.

Context {DL : DecimalLaws D} {T : Type} `{QuoteProviderLaws T}.

(** The prices that any provider computes around a mid price are a tick apart and bracket
    it, the bid being a multiple of the tick size; rounding again changes nothing, and
    callbacks play no part.  The mid price is not negative and its quotient by the
    tick size has at most 16 decimals, the precision of the division. *)
Theorem provider_brackets q c midPrice :
  let tick := GetTickSize q in
  (0 < dval tick)%Q -> (0 <= dval midPrice)%Q ->
  (exists z, (dval midPrice / dval tick * inject_Z (10 ^ 16) == inject_Z z)%Q) ->
  exists ask bid, CalcBestPrice (SetUpdateCallback c q) midPrice = Some (ask, bid) /\
    RoundToTickSize q midPrice = Some bid /\
    (dval bid == inject_Z (Qtrunc (dval midPrice / dval tick)) * dval tick)%Q /\
    (dval ask == dval bid + dval tick)%Q /\ (dval bid <= dval midPrice < dval ask)%Q /\
    (exists bid', RoundToTickSize q bid = Some bid' /\ dval bid' == dval bid)%Q.
Proof.
  intros tick Ht Hp Hz. destruct (round_down_spec _ _ Ht Hp Hz) as (bid & Hr & He & Hb1 & Hb2).
  assert (RoundToTickSize q midPrice = Some bid) as Hround by by rewrite RoundToTickSize_law.
  exists (Add bid tick), bid. destruct (SetUpdateCallback_law c q) as (Htick & _).
  rewrite CalcBestPrice_law, RoundToTickSize_law, Htick. fold tick. rewrite Hr. simpl.
  split; [done|]. split; [done|]. split; [exact He|]. split; [by dval_simpl|]. split; [dval_simpl; by split|].
  set (n := Qtrunc (dval midPrice / dval tick)) in *.
  assert (dval bid / dval tick == inject_Z n)%Q as Hq by (rewrite He; field; lra).
  assert (0 <= n)%Z as Hn.
  { unfold n, Qtrunc. assert (0 <= dval midPrice / dval tick)%Q as Hge by (apply Qle_shift_div_l; lra).
    rewrite (proj2 (Qle_bool_iff _ _) Hge). by apply (Qfloor_resp_le 0). }
  destruct (round_down_spec tick bid) as (bid' & Hr' & He' & _); [done|..].
  - rewrite He. apply Qmult_le_0_compat; [|lra]. by rewrite <- (Zle_Qle 0).
  - exists (n * 10 ^ 16). rewrite Hq, <- inject_Z_mult. done.
  - exists bid'. rewrite RoundToTickSize_law. fold tick. split; [done|].
    rewrite He', (Qtrunc_wd _ _ Hq), He. unfold Qtrunc.
    assert (Qle_bool 0 (inject_Z n) = true) as -> by by apply Qle_bool_iff; rewrite <- (Zle_Qle 0).
    by rewrite Qfloor_Z.
Qed.

End Providers.

(** ** A quote as a provider *)

Definition quoted_symbol : @Symbol QDecimal :=
  MkSymbol "CoinEx_futures_BTCUSDT" "CoinEx" "futures" "BTCUSDT" (1 # 2)%Q (1 # 1000)%Q AssetBTC.

Lemma provider_brackets_witness :
  exists ask bid, CalcBestPrice (SetUpdateCallback 3 (NewQuote quoted_symbol)) ((10020 # 100)%Q : @dec QDecimal) = Some (ask, bid) /\
    (bid == 100)%Q /\ (ask == bid + (1 # 2))%Q.
Proof.
  destruct (provider_brackets (NewQuote quoted_symbol) 3 ((10020 # 100)%Q : @dec QDecimal)) as (ask & bid & H & _ & Hb & Ha & _).
  - done.
  - done.
  - exists (2004 * 10 ^ 15). reflexivity.
  - exists ask, bid. split; [done|]. split; [rewrite Hb; reflexivity|exact Ha].
Defined.
