(* ===== verification/Display.v ===== *)
(** * The display of order books (pkg/display/book_display.go)

    The lines of the columns and of the whole display, as text; what is printed before
    them clears the screen.  Texts are taken to be ASCII: a byte is a character.
    [StringFixed] of the decimal package is a parameter. *)

From S2P Require Import Prelude GoStd Decimal QDecimal Domains Symbol BTree PriceLevel OrderBook OrderBookViews.
From Stdlib Require Import DecimalString.
Local Open Scope nat_scope.

(** ** Text *)

Definition ESC : ascii := ascii_of_nat 27.

Fixpoint Repeat (s : string) (n : nat) : string :=
  match n with O => "" | S n => s +:+ Repeat s n end%string.

(** The loop of [visibleLen], with [inEsc] and [visible]. *)
Fixpoint visible_loop (s : string) (inEsc : bool) (visible : nat) : nat :=
  match s with
  | EmptyString => visible
  | String r s =>
      if Ascii.eqb r ESC then visible_loop s true visible
      else if inEsc then visible_loop s (negb (Ascii.eqb r "m")) visible
      else visible_loop s false (S visible)
  end.

Definition visibleLen (s : string) : nat := visible_loop s false 0.

Section Display.
  Context {D : Decimal} {B : BTree} (StringFixed : dec -> nat -> string).

Record BookEntry := MkBookEntry { Title : string; OB : OrderBookImpl }.

Record BookDisplay := MkBookDisplay { depth : Z; books : list BookEntry }.

Definition NewBookDisplay (depth' : Z) (books' : list BookEntry) : BookDisplay := MkBookDisplay depth' books'.

Definition Books (d : BookDisplay) : list BookEntry := books d.

(** A rule of the width with a text in its middle. *)
Definition rule (fill text : string) (innerWidth : Z) : string :=
  let padTotal := (innerWidth - Z.of_nat (String.length text))%Z in
  let padTotal := if (padTotal <? 0)%Z then 0%Z else padTotal in
  let padLeft := Z.quot padTotal 2 in
  let padRight := (padTotal - padLeft)%Z in
  ("  " +:+ Repeat fill (Z.to_nat padLeft) +:+ text +:+ Repeat fill (Z.to_nat padRight))%string.

Definition red : string := String ESC "[31m".
Definition green : string := String ESC "[32m".
Definition reset : string := String ESC "[0m".

Definition ask_line (r : PriceLevel) : string :=
  ("  " +:+ red +:+ "Ask " +:+ StringFixed (Price r) 2 +:+ ": " +:+ dString (Volume r) +:+ reset)%string.
Definition bid_line (r : PriceLevel) : string :=
  ("  " +:+ green +:+ "Bid " +:+ StringFixed (Price r) 2 +:+ ": " +:+ dString (Volume r) +:+ reset)%string.

Definition max_visible (lines : list string) : nat :=
  foldl (fun maxWidth line => if (maxWidth <? visibleLen line)%nat then visibleLen line else maxWidth) 0 lines.

(** The lines of a book and its width; the book does not change while it is read. *)
Definition buildBookLines (d : BookDisplay) (title : string) (ob : OrderBookImpl) : list string * nat :=
  match GetBestAsk ob, GetBestBid ob with
  | Some bestAsk, Some bestBid =>
      let asks := GetAsks ob (depth d) in
      let bids := GetBids ob (depth d) in
      let dataLines := map ask_line (reverse asks) ++ map bid_line bids in
      let maxWidth := max_visible dataLines in
      let innerWidth := (Z.of_nat maxWidth - 2)%Z in
      let header := rule "=" (" " +:+ title +:+ " ")%string innerWidth in
      let spread := rule "-" (" spread(" +:+ StringFixed (Sub (Price bestAsk) (Price bestBid)) 2 +:+ ") ")%string innerWidth in
      ([header] ++ firstn (length asks) dataLines ++ [spread] ++ skipn (length asks) dataLines ++ [""%string], maxWidth)
  | _, _ =>
      let line := (title +:+ ": waiting for data...")%string in
      ([line], String.length line)
  end.

Definition columns (d : BookDisplay) : list (list string * nat) :=
  map (fun entry => buildBookLines d (Title entry) (OB entry)) (books d).

Definition maxRows (d : BookDisplay) : nat :=
  foldl (fun maxRows column => if (maxRows <? length column.1)%nat then length column.1 else maxRows) 0 (columns d).

(** What is printed of the row in a column; the last column is not padded. *)
Definition cell (row : nat) (is_last : bool) (column : list string * nat) : string :=
  let line := default ""%string (column.1 !! row) in
  if is_last then line
  else (line +:+ Repeat " " (column.2 - visibleLen line) +:+ "  ")%string.

Fixpoint print_row (row : nat) (cs : list (list string * nat)) : string :=
  match cs with
  | [] => ""
  | [c] => cell row true c
  | c :: cs => cell row false c +:+ print_row row cs
  end%string.

Definition clear_screen : string := String ESC ("[2J" +:+ String ESC "[H")%string.

(** What [Render] prints: the sequence that clears the screen, then the rows. *)
Definition Render (d : BookDisplay) : string * list string :=
  (clear_screen, map (fun row => print_row row (columns d)) (seq 0 (maxRows d))).

(** ** The rows are aligned *)

(** The text is printed as it is: no escape sequence is open at its end. *)
Fixpoint in_escape (s : string) (inEsc : bool) : bool :=
  match s with
  | EmptyString => inEsc
  | String r s =>
      if Ascii.eqb r ESC then in_escape s true
      else if inEsc then in_escape s (negb (Ascii.eqb r "m")) else in_escape s false
  end.

Definition balanced (s : string) : Prop := in_escape s false = false.

Lemma visible_loop_add s : forall e v, visible_loop s e v = v + visible_loop s e 0.
Proof.
  induction s as [|r s IH]; intros e v; simpl; [lia|].
  destruct (Ascii.eqb r ESC), e; rewrite ?(IH _ v), ?(IH _ (S v)), ?(IH _ 1); lia.
Qed.

Lemma visible_loop_app s t : forall e v,
  visible_loop (s +:+ t)%string e v = visible_loop t (in_escape s e) (visible_loop s e v).
Proof. induction s as [|r s IH]; intros e v; [done|]. rewrite append_cons; simpl. repeat case_match; apply IH. Qed.

Lemma in_escape_app s t : forall e, in_escape (s +:+ t)%string e = in_escape t (in_escape s e).
Proof. induction s as [|r s IH]; intros e; [done|]. rewrite append_cons; simpl. repeat case_match; apply IH. Qed.

Lemma visibleLen_app s t : balanced s -> visibleLen (s +:+ t) = visibleLen s + visibleLen t.
Proof.
  intros Hs. unfold visibleLen. by rewrite visible_loop_app, Hs, visible_loop_add.
Qed.

Lemma balanced_app s t : balanced s -> balanced t -> balanced (s +:+ t).
Proof. unfold balanced. intros Hs Ht. by rewrite in_escape_app, Hs. Qed.

Lemma Repeat_space n : visibleLen (Repeat " " n) = n /\ balanced (Repeat " " n).
Proof.
  induction n as [|n [IHl IHb]]; [done|]. cbn [Repeat].
  split; [rewrite visibleLen_app, IHl; done|by apply balanced_app].
Qed.

Lemma visibleLen_cell row column :
  balanced (default "" (column.1 !! row))%string ->
  visibleLen (default "" (column.1 !! row))%string <= column.2 ->
  visibleLen (cell row false column) = column.2 + 2 /\ balanced (cell row false column).
Proof.
  intros Hb Hle. unfold cell. destruct (Repeat_space (column.2 - visibleLen (default "" (column.1 !! row))%string)) as [Hl Hr].
  split; [|repeat apply balanced_app; done].
  rewrite !visibleLen_app, Hl by done. change (visibleLen "  ") with 2. lia.
Qed.

(** A column fits when none of its lines is wider than its width. *)
Definition fits (column : list string * nat) : Prop :=
  Forall (fun line => balanced line /\ visibleLen line <= column.2) column.1.

Lemma fits_line row column :
  fits column ->
  balanced (default "" (column.1 !! row))%string /\ visibleLen (default "" (column.1 !! row))%string <= column.2.
Proof.
  intros Hf. destruct (column.1 !! row) as [line|] eqn:E; simpl; [|split; [done|cbn; lia]].
  by eapply Forall_lookup_1 in Hf.
Qed.

(** Where the lines fit, a column begins at the same place in every row. *)
Lemma rows_aligned row before column cs :
  Forall fits before ->
  exists left, print_row row (before ++ column :: cs) = (left +:+ print_row row (column :: cs))%string /\
    balanced left /\ visibleLen left = sum_list_with (fun c => c.2 + 2) before.
Proof.
  induction 1 as [|c before Hc _ (left & Hp & Hb & Hl)]; [by exists ""%string|].
  destruct (fits_line row c Hc) as [Hcb Hcl]. destruct (visibleLen_cell row c Hcb Hcl) as [Hlc Hbc].
  exists (cell row false c +:+ left)%string. split_and!.
  - assert (exists c' cs', before ++ column :: cs = c' :: cs') as (c' & cs' & E)
      by (destruct before; simpl; eauto).
    cbn [print_row app]. rewrite E, <- E, Hp. by rewrite append_assoc.
  - by apply balanced_app.
  - rewrite visibleLen_app, Hlc, Hl by done. done.
Qed.

Lemma max_visible_ge lines line : line ∈ lines -> visibleLen line <= max_visible lines.
Proof.
  unfold max_visible.
  assert (forall ls m, m <= foldl (fun w l => if (w <? visibleLen l)%nat then visibleLen l else w) m ls /\
    forall l, l ∈ ls -> visibleLen l <= foldl (fun w l => if (w <? visibleLen l)%nat then visibleLen l else w) m ls) as H.
  { induction ls as [|l ls IH]; intros m; simpl; [split; [done|set_solver]|].
    destruct (IH (if (m <? visibleLen l)%nat then visibleLen l else m)) as [H1 H2].
    destruct (Nat.ltb_spec m (visibleLen l)); (split; [lia|]); intros l' [->|Hl']%elem_of_cons; auto; lia. }
  apply (H lines 0).
Qed.

(** A plain text holds no escape sequence. *)
Fixpoint plain (s : string) : bool :=
  match s with EmptyString => true | String r s => negb (Ascii.eqb r ESC) && plain s end.

Lemma plain_visible s : plain s = true -> visibleLen s = String.length s /\ balanced s.
Proof.
  unfold visibleLen, balanced. induction s as [|r s IH]; [done|]. simpl.
  intros [Hr%negb_true_iff Hs]%andb_true_iff. rewrite Hr, visible_loop_add. destruct (IH Hs) as [-> ->]. done.
Qed.

Lemma Repeat_visible fill n : visibleLen fill = 1 -> balanced fill ->
  visibleLen (Repeat fill n) = n /\ balanced (Repeat fill n).
Proof.
  intros Hf Hb. induction n as [|n [IHl IHb]]; [done|]. cbn [Repeat].
  split; [rewrite visibleLen_app, IHl, Hf; done|by apply balanced_app].
Qed.

(** A rule is as wide as asked for, or as its text. *)
Lemma visibleLen_rule fill text innerWidth :
  visibleLen fill = 1 -> balanced fill -> visibleLen text = String.length text -> balanced text ->
  visibleLen (rule fill text innerWidth) = 2 + Nat.max (String.length text) (Z.to_nat innerWidth) /\
  balanced (rule fill text innerWidth).
Proof.
  intros Hf Hfb Ht Htb. unfold rule.
  set (pad := if (innerWidth - Z.of_nat (String.length text) <? 0)%Z then 0%Z
    else (innerWidth - Z.of_nat (String.length text))%Z).
  assert (0 <= pad)%Z by (unfold pad; destruct (Z.ltb_spec (innerWidth - Z.of_nat (String.length text)) 0); lia).
  assert (Z.to_nat pad = Z.to_nat innerWidth - String.length text)%nat
    by (unfold pad; destruct (Z.ltb_spec (innerWidth - Z.of_nat (String.length text)) 0); lia).
  pose proof (Z.quot_pos pad 2 ltac:(lia) ltac:(lia)). pose proof (Z.quot_le_upper_bound pad 2 pad ltac:(lia) ltac:(lia)).
  destruct (Repeat_visible fill (Z.to_nat (Z.quot pad 2)) Hf Hfb) as [Hl Hlb].
  destruct (Repeat_visible fill (Z.to_nat (pad - Z.quot pad 2)) Hf Hfb) as [Hr Hrb].
  split; [|repeat apply balanced_app; done].
  rewrite !visibleLen_app, Hl, Hr, Ht by done. change (visibleLen "  ") with 2. lia.
Qed.

Lemma ask_line_balanced r :
  plain (StringFixed (Price r) 2) = true -> plain (dString (Volume r)) = true -> balanced (ask_line r).
Proof.
  intros [_ Hp]%plain_visible [_ Hv]%plain_visible. unfold ask_line. repeat apply balanced_app; done.
Qed.

Lemma bid_line_balanced r :
  plain (StringFixed (Price r) 2) = true -> plain (dString (Volume r)) = true -> balanced (bid_line r).
Proof.
  intros [_ Hp]%plain_visible [_ Hv]%plain_visible. unfold bid_line. repeat apply balanced_app; done.
Qed.

(** The texts of a book with data are no wider than its levels. *)
Definition texts_fit (d : BookDisplay) (entry : BookEntry) : Prop :=
  let width := (buildBookLines d (Title entry) (OB entry)).2 in
  forall a b, GetBestAsk (OB entry) = Some a -> GetBestBid (OB entry) = Some b ->
  String.length (Title entry) + 4 <= width /\
  String.length (StringFixed (Sub (Price a) (Price b)) 2) + 12 <= width.

Section Plain.
  Context (fixed_plain : forall x n, plain (StringFixed x n) = true)
          (string_plain : forall x, plain (dString x) = true).

Lemma plain_append s t : plain (s +:+ t) = plain s && plain t.
Proof. induction s as [|r s IH]; [done|]. rewrite append_cons. simpl. by rewrite IH, andb_assoc. Qed.

(** A rule around a text that leaves room in the width. *)
Lemma rule_fits fill text width :
  visibleLen fill = 1 -> balanced fill -> plain text = true -> String.length text + 2 <= width ->
  balanced (rule fill text (Z.of_nat width - 2)) /\ visibleLen (rule fill text (Z.of_nat width - 2)) <= width.
Proof.
  intros Hf Hb [Ht Htb]%plain_visible Hw.
  destruct (visibleLen_rule fill text (Z.of_nat width - 2) Hf Hb Ht Htb) as [-> ?]. split; [done|lia].
Qed.

Lemma data_lines_fit (asks bids : list PriceLevel) :
  let lines := map ask_line asks ++ map bid_line bids in
  Forall (fun line => balanced line /\ visibleLen line <= max_visible lines) lines.
Proof.
  intros lines. apply Forall_forall. intros line Hl. split; [|by apply max_visible_ge].
  unfold lines in Hl. rewrite elem_of_app, !list_elem_of_fmap in Hl.
  destruct Hl as [(r & -> & _)|(r & -> & _)]; [apply ask_line_balanced|apply bid_line_balanced]; auto.
Qed.

Lemma book_column_fits d entry :
  plain (Title entry) = true -> texts_fit d entry ->
  fits (buildBookLines d (Title entry) (OB entry)).
Proof.
  unfold texts_fit, buildBookLines, fits. intros Ht Hfit.
  assert (Forall (fun line => balanced line /\ visibleLen line <= String.length (Title entry +:+ ": waiting for data..."))
    [Title entry +:+ ": waiting for data..."]%string).
  { constructor; [|done]. assert (plain (Title entry +:+ ": waiting for data...") = true)
      as [Hl ?]%plain_visible by (rewrite plain_append, Ht; done). split; [done|lia]. }
  destruct (GetBestAsk (OB entry)) as [a|], (GetBestBid (OB entry)) as [b|]; try done.
  destruct (Hfit a b eq_refl eq_refl) as [Hw1 Hw2]. cbn [fst snd] in *.
  pose proof (data_lines_fit (reverse (GetAsks (OB entry) (depth d))) (GetBids (OB entry) (depth d))) as Hdata.
  cbn zeta in Hdata. set (lines := map ask_line _ ++ _) in *.
  assert (forall l, balanced l /\ visibleLen l <= max_visible lines ->
    Forall (fun line => balanced line /\ visibleLen line <= max_visible lines) [l]) as Hone by (intros; by constructor).
  apply Forall_app_2, Forall_app_2, Forall_app_2, Forall_app_2.
  - apply Hone, rule_fits; try done; [by rewrite !plain_append, Ht|rewrite !length_append; simpl; lia].
  - by apply Forall_take.
  - apply Hone, rule_fits; try done; [by rewrite !plain_append, fixed_plain|rewrite !length_append; simpl; lia].
  - by apply Forall_drop.
  - apply Hone. split; [done|cbn; lia].
Qed.

(** Where the texts of the books fit their columns, every row that [Render]
    prints consists of the columns at the same places: before the column of the i-th book
    it prints exactly the widths of the columns before it, with two spaces after each. *)
Theorem display_columns_aligned d row i line :
  Forall (fun entry => plain (Title entry) = true /\ texts_fit d entry) (books d) ->
  (Render d).2 !! row = Some line -> (i < length (books d)) ->
  exists left, line = (left +:+ print_row row (skipn i (columns d)))%string /\
    visibleLen left = sum_list_with (fun c => c.2 + 2) (firstn i (columns d)).
Proof.
  intros Hb Hr Hi.
  assert (Forall fits (columns d)) as Hfits.
  { apply Forall_map. eapply Forall_impl; [exact Hb|]. intros entry [? ?]. by apply book_column_fits. }
  destruct (columns d !! i) as [column|] eqn:E;
    [|apply lookup_ge_None in E; unfold columns in E; rewrite length_map in E; lia].
  apply list_lookup_fmap_Some in Hr as (row' & -> & (-> & _)%lookup_seq).
  pose proof (take_drop_middle _ _ _ E) as Hsplit.
  destruct (rows_aligned (0 + row) (firstn i (columns d)) column (skipn (S i) (columns d))) as (left & Hp & _ & Hl);
    [by apply Forall_take|]. rewrite Hsplit in Hp. rewrite Hp.
  exists left. split; [by rewrite (drop_S _ _ _ E)|done].
Qed.

End Plain.
End Display.

(** ** A display of two books *)

#[local] Existing Instance sorted_lists.

Lemma uint_plain d : plain (NilEmpty.string_of_uint d) = true.
Proof. induction d; simpl; done. Qed.

Lemma int_plain i : plain (NilZero.string_of_int i) = true.
Proof. destruct i as [d|d]; (destruct d as [|d|d|d|d|d|d|d|d|d|d]; [done|..]; apply (uint_plain d)). Qed.

Lemma Q_to_string_plain q : plain (Q_to_string q) = true.
Proof. unfold Q_to_string, FormatInt. by rewrite !plain_append, !int_plain. Qed.

(** Two digits are enough for the prices of the example. *)
Definition example_fixed (q : @dec QDecimal) (_ : nat) : string :=
  if Qle_bool q 50 then "1.00" else "50000.00".

Definition example_display : BookDisplay :=
  NewBookDisplay 2 [MkBookEntry "BTC" example_book; MkBookEntry "ETH" (NewOrderBook example_symbol)].

Lemma example_rows_of_display :
  map visibleLen (Render example_fixed example_display).2 = [45; 21; 21; 21; 21; 21].
Proof. vm_compute. reflexivity. Qed.

Lemma display_columns_aligned_witness :
  exists line left, (Render example_fixed example_display).2 !! 1 = Some line /\
    line = (left +:+ print_row 1 (skipn 1 (columns example_fixed example_display)))%string /\
    visibleLen left = 21.
Proof.
  destruct ((Render example_fixed example_display).2 !! 1) as [line|] eqn:E;
    [|exfalso; assert (is_Some ((Render example_fixed example_display).2 !! 1)) as [? ?]
        by (apply lookup_lt_is_Some; vm_compute; lia); congruence].
  destruct (display_columns_aligned example_fixed) with (d := example_display) (row := 1) (i := 1) (line := line)
    as (left & Hl & Hv).
  - intros q n. unfold example_fixed. by destruct (Qle_bool q 50).
  - apply Q_to_string_plain.
  - apply Forall_cons; split; [|apply Forall_cons; split; [|by apply Forall_nil]]; (split; [done|]).
    + unfold texts_fit. assert ((buildBookLines example_fixed example_display "BTC" example_book).2 = 19) as Hw by (vm_compute; reflexivity).
      cbn [Title OB]. rewrite Hw. intros a b [= <-] [= <-]. vm_compute. lia.
    + unfold texts_fit. cbn [OB]. intros a b [=].
  - exact E.
  - simpl. lia.
  - exists line, left. split; [done|]. split; [exact Hl|]. rewrite Hv. vm_compute. reflexivity.
Defined.
