(* ===== verification/HttpClient.v ===== *)
(** * The HTTP client of CoinEx's agent (exchanges/coinex/agent/http_client.go)

    A transport is its number in the order of their creation.  Any number of requests run
    at once; a request uses the transport that the client has when it begins.  What the
    network answers is part of an event, and so is a tick of the ticker of [Start]. *)

From S2P Require Import Prelude GoStd Agent.
Local Open Scope nat_scope.

(** ** Errors *)

(** [strings.Contains] *)
Fixpoint has_prefix (p s : string) : bool :=
  match p, s with
  | EmptyString, _ => true
  | String c p, String d s => Ascii.eqb c d && has_prefix p s
  | _, EmptyString => false
  end.

Fixpoint Contains (s substr : string) : bool :=
  has_prefix substr s || match s with EmptyString => false | String _ s => Contains s substr end.

(** An error of the standard library: a text, a [*net.OpError] or another error that wraps one;
    the text of a wrapping error ends with that of the wrapped one. *)
Inductive go_error :=
  | TextError (msg : string)
  | OpError (Op prefix : string) (Err : go_error)
  | WrappedError (prefix : string) (Err : go_error).

Fixpoint error_text (e : go_error) : string :=
  match e with
  | TextError msg => msg
  | OpError _ prefix err | WrappedError prefix err => prefix +:+ error_text err
  end%string.

(** [errors.As(err, &netErr)]: the first [*net.OpError] of the chain. *)
Fixpoint as_OpError (e : go_error) : option (string * go_error) :=
  match e with
  | TextError _ => None
  | OpError op _ err => Some (op, err)
  | WrappedError _ err => as_OpError err
  end.

Definition reset_text : string := "connection reset by peer".

(** [None] is nil. *)
Definition isConnectionReset (err : option go_error) : bool :=
  match err with
  | None => false
  | Some err =>
      match as_OpError err with
      | Some (op, netErr) =>
          if String.eqb op "read" && Contains (error_text netErr) reset_text then true
          else Contains (error_text err) reset_text
      | None => Contains (error_text err) reset_text
      end
  end.

(** ** The client *)

Record HttpClient := MkHttpClient {
  (** transports that were made *)
  made : nat;
  transport : nat;
  (** whose idle connections were closed, in order *)
  idle_closed : list nat;
  (** requests in flight, with their transports *)
  in_flight : list (nat * nat)
}.

#[export] Instance eta_HttpClient : Eta HttpClient := fun c =>
  MkHttpClient (made c) (transport c) (idle_closed c) (in_flight c).

Definition newTransport (c : HttpClient) : HttpClient * nat := (c <| made ::= S |>, made c).

Definition NewHttpClient : HttpClient := MkHttpClient 1 0 [] [].

(** The lock is held for all of it. *)
Definition recreateTransport (c : HttpClient) : HttpClient :=
  let old := transport c in
  let '(c, new) := newTransport c in
  c <| transport := new |> <| idle_closed ::= fun l => l ++ [old] |>.

(** The two ends of [Do]: the request is sent, and its result is there. *)
Definition Do_begin (req : nat) (c : HttpClient) : HttpClient :=
  c <| in_flight ::= fun l => l ++ [(req, transport c)] |>.

Definition Do_end {A} (req : nat) (result : A + go_error) (c : HttpClient) : HttpClient * (A + go_error) :=
  let c := c <| in_flight ::= List.filter (fun '(r, _) => negb (Nat.eqb r req)) |> in
  (if isConnectionReset (match result with inl _ => None | inr err => Some err end) then recreateTransport c else c,
   result).

(** A ping does not use [Do]: its errors are only logged. *)
Definition doPingRequest (c : HttpClient) : HttpClient := c.

(** The pings of [Start] after the ticks, if it is not cancelled earlier. *)
Definition Start (ticks : nat) (c : HttpClient) : HttpClient :=
  Nat.iter (20 + ticks) doPingRequest c.

Inductive client_event (A : Type) :=
  | Begin (req : nat)
  | End (req : nat) (result : A + go_error).
Arguments Begin {A} _.
Arguments End {A} _ _.

Definition client_step {A} (c : HttpClient) (e : client_event A) : HttpClient :=
  match e with
  | Begin req => Do_begin req c
  | End req result => fst (Do_end req result c)
  end.

Definition run_client {A} (es : list (client_event A)) : HttpClient := foldl client_step NewHttpClient es.

(** ** Facts *)

Lemma has_prefix_append p s : has_prefix p (p +:+ s) = true.
Proof. induction p as [|c p IH]; [done|]. rewrite append_cons. simpl. by rewrite Ascii.eqb_refl. Qed.

Lemma Contains_suffix p s t : Contains s t = true -> Contains (p +:+ s) t = true.
Proof.
  intros H. induction p as [|c p IH]; [done|]. rewrite append_cons. simpl. rewrite IH. apply orb_true_r.
Qed.

Lemma as_OpError_text e op netErr t :
  as_OpError e = Some (op, netErr) -> Contains (error_text netErr) t = true -> Contains (error_text e) t = true.
Proof.
  induction e as [|op' p e _|p e IH]; simpl; [done| |].
  - intros [= _ ->]. apply Contains_suffix.
  - intros Ha Hc. by apply Contains_suffix, IH.
Qed.

(** Looking for the operation changes nothing: the text of the whole error decides. *)
Lemma isConnectionReset_text e : isConnectionReset (Some e) = Contains (error_text e) reset_text.
Proof.
  simpl. destruct (as_OpError e) as [[op netErr]|] eqn:Ha; [|done].
  destruct (String.eqb op "read" && _) eqn:Hr; [|done]. apply andb_true_iff in Hr as [_ Hr].
  symmetry. by eapply as_OpError_text.
Qed.

(** The resets among the results. *)
Definition resets {A} (es : list (client_event A)) : nat :=
  length (List.filter (fun e =>
    match e with End _ (inr err) => Contains (error_text err) reset_text | _ => false end) es).

(** However requests overlap, every reset that is reported replaces the transport by a
    new one: the client uses the last one that was made, each earlier one was closed exactly
    once, and no request runs on a transport that is still to be made. *)
Theorem transports_replaced {A} (es : list (client_event A)) :
  let c := run_client es in
  made c = S (resets es) /\ transport c = resets es /\ idle_closed c = seq 0 (resets es) /\
  Forall (fun '(_, t) => t <= transport c) (in_flight c).
Proof.
  cbv zeta. induction es as [|e es (Hm & Ht & Hi & Hf)] using rev_ind; [split_and!; done|].
  unfold run_client, resets in *. rewrite foldl_app, List.filter_app, length_app. cbn [foldl].
  set (c := foldl client_step NewHttpClient es) in *. destruct e as [req|req [a|err]]; cbn [client_step].
  - simpl. rewrite Nat.add_0_r. split_and!; try done. apply Forall_app. split; [done|]. by constructor.
  - simpl. rewrite Nat.add_0_r. split_and!; try done.
    apply Forall_forall. intros x Hx%list_elem_of_In%filter_In. rewrite Forall_forall in Hf. apply Hf, list_elem_of_In, Hx.
  - unfold Do_end. rewrite isConnectionReset_text.
    assert (forall n, transport c <= n -> Forall (fun '(_, t) => t <= n) (List.filter (fun '(r, _) => negb (Nat.eqb r req)) (in_flight c))) as Hle.
    { intros n Hn. apply Forall_forall. intros [r t] [Hx _]%list_elem_of_In%filter_In.
      rewrite Forall_forall in Hf. specialize (Hf (r, t)). simpl in Hf. rewrite list_elem_of_In in Hf.
      specialize (Hf Hx). lia. }
    simpl. destruct (Contains (error_text err) reset_text) eqn:E; simpl.
    + rewrite Hm, Ht, Hi. split_and!; [lia..| |by apply Hle; lia]. by rewrite Nat.add_1_r, seq_S.
    + rewrite Nat.add_0_r. split_and!; try done. by apply Hle.
Qed.

Lemma example_client :
  run_client [Begin 1; Begin 2; End 1 (inr (WrappedError "Post: " (OpError "read" "read tcp: " (TextError "connection reset by peer"))));
              Begin 3; End 2 (inl tt)] = MkHttpClient 2 1 [0] [(3, 1)].
Proof. reflexivity. Qed.
