(* ===== verification/AuthRequests.v ===== *)
(** * Authentication requests and signed requests (exchanges/bybit/ws/author.go,
    exchanges/coinex/ws/author.go, exchanges/{bybit,coinex}/agent/signer.go)

    The requests as the JSON values that their texts denote, for credentials without
    characters to escape, and what an exchange that knows the secret of a key makes
    of them: the checks that both exchanges document. *)

From S2P Require Import Prelude GoStd Json Author Agent.
From S2P Require Import Decimal QDecimal Domains Symbol Errors MutexMap Order OrderData.
From S2P Require Import BTree PriceLevel OrderBook Quote Trade Translate BybitMessages CoinExMessages.
From S2P Require BybitAgent CoinExAgent.
Local Open Scope Z_scope.

(** [Time.UnixMilli] *)
Definition ToUnixMilli (t : time) : Z := (t - unix_epoch) / Millisecond.

(** [Time.Unix] *)
Definition ToUnix (t : time) : Z := (t - unix_epoch) / Second.

Section Requests.
  Context {HR : HttpRuntime}.

(** ** What the authors send *)

Definition bybitSendAuthRequest (now : time) (credential : Credential) : json :=
  let expire := ToUnixMilli (now + 3 * Second) in
  let data := ("GET/realtime" +:+ FormatInt expire)%string in
  let signature := hmac_sha256 (GetSecret credential) data in
  JObject [("op", JString "auth");
           ("args", JArray [JString (GetApiKey credential); JNumber (FormatInt expire); JString signature])]%string.

(** [u]: the number of the first eight bytes of a new UUID. *)
Definition genAuthMsgID (u : Z) : Z :=
  let v := wrap64 u in
  if v <? 0 then Z.lnot v else v.

Record coinexAuthState := MkCoinexAuthState { auth_msgID : Z }.

Definition newAuthState (u : Z) : coinexAuthState := MkCoinexAuthState (genAuthMsgID u).

Definition coinexSendRequest (now : time) (credential : Credential) (s : coinexAuthState) : json :=
  let timestamp := FormatInt (ToUnixMilli now) in
  let sign := hmac_sha256 (GetSecret credential) timestamp in
  JObject [("id", JNumber (FormatInt (auth_msgID s))); ("method", JString "server.sign");
           ("params", JObject [("access_id", JString (GetApiKey credential)); ("signed_str", JString sign);
                               ("timestamp", JNumber timestamp)])]%string.

(** The pings of the health checkers. *)
Definition bybitPing (now : time) : json := JObject [("req_id", JNumber (FormatInt (ToUnix now)))]%string.
Definition coinexPing (now : time) : json :=
  JObject [("method", JString "server.ping"); ("params", JObject []); ("id", JNumber (FormatInt (ToUnix now)))]%string.

(** ** The exchanges *)

Definition field_of (name : string) (j : json) : option json :=
  match j with
  | JObject fields => snd <$> List.find (fun f => String.eqb (fst f) name) fields
  | _ => None
  end.

(** A request of Bybit is good until it expires, if its signature is that of its key. *)
Definition bybit_accepts (secret_of : string -> option string) (now_ms : Z) (request : json) : bool :=
  match field_of "op" request, field_of "args" request with
  | Some (JString op), Some (JArray [JString key; JNumber expire; JString signature]) =>
      String.eqb op "auth" &&
      match secret_of key, ParseInt expire with
      | Some secret, Some expire_ms =>
          (now_ms <? expire_ms)%Z && String.eqb signature (hmac_sha256 secret ("GET/realtime" +:+ expire))
      | _, _ => false
      end
  | _, _ => false
  end%string.

Definition coinex_accepts (secret_of : string -> option string) (request : json) : bool :=
  match field_of "method" request, field_of "params" request with
  | Some (JString method), Some params =>
      String.eqb method "server.sign" &&
      match field_of "access_id" params, field_of "signed_str" params, field_of "timestamp" params with
      | Some (JString key), Some (JString signature), Some (JNumber timestamp) =>
          match secret_of key with
          | Some secret => String.eqb signature (hmac_sha256 secret timestamp)
          | None => false
          end
      | _, _, _ => false
      end
  | _, _ => false
  end%string.

(** CoinEx answers with the id of the request. *)
Definition coinex_auth_answer (request : json) (code : Z) (message : string) : raw :=
  match field_of "id" request with
  | Some id => Text (JObject [("id", id); ("code", JNumber (FormatInt code)); ("message", JString message)]%string)
  | None => Malformed
  end.

Definition bybit_auth_answer (request : json) (success : bool) (ret_msg : string) : raw :=
  match field_of "op" request with
  | Some op => Text (JObject [("success", JBool success); ("ret_msg", JString ret_msg); ("op", op)]%string)
  | None => Malformed
  end.

(** ** Signed HTTP requests *)

Definition header (name : string) (r : request) : option string :=
  snd <$> List.find (fun h => String.eqb (fst h) name) (headers r).

(** The exchange signs what it has received: of Bybit, the time, the key and the body. *)
Definition bybit_request_valid (secret_of : string -> option string) (r : request) : bool :=
  match header "X-BAPI-API-KEY" r, header "X-BAPI-TIMESTAMP" r, header "X-BAPI-SIGN" r with
  | Some key, Some timestamp, Some signature =>
      match secret_of key with
      | Some secret => String.eqb signature (hmac_sha256 secret (timestamp +:+ key +:+ Marshal (payload r)))
      | None => false
      end
  | _, _, _ => false
  end%string.

(** Of CoinEx, the method, the path, the body and the time. *)
Definition coinex_request_valid (secret_of : string -> option string) (r : request) : bool :=
  match header "X-COINEX-KEY" r, header "X-COINEX-TIMESTAMP" r, header "X-COINEX-SIGN" r with
  | Some key, Some timestamp, Some signature =>
      match secret_of key with
      | Some secret =>
          String.eqb signature (hmac_sha256 secret (Agent.method r +:+ path r +:+ Marshal (payload r) +:+ timestamp))
      | None => false
      end
  | _, _, _ => false
  end%string.

(** ** What the requests promise *)

Lemma genAuthMsgID_range u : 0 <= genAuthMsgID u <= int64_max.
Proof.
  unfold genAuthMsgID. pose proof (wrap64_in u) as H. unfold in_int64, int64_min, int64_max in *.
  destruct (Z.ltb_spec (wrap64 u) 0); unfold Z.lnot; lia.
Qed.

Lemma three_seconds now : ToUnixMilli (now + 3 * Second) = ToUnixMilli now + 3000.
Proof.
  unfold ToUnixMilli, Second, Millisecond.
  replace (now + 3 * 10 ^ 9 - unix_epoch) with (now - unix_epoch + 3000 * 10 ^ 6) by lia. apply Z.div_add. lia.
Qed.

(** The other secret is told apart by its signatures. *)
Definition tells_apart (secret secret' : string) : Prop :=
  forall data, hmac_sha256 secret data <> hmac_sha256 secret' data.

(** Bybit accepts the request for three seconds by its own clock, and only with the secret of the key. *)
Theorem bybit_auth_accepted secret_of now credential secret server_ms ret_msg success :
  secret_of (GetApiKey credential) = Some secret ->
  secret = GetSecret credential \/ tells_apart (GetSecret credential) secret ->
  in_int64 (ToUnixMilli (now + 3 * Second)) ->
  (bybit_accepts secret_of server_ms (bybitSendAuthRequest now credential) = true <->
    secret = GetSecret credential /\ server_ms < ToUnixMilli now + 3000) /\
  bybitCheckAuthResponse (bybit_auth_answer (bybitSendAuthRequest now credential) success ret_msg) =
    AuthResponse success (if success then "" else ret_msg).
Proof.
  intros Hk Hs Hin. split.
  - pose proof (three_seconds now) as He.
    unfold bybit_accepts, bybitSendAuthRequest. cbn -[String.append hmac_sha256 FormatInt ParseInt]. rewrite Hk.
    rewrite ParseInt_FormatInt by done. rewrite He. rewrite andb_true_iff, Z.ltb_lt, String.eqb_eq.
    destruct Hs as [->|Hs]; [tauto|]. split; [intros [_ E]; by apply Hs in E|]. intros [-> _]. by destruct (Hs ""%string eq_refl).
  - unfold bybitCheckAuthResponse. simpl. by destruct success.
Qed.

(** CoinEx accepts the request with the secret of the key only; its answer, and no answer to
    another request of the connection, is what the author takes for the result. *)
Theorem coinex_auth_accepted secret_of now credential secret u code msg other :
  secret_of (GetApiKey credential) = Some secret ->
  secret = GetSecret credential \/ tells_apart (GetSecret credential) secret ->
  in_int64 code -> other <> genAuthMsgID u ->
  let s := newAuthState u in
  let request := coinexSendRequest now credential s in
  (coinex_accepts secret_of request = true <-> secret = GetSecret credential) /\
  coinexCheckResponse (auth_msgID s) (coinex_auth_answer request code msg) =
    (if code =? 0 then AuthResponse true ""
     else AuthResponse false ("code=" +:+ FormatInt code +:+ ": " +:+ msg)) /\
  coinexCheckResponse other (coinex_auth_answer request code msg) = Unrelated.
Proof.
  intros Hk Hs Hc Ho s request.
  assert (ParseInt (FormatInt (genAuthMsgID u)) = Some (genAuthMsgID u)) as Hid.
  { apply ParseInt_FormatInt. pose proof (genAuthMsgID_range u). unfold in_int64, int64_min, int64_max in *. lia. }
  split; [|split].
  - unfold coinex_accepts, request, coinexSendRequest. cbn -[String.append hmac_sha256 FormatInt]. rewrite Hk, String.eqb_eq.
    destruct Hs as [->|Hs]; [done|]. split; [intros E; by apply Hs in E|]. intros ->. by destruct (Hs ""%string eq_refl).
  - unfold coinexCheckResponse. cbn -[String.append hmac_sha256 FormatInt ParseInt genAuthMsgID]. rewrite Hid. cbn -[String.append FormatInt ParseInt genAuthMsgID].
    rewrite ParseInt_FormatInt by done.
    cbn -[String.append hmac_sha256 FormatInt genAuthMsgID]. by rewrite Z.eqb_refl.
  - unfold coinexCheckResponse. cbn -[String.append hmac_sha256 FormatInt ParseInt genAuthMsgID]. rewrite Hid. cbn -[String.append FormatInt ParseInt genAuthMsgID].
    rewrite ParseInt_FormatInt by done.
    cbn -[String.append hmac_sha256 FormatInt genAuthMsgID]. rewrite (proj2 (Z.eqb_neq _ _)) by congruence. done.
Qed.

(** Every request that an agent posts carries the signature that its exchange computes
    of what it has received, with the secret of the key, and with no other. *)
Theorem signed_requests_valid secret_of credential secret now url_path dto :
  secret_of (GetApiKey credential) = Some secret ->
  secret = GetSecret credential \/ tells_apart (GetSecret credential) secret ->
  (bybit_request_valid secret_of (BybitAgent.post credential now url_path dto) = true <-> secret = GetSecret credential) /\
  (coinex_request_valid secret_of (CoinExAgent.post credential now url_path dto) = true <-> secret = GetSecret credential).
Proof.
  intros Hk Hs. unfold bybit_request_valid, coinex_request_valid. cbn -[String.append hmac_sha256 FormatInt]. rewrite Hk, !String.eqb_eq.
  destruct Hs as [->|Hs]; [done|].
  split; (split; [intros E; by apply Hs in E|intros ->; by destruct (Hs ""%string eq_refl)]).
Qed.

End Requests.
