(* ===== verification/Startup.v ===== *)
(** * Starting an application and its gateways (initializers/lapua/initializer.go,
    initializers/discord/client.go, initializers/exchanges/{bybit,coinex}/gateways.go,
    exchanges/{bybit,coinex}/ws/{endpoints,channel,channel_group}.go)

    What is made of the environment and the two files, and in which state the parts
    are when their goroutines start.  A panic is its text.  The globals and the goroutines
    are in Lifecycle.v. *)

From S2P Require Import Prelude GoStd Decimal QDecimal Domains Symbol Translate Json Agent.
From S2P Require Import LatencyMeasurer Config Watcher Exporter Lapua Channel.
Local Open Scope Z_scope.

(** ** Discord *)

Record Client := MkClient {
  d_strategyName : string;
  d_infoUrl : string;
  d_warnUrl : string;
  d_emergencyUrl : string;
  d_noopMode : bool
}.

Definition NewClient (strategyName infoUrl warnUrl emergencyUrl : string) : Client :=
  if String.eqb strategyName "" || (String.eqb infoUrl "" && String.eqb warnUrl "" && String.eqb emergencyUrl "")
  then MkClient "" "" "" "" true
  else MkClient strategyName infoUrl warnUrl emergencyUrl false.

(** The request that [sendMsg] makes, if the URL can be parsed; its result is only logged. *)
Definition sendMsg (url_ok : string -> bool) (url strategyName msg : string) : list (string * json) :=
  if url_ok url
  then [(url, JObject [("username", JString strategyName); ("content", JString msg)]%string)]
  else [].

(** A request of its own goroutine, or of the caller's. *)
Definition SendInfo (url_ok : string -> bool) (msg : string) (c : Client) : list (string * json) :=
  if d_noopMode c then [] else sendMsg url_ok (d_infoUrl c) (d_strategyName c) msg.
Definition SyncSendInfo (url_ok : string -> bool) (msg : string) (c : Client) : list (string * json) :=
  if d_noopMode c then [] else sendMsg url_ok (d_infoUrl c) (d_strategyName c) msg.
Definition SendEmergency (url_ok : string -> bool) (msg : string) (c : Client) : list (string * json) :=
  if d_noopMode c then [] else sendMsg url_ok (d_emergencyUrl c) (d_strategyName c) msg.
Definition SyncSendEmergency (url_ok : string -> bool) (msg : string) (c : Client) : list (string * json) :=
  if d_noopMode c then [] else sendMsg url_ok (d_emergencyUrl c) (d_strategyName c) msg.
Definition SendWarn (url_ok : string -> bool) (msg : string) (c : Client) : list (string * json) :=
  if d_noopMode c then [] else sendMsg url_ok (d_warnUrl c) (d_strategyName c) msg.
Definition SyncSendWarn (url_ok : string -> bool) (msg : string) (c : Client) : list (string * json) :=
  if d_noopMode c then [] else sendMsg url_ok (d_warnUrl c) (d_strategyName c) msg.

(** ** The application *)

Section Startup.
  Context {D : Decimal} {CT : ConfigText} {RT : GoRuntime} {IP : InfluxPoints}.

(** What the outside answers: the environment, the file of the log, fsnotify, the two files,
    and the client of InfluxDB. *)
Record surroundings := MkSurroundings {
  Getenv : string -> string;
  log_opened : bool;
  fs_created : bool;
  config_watched : bool;
  secret_watched : bool;
  config_file : option RawConfig;
  secret_file : option RawSecret;
  influx_client : bool
}.

(** The public components; [watcher] is what Params and Secrets are read through. *)
Record application := MkApplication {
  watcher : option Watcher;
  Exporter : Exporter.Exporter;
  Discord : Client
}.

#[export] Instance eta_application : Eta application := fun a => MkApplication (watcher a) (Exporter a) (Discord a).

Definition start_watcher (e : surroundings) (p : paths) : string + Watcher :=
  NewWatcher (configFilePath p) (secretFilePath p) (fs_created e) (config_watched e) (secret_watched e)
    (config_file e) (secret_file e).

(** An exporter for a bucket, and a client of Discord by a name. *)
Definition start_components (e : surroundings) (w : Watcher) (bucketName strategyName userName : string) :
    string + application :=
  match NewExporter bucketName strategyName (url (InfluxDB (secrets w))) (token (InfluxDB (secrets w))) (influx_client e) with
  | None => inl "failed to create InfluxDB client"%string
  | Some exporter =>
      inr (MkApplication (Some w) exporter
        (NewClient userName (infoUrl (Watcher.Discord (secrets w))) (warnUrl (Watcher.Discord (secrets w)))
          (emergencyUrl (Watcher.Discord (secrets w)))))
  end.

(** Whether the log goes to a file, which a goroutine closes after the cancellation. *)
Definition InitLogger (e : surroundings) : string + bool :=
  if negb (String.eqb (Getenv e "LAPUA_FILE_LOGGING") "true") then inr false
  else if log_opened e then inr true else inl "failed to open the file of the log"%string.

(** The beginning that the two modes share. *)
Definition start_files (e : surroundings) : string + Watcher :=
  match initFilePaths (Getenv e) with
  | inl panic => inl panic
  | inr p =>
      match InitLogger e with
      | inl panic => inl panic
      | inr _ => start_watcher e p
      end
  end.

Definition InitAndStart (e : surroundings) : string + application :=
  match start_files e with
  | inl err => inl err
  | inr w => start_components e w (Name (config w)) (Name (config w)) (Name (config w))
  end.

Definition InitAndStartDCMode (e : surroundings) : string + application :=
  match start_files e with
  | inl err => inl err
  | inr w =>
      let bucketName := Config.Get "bucketName" (params (config w)) in
      if String.eqb bucketName "" then inl "influx db bucket name must be specified in config file"%string
      else start_components e w bucketName "" bucketName
  end.

(** Params and Secrets are nil. *)
Definition InitAndStartNoopMode : application :=
  MkApplication None (MkExporter true "" [] []) (NewClient "" "" "" "").

(** ** Channels *)

(** The arguments of [gateways.NewChannel]; its author constructor is nil or the exchange's. *)
Record channel_config := MkChannelConfig {
  exName : string;
  endpoint : string;
  scope : ScopeType;
  credential : option Agent.Credential;
  with_author : bool
}.

Inductive Product := ProductUnknown | ProductSpot | ProductLinear | ProductInverse | ProductOption.

Definition Path (t : Product) : string :=
  match t with
  | ProductSpot => "/spot" | ProductLinear => "/linear" | ProductInverse => "/inverse" | ProductOption => "/option"
  | ProductUnknown => ""
  end%string.

Definition HostName : string := "stream.bybit.com".
Definition APIv5 : string := "/v5".

Definition BybitNewPublicChannel (product : Product) : channel_config :=
  MkChannelConfig "bybit" ("wss://" +:+ HostName +:+ APIv5 +:+ "/public" +:+ Path product) ScopeTypePublic None false.
Definition BybitNewPrivateChannel (cred : Agent.Credential) : channel_config :=
  MkChannelConfig "bybit" ("wss://" +:+ HostName +:+ APIv5 +:+ "/private") ScopeTypePrivate (Some cred) true.

Definition wsEndpoint : string := "wss://socket.coinex.com/v2/futures".
Definition CoinExNewPublicChannel : channel_config :=
  MkChannelConfig "coinex" wsEndpoint ScopeTypePublic None false.
Definition CoinExNewPrivateChannel (cred : Agent.Credential) : channel_config :=
  MkChannelConfig "coinex" wsEndpoint ScopeTypePrivate (Some cred) true.

(** ** Gateway managers *)

Definition defaultDedupTTL : duration := 10 * Second.

(** The arguments of [gateways.NewChannelGroup]: its channels, made alike, and the time to live. *)
Record channel_group := MkChannelGroupConfig { publicChannels : list channel_config; dedupTTL : duration }.

Definition BybitNewPublicChannelGroup (n : nat) (dedupTTL : duration) : channel_group :=
  MkChannelGroupConfig (replicate n (BybitNewPublicChannel ProductLinear)) dedupTTL.
Definition CoinExNewPublicChannelGroup (n : nat) (dedupTTL : duration) : channel_group :=
  MkChannelGroupConfig (replicate n CoinExNewPublicChannel) dedupTTL.

(** What a manager keeps besides topics, insights and dealers. *)
Record Gateway := MkGateway {
  privateAPIAgent : option Agent.Credential;
  privateChannel : option channel_config;
  publicChGroup : channel_group
}.

Definition aggInterval : duration := 5 * Second.

Definition init_gateway (public : nat -> duration -> channel_group) (private : Agent.Credential -> channel_config)
    (cred : option Agent.Credential) (n : nat) (app : option application) : string + (Gateway * application) :=
  match app with
  | None => inl "lapua.Exporter must be initialized before calling InitGatewayManager"%string
  | Some app =>
      inr (MkGateway cred (private <$> cred) (public n defaultDedupTTL),
           app <| Exporter ::= SetLatencyMeasurer (NewLatencyMeasurer aggInterval) |>)
  end.

Definition BybitInitGatewayManager := init_gateway BybitNewPublicChannelGroup BybitNewPrivateChannel.
Definition CoinExInitGatewayManager := init_gateway CoinExNewPublicChannelGroup CoinExNewPrivateChannel.

(** The channels whose [Start] is called. *)
Definition StartGateway (manager : option Gateway) : string + list channel_config :=
  match manager with
  | None => inl "gatewayManager is not initialized"%string
  | Some g => inr (option_list (privateChannel g) ++ publicChannels (publicChGroup g))
  end.

(** ** What a start establishes *)

Definition nonempty (s : string) : bool := negb (String.eqb s "").

(** What has to be there. *)
Definition ready_to_start (e : surroundings) (c : RawConfig) (s : RawSecret) : Prop :=
  nonempty (Getenv e "LAPUA_CONFIG_PATH") = true /\ nonempty (Getenv e "LAPUA_SECRET_PATH") = true /\
  nonempty (Getenv e "LAPUA_LOG_PATH") = true /\
  (Getenv e "LAPUA_FILE_LOGGING" = "true"%string -> log_opened e = true) /\
  fs_created e = true /\ config_watched e = true /\ secret_watched e = true /\
  config_file e = Some c /\ nonempty (Config.strategyName c) = true /\ secret_file e = Some s /\
  (nonempty (raw_Url s) && nonempty (raw_Token s) = true -> influx_client e = true).

Definition started_watcher (e : surroundings) (c : RawConfig) (s : RawSecret) : Watcher :=
  MkWatcher (Getenv e "LAPUA_CONFIG_PATH") (Getenv e "LAPUA_SECRET_PATH") (newConfig c) (newSecret s) None.

Definition started_exporter (s : RawSecret) (strategyName : string) : Exporter.Exporter :=
  if nonempty (raw_Url s) && nonempty (raw_Token s) then MkExporter false strategyName [] [] else MkExporter true "" [] [].

Lemma initFilePaths_spec e p :
  initFilePaths (Getenv e) = inr p <->
  nonempty (Getenv e "LAPUA_CONFIG_PATH") = true /\ nonempty (Getenv e "LAPUA_SECRET_PATH") = true /\
  nonempty (Getenv e "LAPUA_LOG_PATH") = true /\
  p = MkPaths (Getenv e "LAPUA_CONFIG_PATH") (Getenv e "LAPUA_SECRET_PATH") (Getenv e "LAPUA_LOG_PATH").
Proof.
  unfold initFilePaths, nonempty. repeat case_match; simpl; naive_solver.
Qed.

Lemma start_watcher_spec e p w :
  start_watcher e p = inr w <->
  exists c s, fs_created e = true /\ config_watched e = true /\ secret_watched e = true /\
    config_file e = Some c /\ nonempty (Config.strategyName c) = true /\ secret_file e = Some s /\
    w = MkWatcher (Lapua.configFilePath p) (Lapua.secretFilePath p) (newConfig c) (newSecret s) None.
Proof.
  unfold start_watcher, NewWatcher, readRawConfig, Config.validate.
  destruct (fs_created e), (config_watched e), (secret_watched e); simpl; try (split; [done|intros (c & s & ?); naive_solver]).
  destruct (config_file e) as [c|]; simpl; [|split; [done|intros (c' & s & ?); naive_solver]].
  change (negb (String.eqb (Config.strategyName c) "")) with (nonempty (Config.strategyName c)).
  destruct (nonempty (Config.strategyName c)) eqn:Hn; simpl;
    [|split; [done|intros (c' & s & _ & _ & _ & [= <-] & Hn' & _); congruence]].
  destruct (secret_file e) as [s|]; simpl; (split; [|intros (c' & s' & _ & _ & _ & [= <-] & _ & ? & ->); congruence]); [|done].
  intros [= <-]. by exists c, s.
Qed.

Lemma start_components_spec e w s bucketName strategyName userName app :
  secrets w = newSecret s ->
  start_components e w bucketName strategyName userName = inr app <->
  (nonempty (raw_Url s) && nonempty (raw_Token s) = true -> influx_client e = true) /\
  app = MkApplication (Some w) (started_exporter s strategyName)
    (NewClient userName (raw_InfoUrl s) (raw_WarnUrl s) (raw_EmergencyUrl s)).
Proof.
  intros Hs. unfold start_components, NewExporter, started_exporter. rewrite Hs. simpl. unfold nonempty.
  destruct (String.eqb (raw_Url s) ""), (String.eqb (raw_Token s) ""), (influx_client e); simpl; naive_solver.
Qed.

Lemma InitLogger_spec e :
  (exists b, InitLogger e = inr b) <-> (Getenv e "LAPUA_FILE_LOGGING" = "true"%string -> log_opened e = true).
Proof.
  unfold InitLogger. destruct (String.eqb_spec (Getenv e "LAPUA_FILE_LOGGING") "true") as [->|Hne]; simpl.
  - destruct (log_opened e); split; try done; [by eexists|by intros []|]. by intros H; specialize (H eq_refl).
  - split; [by intros _ ?|by eexists].
Qed.

Lemma start_files_spec e w :
  start_files e = inr w <->
  (exists p, initFilePaths (Getenv e) = inr p /\ start_watcher e p = inr w) /\
  (Getenv e "LAPUA_FILE_LOGGING" = "true"%string -> log_opened e = true).
Proof.
  rewrite <- InitLogger_spec. unfold start_files. destruct (initFilePaths (Getenv e)) as [panic|p].
  { split; [done|]. by intros [(p & [=] & _) _]. }
  destruct (InitLogger e) as [panic|b].
  - split; [done|]. by intros [_ [b [=]]].
  - split; [intros Hw; split; [by exists p|by exists b]|]. by intros [(p' & [= <-] & Hw) _].
Qed.

(** C39: the application starts exactly if the three paths are set, the file of the log can be opened
    if there is to be one, the files can be watched and read, the configuration names a
    strategy and the client of InfluxDB, where there is a URL and a token, can be made; then
    it has the parameters and secrets of the files, an exporter that writes exactly if there
    are a URL and a token, and a client of Discord for the URLs of the file. *)
Theorem startup_spec e app :
  InitAndStart e = inr app <->
  exists c s, ready_to_start e c s /\
    app = MkApplication (Some (started_watcher e c s)) (started_exporter s (Config.strategyName c))
      (NewClient (Config.strategyName c) (raw_InfoUrl s) (raw_WarnUrl s) (raw_EmergencyUrl s)).
Proof.
  unfold ready_to_start. transitivity (exists w, start_files e = inr w /\
    start_components e w (Name (config w)) (Name (config w)) (Name (config w)) = inr app).
  { unfold InitAndStart. destruct (start_files e) as [err|w]; [split; [done|by intros (w & [=] & _)]|].
    split; [intros H; by exists w|by intros (w' & [= <-] & H)]. }
  setoid_rewrite start_files_spec. setoid_rewrite initFilePaths_spec. setoid_rewrite start_watcher_spec. split.
  - intros (w & [(p & (H1 & H2 & H3 & ->) & c & s & H4 & H5 & H6 & H7 & H8 & H9 & ->) Hlog] & Hc).
    apply (start_components_spec _ _ s) in Hc as [Hi ->]; [|done]. exists c, s. by split_and!.
  - intros (c & s & (H1 & H2 & H3 & Hlog & H4 & H5 & H6 & H7 & H8 & H9 & Hi) & ->).
    exists (started_watcher e c s). split; [split; [|done]|by apply (start_components_spec _ _ s)].
    eexists. split; [by split_and!|]. by exists c, s.
Qed.

(** No credential gets on a public channel, of either exchange: of the channels that are started
    those with a credential are private and authenticate with it, and there is one of
    these exactly if credentials were given; the exporter has one more latency measurer. *)
Lemma secrets_stay_private cred n app g app' channels init :
  init = BybitInitGatewayManager \/ init = CoinExInitGatewayManager ->
  init cred n (Some app) = inr (g, app') -> StartGateway (Some g) = inr channels ->
  latencyMeasurers (Exporter app') = latencyMeasurers (Exporter app) ++ [NewLatencyMeasurer aggInterval] /\
  length channels = (n + match cred with Some _ => 1 | None => 0 end)%nat /\
  Forall (fun c => match credential c with
                   | Some _ => scope c = ScopeTypePrivate /\ credential c = cred /\ with_author c = true
                   | None => scope c = ScopeTypePublic
                   end) channels.
Proof.
  intros [-> | ->]; intros [= <- <-] [= <-]; simpl.
  all: split; [done|]; split; [destruct cred; simpl; rewrite length_replicate; lia|].
  all: apply Forall_app; split; [destruct cred; simpl; by repeat constructor|by apply Forall_replicate].
Qed.

End Startup.
