(* ===== verification/OrderTrip.v ===== *)
(** * An order's way to the exchange and back

    The agents of both exchanges behind one interface, [OrderGateway]: what an HTTP result
    says about a request for one order, and the response that the dealer gets for it.
    The theorems are proved of any gateway: they say what an HTTP result does to the
    order and to the dealer. *)

From S2P Require Import Prelude GoStd Decimal QDecimal Domains Symbol Errors MutexFlag MutexMap MutexSlice.
From S2P Require Import Order OrderData Position World Dealer DealerInv DealerEvents DealerSpecs.
From S2P Require Import BTree PriceLevel OrderBook Quote Trade Translate BybitMessages CoinExMessages MessagesProps.
From S2P Require Import RateLimiter Json Agent BybitAgent CoinExAgent AgentLimits AgentProps.
Local Open Scope Z_scope.

(** What an answer says: yes, with the exchange's id and time; no; nothing that can be read; or
    something on which the process panics. *)
Inductive verdict (A : Type) := Confirmed (x : A) | Rejected (e : error) | NoAnswer | Crashes.
Arguments Confirmed {A} _.
Arguments Rejected {A} _.
Arguments NoAnswer {A}.
Arguments Crashes {A}.

Definition verdict_map {A C} (f : A -> C) (v : verdict A) : verdict C :=
  match v with Confirmed x => Confirmed (f x) | Rejected e => Rejected e | NoAnswer => NoAnswer | Crashes => Crashes end.

Section Trip.
  Context {D : Decimal} {RT : GoRuntime} {HR : HttpRuntime}.

(** A response [resp] and an error, for a verdict; [stops] says whether the error of a failed
    HTTP request makes a dealer stop. *)
Definition answers {A R} (stops : bool) (r : http_result) (empty : R) (with_Err : error -> R) (confirmed : A -> R)
    (v : verdict A) (h : handler_call R) : Prop :=
  match v with
  | Confirmed x => h = Handler (confirmed x) None
  | Rejected e => h = Handler (with_Err e) None
  | NoAnswer => exists e, h = Handler empty (Some e) /\ Is e OrderIsNotExists = false /\
      critical e = (if http_failed r then stops else true)
  | Crashes => h = Crash
  end.

Class OrderGateway (X : Type) := {
  creation : option raw -> verdict (string * time);
  amendment : option raw -> verdict time;
  cancellation : option raw -> verdict unit;
  send_response : X -> Order.Order -> time -> time -> http_result -> handler_call CreateOrderResp;
  amend_response : X -> Order.Order -> AmendDetail -> time -> time -> http_result -> handler_call AmendOrderResp;
  cancel_response : X -> Order.Order -> time -> time -> http_result -> handler_call CancelOrderResp;
  http_failure_stops : bool
}.

Class OrderGatewayLaws (X : Type) `{OrderGateway X} : Prop := {
  send_law x o t1 t2 r :
    answers http_failure_stops r (MkCreateOrderResp (GetID o) "" None None None)
      (fun e => MkCreateOrderResp (GetID o) "" None None (Some e))
      (fun '(publicID, at_time) => MkCreateOrderResp (GetID o) publicID (Some at_time) (Some t2) None)
      (creation (answer r)) (send_response x o t1 t2 r);
  amend_law x o detail t1 t2 r :
    answers http_failure_stops r (MkAmendOrderResp (GetID o) None None None None)
      (fun e => MkAmendOrderResp (GetID o) None None None (Some e))
      (fun at_time => MkAmendOrderResp (GetID o) (Some detail) (Some at_time) (Some t2) None)
      (amendment (answer r)) (amend_response x o detail t1 t2 r);
  cancel_law x o t1 t2 r :
    answers http_failure_stops r (MkCancelOrderResp (GetID o) None)
      (fun e => MkCancelOrderResp (GetID o) (Some e)) (fun _ => MkCancelOrderResp (GetID o) None)
      (cancellation (answer r)) (cancel_response x o t1 t2 r)
}.

(** ** Bybit *)

Definition bybit_says (v : option raw) : verdict time :=
  match v with
  | None => NoAnswer
  | Some v =>
      match Unmarshal (dec_ptr BybitAgent.zero_BaseRespBody BybitAgent.dec_BaseRespBody) None v with
      | None => NoAnswer
      | Some None => Crashes
      | Some (Some b) =>
          if BybitMessages.IsRetCodeOK b then Confirmed (UnixMilli (TimestampMs b))
          else Rejected (BybitMessages.TranslateError b)
      end
  end.

#[export] Instance bybit_gateway : OrderGateway BybitAgent.PrivateAPIAgent := {|
  creation v := verdict_map (pair ""%string) (bybit_says v);
  amendment := bybit_says;
  cancellation v := verdict_map (fun _ => tt) (bybit_says v);
  send_response x o t1 t2 r := fst (BybitAgent.SendOrder_response o (measured x) t1 t2 r);
  amend_response x o detail t1 t2 r := fst (BybitAgent.AmendOrder_response o detail (measured x) t1 t2 r);
  cancel_response x o t1 t2 r := fst (BybitAgent.CancelOrder_response o (measured x) t1 t2 r);
  http_failure_stops := true
|}.

Lemma bybit_answers {A R} op m t1 t2 oResp we (ok : time -> R) (f : time -> A) (confirmed : A -> R) r :
  (forall t, confirmed (f t) = ok t) ->
  answers true r oResp we confirmed (verdict_map f (bybit_says (answer r)))
    (fst (BybitAgent.respond op m t1 t2 oResp we ok r)).
Proof.
  intros Hf. destruct r as [err|code b]; [by eexists|]. unfold BybitAgent.respond, answers, answer, http_failed.
  destruct (code =? StatusOK) eqn:Hc; simpl; [|by destruct b; eexists; rewrite ?Hc].
  destruct b as [err|text v]; simpl; [by eexists; rewrite ?Hc|].
  destruct (Unmarshal _ None v) as [[base|]|]; simpl; [|done|by eexists; rewrite ?Hc].
  destruct (BybitMessages.IsRetCodeOK base); simpl; [by rewrite Hf|done].
Qed.

#[export] Instance bybit_gateway_laws : OrderGatewayLaws BybitAgent.PrivateAPIAgent.
Proof.
  split; intros; simpl.
  - by apply (bybit_answers "create").
  - rewrite <- (match bybit_says (answer r) as v return verdict_map (fun t => t) v = v with
               | Confirmed _ | Rejected _ | NoAnswer | Crashes => eq_refl end).
    by apply (bybit_answers "amend").
  - by apply (bybit_answers "cancel").
Qed.

(** ** CoinEx *)

(** [need_data]: the data of the order are read. *)
Definition coinex_says (need_data : bool) (v : option raw) : verdict (option OrderRespData) :=
  match v with
  | None => NoAnswer
  | Some v =>
      match Unmarshal dec_OrderRespBody zero_OrderRespBody v with
      | None => NoAnswer
      | Some b =>
          if CoinExMessages.IsRetCodeOK (or_Base b)
          then match or_Data b with
               | None => if need_data then Crashes else Confirmed None
               | Some d => Confirmed (Some d)
               end
          else Rejected (CoinExMessages.TranslateError (or_Base b))
      end
  end.

Definition exchange_time (d : option OrderRespData) : time := UnixMilli (match d with Some d => UpdatedAt d | None => 0 end).
Definition exchange_id (d : option OrderRespData) : string :=
  FormatInt (match d with Some d => PublicOrderID d | None => 0 end).

#[export] Instance coinex_gateway : OrderGateway CoinExAgent.PrivateAPIAgent := {|
  creation v := verdict_map (fun d => (exchange_id d, exchange_time d)) (coinex_says true v);
  amendment v := verdict_map exchange_time (coinex_says true v);
  cancellation v := verdict_map (fun _ => tt) (coinex_says false v);
  send_response _ o _ t2 r := CoinExAgent.SendOrder_response o t2 r;
  amend_response _ o detail _ t2 r := CoinExAgent.AmendOrder_response o detail t2 r;
  cancel_response _ o _ _ r := CoinExAgent.CancelOrder_response o r;
  http_failure_stops := false
|}.

Lemma coinex_answers {A R} (need : bool) what (wt : bool) oResp (we : error -> R) ok (f : option OrderRespData -> A) (confirmed : A -> R) r :
  (forall b d, or_Data b = Some d -> ok b = Handler (confirmed (f (Some d))) None) ->
  (forall b, or_Data b = None -> ok b = if need then Crash else Handler (confirmed (f None)) None) ->
  answers false r oResp we confirmed (verdict_map f (coinex_says need (answer r)))
    (CoinExAgent.respond readOrderRespBody or_Base what wt oResp (fun e => Handler (we e) None) ok r).
Proof.
  intros Hd Hn. destruct r as [err|code b]; [by eexists|]. unfold CoinExAgent.respond, answers, answer, http_failed.
  destruct (code =? StatusOK) eqn:Hc; simpl; [|by destruct b; eexists; rewrite ?Hc].
  destruct b as [err|text v]; simpl; [by destruct wt; eexists; rewrite ?Hc|].
  destruct (Unmarshal _ _ v) as [base|]; simpl; [|by destruct wt; eexists; rewrite ?Hc].
  destruct (CoinExMessages.IsRetCodeOK (or_Base base)); simpl; [|done].
  destruct (or_Data base) as [d|] eqn:E; simpl; [by rewrite (Hd _ _ E)|]. rewrite (Hn _ E). by destruct need.
Qed.

#[export] Instance coinex_gateway_laws : OrderGatewayLaws CoinExAgent.PrivateAPIAgent.
Proof.
  split; intros; simpl; apply coinex_answers.
  all: intros b.
  all: try (intros d' Hd'; by rewrite Hd').
  all: intros Hn; by rewrite ?Hn.
Qed.

(** ** Any gateway *)

Section Generic.
  Context {X : Type} `{OrderGatewayLaws X} (x : X).

(** Whether a dealer that accepts orders still does after an answer. *)
Definition goes_on_accepting {A} (v : verdict A) (r : http_result) : bool :=
  match v with
  | Confirmed _ => true
  | Rejected e => Is e OrderIsNotExists || negb (critical e)
  | NoAnswer => negb (if http_failed r then http_failure_stops else true)
  | Crashes => false
  end.

Definition accepting (w : World) : bool := MutexFlag.Get (acceptOrder (dealer w)).

(** Who panics: [None]. *)
Definition delivered {R} (h : handler_call R) (handler : R -> option error -> prog unit) : option (prog unit) :=
  match h with Handler resp err => Some (handler resp err) | Crash => None end.

Lemma reported_accepts e w w' b :
  reported e w w' -> critical e = b -> accepting w' = accepting w && negb b.
Proof. intros [Ha _] <-. exact Ha. Qed.

Lemma unreported_accepts w w' : unreported w w' -> accepting w' = accepting w && true.
Proof. intros [Ha _]. unfold accepting. by rewrite Ha, andb_true_r. Qed.

(** C12: an order that is being sent becomes what the answer of its exchange says: pending, with the
    exchange's id and time, if it was accepted (a market order waits for its fill); done
    and rejected, with its callbacks started, if it was refused and also if the answer
    got lost; nothing else happens to the order, and the dealer goes on accepting orders
    unless the exchange's error is critical or, by gateway, the request failed.  The process
    panics for the answers on which the agent does, and for no other. *)
Theorem creation_trip w l o order t1 t2 r :
  awaiting OrderStatusSending (GetID order) w l o -> l ∉ held w ->
  match delivered (send_response x order t1 t2 r) handleSendOrderResp with
  | None => creation (answer r) = Crashes
  | Some handling => exists w', World.run handling w = Done w' tt /\ calls w' = calls w /\
      accepting w' = accepting w && match creation (answer r) with
                                    | Rejected e => negb (critical e)
                                    | v => goes_on_accepting v r
                                    end /\
      match creation (answer r) with
      | Confirmed (publicID', at_time) =>
          if IsPricable (orderType o)
          then exists o', goes_on l o' w w' /\ starts (createCallbacks o) l w w' /\ status o' = OrderStatusPending /\
            publicID o' = (if decide (publicID' = ""%string) then publicID o else publicID') /\
            arrivedAt o' = Some at_time /\ confirmedAt o' = Some t2
          else goes_on l o w w' /\ starts [] l w w'
      | _ => ends l (o <| status := OrderStatusDone |> <| orderDoneReason := Some OrderDoneReasonRejected |>) w w' /\
             starts (createRejectCallbacks o) l w w'
      end
  end.
Proof.
  intros Hw Hn. pose proof (send_law x order t1 t2 r) as Hlaw. unfold answers in Hlaw.
  destruct (creation (answer r)) as [[pid at_time]|e| |]; [| | |by rewrite Hlaw].
  - rewrite Hlaw. simpl. destruct (send_response_spec w l o (MkCreateOrderResp (GetID order) pid (Some at_time) (Some t2) None) None Hw Hn) as (w' & Hr & Hc & Hm).
    exists w'. split; [exact Hr|]. split; [exact Hc|]. simpl in Hm. destruct Hm as [Hu Hm].
    split; [by apply unreported_accepts|]. destruct (IsPricable (orderType o)); [|done].
    destruct Hm as (o' & ? & ? & ? & ? & ? & ? & ?). exists o'. by split_and!.
  - rewrite Hlaw. simpl. destruct (send_response_spec w l o (MkCreateOrderResp (GetID order) "" None None (Some e)) None Hw Hn) as (w' & Hr & Hc & He & Hs & Hrep).
    exists w'. split; [exact Hr|]. split; [exact Hc|]. split; [by eapply reported_accepts|done].
  - destruct Hlaw as (e & -> & _ & Hcrit). simpl.
    destruct (send_response_spec w l o (MkCreateOrderResp (GetID order) "" None None None) (Some e) Hw Hn) as (w' & Hr & Hc & He & Hs & Hrep).
    exists w'. split; [exact Hr|]. split; [exact Hc|]. split; [by eapply reported_accepts|done].
Qed.

(** C14: the answer to a cancellation: the order is done and canceled if the exchange says so; done and
    abandoned if the exchange does not know it; pending again otherwise. *)
Theorem cancellation_trip w l o order t1 t2 r :
  awaiting OrderStatusCanceling (GetID order) w l o -> l ∉ held w ->
  match delivered (cancel_response x order t1 t2 r) handleCancelOrderResp with
  | None => cancellation (answer r) = Crashes
  | Some handling => exists w', World.run handling w = Done w' tt /\ calls w' = calls w /\
      accepting w' = accepting w && goes_on_accepting (cancellation (answer r)) r /\
      match cancellation (answer r) with
      | Confirmed _ =>
          ends l (o <| status := OrderStatusDone |> <| orderDoneReason := Some OrderDoneReasonCanceled |>) w w' /\
          starts (cancelCallbacks o) l w w'
      | Rejected e =>
          if Is e OrderIsNotExists
          then exists o', ends l o' w w' /\ status o' = OrderStatusDone /\
            orderDoneReason o' = Some OrderDoneReasonAbandoned /\ starts [] l w w'
          else goes_on l (o <| status := OrderStatusPending |>) w w' /\ starts (cancelRejectCallbacks o) l w w'
      | _ => goes_on l (o <| status := OrderStatusPending |>) w w' /\ starts (cancelRejectCallbacks o) l w w'
      end
  end.
Proof.
  intros Hw Hn. pose proof (cancel_law x order t1 t2 r) as Hlaw. unfold answers in Hlaw.
  destruct (cancellation (answer r)) as [[]|e| |]; [| | |by rewrite Hlaw].
  - rewrite Hlaw. simpl. destruct (cancel_response_spec w l o (MkCancelOrderResp (GetID order) None) None Hw Hn) as (w' & Hr & Hc & Hu & Hs & He).
    exists w'. split; [exact Hr|]. split; [exact Hc|]. split; [by apply unreported_accepts|done].
  - rewrite Hlaw. simpl. destruct (cancel_response_spec w l o (MkCancelOrderResp (GetID order) (Some e)) None Hw Hn) as (w' & Hr & Hc & Hm).
    exists w'. split; [exact Hr|]. split; [exact Hc|]. simpl in Hm. unfold refused in Hm.
    destruct (Is e OrderIsNotExists); destruct Hm as (He & Hs & Hrep); simpl.
    + split; [by apply unreported_accepts|]. eexists. split; [exact He|done].
    + split; [by eapply reported_accepts|done].
  - destruct Hlaw as (e & -> & Hne & Hcrit). simpl.
    destruct (cancel_response_spec w l o (MkCancelOrderResp (GetID order) None) (Some e) Hw Hn) as (w' & Hr & Hc & Hm).
    exists w'. split; [exact Hr|]. split; [exact Hc|]. simpl in Hm. unfold refused in Hm. rewrite Hne in Hm.
    destruct Hm as (He & Hs & Hrep). split; [by eapply reported_accepts|done].
Qed.

(** C13: the answer to an amendment: the order is pending again, with the price and quantity of
    the detail if the exchange says yes and with its own otherwise; an order that the exchange
    does not know is done and abandoned. *)
Theorem amendment_trip w l o order detail t1 t2 r :
  awaiting OrderStatusAmending (GetID order) w l o -> l ∉ held w ->
  match delivered (amend_response x order detail t1 t2 r) handleAmendOrderResp with
  | None => amendment (answer r) = Crashes
  | Some handling => exists w', World.run handling w = Done w' tt /\ calls w' = calls w /\
      accepting w' = accepting w && goes_on_accepting (amendment (answer r)) r /\
      match amendment (answer r) with
      | Confirmed at_time =>
          exists o', goes_on l o' w w' /\ starts (amendCallbacks o) l w w' /\ status o' = OrderStatusPending /\
            price o' = Order.Price detail /\ qty o' = Order.Qty detail /\ amendingDetail o' = None /\
            arrivedAt o' = Some at_time /\ confirmedAt o' = Some t2
      | Rejected e =>
          if Is e OrderIsNotExists
          then exists o', ends l o' w w' /\ status o' = OrderStatusDone /\
            orderDoneReason o' = Some OrderDoneReasonAbandoned /\ starts [] l w w'
          else goes_on l (o <| status := OrderStatusPending |> <| amendingDetail := None |>) w w' /\
               starts (amendRejectCallbacks o) l w w'
      | _ => goes_on l (o <| status := OrderStatusPending |> <| amendingDetail := None |>) w w' /\
             starts (amendRejectCallbacks o) l w w'
      end
  end.
Proof.
  intros Hw Hn. pose proof (amend_law x order detail t1 t2 r) as Hlaw. unfold answers in Hlaw.
  destruct (amendment (answer r)) as [at_time|e| |]; [| | |by rewrite Hlaw].
  - rewrite Hlaw. simpl. destruct (amend_response_spec w l o (MkAmendOrderResp (GetID order) (Some detail) (Some at_time) (Some t2) None) None detail Hw Hn (fun _ => eq_refl)) as (w' & Hr & Hc & Hu & Hs & o' & Ho).
    exists w'. split; [exact Hr|]. split; [exact Hc|]. split; [by apply unreported_accepts|].
    exists o'. destruct Ho as (? & ? & ? & ? & ? & ? & ? & ?). by split_and!.
  - rewrite Hlaw. simpl. destruct (amend_response_spec w l o (MkAmendOrderResp (GetID order) None None None (Some e)) None detail Hw Hn) as (w' & Hr & Hc & Hm); [done|].
    exists w'. split; [exact Hr|]. split; [exact Hc|]. simpl in Hm. unfold refused in Hm.
    destruct (Is e OrderIsNotExists); destruct Hm as (He & Hs & Hrep); simpl.
    + split; [by apply unreported_accepts|]. eexists. split; [exact He|done].
    + split; [by eapply reported_accepts|done].
  - destruct Hlaw as (e & -> & Hne & Hcrit). simpl.
    destruct (amend_response_spec w l o (MkAmendOrderResp (GetID order) None None None None) (Some e) detail Hw Hn) as (w' & Hr & Hc & Hm); [done|].
    exists w'. split; [exact Hr|]. split; [exact Hc|]. simpl in Hm. unfold refused in Hm. rewrite Hne in Hm.
    destruct Hm as (He & Hs & Hrep). split; [by eapply reported_accepts|done].
Qed.

End Generic.
End Trip.

(** ** Three answers *)

#[local] Existing Instance plain_runtime.

Definition yes_42 : http_result :=
  Response 200 (Body "" (Text (JObject
    [("code", JNumber "0"); ("data", JObject [("order_id", JNumber "42"); ("updated_at", JNumber "7")])]%string))).

Definition lost : http_result := DoFailed "timeout".

Definition coinex_agent : @CoinExAgent.PrivateAPIAgent := CoinExAgent.NewPrivateAPIAgent (Agent.MkCredential "k" "s").
Definition bybit_agent : BybitAgent.PrivateAPIAgent := BybitAgent.NewPrivateAPIAgent (Agent.MkCredential "k" "s") false.

Lemma creation_trip_witness :
  exists handling w',
    delivered (send_response coinex_agent (example_order OrderStatusSending) 1 2 yes_42)
      handleSendOrderResp = Some handling /\
    World.run handling (example_world OrderStatusSending) = Done w' tt /\
    exists o', heap w' !! 0%nat = Some o' /\ status o' = OrderStatusPending /\ publicID o' = "42"%string.
Proof.
  pose proof (creation_trip coinex_agent (example_world OrderStatusSending) 0 _
    (example_order OrderStatusSending) 1 2 yes_42 (example_awaiting _) (example_held _)) as H.
  assert (creation (X := CoinExAgent.PrivateAPIAgent) (answer yes_42) = Confirmed ("42"%string, UnixMilli 7)) as Hv
    by reflexivity.
  rewrite Hv in H. destruct (delivered _ _) as [handling|] eqn:E; [|discriminate].
  destruct H as (w' & Hr & _ & _ & o' & [Hh _ _] & _ & Hs & Hp & _).
  exists handling, w'. split; [done|]. split; [exact Hr|]. exists o'. rewrite Hh, lookup_insert_eq. by split_and!.
Defined.

(** The request may have reached the exchange: Bybit's dealer stops, and the order is pending. *)
Lemma cancellation_trip_witness :
  exists handling w',
    delivered (cancel_response bybit_agent (example_order OrderStatusCanceling) 1 2 lost)
      handleCancelOrderResp = Some handling /\
    World.run handling (example_world OrderStatusCanceling) = Done w' tt /\
    accepting w' = false /\ exists o', heap w' !! 0%nat = Some o' /\ status o' = OrderStatusPending.
Proof.
  pose proof (cancellation_trip bybit_agent (example_world OrderStatusCanceling) 0 _
    (example_order OrderStatusCanceling) 1 2 lost (example_awaiting _) (example_held _)) as H.
  assert (cancellation (X := BybitAgent.PrivateAPIAgent) (answer lost) = NoAnswer) as Hv by reflexivity.
  rewrite Hv in H. destruct (delivered _ _) as [handling|] eqn:E; [|discriminate].
  destruct H as (w' & Hr & _ & Ha & [Hh _ _] & _).
  exists handling, w'. split; [done|]. split; [exact Hr|].
  split; [rewrite Ha; simpl; by rewrite andb_false_r|]. eexists. rewrite Hh, lookup_insert_eq. by split.
Defined.

(** CoinEx's dealer goes on. *)
Lemma amendment_trip_witness :
  exists handling w',
    delivered (amend_response coinex_agent (example_order OrderStatusAmending) example_detail 1 2 lost)
      handleAmendOrderResp = Some handling /\
    World.run handling (example_world OrderStatusAmending) = Done w' tt /\
    accepting w' = accepting (example_world OrderStatusAmending) /\
    exists o', heap w' !! 0%nat = Some o' /\ status o' = OrderStatusPending.
Proof.
  pose proof (amendment_trip coinex_agent (example_world OrderStatusAmending) 0 _
    (example_order OrderStatusAmending) example_detail 1 2 lost (example_awaiting _) (example_held _)) as H.
  assert (amendment (X := CoinExAgent.PrivateAPIAgent) (answer lost) = NoAnswer) as Hv by reflexivity.
  rewrite Hv in H. destruct (delivered _ _) as [handling|] eqn:E; [|discriminate].
  destruct H as (w' & Hr & _ & Ha & [Hh _ _] & _).
  exists handling, w'. split; [done|]. split; [exact Hr|].
  split; [rewrite Ha; simpl; by rewrite andb_true_r|]. eexists. rewrite Hh, lookup_insert_eq. by split.
Defined.
