(* ===== verification/Flights.v ===== *)
(** * Requests in flight and the orders that wait for them

    An order that is being sent, amended or canceled waits for an answer.  The lemmas
    follow the agent calls of each method of [Dealer.v]: an order that waits after the
    method waited before it, or the agent took a request for it during the method
    ([tracks]).  A handler of a response takes its orders out of their wait.
    The system they belong to is in [System.v]. *)

From S2P Require Import Prelude GoStd Decimal Domains Errors MutexFlag MutexMap MutexSlice Order.
From S2P Require Import OrderData Position World Dealer DealerInv DealerSteps DealerEvents.
Local Open Scope prog_scope.

(** What a request asks for. *)
Inductive RequestKind := Create | Amend | Cancel.

#[export] Instance RequestKind_eq_dec : EqDecision RequestKind.
Proof. solve_decision. Defined.

Section Flights.
  Context {D : Decimal}.

(** The answer an order waits for.  A success does not end the wait of an order without a
    price: [handleSendOrderResp] leaves it to the order data. *)
Definition waiting (o : Order) : option RequestKind :=
  match status o with
  | OrderStatusSending => if IsPricable (orderType o) then Some Create else None
  | OrderStatusAmending => Some Amend
  | OrderStatusCanceling => Some Cancel
  | _ => None
  end.

Definition request_kind (c : AgentCall) : RequestKind :=
  match c with
  | CallSendOrder _ | CallSendOrders _ => Create
  | CallAmendOrder _ _ => Amend
  | CallCancelOrder _ | CallCancelOrders _ => Cancel
  end.

Definition targets (c : AgentCall) : list loc :=
  match c with
  | CallSendOrder l | CallAmendOrder l _ | CallCancelOrder l => [l]
  | CallSendOrders ls | CallCancelOrders ls => ls
  end.

Context {AG : Agent}.

(** The requests among [new] that the agent took, after the calls [past]. *)
Fixpoint taken (past new : list AgentCall) : list AgentCall :=
  match new with
  | [] => []
  | c :: new =>
      match agent_reply past c with
      | None => c :: taken (past ++ [c]) new
      | Some _ => taken (past ++ [c]) new
      end
  end.

Lemma taken_app past new1 new2 :
  taken past (new1 ++ new2) = taken past new1 ++ taken (past ++ new1) new2.
Proof.
  revert past. induction new1 as [|c new1 IH]; intros past; simpl; [by rewrite app_nil_r|].
  rewrite IH, <- app_assoc. by case_match.
Qed.

Lemma taken_new past new c : c ∈ taken past new -> c ∈ new.
Proof.
  revert past. induction new as [|c' new IH]; intros past; simpl; [done|].
  case_match; [intros H2%IH; by right|]. intros [->|H2%IH]%elem_of_cons; [left|by right].
Qed.

Lemma taken_single past c : agent_reply past c = None -> taken past [c] = [c].
Proof. intros H. simpl. by rewrite H. Qed.

(** A request for the order at [l] of kind [k]. *)
Definition covers (k : RequestKind) (l : loc) (c : AgentCall) : Prop :=
  request_kind c = k /\ l ∈ targets c.

Definition waits (w : World) (k : RequestKind) (l : loc) : Prop :=
  exists o, heap w !! l = Some o /\ waiting o = Some k.

(** From [w] to [w'] the dealer called the agent for [new]; an order outside [ls] that
    waits in [w'] waited in [w], or is in a request that the agent took. *)
Record tracks_but (ls : list loc) (new : list AgentCall) (w w' : World) : Prop := {
  tr_calls : calls w' = calls w ++ new;
  tr_held : held w' = held w;
  tr_heap : forall l, is_Some (heap w !! l) -> is_Some (heap w' !! l);
  tr_targets : forall c l, c ∈ new -> l ∈ targets c -> is_Some (heap w' !! l);
  tr_waits : forall k l, l ∉ ls -> waits w' k l ->
    waits w k l \/ exists c, c ∈ taken (calls w) new /\ covers k l c
}.

Definition tracks := tracks_but [].

(** Methods that do not call the agent. *)
Definition calm := tracks [].

Lemma calm_refl w : calm w w.
Proof.
  constructor; [by rewrite app_nil_r|done|done|by intros c l ?%not_elem_of_nil|].
  intros k l _ Hk. by left.
Qed.

Lemma tracks_trans new1 new2 w1 w2 w3 :
  tracks new1 w1 w2 -> tracks new2 w2 w3 -> tracks (new1 ++ new2) w1 w3.
Proof.
  intros [Hc1 Hh1 Hp1 Ht1 Hw1] [Hc2 Hh2 Hp2 Ht2 Hw2]. constructor.
  - by rewrite Hc2, Hc1, app_assoc.
  - congruence.
  - auto.
  - intros c l [Hc|Hc]%elem_of_app Hl; eauto.
  - intros k l Hl Hk. rewrite taken_app, <- Hc1.
    destruct (Hw2 k l Hl Hk) as [Hk2|(c & Hc & Hcov)].
    + destruct (Hw1 k l Hl Hk2) as [|(c & Hc & Hcov)]; [by left|]. right. exists c. by rewrite elem_of_app; auto.
    + right. exists c. rewrite elem_of_app. auto.
Qed.

Lemma calm_tracks new w1 w2 w3 : calm w1 w2 -> tracks new w2 w3 -> tracks new w1 w3.
Proof. apply tracks_trans. Qed.

Lemma tracks_calm new w1 w2 w3 : tracks new w1 w2 -> calm w2 w3 -> tracks new w1 w3.
Proof. intros H1 H2. rewrite <- (app_nil_r new). by eapply tracks_trans. Qed.

Lemma calm_trans w1 w2 w3 : calm w1 w2 -> calm w2 w3 -> calm w1 w3.
Proof. apply tracks_trans. Qed.

(** The orders of [ls] exist and wait for nothing. *)
Definition at_rest (ls : list loc) (w : World) : Prop :=
  forall l, l ∈ ls -> exists o, heap w !! l = Some o /\ waiting o = None.

Lemma at_rest_waits ls w k l : at_rest ls w -> l ∈ ls -> ~ waits w k l.
Proof. intros Hr Hl (o & Ho & Hk). destruct (Hr l Hl) as (o' & Ho' & Hn). congruence. Qed.

(** Orders brought to rest after a refusal need no request. *)
Lemma tracks_reset ls new w w1 w2 :
  tracks_but ls new w w1 -> calm w1 w2 -> at_rest ls w2 -> tracks new w w2.
Proof.
  intros [Hc1 Hh1 Hp1 Ht1 Hw1] [Hc2 Hh2 Hp2 _ Hw2] Hr. rewrite app_nil_r in Hc2. constructor.
  - by rewrite Hc2.
  - congruence.
  - auto.
  - eauto.
  - intros k l _ Hk. destruct (decide (l ∈ ls)) as [Hl|Hl]; [by edestruct at_rest_waits|].
    destruct (Hw2 k l (not_elem_of_nil l) Hk) as [Hk2|(c & Hc & _)]; [by apply Hw1|].
    by apply not_elem_of_nil in Hc.
Qed.

(** ** A change of one order *)

(** [w'] is [w] with the order at [l] changed from [o] to [o'], but for fields that say
    nothing about the waits. *)
Definition sets (l : loc) (o o' : Order) (w w' : World) : Prop :=
  heap w !! l = Some o /\ heap w' = <[l := o']> (heap w) /\ calls w' = calls w /\ held w' = held w.

Lemma sets_lookup l o o' w w' : sets l o o' w w' -> heap w' !! l = Some o'.
Proof. intros (_ & -> & _). apply lookup_insert_eq. Qed.

Lemma sets_is_Some l o o' w w' l2 : sets l o o' w w' -> is_Some (heap w !! l2) -> is_Some (heap w' !! l2).
Proof. intros (_ & -> & _). rewrite lookup_insert_is_Some'. auto. Qed.

Lemma sets_waits l o o' w w' k l2 :
  sets l o o' w w' -> waits w' k l2 -> (l2 = l /\ waiting o' = Some k) \/ (l2 <> l /\ waits w k l2).
Proof.
  intros (_ & Hh & _) (o2 & H2 & Hk). rewrite Hh in H2.
  apply lookup_insert_Some in H2 as [[<- <-]|[Hne H2]]; [by left|]. right. split; [done|by exists o2].
Qed.

Lemma sets_calm l o o' w w' :
  sets l o o' w w' -> waiting o' = waiting o \/ waiting o' = None -> calm w w'.
Proof.
  intros Hs Hk. pose proof Hs as (Ho & _ & Hc & Hh). constructor.
  - by rewrite app_nil_r.
  - done.
  - intros l2. by eapply sets_is_Some.
  - by intros c l2 ?%not_elem_of_nil.
  - intros k l2 _ [[-> Hk2]|[_ H2]]%(sets_waits _ _ _ _ _ _ _ Hs); left; [|done].
    exists o. split; [done|]. destruct Hk; congruence.
Qed.

(** *** Requests *)

(** A list that covers more. *)
Lemma tracks_but_mono ls ls' new w w' :
  (forall l, l ∈ ls -> l ∈ ls') -> tracks_but ls new w w' -> tracks_but ls' new w w'.
Proof. intros Hsub []. constructor; try done. intros k l Hl. apply tr_waits0. auto. Qed.

Lemma calm_tracks_but ls new w w1 w2 : calm w w1 -> tracks_but ls new w1 w2 -> tracks_but ls new w w2.
Proof.
  intros [Hc1 Hh1 Hp1 _ Hw1] [Hc2 Hh2 Hp2 Ht2 Hw2]. rewrite app_nil_r in Hc1. constructor.
  - by rewrite Hc2, Hc1.
  - congruence.
  - auto.
  - eauto.
  - intros k l Hl Hk. rewrite <- Hc1. destruct (Hw2 k l Hl Hk) as [Hk2|]; [|by right].
    destruct (Hw1 k l (not_elem_of_nil l) Hk2) as [|(c & Hc & _)]; [by left|]. by apply not_elem_of_nil in Hc.
Qed.

(** A change of an order of the list. *)
Lemma tracks_but_sets ls l o o' w w1 w2 :
  tracks_but ls [] w w1 -> l ∈ ls -> sets l o o' w1 w2 -> tracks_but ls [] w w2.
Proof.
  intros [Hc1 Hh1 Hp1 _ Hw1] Hl Hs. pose proof Hs as (_ & _ & Hc & Hh). constructor.
  - by rewrite Hc.
  - congruence.
  - intros l2 H2. eapply sets_is_Some; eauto.
  - by intros c l2 ?%not_elem_of_nil.
  - intros k l2 H2 [[-> _]|[_ Hk]]%(sets_waits _ _ _ _ _ _ _ Hs); [done|auto].
Qed.

(** The call for the orders of a list, after they were marked. *)
Lemma tracks_call c w w1 w2 :
  tracks_but (targets c) [] w w1 ->
  (forall l, l ∈ targets c -> exists o, heap w1 !! l = Some o /\
     (waiting o = None \/ waiting o = Some (request_kind c))) ->
  heap w2 = heap w1 -> held w2 = held w1 -> calls w2 = calls w1 ++ [c] ->
  tracks_but (targets c) [c] w w2 /\ (agent_reply (calls w) c = None -> tracks [c] w w2).
Proof.
  intros [Hc1 Hh1 Hp1 _ Hw1] Hm Hheap Hheld Hcalls. rewrite app_nil_r in Hc1.
  assert (forall k l, waits w2 k l -> waits w1 k l) as Hsame by (intros k l; unfold waits; by rewrite Hheap).
  assert (forall ls, (forall k l, l ∉ ls -> waits w2 k l ->
      waits w k l \/ exists c', c' ∈ taken (calls w) [c] /\ covers k l c') -> tracks_but ls [c] w w2) as Hmk.
  { intros ls Hw. constructor; [congruence|congruence|intros l; rewrite Hheap; apply Hp1| |exact Hw].
    intros c' l ->%list_elem_of_singleton Hl. rewrite Hheap.
    destruct (Hm l Hl) as (o & Ho & _). eauto. }
  assert (forall k l, l ∉ targets c -> waits w2 k l -> waits w k l) as Hout.
  { intros k l Hl Hk%Hsame. destruct (Hw1 k l Hl Hk) as [|(c' & Hc & _)]; [done|].
    by apply not_elem_of_nil in Hc. }
  split; [apply Hmk; intros k l Hl Hk; left; by apply Hout|].
  intros Hr. apply Hmk. intros k l _ Hk.
  destruct (decide (l ∈ targets c)) as [Hl|Hl]; [|left; by apply Hout].
  right. exists c. rewrite taken_single by done. split; [left|]. split; [|done].
  apply Hsame in Hk as (o & Ho & Hk). destruct (Hm l Hl) as (o' & Ho' & Hm'). destruct Hm'; congruence.
Qed.

(** The same for one order, whose change and call are one block. *)
Lemma sets_call c l o o' w w' :
  heap w !! l = Some o -> targets c = [l] -> waiting o' = None \/ waiting o' = Some (request_kind c) ->
  heap w' = <[l := o']> (heap w) -> held w' = held w -> calls w' = calls w ++ [c] ->
  tracks_but [l] [c] w w' /\ (agent_reply (calls w) c = None -> tracks [c] w w').
Proof.
  intros Ho Ht Hk Hheap Hheld Hcalls. set (w1 := w <| heap := <[l := o']> (heap w) |>).
  assert (sets l o o' w w1) as Hs by done. rewrite <- Ht. apply (tracks_call c w w1); try done; rewrite Ht.
  - eapply tracks_but_sets; [|left|exact Hs].
    eapply tracks_but_mono; [|apply calm_refl]. by intros l2 ?%not_elem_of_nil.
  - intros l2 ->%list_elem_of_singleton. exists o'. split; [by eapply sets_lookup|done].
Qed.

(** Changes outside the orders. *)
Lemma same_calm w w' :
  heap w' = heap w -> calls w' = calls w -> held w' = held w -> calm w w'.
Proof.
  intros Hh Hc Hl. constructor; [by rewrite app_nil_r|done|by rewrite Hh|by intros c l ?%not_elem_of_nil|].
  intros k l _. unfold waits. rewrite Hh. by left.
Qed.

(** Locks taken and given back. *)
Lemma tracks_but_unlock ls new l w w' :
  l ∉ held w -> tracks_but ls new (acquire l w) w' -> tracks_but ls new w (release l w').
Proof. intros Hn []. constructor; try done. simpl in *. rewrite tr_held0. set_solver. Qed.

End Flights.

Arguments calm {D AG}.
Arguments tracks {D AG}.
