(* ===== verification/FlightSteps.v ===== *)
(** * The requests of each method of the dealer

    For each method of [Dealer.v], what [tracks] of [Flights.v] says of it: operations and
    callbacks leave no order waiting without a request that the agent took, handlers call
    no agent, and a handler of a response takes the orders it is about out of their wait. *)

From S2P Require Import Prelude GoStd Decimal Domains Errors MutexFlag MutexMap MutexSlice Order.
From S2P Require Import OrderData Position World Dealer DealerInv DealerSteps DealerEvents Flights.
Local Open Scope prog_scope.

(** The change of one order that a block computes. *)
Ltac solve_sets :=
  eexists _, _; split;
  [ split; [eassumption|split; [simpl; rewrite ?insert_insert_eq; reflexivity|done]]
  | first [done|by left|by right] ].

Section Steps.
  Context {D : Decimal} {RT : GoRuntime} {AG : Agent}.

(** A block brings its order to rest. *)
Definition rests (l : loc) (w w' : World) : Prop :=
  exists o o', sets l o o' w w' /\ waiting o' = None.

(** A block leaves the wait of its order alone, or ends it. *)
Definition eases (l : loc) (w w' : World) : Prop :=
  exists o o', sets l o o' w w' /\ (waiting o' = waiting o \/ waiting o' = None).

Lemma rests_eases l w w' : rests l w w' -> eases l w w'.
Proof. intros (o & o' & Hs & Hn). exists o, o'. auto. Qed.

Lemma eases_calm l w w' : eases l w w' -> calm w w'.
Proof. intros (o & o' & Hs & Hn). by eapply sets_calm. Qed.

Lemma rests_at_rest l w w' : rests l w w' -> at_rest [l] w'.
Proof.
  intros (o & o' & Hs & Hn) l2 ->%list_elem_of_singleton. exists o'. split; [by eapply sets_lookup|done].
Qed.

Lemma calm_at_rest ls w w' : calm w w' -> at_rest ls w -> at_rest ls w'.
Proof.
  intros Hc Hr l Hl. destruct (Hr l Hl) as (o & Ho & Hn).
  destruct (tr_heap _ _ _ _ Hc l) as [o' Ho']; [by eexists|]. exists o'. split; [done|].
  destruct (waiting o') as [k|] eqn:Hk; [|done].
  destruct (tr_waits _ _ _ _ Hc k l (not_elem_of_nil l)) as [Hw|(c & Hcn & _)]; [by exists o'|..].
  - by destruct (at_rest_waits _ _ k l Hr Hl).
  - by apply not_elem_of_nil in Hcn.
Qed.

(** ** The blocks *)

Lemma rejectCreate_rests l w o : heap w !! l = Some o -> wp (rejectCreate l) w (fun w' _ => rests l w w').
Proof. intros Hl. wp_sym. solve_sets. Qed.

Lemma acceptCancel_rests l w o : heap w !! l = Some o -> wp (acceptCancel l) w (fun w' _ => rests l w w').
Proof. intros Hl. wp_sym. solve_sets. Qed.

Lemma abandonOrder_rests l w o : heap w !! l = Some o -> wp (abandonOrder l) w (fun w' _ => rests l w w').
Proof. intros Hl. wp_sym. split_times; solve_sets. Qed.

Lemma fill_body_rests l w o data :
  heap w !! l = Some o ->
  wp (setOrderFillInfo l data ;; acceptFilled l) w (fun w' _ => rests l w w').
Proof. intros Hl. wp_sym. case_decide; wp_sym; split_times; solve_sets. Qed.

Lemma partial_body_eases l w o data :
  heap w !! l = Some o ->
  wp (setOrderPartiallyFillInfo l data ;; acceptPartiallyFilled l) w (fun w' _ => eases l w w').
Proof. intros Hl. wp_sym. case_decide; wp_sym; solve_sets. Qed.

Lemma acceptCreate_rests l w o pid t1 t2 :
  heap w !! l = Some o -> wp (acceptCreate l pid t1 t2) w (fun w' _ => rests l w w').
Proof. intros Hl. wp_sym. case_decide; wp_sym; split_times; solve_sets. Qed.

Lemma acceptAmend_rests l w o detail t1 t2 :
  heap w !! l = Some o -> wp (acceptAmend l (Some detail) t1 t2) w (fun w' _ => rests l w w').
Proof. intros Hl. wp_sym. split_times; solve_sets. Qed.

Lemma rejectAmend_rests l w o : heap w !! l = Some o -> wp (rejectAmend l) w (fun w' _ => rests l w w').
Proof. intros Hl. wp_sym. solve_sets. Qed.

Lemma rejectCancel_rests l w o : heap w !! l = Some o -> wp (rejectCancel l) w (fun w' _ => rests l w w').
Proof. intros Hl. wp_sym. solve_sets. Qed.

Lemma noticeError_calm w err : wp (noticeError err) w (fun w' _ => calm w w').
Proof. unfold noticeError. by repeat case_match; apply same_calm. Qed.

(** ** Locked blocks and loops of them *)

Lemma sets_unlock l l2 o o' w w' :
  l2 ∉ held w -> sets l o o' (acquire l2 w) w' -> sets l o o' w (release l2 w').
Proof. intros Hn (Ho & Hh & Hc & Hl). repeat split; try done. simpl in *. rewrite Hl. set_solver. Qed.

Lemma rests_unlock l w w' : l ∉ held w -> rests l (acquire l w) w' -> rests l w (release l w').
Proof. intros Hn (o & o' & Hs & Hk). exists o, o'. split; [by apply sets_unlock|done]. Qed.

Lemma eases_unlock l w w' : l ∉ held w -> eases l (acquire l w) w' -> eases l w (release l w').
Proof. intros Hn (o & o' & Hs & Hk). exists o, o'. split; [by apply sets_unlock|done]. Qed.

Lemma calm_unlock l w w' : l ∉ held w -> calm (acquire l w) w' -> calm w (release l w').
Proof. apply tracks_but_unlock. Qed.

(** A reject loop brings all its orders to rest. *)
Lemma for_each_rests (body : loc -> prog unit) w orders :
  (forall l w o, heap w !! l = Some o -> wp (body l) w (fun w' _ => rests l w w')) ->
  held w = ∅ -> (forall l, l ∈ orders -> is_Some (heap w !! l)) ->
  wp (for_each orders (fun l => WithOpLock l (body l))) w
    (fun w' _ => calm w w' /\ at_rest orders w').
Proof.
  intros Hbody Hn Hin. eapply wp_mono.
  - apply (wp_for_each (fun rest w' => calm w w' /\ (forall l, l ∈ rest -> l ∈ orders) /\
      forall l, l ∈ orders -> l ∈ rest \/ at_rest [l] w')).
    { split; [apply calm_refl|]. split; [done|by left]. }
    intros l rest w1 (Hc & Hsub & Hall).
    assert (l ∉ held w1) as Hn1 by (rewrite (tr_held _ _ _ _ Hc), Hn; apply not_elem_of_empty).
    destruct (tr_heap _ _ _ _ Hc l) as [o Ho]; [apply Hin, Hsub; left|].
    apply wp_WithOpLock; [done|]. eapply wp_mono; [by eapply Hbody|]. intros w2 [] Hr.
    apply rests_unlock in Hr; [|done]. pose proof (eases_calm _ _ _ (rests_eases _ _ _ Hr)) as Hc2.
    split; [by eapply calm_trans|]. split; [intros l2 H2; apply Hsub; by right|].
    intros l2 [[->|H2]%elem_of_cons|H2]%Hall; [right; by eapply rests_at_rest|by left|].
    right. by eapply calm_at_rest.
  - intros w' [] (Hc & _ & Hall). split; [done|]. intros l Hl.
    destruct (Hall l Hl) as [?%not_elem_of_nil|Hr]; [done|]. apply Hr. left.
Qed.

(** ** Handlers of responses *)

Definition kind_status (k : RequestKind) : OrderStatus :=
  match k with
  | Create => OrderStatusSending | Amend => OrderStatusAmending | Cancel => OrderStatusCanceling
  end.

Lemma waiting_status o k : waiting o = Some k -> status o = kind_status k.
Proof. unfold waiting. destruct (status o); try done; [case_match|..]; by intros [= <-]. Qed.

(** The orders with the id [x] do not wait for an answer of kind [k]. *)
Definition quits (k : RequestKind) (x : string) (w w' : World) : Prop :=
  forall l o, heap w !! l = Some o -> id o = x -> ~ waits w' k l.

Lemma calm_waits w w' k l : calm w w' -> waits w' k l -> waits w k l.
Proof.
  intros Hc Hk. destruct (tr_waits _ _ _ _ Hc k l (not_elem_of_nil l) Hk) as [|(c & Hcn & _)]; [done|].
  by apply not_elem_of_nil in Hcn.
Qed.

(** A waiting order is found under its id. *)
Lemma waits_found E w k l o :
  WF E w -> heap w !! l = Some o -> waits w k l -> found w (kind_status k) (id o) l.
Proof.
  intros Hwf Ho (o' & Ho' & Hk%waiting_status). assert (o' = o) as -> by congruence.
  exists o. split; [|done]. apply (wf_active _ _ Hwf); [apply not_elem_of_empty|done|]. rewrite Hk. by destruct k.
Qed.

(** The handlers of one response: look up the order, then a locked block. *)
Lemma answer_one E w k x (body : loc -> prog unit) :
  WF E w -> held w = ∅ ->
  (forall l o, heap w !! l = Some o -> status o = kind_status k ->
     wp (body l) (acquire l w) (fun w' _ => calm (acquire l w) w' /\ ~ waits w' k l)) ->
  wp (order <- get_if LivingOrders (kind_status k) x ;;
      match order with None => Ret tt | Some order => WithOpLock order (body order) end) w
    (fun w' _ => calm w w' /\ quits k x w w').
Proof.
  intros Hwf Hn Hbody. rewrite wp_bind. apply (get_if_wp E); [done|..].
  - intros Hno. split; [apply calm_refl|]. intros l o Ho <- Hk. by eapply Hno, waits_found.
  - intros l (o & Hk & Ho & Hid & Hs). assert (l ∉ held w) as Hnl by by rewrite Hn.
    apply wp_WithOpLock; [done|]. eapply wp_mono; [by eapply Hbody|]. intros w' [] [Hc Hq].
    apply calm_unlock in Hc; [|done]. split; [done|]. intros l2 o2 Ho2 Hid2 Hw.
    pose proof (calm_waits _ _ _ _ Hc Hw) as Hw0.
    destruct (waits_found _ _ _ _ _ Hwf Ho2 Hw0) as (_ & Hk2 & _). rewrite Hid2, Hk in Hk2.
    injection Hk2 as <-. by apply Hq.
Qed.

(** Blocks that bring the order to rest, as bodies of [answer_one]. *)
Lemma rests_quits (p : prog unit) l w k :
  wp p w (fun w' _ => rests l w w') -> wp p w (fun w' _ => calm w w' /\ ~ waits w' k l).
Proof.
  intros Hp. eapply wp_mono; [exact Hp|]. intros w' [] Hr.
  split; [by eapply eases_calm, rests_eases|]. intros Hw.
  by eapply at_rest_waits; [by eapply rests_at_rest|left|exact Hw].
Qed.

Lemma rests_notice_quits (p : prog unit) err l w k :
  wp p w (fun w' _ => rests l w w') ->
  wp (p ;; noticeError err) w (fun w' _ => calm w w' /\ ~ waits w' k l).
Proof.
  intros Hp. rewrite wp_bind. eapply wp_mono; [by apply (rests_quits p l w k)|]. intros w1 [] [Hc Hq].
  eapply wp_mono; [apply noticeError_calm|]. intros w2 [] Hc2. split; [by eapply calm_trans|].
  intros Hw. by eapply Hq, calm_waits.
Qed.

Lemma handleSendOrderResp_answers E w resp err :
  WF E w -> held w = ∅ ->
  wp (handleSendOrderResp resp err) w (fun w' _ => calm w w' /\ quits Create (cr_OrderID resp) w w').
Proof.
  intros Hwf Hn. apply (answer_one E w Create); [done..|]. intros l o Ho Hs. simpl in Hs.
  assert (heap (acquire l w) !! l = Some o) as Hl by done.
  destruct err as [err|]; [eapply rests_notice_quits; by eapply rejectCreate_rests|].
  destruct (cr_Err resp) as [err|]; [eapply rests_notice_quits; by eapply rejectCreate_rests|].
  wp_sym. unfold GetStatus. rewrite decide_True by done. wp_sym.
  assert (IsPricable (orderType o) = false -> calm (acquire l w) (acquire l w) /\ ~ waits (acquire l w) Create l) as Hmarket.
  { intros Hp. split; [apply calm_refl|]. intros (o' & Ho' & Hk). simpl in Ho'. rewrite Ho in Ho'.
    injection Ho' as <-. unfold waiting in Hk. by rewrite Hs, Hp in Hk. }
  unfold GetOrderType. destruct (orderType o); try by apply Hmarket.
  all: eapply rests_quits, acceptCreate_rests; exact Hl.
Qed.

Lemma handleAmendOrderResp_answers E w resp err :
  WF E w -> held w = ∅ -> (err = None -> ar_Err resp = None -> is_Some (ar_Detail resp)) ->
  wp (handleAmendOrderResp resp err) w (fun w' _ => calm w w' /\ quits Amend (ar_OrderID resp) w w').
Proof.
  intros Hwf Hn Hdet. apply (answer_one E w Amend); [done..|]. intros l o Ho Hs.
  assert (heap (acquire l w) !! l = Some o) as Hl by done.
  destruct err as [err|]; [|destruct (ar_Err resp) as [err|]].
  3: { destruct Hdet as [detail ->]; [done..|]. by eapply rests_quits, acceptAmend_rests. }
  all: case_match; [by eapply rests_quits, abandonOrder_rests|].
  all: eapply rests_notice_quits; by eapply rejectAmend_rests.
Qed.

Lemma handleCancelOrderResp_answers E w resp err :
  WF E w -> held w = ∅ ->
  wp (handleCancelOrderResp resp err) w (fun w' _ => calm w w' /\ quits Cancel (xr_OrderID resp) w w').
Proof.
  intros Hwf Hn. apply (answer_one E w Cancel); [done..|]. intros l o Ho Hs.
  assert (heap (acquire l w) !! l = Some o) as Hl by done.
  destruct err as [err|]; [|destruct (xr_Err resp) as [err|]].
  3: by eapply rests_quits, acceptCancel_rests.
  all: case_match; [by eapply rests_quits, abandonOrder_rests|].
  all: eapply rests_notice_quits; by eapply rejectCancel_rests.
Qed.

(** ** Batches *)

(** The orders of [ls] no longer wait for an answer of kind [k]. *)
Definition quit (k : RequestKind) (ls : list loc) (w : World) : Prop :=
  forall l, l ∈ ls -> ~ waits w k l.

(** The answers of a batch, each about the order it stands for. *)
Lemma each_response_answers {R} (handle : R -> prog unit) E w k orders
    (resps : gmap string (option R)) :
  (forall w x resp, WF E w -> held w = ∅ -> resps !! x = Some (Some resp) ->
     wp (handle resp) w (fun w' _ => ok E w w' /\ calm w w' /\ quits k x w w')) ->
  WF E w -> held w = ∅ ->
  (forall x r, resps !! x = Some r -> is_Some r) ->
  (forall l, l ∈ orders -> exists x, is_Some (resps !! x) /\ found w (kind_status k) x l) ->
  wp (each_response orders resps handle) w (fun w' _ => calm w w' /\ quit k orders w').
Proof.
  intros Hh Hwf Hn Hnil Hf. eapply wp_mono.
  - apply (wp_for_each (fun rest w' => ok E w w' /\ calm w w' /\ (forall l, l ∈ rest -> l ∈ orders) /\
      forall l, l ∈ orders -> l ∈ rest \/ ~ waits w' k l)).
    { split; [by apply ok_refl|]. split; [apply calm_refl|]. split; [done|by left]. }
    intros l rest w1 (Hok & Hc & Hsub & Hall).
    destruct (Hf l) as (x & [r Hr] & o & _ & Ho & Hid & _); [apply Hsub; left|].
    destruct (Hnil _ _ Hr) as [resp ->].
    destruct (ok_evolves _ _ _ Hok _ _ Ho) as (o1 & Ho1 & Hid1 & _).
    assert (resps !! GetID o1 = Some (Some resp)) as Hget by (unfold GetID; by rewrite Hid1, Hid).
    wp_sym. rewrite Hget. simpl. eapply wp_mono.
    { apply (Hh w1 x); [apply Hok|by rewrite (ok_held _ _ _ Hok)|done]. }
    intros w2 [] (Hok2 & Hc2 & Hq). split; [by eapply ok_trans|]. split; [by eapply calm_trans|].
    split; [intros l2 H2; apply Hsub; by right|].
    intros l2 [[->|H2]%elem_of_cons|H2]%Hall; [right; apply (Hq l o1); congruence|by left|].
    right. intros Hw. by eapply H2, calm_waits.
  - intros w' [] (_ & Hc & _ & Hall). split; [done|]. intros l Hl.
    destruct (Hall l Hl) as [?%not_elem_of_nil|]; done.
Qed.

(** The three batch handlers. *)
Lemma answer_batch {R} (handle : R -> prog unit) (reject : list loc -> prog unit) E w k
    (resps : gmap string (option R)) (err : option error) :
  (forall w orders, held w = ∅ -> (forall l, l ∈ orders -> is_Some (heap w !! l)) ->
     wp (reject orders) w (fun w' _ => calm w w' /\ at_rest orders w')) ->
  (err = None -> forall w x resp, WF E w -> held w = ∅ -> resps !! x = Some (Some resp) ->
     wp (handle resp) w (fun w' _ => ok E w w' /\ calm w w' /\ quits k x w w')) ->
  WF E w -> held w = ∅ ->
  (err = None -> forall x r, resps !! x = Some r -> is_Some r) ->
  wp (ids <- range_keys resps ;;
      orders <- gets_if LivingOrders (kind_status k) ids ;;
      match err with
      | Some err => reject orders ;; noticeError err
      | None => each_response orders resps handle
      end) w (fun w' _ => calm w w' /\ forall x, is_Some (resps !! x) -> quits k x w w').
Proof.
  intros Hrej Hh Hwf Hn Hnil. rewrite wp_bind.
  eapply wp_mono; [|intros w1 ids H; rewrite wp_bind; exact H].
  apply (range_gets_wp E); [done|]. intros w1 orders Hnd Hf.
  assert (calm w w1) as Hc1 by by apply same_calm.
  assert (WF E w1) as Hwf1 by (eapply ok_wf, quiet_ok; [exact Hwf|by repeat constructor]).
  enough (wp (match err with
              | Some err => reject orders ;; noticeError err
              | None => each_response orders resps handle
              end) w1 (fun w' _ => calm w1 w' /\ quit k orders w')) as Hwp.
  { eapply wp_mono; [exact Hwp|]. intros w' [] [Hc Hq]. split; [by eapply calm_trans|].
    intros x Hx l o Ho Hid Hw. apply (Hq l); [|done]. apply Hf. exists x. split; [done|].
    rewrite <- Hid. apply (waits_found E); [done|exact Ho|]. by eapply calm_waits. }
  destruct err as [err|].
  - rewrite wp_bind. eapply wp_mono.
    { apply Hrej; [done|]. intros l (x & _ & o & _ & Ho & _)%Hf. eauto. }
    intros w2 [] [Hc2 Hr]. eapply wp_mono; [apply noticeError_calm|]. intros w3 [] Hc3.
    split; [by eapply calm_trans|]. intros l Hl. eapply at_rest_waits; [by eapply calm_at_rest|done].
  - eapply each_response_answers; [by apply Hh|done|done|by apply Hnil|]. intros l. apply Hf.
Qed.

(** Batch responses: no nil, each under the id of its order. *)
Definition batch_resps {R} (rid : R -> string) (P : R -> Prop) (resps : gmap string (option R)) : Prop :=
  no_nil P resps /\ forall x resp, resps !! x = Some (Some resp) -> rid resp = x.

Lemma handleSendOrdersResp_answers E w resps err :
  WF E w -> held w = ∅ -> (err = None -> batch_resps cr_OrderID (fun _ => True) resps) ->
  wp (handleSendOrdersResp resps err) w
    (fun w' _ => calm w w' /\ forall x, is_Some (resps !! x) -> quits Create x w w').
Proof.
  intros Hwf Hn Hb. apply (answer_batch _ _ E w Create); try done.
  - intros. eapply for_each_rests; [|done..]. intros. by eapply rejectCreate_rests.
  - intros He w1 x resp Hwf1 Hn1 Hx. destruct (Hb He) as [_ Hid]. rewrite <- (Hid _ _ Hx).
    apply wp_and; [by apply handleSendOrderResp_ok|by eapply handleSendOrderResp_answers].
  - intros He x r Hx. destruct (Hb He) as [Hnn _]. destruct (Hnn _ _ Hx) as (y & -> & _). eauto.
Qed.

Lemma handleAmendOrdersResp_answers E w resps err :
  WF E w -> held w = ∅ ->
  (err = None -> batch_resps ar_OrderID (fun r => ar_Err r = None -> is_Some (ar_Detail r)) resps) ->
  wp (handleAmendOrdersResp resps err) w
    (fun w' _ => calm w w' /\ forall x, is_Some (resps !! x) -> quits Amend x w w').
Proof.
  intros Hwf Hn Hb. apply (answer_batch _ _ E w Amend); try done.
  - intros. eapply for_each_rests; [|done..]. intros. by eapply rejectAmend_rests.
  - intros He w1 x resp Hwf1 Hn1 Hx. destruct (Hb He) as [Hnn Hid]. rewrite <- (Hid _ _ Hx).
    destruct (Hnn _ _ Hx) as (y & [= <-] & Hd).
    apply wp_and; [by apply handleAmendOrderResp_ok|by eapply handleAmendOrderResp_answers].
  - intros He x r Hx. destruct (Hb He) as [Hnn _]. destruct (Hnn _ _ Hx) as (y & -> & _). eauto.
Qed.

Lemma handleCancelOrdersResp_answers E w resps err :
  WF E w -> held w = ∅ -> (err = None -> batch_resps xr_OrderID (fun _ => True) resps) ->
  wp (handleCancelOrdersResp resps err) w
    (fun w' _ => calm w w' /\ forall x, is_Some (resps !! x) -> quits Cancel x w w').
Proof.
  intros Hwf Hn Hb. apply (answer_batch _ _ E w Cancel); try done.
  - intros. eapply for_each_rests; [|done..]. intros. by eapply rejectCancel_rests.
  - intros He w1 x resp Hwf1 Hn1 Hx. destruct (Hb He) as [_ Hid]. rewrite <- (Hid _ _ Hx).
    apply wp_and; [by apply handleCancelOrderResp_ok|by eapply handleCancelOrderResp_answers].
  - intros He x r Hx. destruct (Hb He) as [Hnn _]. destruct (Hnn _ _ Hx) as (y & -> & _). eauto.
Qed.

End Steps.

(** * Operations, callbacks and the private web socket *)

Section Operations.
  Context {D : Decimal} {RT : GoRuntime} {AG : Agent}.

Definition traced (w w' : World) : Prop := exists new, tracks new w w'.

Lemma calm_traced w w' : calm w w' -> traced w w'.
Proof. by exists []. Qed.

Lemma traced_refl w : traced w w.
Proof. apply calm_traced, calm_refl. Qed.

Lemma calm_traced_trans w1 w2 w3 : calm w1 w2 -> traced w2 w3 -> traced w1 w3.
Proof. intros Hc [new Ht]. exists new. by eapply calm_tracks. Qed.

(** The outcome of a request for [ls]: on an error they may be left waiting. *)
Definition requested (ls : list loc) (w w' : World) (err : option error) : Prop :=
  match err with
  | None => traced w w'
  | Some _ => exists new, tracks_but ls new w w'
  end.

Arguments requested : simpl never.

Lemma requested_unlock ls l w w' err :
  l ∉ held w -> requested ls (acquire l w) w' err -> requested ls w (release l w') err.
Proof.
  intros Hn. destruct err as [err|]; intros [new Ht]; exists new; by apply tracks_but_unlock.
Qed.

Lemma requested_call ls c w w' err :
  tracks_but ls [c] w w' /\ (agent_reply (calls w) c = None -> tracks [c] w w') ->
  agent_reply (calls w) c = err -> requested ls w w' err.
Proof. intros [H1 H2] <-. destruct (agent_reply _ _) as [err|]; exists [c]; auto. Qed.

Lemma requested_None ls w w' : traced w w' -> requested ls w w' None.
Proof. done. Qed.

Lemma calm_requested ls w w' err : calm w w' -> requested ls w w' err.
Proof.
  intros Hc. destruct err as [err|]; exists []; [|done].
  eapply tracks_but_mono; [|exact Hc]. by intros l ?%not_elem_of_nil.
Qed.

(** The rejection after an error. *)
Lemma requested_reject ls w w1 w2 err :
  requested ls w w1 (Some err) -> calm w1 w2 -> at_rest ls w2 -> traced w w2.
Proof. intros [new Ht] Hc Hr. exists new. by eapply tracks_reset. Qed.

Lemma requested_reject_one (body : loc -> prog unit) (err : error) l w w1 :
  (forall l w o, heap w !! l = Some o -> wp (body l) w (fun w' _ => rests l w w')) ->
  held w1 = ∅ -> is_Some (heap w1 !! l) -> requested [l] w w1 (Some err) ->
  wp (WithOpLock l (body l) ;; Ret (Some err)) w1 (fun w' _ => traced w w').
Proof.
  intros Hbody Hn [o Ho] Hr. rewrite wp_bind. assert (l ∉ held w1) as Hn1 by by rewrite Hn.
  apply wp_WithOpLock; [done|]. eapply wp_mono; [by eapply Hbody|]. intros w2 [] Hrest.
  apply rests_unlock in Hrest; [|done].
  eapply requested_reject; [exact Hr|by eapply eases_calm, rests_eases|by eapply rests_at_rest].
Qed.

Lemma requested_held ls w w' err : requested ls w w' err -> held w' = held w.
Proof. destruct err; intros [new []]; done. Qed.

Lemma requested_heap ls w w' err l : requested ls w w' err -> is_Some (heap w !! l) -> is_Some (heap w' !! l).
Proof. destruct err; intros [new []]; auto. Qed.

(** ** Sending *)

Lemma SendOrder_traced w l :
  held w = ∅ -> is_Some (heap w !! l) -> wp (SendOrder l) w (fun w' _ => traced w w').
Proof.
  intros Hn [o Hl]. assert (l ∉ held w) as Hnl by by rewrite Hn.
  unfold SendOrder. rewrite wp_bind. simpl. case_match; [apply traced_refl|]. wp_sym.
  destruct (LivingOrders (dealer w) !! GetID o); [apply traced_refl|].
  change (wp (err <- WithOpLock l (living_set l ;; setStatus OrderStatusSending l ;;
                recordLastOperatedTimestamp l ;; call_agent (CallSendOrder l)) ;;
              match err with
              | Some err => WithOpLock l (rejectCreate l) ;; Ret (Some err)
              | None => Ret None
              end) w (fun w' _ => traced w w')).
  rewrite wp_bind. eapply (wp_mono _ _ (fun w1 err => requested [l] w w1 err)).
  - apply wp_WithOpLock; [done|].
    eapply (wp_mono _ _ (fun w1 err => requested [l] (acquire l w) w1 err)).
    + wp_sym. eapply requested_call; [|reflexivity].
      eapply sets_call; [exact Hl|done| |simpl; rewrite ?insert_insert_eq; reflexivity|done|done].
      unfold waiting. simpl. case_match; auto.
    + intros w1 err. by apply requested_unlock.
  - intros w1 [err|] Hr; [|done]. apply (requested_reject_one rejectCreate); [apply rejectCreate_rests| |by eapply requested_heap|done].
    by rewrite (requested_held _ _ _ _ Hr).
Qed.

(** A loop that marks the orders of a request. *)
Lemma mark_loop (body : loc -> prog unit) s ls w :
  (forall l w1 o, l ∈ ls -> held w1 = held w -> heap w1 !! l = Some o ->
     wp (body l) w1 (fun w2 _ => exists o', sets l o o' w1 w2 /\ status o' = s)) ->
  (forall l, l ∈ ls -> is_Some (heap w !! l)) ->
  wp (for_each ls body) w (fun w' _ => tracks_but ls [] w w' /\
    forall l, l ∈ ls -> exists o, heap w' !! l = Some o /\ status o = s).
Proof.
  intros Hbody Hin. eapply wp_mono.
  - apply (wp_for_each (fun rest w' => tracks_but ls [] w w' /\ (forall l, l ∈ rest -> l ∈ ls) /\
      forall l, l ∈ ls -> l ∈ rest \/ exists o, heap w' !! l = Some o /\ status o = s)).
    { split; [|split; [done|by left]]. eapply tracks_but_mono; [|apply calm_refl]. by intros l ?%not_elem_of_nil. }
    intros l rest w1 (Ht & Hsub & Hall).
    assert (l ∈ ls) as Hl by (apply Hsub; left).
    destruct (tr_heap _ _ _ _ Ht l) as [o Ho]; [by apply Hin|].
    eapply wp_mono; [apply (Hbody l w1 o); [done|apply Ht|done]|]. intros w2 [] (o' & Hs & Hst).
    split; [by eapply tracks_but_sets|]. split; [intros l2 H2; apply Hsub; by right|].
    intros l2 H2. destruct (decide (l2 = l)) as [->|Hne]; [right; exists o'; split; [by eapply sets_lookup|done]|].
    destruct (Hall l2 H2) as [[?|H3]%elem_of_cons|(o2 & Ho2 & Hs2)]; [done|by left|right].
    exists o2. destruct Hs as (_ & -> & _). by rewrite lookup_insert_ne.
  - intros w' [] (Ht & _ & Hall). split; [done|]. intros l Hl.
    destruct (Hall l Hl) as [?%not_elem_of_nil|]; done.
Qed.

(** The call for the marked orders, and the rejection of [orders] when it is refused. *)
Lemma marked_call c s orders w w1 w2 :
  (forall o, status o = s -> waiting o = None \/ waiting o = Some (request_kind c)) ->
  (forall l, l ∈ targets c -> l ∈ orders) ->
  tracks_but (targets c) [] w w1 ->
  (forall l, l ∈ targets c -> exists o, heap w1 !! l = Some o /\ status o = s) ->
  heap w2 = heap w1 -> held w2 = held w1 -> calls w2 = calls w1 ++ [c] ->
  requested orders w w2 (agent_reply (calls w1) c).
Proof.
  intros Hs Hsub Ht Hm Hheap Hheld Hcalls.
  assert (calls w1 = calls w) as -> by (rewrite (tr_calls _ _ _ _ Ht); apply app_nil_r).
  eapply requested_call; [|reflexivity]. destruct (tracks_call c w w1 w2) as [H1 H2]; try done.
  { intros l (o & Ho & Hso)%Hm. exists o. auto. }
  split; [by eapply tracks_but_mono|done].
Qed.

Lemma any_living_same w orders (Q : World -> bool -> Prop) :
  (forall l, l ∈ orders -> is_Some (heap w !! l)) -> (forall b, Q w b) -> wp (any_living orders) w Q.
Proof. intros Hin HQ. by apply any_living_wp. Qed.

Lemma SendOrders_traced w orders :
  held w = ∅ -> (forall l, l ∈ orders -> is_Some (heap w !! l)) ->
  wp (SendOrders orders) w (fun w' _ => traced w w').
Proof.
  intros Hn Hin. unfold SendOrders. rewrite wp_bind. simpl. case_match; [apply traced_refl|].
  rewrite wp_bind. apply any_living_same; [done|]. intros [|]; [apply traced_refl|].
  rewrite wp_bind. eapply wp_mono.
  { apply (mark_loop _ OrderStatusSending orders); [|done]. intros l w1 o Hl Hh Ho.
    assert (l ∉ held w1) as Hnl by by rewrite Hh, Hn.
    apply wp_WithOpLock; [done|]. wp_sym. eexists. split.
    - apply sets_unlock; [done|]. split; [exact Ho|]. split; [simpl; rewrite ?insert_insert_eq; reflexivity|done].
    - done. }
  intros w1 [] [Ht Hm]. simpl.
  set (w2 := w1 <| calls := calls w1 ++ [CallSendOrders orders] |>).
  assert (requested orders w w2 (agent_reply (calls w1) (CallSendOrders orders))) as Hr.
  { apply (marked_call _ OrderStatusSending _ w w1 w2); try done. intros o Hs. unfold waiting.
    rewrite Hs. simpl. case_match; auto. }
  destruct (agent_reply _ _) as [err|]; [|done]. rewrite wp_bind. eapply wp_mono.
  { apply (for_each_rests rejectCreate); [apply rejectCreate_rests|by rewrite (requested_held _ _ _ _ Hr)|].
    intros l Hl. eapply requested_heap; eauto. }
  intros w3 [] [Hc Hrest]. by eapply requested_reject.
Qed.

(** ** Amending *)

Lemma not_exist_callbacks_calm w l o :
  heap w !! l = Some o -> wp (execAmendRejectOrderNotExistCallbacks l) w (fun w' _ => calm w w').
Proof. intros Hl. wp_sym. by apply same_calm. Qed.

Lemma amend_body_requested w l o detail :
  heap w !! l = Some o -> order_ok w o ->
  wp (able <- load l isAmendAble ;;
      if negb able then Ret (Some (Sentinel DealingErrorOrderIsNotAmendable)) else
      need <- load l (fun o => isNeedToAmend o detail) ;;
      need <- deref need ;;
      if negb need then Ret None else
      st <- load l GetStatus ;;
      if negb (bool_decide (st = OrderStatusPending)) then
        st <- load l GetStatus ;;
        Ret (Some (Error (Sentinel DealingErrorOrderNotReadyForOperation)
                         ("(order status: " +:+ OrderStatusString st +:+ ")")))
      else
      setStatus OrderStatusAmending l ;;
      store l (setAmendingDetail (Some detail)) ;;
      recordLastOperatedTimestamp l ;;
      call_agent (CallAmendOrder l detail)) w (requested [l] w).
Proof.
  intros Hl (Had & _). assert (forall err, requested [l] w w err) as Hsame.
  { intros err. apply calm_requested, calm_refl. }
  wp_sym. case_match; wp_sym; [apply Hsame|].
  assert (is_Some (isNeedToAmend o detail)) as [need ->].
  { unfold isNeedToAmend. destruct (status o) eqn:Hs; try by eexists.
    destruct (Had eq_refl) as [ad ->]. by eexists. }
  simpl. destruct need; wp_sym; [|apply Hsame]. wp_sym.
  case_match; wp_sym; [apply Hsame|].
  eapply requested_call; [|reflexivity].
  eapply sets_call; [exact Hl|done| |simpl; rewrite ?insert_insert_eq; reflexivity|done|done]. by right.
Qed.

Lemma amendOrder_traced w l o detail :
  held w = ∅ -> heap w !! l = Some o -> order_ok w o ->
  wp (amendOrder l detail) w (fun w' _ => traced w w').
Proof.
  intros Hn Hl Hoo. assert (l ∉ held w) as Hnl by by rewrite Hn.
  unfold amendOrder. rewrite wp_bind. eapply wp_load; [exact Hl|].
  rewrite wp_bind. unfold getOrder, dget. cbn [wp]. destruct (LivingOrders (dealer w) !! GetID o); cycle 1.
  { rewrite wp_bind. eapply wp_mono; [by eapply not_exist_callbacks_calm|].
    intros w' [] Hc. by apply calm_traced. }
  rewrite wp_bind. eapply (wp_mono _ _ (fun w1 err => requested [l] w w1 err)).
  - apply wp_WithOpLock; [done|]. eapply wp_mono; [by apply (amend_body_requested _ _ o)|].
    intros w1 err. by apply requested_unlock.
  - intros w1 [err|] Hr; [|done]. apply (requested_reject_one rejectAmend); [apply rejectAmend_rests| |by eapply requested_heap|done].
    by rewrite (requested_held _ _ _ _ Hr).
Qed.

Lemma amend_or_defer_eases w l o detail :
  heap w !! l = Some o -> wp (amend_or_defer l detail) w (fun w' _ => calm w w').
Proof.
  intros Hl. unfold amend_or_defer. wp_sym. change (GetStatus o) with (status o).
  assert (forall w', heap w' = heap w -> calls w' = calls w -> held w' = held w -> calm w w') as Hsame
    by apply same_calm.
  destruct (status o) eqn:Hs; simpl; try by apply Hsame.
  1, 2: case_decide; wp_sym; [|by apply Hsame]; eapply sets_calm; [split; [exact Hl|split; [reflexivity|done]]|left];
    unfold SetCreateCallback, SetAmendCallback; case_match; reflexivity.
  wp_sym. by apply Hsame.
Qed.

Lemma AmendOrder_traced E w l detail :
  WF E w -> held w = ∅ -> is_Some (heap w !! l) ->
  wp (AmendOrder l detail) w (fun w' _ => traced w w').
Proof.
  intros Hwf Hn [o Hl]. assert (l ∉ held w) as Hnl by by rewrite Hn.
  unfold AmendOrder. rewrite wp_bind. simpl. case_match; [apply traced_refl|].
  change (wp (r <- WithOpLock l (amend_or_defer l detail) ;;
              (let '(err, pending) := r in
               if pending then amendOrder l detail else Ret err)) w (fun w' _ => traced w w')).
  rewrite wp_bind. eapply wp_mono.
  - apply (locked_moves_ok _ E w l o (fun w1 _ => calm (acquire l w) w1)); [done|done|done|].
    apply wp_and; [apply amend_or_defer_wp; [done|exact (wf_orders _ _ Hwf _ _ Hl)]|by eapply amend_or_defer_eases].
  - intros w1 [err pending] (Hok & w2 & -> & Hc). apply calm_unlock in Hc; [|done].
    destruct pending; [|by apply calm_traced].
    destruct (tr_heap _ _ _ _ Hc l) as [o2 Ho2]; [by eexists|]. eapply wp_mono.
    + apply (amendOrder_traced _ _ o2); [by rewrite (tr_held _ _ _ _ Hc)|done|exact (wf_orders _ _ (ok_wf _ _ _ Hok) _ _ Ho2)].
    + intros w3 x. by apply calm_traced_trans.
Qed.

(** ** Canceling *)

Lemma cancelOrder_traced w l o :
  heap w !! l = Some o -> wp (cancelOrder l) w (fun w' _ => traced w w').
Proof.
  intros Hl. unfold cancelOrder. wp_sym. case_decide; [apply traced_refl|]. wp_sym.
  case_decide; [apply traced_refl|]. wp_sym. destruct (agent_reply _ _) eqn:Hr; wp_sym.
  - set (o1 := Order.recordLastOperatedTimestamp (clock w) (Order.setStatus OrderStatusCanceling o)).
    set (w1 := w <| heap := <[l := o1]> (heap w) |> <| calls := calls w ++ [CallCancelOrder l] |>).
    assert (tracks_but [l] [CallCancelOrder l] w w1) as Hb.
    { eapply sets_call; [exact Hl|done| |reflexivity|done|done]. by right. }
    exists [CallCancelOrder l]. eapply (tracks_reset [l] _ w w1); [exact Hb| |].
    + eapply eases_calm, rests_eases. exists o1, (Order.setStatus OrderStatusPending o1). split; [|done].
      split; [apply lookup_insert_eq|]. split; [simpl; by rewrite ?insert_insert_eq|done].
    + intros l2 ->%list_elem_of_singleton. exists (Order.setStatus OrderStatusPending o1).
      split; [simpl; apply lookup_insert_eq|done].
  - exists [CallCancelOrder l].
    eapply sets_call; [exact Hl|done| |simpl; rewrite ?insert_insert_eq; reflexivity|done|done|done]. by right.
Qed.

Lemma defer_cancel_eases w l o (replace : OrderCallback -> Order -> Order) :
  replace = ReplaceCreateCallbacks \/ replace = ReplaceAmendCallbacks ->
  heap w !! l = Some o -> wp (defer_cancel replace l) w (fun w' _ => calm w w').
Proof.
  intros [-> | ->] Hl; wp_sym; (eapply sets_calm; [split; [exact Hl|split; [reflexivity|done]]|by left]).
Qed.

Lemma traced_unlock l w w' : l ∉ held w -> traced (acquire l w) w' -> traced w (release l w').
Proof. intros Hn [new Ht]. exists new. by apply tracks_but_unlock. Qed.

Lemma CancelOrder_traced w l :
  held w = ∅ -> is_Some (heap w !! l) -> wp (CancelOrder l) w (fun w' _ => traced w w').
Proof.
  intros Hn [o Hl]. assert (l ∉ held w) as Hnl by by rewrite Hn.
  unfold CancelOrder. rewrite wp_bind. eapply (wp_mono _ _ (fun w' _ => traced w w')); [|done].
  apply wp_WithOpLock; [done|]. eapply (wp_mono _ _ (fun w1 _ => traced (acquire l w) w1)).
  - rewrite wp_bind. eapply wp_load; [exact Hl|].
    destruct (GetStatus o); try apply traced_refl.
    + eapply wp_mono; [by eapply defer_cancel_eases; [left|]|]. intros w1 []. apply calm_traced.
    + rewrite wp_bind. eapply wp_mono; [by eapply cancelOrder_traced|]. done.
    + eapply wp_mono; [by eapply defer_cancel_eases; [right|]|]. intros w1 []. apply calm_traced.
  - intros w1 []. by apply traced_unlock.
Qed.

Lemma cancel_targets_calm w orders :
  (forall l, l ∈ orders -> is_Some (heap w !! l)) ->
  wp (cancel_targets orders) w (fun w' ts => calm w w' /\ forall l, l ∈ ts -> l ∈ orders).
Proof.
  revert w. induction orders as [|l orders IH]; intros w Hin; [by split; [apply calm_refl|]|].
  destruct (Hin l) as [o Hl]; [left|].
  assert (forall w1, calm w w1 -> wp (cancel_targets orders) w1 (fun w' ts => calm w w' /\ forall l2, l2 ∈ ts -> l2 ∈ orders)) as Hrest.
  { intros w1 Hc. eapply wp_mono; [apply IH|].
    - intros l2 H2. apply (tr_heap _ _ _ _ Hc), Hin. by right.
    - intros w2 ts [Hc2 Hts]. split; [by eapply calm_trans|done]. }
  assert (forall replace, replace = ReplaceCreateCallbacks \/ replace = ReplaceAmendCallbacks ->
    wp (defer_cancel replace l ;; cancel_targets orders) w
      (fun w' ts => calm w w' /\ forall l2, l2 ∈ ts -> l2 ∈ l :: orders)) as Hdefer.
  { intros replace Hr. rewrite wp_bind. eapply wp_mono; [by eapply defer_cancel_eases|].
    intros w1 [] Hc. eapply wp_mono; [by apply Hrest|]. intros w2 ts [Hc2 Hts].
    split; [done|]. intros l2 H2. right. auto. }
  cbn [cancel_targets]. rewrite wp_bind. eapply wp_load; [exact Hl|].
  destruct (GetStatus o); [| |by apply Hdefer; left| | |by apply Hdefer; right|].
  3: rewrite wp_bind; eapply wp_mono; [apply Hrest, calm_refl|]; intros w2 ts [Hc Hts]; simpl;
    (split; [done|]); intros l2 [->|H2]%elem_of_cons; [left|right; auto].
  all: eapply wp_mono; [apply Hrest, calm_refl|]; intros w2 ts [Hc Hts]; (split; [done|]); intros l2 H2; right; auto.
Qed.

(** The locked body of [CancelOrders]. *)
Lemma cancel_body_requested w orders :
  (forall l, l ∈ orders -> is_Some (heap w !! l)) ->
  wp (cancelTargets <- cancel_targets orders ;;
      match cancelTargets with
      | [] => Ret None
      | _ =>
          for_each cancelTargets (fun order =>
            setStatus OrderStatusCanceling order ;; recordLastOperatedTimestamp order) ;;
          call_agent (CallCancelOrders cancelTargets)
      end) w (requested orders w).
Proof.
  intros Hin. rewrite wp_bind. eapply wp_mono; [by apply cancel_targets_calm|].
  intros w1 ts [Hc Hsub]. destruct ts as [|t ts]; [by apply calm_traced|].
  rewrite wp_bind. eapply wp_mono.
  { apply (mark_loop _ OrderStatusCanceling (t :: ts)).
    - intros l w2 o _ _ Ho. wp_sym. eexists. split.
      + split; [exact Ho|]. split; [simpl; rewrite ?insert_insert_eq; reflexivity|done].
      + done.
    - intros l Hl. apply (tr_heap _ _ _ _ Hc), Hin, Hsub, Hl. }
  intros w2 [] [Ht Hm]. simpl. apply (marked_call _ OrderStatusCanceling _ w w2); try done.
  - intros o Hs. right. unfold waiting. by rewrite Hs.
  - by eapply calm_tracks_but.
Qed.

Lemma requested_same ls w w1 w2 w3 err :
  heap w1 = heap w -> calls w1 = calls w -> requested ls w1 w2 err ->
  heap w3 = heap w2 -> calls w3 = calls w2 -> held w3 = held w -> requested ls w w3 err.
Proof.
  intros Hh1 Hc1 Hr Hh3 Hc3 Hl3.
  assert (forall ls new, tracks_but ls new w1 w2 -> tracks_but ls new w w3) as Hmk.
  { intros ls' new [Hc Hl Hp Ht Hw0]. constructor; [congruence|done|intros l; rewrite Hh3, <- Hh1; auto|by rewrite Hh3|].
    intros k l Hn Hw. assert (waits w2 k l) as Hw2 by (revert Hw; unfold waits; by rewrite Hh3).
    destruct (Hw0 k l Hn Hw2) as [H|H]; [left|right; by rewrite <- Hc1].
    revert H. unfold waits. by rewrite Hh1. }
  destruct err; destruct Hr as [new Ht]; exists new; by apply Hmk.
Qed.

Lemma WithOpeLocks_requested w orders (f : prog (option error)) :
  held w = ∅ -> (forall l, l ∈ orders -> is_Some (heap w !! l)) ->
  (forall w1, heap w1 = heap w -> wp f w1 (requested orders w1)) ->
  wp (WithOpeLocks orders f) w (requested orders w).
Proof.
  intros Hn Hin Hf. unfold WithOpeLocks. rewrite wp_bind. apply Unique_wp; [done|].
  intros os Hnd Hos. rewrite wp_bind. apply lock_all_wp; [done|simpl; rewrite Hn; set_solver|].
  rewrite wp_bind. set (w1 := w <| loops := _ |> <| held := _ |>).
  eapply wp_mono; [by apply Hf|]. intros w2 err Hr. rewrite wp_bind. apply unlock_all_wp.
  pose proof (requested_held _ _ _ _ Hr) as Hh2. simpl in Hh2.
  change (requested orders w (w2 <| held := held w2 ∖ list_to_set os |>) err).
  eapply (requested_same _ _ w1 w2); try done. simpl. rewrite Hh2, Hn. set_solver.
Qed.

Lemma CancelOrders_traced w orders :
  held w = ∅ -> (forall l, l ∈ orders -> is_Some (heap w !! l)) ->
  wp (CancelOrders orders) w (fun w' _ => traced w w').
Proof.
  intros Hn Hin. unfold CancelOrders. rewrite wp_bind. apply Unique_wp; [done|].
  intros os Hnd Hos. set (w1 := w <| loops := _ |>).
  assert (calm w w1) as Hc1 by by apply same_calm.
  rewrite wp_bind. eapply wp_mono.
  { apply WithOpeLocks_requested; [done|intros l Hl; by apply Hin, Hos|].
    intros w2 Hh. apply cancel_body_requested. intros l Hl. rewrite Hh. by apply Hin, Hos. }
  intros w2 [err|] Hr; [|by eapply calm_traced_trans]. rewrite wp_bind. eapply wp_mono.
  { apply (for_each_rests rejectCancel); [apply rejectCancel_rests|by rewrite (requested_held _ _ _ _ Hr)|].
    intros l Hl. eapply requested_heap; [exact Hr|]. by apply Hin, Hos. }
  intros w3 [] [Hc Hrest]. eapply calm_traced_trans; [exact Hc1|]. by eapply requested_reject.
Qed.

(** ** Callbacks *)

Lemma run_callback_traced E w cb l :
  WF E w -> held w = ∅ -> cb_ok w cb -> is_Some (heap w !! l) ->
  wp (run_callback cb l) w (fun w' _ => traced w w').
Proof.
  intros Hwf Hn Hcb [o Hl]. destruct cb as [n|order detail|]; [apply traced_refl| |].
  - unfold run_callback. rewrite wp_bind. eapply wp_load; [exact Hl|].
    do 2 (rewrite wp_bind; unfold dget, dmod; cbn [wp]). rewrite wp_bind.
    set (w1 := w <| dealer := _ |>). assert (calm w w1) as Hc by by apply same_calm.
    destruct Hcb as [o2 Ho2]. eapply wp_mono.
    + apply (amendOrder_traced _ _ o2); [done|done|].
      exact (wf_orders _ _ (ok_wf _ _ _ (quiet_ok _ w w1 Hwf ltac:(by repeat constructor))) _ _ Ho2).
    + intros w' x Ht. by eapply calm_traced_trans.
  - unfold run_callback. rewrite wp_bind. eapply wp_mono; [by eapply cancelOrder_traced|]. done.
Qed.

Lemma run_spawned_traced E w i :
  WF E w -> held w = ∅ -> is_Some (spawned w !! i) -> wp (run_spawned i) w (fun w' _ => traced w w').
Proof.
  intros Hwf Hn [[cb l] Hi]. unfold run_spawned. rewrite wp_bind. cbn [wp]. rewrite Hi. simpl.
  set (w1 := w <| spawned ::= delete i |>).
  assert (WF E w1) as Hwf1 by exact (WF_spawned_delete _ _ _ Hwf).
  destruct (wf_spawned _ _ Hwf cb l) as [Hcb Hl]; [by eapply list_elem_of_lookup_2|].
  eapply wp_mono; [by apply (run_callback_traced E w1)|]. intros w' x Ht.
  eapply calm_traced_trans; [|exact Ht]. by apply same_calm.
Qed.

(** ** The private web socket *)

Lemma alloc_calm w o : waiting o = None -> wp (alloc o) w (fun w' _ => calm w w').
Proof.
  intros Hk. assert (heap w !! fresh (dom (heap w)) = None) as Hl by apply not_elem_of_dom, is_fresh.
  simpl. constructor; [by rewrite app_nil_r|done| |by intros c l ?%not_elem_of_nil|].
  - intros l [o2 H2]. simpl. rewrite lookup_insert_ne; [by eexists|]. intros <-. congruence.
  - intros k l _ (o2 & H2 & Hk2). simpl in H2.
    apply lookup_insert_Some in H2 as [[<- <-]|[_ H2]]; [congruence|]. left. by exists o2.
Qed.

Lemma track_unrelated_calm w data :
  held w = ∅ -> wp (track_unrelated data) w (fun w' _ => calm w w').
Proof.
  intros Hn. unfold track_unrelated. case_match; [apply calm_refl|].
  rewrite wp_bind. eapply (wp_mono _ _ (fun w' _ => calm w w')).
  { case_decide; [|apply calm_refl]. rewrite wp_bind. eapply wp_mono.
    - apply alloc_calm. unfold setConfirmTimestamps. by destruct (ArrivedAt data), (ConfirmedAt data).
    - intros w1 l Hc. simpl. eapply calm_trans; [exact Hc|by apply same_calm]. }
  intros w1 [] Hc. case_match; [|done]. simpl.
  destruct (UnrelatedOrders (dealer w1) !! PublicID data) as [l|]; [|done].
  assert (l ∉ held w1) as Hnl by by rewrite (tr_held _ _ _ _ Hc), Hn.
  simpl. split; [done|]. eapply calm_trans; [exact Hc|]. apply calm_unlock; [done|]. by apply same_calm.
Qed.

Lemma locked_eases (f : prog unit) l w :
  l ∉ held w -> wp f (acquire l w) (fun w' _ => eases l (acquire l w) w') ->
  wp (WithOpLock l f) w (fun w' _ => calm w w').
Proof.
  intros Hn Hf. apply wp_WithOpLock; [done|]. eapply wp_mono; [exact Hf|]. intros w' [] He.
  by eapply eases_calm, eases_unlock.
Qed.

Lemma handle_order_datum_calm E w data :
  WF E w -> held w = ∅ -> wp (handle_order_datum data) w (fun w' _ => calm w w').
Proof.
  intros Hwf Hn. unfold handle_order_datum. rewrite wp_bind.
  eapply wp_mono; [apply wp_and; [by apply track_unrelated_ok|by apply track_unrelated_calm]|].
  intros w1 [] [Hok Hc]. eapply (wp_mono _ _ (fun w' _ => calm w1 w')); [|intros w2 []; by apply calm_trans].
  rewrite wp_bind. unfold getOrder, dget. cbn [wp].
  assert (held w1 = ∅) as Hn1 by by rewrite (ok_held _ _ _ Hok).
  destruct (LivingOrders (dealer w1) !! ID data) as [l|] eqn:Hl; cycle 1.
  { destruct (Status data); simpl; rewrite ?Hl; apply calm_refl. }
  destruct (living_active _ _ _ _ (ok_wf _ _ _ Hok) Hl) as (_ & o & Ho & Ha).
  assert (l ∉ held w1) as Hnl by by rewrite Hn1.
  destruct (Status data); try (simpl; rewrite ?Hl; apply calm_refl).
  - apply locked_eases; [done|]. eapply wp_mono; [by eapply fill_body_rests|]. intros w2 []. apply rests_eases.
  - rewrite wp_bind. cbn [wp]. rewrite Hl. apply locked_eases; [done|]. by eapply partial_body_eases.
Qed.

Lemma HandleOrderData_calm E w datas :
  WF E w -> held w = ∅ -> wp (HandleOrderData datas) w (fun w' _ => calm w w').
Proof.
  intros Hwf Hn. eapply wp_mono.
  - apply (wp_for_each (fun _ w' => ok E w w' /\ calm w w')); [split; [by apply ok_refl|apply calm_refl]|].
    intros data _ w1 [Hok Hc]. assert (held w1 = ∅) as Hn1 by by rewrite (ok_held _ _ _ Hok).
    eapply wp_mono; [apply wp_and; [apply (handle_order_datum_ok E)|apply (handle_order_datum_calm E)]; by try apply Hok|].
    intros w2 [] [Hok2 Hc2]. split; [by eapply ok_trans|by eapply calm_trans].
  - by intros w' [] [].
Qed.

Lemma HandlePositionData_calm w datas : wp (HandlePositionData datas) w (fun w' _ => calm w w').
Proof.
  unfold HandlePositionData. destruct (extractPositionData datas); [|apply calm_refl]. simpl.
  case_match; simpl; [|apply calm_refl]. by apply same_calm.
Qed.

End Operations.
