(* ===== verification/System.v ===== *)
(** * A dealer together with the requests its agent has in flight

    The state of the system is that of the dealer, the exported slices of ended orders and
    the requests that the agent took and has not answered.  It moves by an event that is no
    response ([DealerEvents.v]), which may add requests, or by a response to a request in
    flight, which removes it.  Events run one after the other, and no refused batch of
    cancellations names an order that is not active ([spares]).  In every reachable state an
    order that waits is in a request in flight; answers end, and when there is nothing left to
    answer no order waits. *)

From S2P Require Import Prelude GoStd Decimal QDecimal Domains Errors MutexFlag MutexMap MutexSlice Order.
From S2P Require Import OrderData Position World Dealer DealerInv DealerSteps DealerEvents DealerProps.
From S2P Require Import Flights FlightSteps.
Local Open Scope prog_scope.

Section System.
  Context {D : Decimal} {RT : GoRuntime} {AG : Agent}.

(** The responses of an agent. *)
Definition is_response (ev : Event) : bool :=
  match ev with
  | EvSendResp _ _ | EvSendResps _ _ | EvAmendResp _ _ | EvAmendResps _ _
  | EvCancelResp _ _ | EvCancelResps _ _ => true
  | _ => false
  end.

(** The response is about the order at [l]. *)
Definition about (w : World) (l : loc) (orderID : string) : Prop :=
  exists o, heap w !! l = Some o /\ id o = orderID.

(** The batch responses have an entry for every order, and without an error no nil and each
    under its own id. *)
Definition about_all {R} (w : World) (ls : list loc) (rid : R -> string)
    (resps : gmap string (option R)) (err : option error) : Prop :=
  (forall l, l ∈ ls -> exists o, heap w !! l = Some o /\ is_Some (resps !! id o)) /\
  (err = None -> batch_resps rid (fun _ => True) resps).

(** What an agent may answer to a request. *)
Definition answers (w : World) (c : AgentCall) (ev : Event) : Prop :=
  match c, ev with
  | CallSendOrder l, EvSendResp resp err => about w l (cr_OrderID resp)
  | CallAmendOrder l _, EvAmendResp resp err =>
      about w l (ar_OrderID resp) /\ (err = None -> ar_Err resp = None -> is_Some (ar_Detail resp))
  | CallCancelOrder l, EvCancelResp resp err => about w l (xr_OrderID resp)
  | CallSendOrders ls, EvSendResps resps err => about_all w ls cr_OrderID resps err
  | CallCancelOrders ls, EvCancelResps resps err => about_all w ls xr_OrderID resps err
  | _, _ => False
  end.

Record system := MkSystem {
  sys_world : World;
  exported : list loc;
  flights : list AgentCall
}.

(** The requests that the agent took between two states of a dealer. *)
Definition taken_between (w w' : World) : list AgentCall :=
  taken (calls w) (drop (length (calls w)) (calls w')).

(** The state after a program of the dealer. *)
Definition advance (s : system) (w' : World) (xs : list loc) (waiting_for : list AgentCall) : system :=
  MkSystem w' (exported s ++ xs) (waiting_for ++ taken_between (sys_world s) w').

(** A response to the [i]-th request. *)
Inductive answer_step (s : system) : system -> Prop :=
  | answer_flight i c ev w' xs :
      flights s !! i = Some c -> answers (sys_world s) c ev ->
      run (event_prog ev) (sys_world s) = Done w' xs ->
      answer_step s (advance s w' xs (delete i (flights s))).

Inductive sstep (s : system) : system -> Prop :=
  | sstep_event ev w' xs :
      is_response ev = false -> valid (sys_world s) ev -> spares (sys_world s) ev ->
      run (event_prog ev) (sys_world s) = Done w' xs -> sstep s (advance s w' xs (flights s))
  | sstep_answer s' : answer_step s s' -> sstep s s'.

Definition sys_reachable (s : system) : Prop :=
  exists symbol agent' onError' t, rtc sstep (MkSystem (initial_world symbol agent' onError' t) [] []) s.

(** ** Events *)

Lemma wp_then_nil (p : prog unit) w (P : World -> Prop) :
  wp p w (fun w' _ => P w') -> wp (p ;; Ret []) w (fun w' (_ : list loc) => P w').
Proof. intros Hp. rewrite wp_bind. exact Hp. Qed.

Lemma event_traced E w ev :
  WF E w -> held w = ∅ -> valid w ev -> spares w ev -> is_response ev = false ->
  wp (event_prog ev) w (fun w' _ => traced w w').
Proof.
  intros Hwf Hn Hv Hsp Hr. destruct ev; try done; unfold event_prog; simpl in Hv, Hsp; rewrite wp_bind.
  - eapply wp_mono; [apply alloc_calm|by intros ?? ?%calm_traced].
    destruct Hv as (Hs & _). unfold waiting. by rewrite Hs.
  - destruct Hv as [o Ho]. assert (order ∉ held w) by by rewrite Hn.
    eapply (wp_mono _ _ (fun w' _ => calm w w')); [|by intros ?? ?%calm_traced].
    apply locked_eases; [done|]. wp_sym. exists o, (register r (CbUser callback) o).
    split; [done|]. left. destruct r; simpl; unfold SetCreateCallback, SetAmendCallback; by repeat case_match.
  - destruct Hv as (o & Ho & _). by apply SendOrder_traced.
  - destruct Hv as [_ Hb]. apply SendOrders_traced; [done|]. intros l (o & Ho & _)%Hb. eauto.
  - by eapply AmendOrder_traced.
  - by apply CancelOrder_traced.
  - by apply CancelOrders_traced.
  - eapply wp_mono; [by eapply HandleOrderData_calm|by intros ?? ?%calm_traced].
  - eapply wp_mono; [by eapply HandlePositionData_calm|by intros ?? ?%calm_traced].
  - by eapply run_spawned_traced.
  - simpl. by apply calm_traced, same_calm.
  - simpl. by apply calm_traced, same_calm.
  - simpl. by apply calm_traced, same_calm.
Qed.

Lemma answers_valid w c ev : answers w c ev -> valid w ev.
Proof.
  destruct c, ev; try done; simpl.
  - intros [_ H] He. by apply H.
  - by intros [_ H].
  - intros [_ H] He. by apply H.
Qed.

Lemma answers_spare w c ev : answers w c ev -> spares w ev.
Proof. by destruct c, ev. Qed.

Lemma answer_quits E w c ev :
  WF E w -> held w = ∅ -> answers w c ev ->
  wp (event_prog ev) w (fun w' _ => calm w w' /\ quit (request_kind c) (targets c) w').
Proof.
  intros Hwf Hn Ha.
  assert (forall k l w' x, about w l x -> calm w w' /\ quits k x w w' -> calm w w' /\ quit k [l] w') as Hone.
  { intros k l w' x (o & Ho & Hid) [Hc Hq]. split; [done|]. intros l2 ->%list_elem_of_singleton. by eapply Hq. }
  assert (forall R k ls (resps : gmap string (option R)) w',
    (forall l, l ∈ ls -> exists o, heap w !! l = Some o /\ is_Some (resps !! id o)) ->
    calm w w' /\ (forall x, is_Some (resps !! x) -> quits k x w w') -> calm w w' /\ quit k ls w') as Hall.
  { intros R k ls resps w' Hin [Hc Hq]. split; [done|]. intros l Hl. destruct (Hin l Hl) as (o & Ho & Hx).
    by eapply Hq. }
  destruct c, ev; try done; simpl in Ha; unfold event_prog; rewrite wp_bind.
  - eapply wp_mono; [by eapply handleSendOrderResp_answers|]. intros w' []. by apply Hone.
  - destruct Ha as [Ha Hb]. eapply wp_mono; [by eapply handleSendOrdersResp_answers|]. intros w' []. by apply Hall.
  - destruct Ha as [Ha Hb]. eapply wp_mono; [by eapply handleAmendOrderResp_answers|]. intros w' []. by apply Hone.
  - eapply wp_mono; [by eapply handleCancelOrderResp_answers|]. intros w' []. by apply Hone.
  - destruct Ha as [Ha Hb]. eapply wp_mono; [by eapply handleCancelOrdersResp_answers|]. intros w' []. by apply Hall.
Qed.

Lemma tracks_taken new w w' : tracks new w w' -> taken_between w w' = taken (calls w) new.
Proof. intros Ht. unfold taken_between. by rewrite (tr_calls _ _ _ _ Ht), drop_app_length. Qed.

Lemma calm_taken w w' : calm w w' -> taken_between w w' = [].
Proof. intros Hc. by rewrite (tracks_taken [] _ _ Hc). Qed.

(** ** The invariant *)

Record SysInv (s : system) : Prop := {
  si_wf : WF (exported s) (sys_world s);
  si_held : held (sys_world s) = ∅;
  si_targets : forall c l, c ∈ flights s -> l ∈ targets c -> is_Some (heap (sys_world s) !! l);
  si_waits : forall k l, waits (sys_world s) k l -> exists c, c ∈ flights s /\ covers k l c
}.

Lemma initial_inv symbol agent' onError' t : SysInv (MkSystem (initial_world symbol agent' onError' t) [] []).
Proof.
  constructor; simpl; [apply initial_WF|done|by intros c l ?%not_elem_of_nil|].
  intros k l (o & Ho & _). change ((∅ : gmap loc Order) !! l = Some o) in Ho. by apply lookup_empty_Some in Ho.
Qed.

Lemma run_post {A} (p : prog A) w w' x Q : wp p w Q -> run p w = Done w' x -> Q w' x.
Proof. intros (w2 & y & Hr & HQ)%wp_run Hr2. congruence. Qed.

Lemma advance_wf s ev w' xs fs :
  SysInv s -> valid (sys_world s) ev -> spares (sys_world s) ev -> run (event_prog ev) (sys_world s) = Done w' xs ->
  WF (exported (advance s w' xs fs)) w' /\ held w' = ∅.
Proof.
  intros [Hwf Hn _ _] Hv Hsp Hr. destruct (run_post _ _ _ _ _ (event_spares _ _ _ Hwf Hn Hv Hsp) Hr) as (Hw & _ & Hh).
  split; [exact Hw|congruence].
Qed.

Lemma event_inv s ev w' xs :
  SysInv s -> is_response ev = false -> valid (sys_world s) ev -> spares (sys_world s) ev ->
  run (event_prog ev) (sys_world s) = Done w' xs -> SysInv (advance s w' xs (flights s)).
Proof.
  intros Hi Hresp Hv Hsp Hr. destruct (advance_wf _ _ _ _ (flights s) Hi Hv Hsp Hr) as [Hw Hh].
  destruct Hi as [Hwf Hn Ht Hk].
  destruct (run_post _ _ _ _ _ (event_traced _ _ _ Hwf Hn Hv Hsp Hresp) Hr) as [new Hnew].
  constructor; [exact Hw|exact Hh|..]; simpl; rewrite (tracks_taken _ _ _ Hnew).
  - intros c l [Hc|Hc]%elem_of_app Hl; [apply (tr_heap _ _ _ _ Hnew); eauto|].
    apply (tr_targets _ _ _ _ Hnew c); [by eapply taken_new|done].
  - intros k l Hw'. destruct (tr_waits _ _ _ _ Hnew k l (not_elem_of_nil l) Hw') as [(c & Hc & Hcov)%Hk|(c & Hc & Hcov)].
    + exists c. rewrite elem_of_app. auto.
    + exists c. rewrite elem_of_app. auto.
Qed.

(** What a response does to the system. *)
Lemma answer_inv s i c ev w' xs :
  SysInv s -> flights s !! i = Some c -> answers (sys_world s) c ev ->
  run (event_prog ev) (sys_world s) = Done w' xs ->
  SysInv (advance s w' xs (delete i (flights s))) /\
  flights (advance s w' xs (delete i (flights s))) = delete i (flights s) /\
  quit (request_kind c) (targets c) w'.
Proof.
  intros Hi Hc Ha Hr. destruct (advance_wf _ _ _ _ (delete i (flights s)) Hi (answers_valid _ _ _ Ha) (answers_spare _ _ _ Ha) Hr) as [Hw Hh].
  destruct Hi as [Hwf Hn Ht Hk].
  destruct (run_post _ _ _ _ _ (answer_quits _ _ _ _ Hwf Hn Ha) Hr) as [Hcalm Hq].
  assert (flights (advance s w' xs (delete i (flights s))) = delete i (flights s)) as Hf.
  { simpl. by rewrite (calm_taken _ _ Hcalm), app_nil_r. }
  split; [|split; [exact Hf|exact Hq]]. constructor; [exact Hw|exact Hh|..]; rewrite Hf; simpl.
  - intros c' l H'%list_elem_of_delete_inv Hl. apply (tr_heap _ _ _ _ Hcalm). eauto.
  - intros k l Hw'. destruct (Hk k l (calm_waits _ _ _ _ Hcalm Hw')) as (c' & Hin & [Hkind Hl]).
    apply list_elem_of_lookup in Hin as [j Hj]. exists c'. split; [|done].
    destruct (decide (j = i)) as [->|Hne].
    + assert (c' = c) as -> by congruence. subst k. by destruct (Hq l Hl).
    + apply list_elem_of_lookup. destruct (decide (j < i)%nat) as [Hlt|Hge].
      * exists j. by rewrite list_lookup_delete_lt.
      * exists (pred j). rewrite list_lookup_delete_ge by lia. by replace (S (pred j)) with j by lia.
Qed.

Lemma sstep_inv s s' : SysInv s -> sstep s s' -> SysInv s'.
Proof.
  intros Hi [ev w' xs Hresp Hv Hsp Hr|s2 [i c ev w' xs Hc Ha Hr]]; [by eapply event_inv|].
  by eapply answer_inv.
Qed.

Lemma sys_reachable_inv s : sys_reachable s -> SysInv s.
Proof.
  intros (symbol & ag & oe & t & Hs). remember (MkSystem _ _ _) as s0 eqn:H0.
  assert (SysInv s0) as Hi by (rewrite H0; apply initial_inv). clear H0.
  induction Hs as [s|s1 s2 s3 H12 _ IH]; [done|]. by eapply IH, sstep_inv.
Qed.

(** The dealer of a reachable system is one of [DealerEvents.v]. *)
Lemma sstep_dstep s s' :
  sstep s s' -> dstep (sys_world s, exported s) (sys_world s', exported s').
Proof.
  intros [ev w' xs _ Hv _ Hr|s2 [i c ev w' xs _ Ha Hr]]; simpl; econstructor; try done.
  by eapply answers_valid.
Qed.

(** Nothing is left to wait for: every living order is pending, or it has no price and its
    fill is to come. *)
Definition settled (s : system) : Prop :=
  forall k l, LivingOrders (dealer (sys_world s)) !! k = Some l ->
  exists o, heap (sys_world s) !! l = Some o /\ id o = k /\
    (status o = OrderStatusPending \/ (status o = OrderStatusSending /\ IsPricable (orderType o) = false)).

Lemma no_flights_settled s : SysInv s -> flights s = [] -> settled s.
Proof.
  intros [Hwf _ _ Hk] Hf k l Hl. destruct (wf_living _ _ Hwf _ _ Hl) as (_ & o & Ho & Hid & Ha).
  exists o. split; [done|]. split; [done|].
  assert (waiting o = None) as Hno.
  { destruct (waiting o) as [r|] eqn:Hr; [|done]. destruct (Hk r l) as (c & Hc & _); [by exists o|].
    rewrite Hf in Hc. by apply not_elem_of_nil in Hc. }
  unfold waiting in Hno. destruct (status o); try done; [|by left].
  right. split; [done|]. by destruct (IsPricable (orderType o)).
Qed.

(** *** Every request can be answered *)

(** The error that stands for a lost request. *)
Definition lost_answer (w : World) (c : AgentCall) (err : error) : Event :=
  let ids ls := omap (fun l => id <$> heap w !! l) ls in
  let one l := default ""%string (id <$> heap w !! l) in
  match c with
  | CallSendOrder l => EvSendResp (MkCreateOrderResp (one l) "" None None None) (Some err)
  | CallAmendOrder l _ => EvAmendResp (MkAmendOrderResp (one l) None None None None) (Some err)
  | CallCancelOrder l => EvCancelResp (MkCancelOrderResp (one l) None) (Some err)
  | CallSendOrders ls => EvSendResps (list_to_map ((fun k => (k, None)) <$> ids ls)) (Some err)
  | CallCancelOrders ls => EvCancelResps (list_to_map ((fun k => (k, None)) <$> ids ls)) (Some err)
  end.

Lemma lost_answer_answers w c err :
  (forall l, l ∈ targets c -> is_Some (heap w !! l)) -> answers w c (lost_answer w c err).
Proof.
  intros Hin. assert (forall l, l ∈ targets c -> about w l (default ""%string (id <$> heap w !! l))) as Hone.
  { intros l Hl. destruct (Hin l Hl) as [o Ho]. exists o. by rewrite Ho. }
  assert (forall R (rid : R -> string), about_all w (targets c) rid
    (list_to_map ((fun k => (k, None)) <$> omap (fun l => id <$> heap w !! l) (targets c)) : gmap string (option R))
    (Some err)) as Hall.
  { intros R rid. split; [|done]. intros l Hl. destruct (Hin l Hl) as [o Ho]. exists o. split; [done|].
    apply elem_of_dom. rewrite dom_list_to_map_L, elem_of_list_to_set, <- list_fmap_compose, list_fmap_id.
    apply list_elem_of_omap. exists l. by rewrite Ho. }
  destruct c; simpl; try (apply Hone; left); try apply Hall. split; [apply Hone; left|done].
Qed.

Lemma answer_exists s i c :
  SysInv s -> flights s !! i = Some c -> exists s', answer_step s s'.
Proof.
  intros Hi Hc. pose proof Hi as [Hwf Hn Ht _].
  assert (answers (sys_world s) c (lost_answer (sys_world s) c (Sentinel HttpRequestError))) as Ha.
  { apply lost_answer_answers. intros l. apply Ht. by eapply list_elem_of_lookup_2. }
  pose proof (event_ok _ _ _ _ Hwf Hn (answers_valid _ _ _ Ha)) as (w' & xs & Hr & _)%wp_run.
  eexists. by eapply answer_flight.
Qed.

Lemma answer_step_shorter s s' :
  SysInv s -> answer_step s s' -> S (length (flights s')) = length (flights s).
Proof.
  intros Hi [i c ev w' xs Hc Ha Hr]. destruct (answer_inv _ _ _ _ _ _ Hi Hc Ha Hr) as (_ & Hf & _).
  rewrite Hf, length_delete by eauto. apply lookup_lt_Some in Hc. lia.
Qed.

(** C4: in every run of events one after the other, in which no batch of cancellations that the
    agent refuses names an order that is not active: when a limit order is being sent, or any
    order is being amended or canceled, a request of that kind for it is in flight.  A refused
    request, an order that is not ready, an overtaken or a deferred operation never leaves such
    an order waiting for an answer that cannot come.  (A market order that is being sent is not
    meant: a success does not end its wait, it stays so until its fill, with or without a request
    in flight.) *)
Theorem waiting_orders_in_flight s k l :
  sys_reachable s -> waits (sys_world s) k l ->
  exists c, c ∈ flights s /\ request_kind c = k /\ l ∈ targets c.
Proof. intros Hi%sys_reachable_inv Hw. by apply (si_waits _ Hi). Qed.

(** C5: whatever the agent answers, and in whatever order: every answer settles one request, so
    that no more answers come than requests were in flight, and when none is left every
    living order is pending, or a market order that waits for its fill. *)
Theorem answers_settle s n s' :
  sys_reachable s -> nsteps answer_step n s s' ->
  n + length (flights s') = length (flights s) /\
  ((forall s2, ~ answer_step s' s2) -> flights s' = [] /\ settled s').
Proof.
  intros Hi%sys_reachable_inv Hs. induction Hs as [s|n s1 s2 s3 H12 _ IH].
  - split; [done|]. intros Hno. assert (flights s = []) as Hf; [|by split; [|apply no_flights_settled]].
    destruct (flights s) as [|c fs] eqn:Hf; [done|]. destruct (answer_exists s 0 c Hi) as [s2 H2]; [by rewrite Hf|].
    by destruct (Hno s2).
  - pose proof (answer_step_shorter _ _ Hi H12). destruct IH as [Hn IH].
    { eapply sstep_inv; [exact Hi|by apply sstep_answer]. }
    split; [lia|done].
Qed.

(** *** Evaluating a run *)

Lemma sys_reachable_after w E fs ev :
  sys_reachable (MkSystem w E fs) -> is_response ev = false -> valid w ev -> spares w ev ->
  run_check (event_prog ev) w (fun _ _ => true) = true ->
  exists E', sys_reachable (MkSystem (world_after ev w) E' (fs ++ taken_between w (world_after ev w))).
Proof.
  intros (s & ag & oe & t & Hs) Hresp Hv Hsp (w' & xs & Hr & _)%run_check_sound. exists (E ++ xs).
  exists s, ag, oe, t. eapply rtc_r; [exact Hs|]. unfold world_after. rewrite Hr.
  by apply (sstep_event (MkSystem w E fs) ev w' xs).
Qed.

End System.

(** ** A concrete system: one order on its way *)

Section Witnesses.
  #[local] Existing Instance QDecimal.
  #[local] Existing Instance GoStd.in_order.
  #[local] Existing Instance taking.

Lemma demo_system_reachable : exists E, sys_reachable (MkSystem demo_sent E [CallSendOrder 0]).
Proof.
  destruct (sys_reachable_after demo_initial.1 [] [] (EvNewOrder demo_order)) as [E HE];
    [by exists 1, 2, 3, 0%Z|done|by repeat split|done|vm_compute; reflexivity|].
  destruct (sys_reachable_after demo_world E [] (EvSendOrder 0)) as [E' HE'];
    [exact HE|done|apply demo_born|done|vm_compute; reflexivity|].
  exists E'. exact HE'.
Qed.

Lemma demo_waits : waits demo_sent Create 0.
Proof.
  destruct (found_check_sound (heap demo_sent !! 0) (fun o => bool_decide (waiting o = Some Create)))
    as (o & Ho & Hs); [vm_compute; reflexivity|].
  exists o. split; [exact Ho|]. by apply bool_decide_eq_true in Hs.
Qed.

Lemma waiting_orders_in_flight_witness : exists c, c ∈ [CallSendOrder 0] /\ request_kind c = Create /\ 0 ∈ targets c.
Proof.
  destruct demo_system_reachable as [E Hr].
  apply (waiting_orders_in_flight (MkSystem demo_sent E [CallSendOrder 0]) Create 0 Hr). apply demo_waits.
Defined.

Lemma answers_settle_witness : exists E s',
  nsteps answer_step 1 (MkSystem demo_sent E [CallSendOrder 0]) s' /\ flights s' = [] /\ settled s'.
Proof.
  destruct demo_system_reachable as [E Hr]. exists E.
  destruct (answer_exists _ 0 (CallSendOrder 0) (sys_reachable_inv _ Hr) eq_refl) as [s' Hs].
  exists s'. assert (nsteps answer_step 1 (MkSystem demo_sent E [CallSendOrder 0]) s') as Hn by by apply nsteps_once.
  split; [exact Hn|]. destruct (answers_settle _ 1 s' Hr Hn) as [Hl Hend]. apply Hend.
  intros s2 [i c ev w' xs Hc _ _]. simpl in Hl. destruct (flights s'); [done|]. simpl in Hl. lia.
Defined.

End Witnesses.
