(* ===== verification/ExchangeSystem.v ===== *)
(** * A dealer and the agent of an exchange

    The system of [System.v] with the agents of internal/gateways/exchanges: a request in
    flight is answered by what the agent's goroutine makes of the HTTP result.  The agent
    of either exchange, through the interface [OrderGateway], answers the requests for
    one order; batches are those of CoinEx, the only agent that takes them. *)

From S2P Require Import Prelude GoStd Decimal QDecimal Domains Symbol Errors MutexFlag MutexMap MutexSlice.
From S2P Require Import Order OrderData Position World Dealer DealerInv DealerEvents DealerProps DealerSpecs.
From S2P Require Import BTree PriceLevel OrderBook Quote Trade Translate BybitMessages CoinExMessages MessagesProps.
From S2P Require Import RateLimiter Json Agent BybitAgent CoinExAgent AgentLimits AgentProps OrderTrip.
From S2P Require Import Flights FlightSteps System.
Local Open Scope Z_scope.

Section Batches.
  Context {D : Decimal} {RT : GoRuntime} {HR : HttpRuntime} {A : Type}.



End Batches.

Section Exchange.
  Context {D : Decimal} {RT : GoRuntime} {AG : World.Agent} {HR : HttpRuntime}.
  Context {X : Type} {GW : OrderGateway X} {GL : OrderGatewayLaws X} (x : X).












End Exchange.

(** ** A creation that CoinEx confirms, and one that gets lost *)

Section Witnesses.
  #[local] Existing Instance QDecimal.
  #[local] Existing Instance GoStd.in_order.
  #[local] Existing Instance taking.
  #[local] Existing Instance plain_runtime.


End Witnesses.
