(* ===== verification/Lifecycle.v ===== *)
(** * The life of a process (initializers/lapua/initializer.go, initializers/context.go,
    initializers/exchanges/{bybit,coinex}/gateways.go and deals_initializer.go)

    The globals that the initialisation functions share: the context and the public
    components of the application, the manager of each exchange, the registries of
    insights and of dealers, and the goroutines that were started, each with the context
    it was given.  A panic is its text.  Then what ends a process: signals, the
    cancellation of the context, and the grace periods. *)

From S2P Require Import Prelude GoStd Decimal QDecimal Domains Symbol Translate Json Agent.
From S2P Require Import MutexFlag Order OrderData Position World Dealer.
From S2P Require Import LatencyMeasurer Config ConfigProps Watcher Exporter Lapua Channel Startup.
Local Open Scope Z_scope.

Inductive exchange := ExBybit | ExCoinEx.

#[export] Instance exchange_eq_dec : EqDecision exchange.
Proof. solve_decision. Defined.

(** The three ways to start. *)
Inductive mode := Normal | DCMode | NoopMode.

Inductive goroutine :=
  | LogFileClose
  | WatcherStart
  | ExporterStart
  | MeasurerStart (ex : exchange)
  (** [httpClient.Start]: the pings of CoinEx's agent *)
  | AgentStart (agent : nat)
  | PrivateChannelStart (ex : exchange) (channel : channel_config)
  | GroupStart (ex : exchange) (group : channel_group)
  | HeartBeat.

(** ** Globals *)

(** [mg_agent] is the pointer to the private agent, nil being 0. *)
Record Manager := MkManager {
  gateway : Gateway;
  mg_agent : nat;
  mg_insights : option nat;
  mg_deals : option (gmap nat nat)
}.

#[export] Instance eta_Manager : Eta Manager := fun m =>
  MkManager (gateway m) (mg_agent m) (mg_insights m) (mg_deals m).

Section Lifecycle.
  Context {D : Decimal} {CT : ConfigText} {RT : GoRuntime} {IP : InfluxPoints}.

(** Contexts and agents are numbered in the order of their creation. *)
Record process := MkProcess {
  Ctx : option nat;
  contexts : nat;
  app : option application;
  manager : exchange -> option Manager;
  Insights : list nat;
  agents : list (exchange * Agent.Credential);
  dealers : dealer_registry;
  goroutines : list (goroutine * option nat)
}.

#[export] Instance eta_process : Eta process := fun p =>
  MkProcess (Ctx p) (contexts p) (app p) (manager p) (Insights p) (agents p) (dealers p) (goroutines p).

Definition new_process : process :=
  MkProcess None 0 None (fun _ => None) [] [] (DealerRegistry [] ∅) [].

(** [go f(lapua.Ctx)] *)
Definition go (g : goroutine) (p : process) : process := p <| goroutines ::= fun gs => gs ++ [(g, Ctx p)] |>.

Definition set_manager (ex : exchange) (m : Manager) (p : process) : process :=
  p <| manager := fun ex' => if decide (ex' = ex) then Some m else manager p ex' |>.

Definition IsInitialized (p : process) : bool :=
  bool_decide (is_Some (Ctx p)) && bool_decide (is_Some (app p)).

(** ** Initialisation *)

(** [NewCancellableContext] and the assignment to [Ctx]. *)
Definition new_context (p : process) : process :=
  p <| Ctx := Some (contexts p) |> <| contexts ::= S |>.

Definition components (m : mode) (e : surroundings) : string + application :=
  match m with
  | Normal => Startup.InitAndStart e
  | DCMode => Startup.InitAndStartDCMode e
  | NoopMode => inr InitAndStartNoopMode
  end.

(** The three [InitAndStart] functions; the one for tests has no watcher, and leaves [Params] and
    [Secrets] as they are. *)
Definition InitAndStart (m : mode) (e : surroundings) (p : process) : string + process :=
  match components m e with
  | inl panic => inl panic
  | inr a =>
      let p0 := new_context p in
      inr (go ExporterStart
        (match m with
         | NoopMode => p0 <| app := Some (a <| watcher := (w ← app p; watcher w) |>) |>
         | _ =>
             let p1 := p0 <| app := Some a |> in
             go WatcherStart (match InitLogger e with inr true => go LogFileClose p1 | _ => p1 end)
         end))
  end.

Definition init_gateway (ex : exchange) : option Agent.Credential -> nat -> option application ->
    string + (Gateway * application) :=
  match ex with ExBybit => BybitInitGatewayManager | ExCoinEx => CoinExInitGatewayManager end.

Definition InitGatewayManager (ex : exchange) (cred : option Agent.Credential) (n : nat) (p : process) :
    string + process :=
  match init_gateway ex cred n (app p) with
  | inl panic => inl panic
  | inr (g, a) =>
      let p := p <| app := Some a |> in
      inr (match cred with
           | None => set_manager ex (MkManager g 0 None None) p
           | Some c => set_manager ex (MkManager g (S (length (agents p))) None None)
                         (p <| agents ::= fun l => l ++ [(ex, c)] |>)
           end)
  end.

(** What needs a manager. *)
Definition with_manager (ex : exchange) (f : Manager -> process -> process) (p : process) : string + process :=
  match manager p ex with
  | None => inl "gatewayManager is not initialized"%string
  | Some m => inr (f m p)
  end.

(** The insights themselves are those of BybitInsights.v and CoinExInsights.v; [ins] is the
    pointer to them. *)
Definition InitInsights (ex : exchange) (ins : nat) : process -> string + process :=
  with_manager ex (fun m p =>
    set_manager ex (m <| mg_insights := Some ins |>) p <| Insights ::= AppendInsight ins |>).

(** The dealers of the symbols, by [NewDealer]. *)
Definition setup_dealers (symbols : list nat) (agent onError : nat) (now : time) (r : dealer_registry) :
    gmap nat nat * dealer_registry :=
  foldl (fun '(ds, r) symbol => let '(r, ins) := NewDealer symbol agent onError now r in (<[symbol := ins]> ds, r))
    (∅, r) symbols.

(** The topics are those of Deals.v. *)
Definition InitDeals (ex : exchange) (symbols : list nat) (onError : nat) (now : time) : process -> string + process :=
  with_manager ex (fun m p =>
    let '(ds, r) := setup_dealers symbols (mg_agent m) onError now (dealers p) in
    set_manager ex (m <| mg_deals := Some ds |>) p <| dealers := r |>).

(** The pointer to the dealer of a symbol. *)
Definition GetDealer (ex : exchange) (symbol : nat) (p : process) : option nat :=
  m ← manager p ex; ds ← mg_deals m; ds !! symbol.

(** [publicChGroup] is never nil; CoinEx's agent pre-warms its connections. *)
Definition gateway_goroutines (ex : exchange) (m : Manager) : list goroutine :=
  [MeasurerStart ex] ++
  (if bool_decide (ex = ExCoinEx) && negb (mg_agent m =? 0)%nat then [AgentStart (mg_agent m)] else []) ++
  (PrivateChannelStart ex <$> option_list (privateChannel (gateway m))) ++
  [GroupStart ex (publicChGroup (gateway m))].

Definition StartGateway (ex : exchange) : process -> string + process :=
  with_manager ex (fun m p => foldl (fun p g => go g p) p (gateway_goroutines ex m)).

(** The goroutine reads [Ctx.Done()] at once: a nil context panics. *)
Definition StartHeartBeat (p : process) : string + process :=
  match Ctx p with
  | None => inl "invalid memory address or nil pointer dereference"%string
  | Some _ => inr (go HeartBeat p)
  end.

(** *** Programs *)

Inductive operation :=
  | OpStart (m : mode) (e : surroundings)
  | OpGateway (ex : exchange) (cred : option Agent.Credential) (publicChannelCount : nat)
  | OpInsights (ex : exchange) (ins : nat)
  | OpDeals (ex : exchange) (symbols : list nat) (onError : nat) (now : time)
  | OpStartGateway (ex : exchange)
  | OpHeartBeat.

Definition perform (op : operation) : process -> string + process :=
  match op with
  | OpStart m e => InitAndStart m e
  | OpGateway ex cred n => InitGatewayManager ex cred n
  | OpInsights ex ins => InitInsights ex ins
  | OpDeals ex symbols onError now => InitDeals ex symbols onError now
  | OpStartGateway ex => StartGateway ex
  | OpHeartBeat => StartHeartBeat
  end.

Fixpoint perform_all (ops : list operation) (p : process) : string + process :=
  match ops with
  | [] => inr p
  | op :: ops => match perform op p with inl panic => inl panic | inr p => perform_all ops p end
  end.

(** ** What has to come first *)

Inductive component := Application | ManagerOf (ex : exchange).

#[export] Instance component_eq_dec : EqDecision component.
Proof. solve_decision. Defined.

Definition gives (op : operation) : option component :=
  match op with
  | OpStart _ _ => Some Application
  | OpGateway ex _ _ => Some (ManagerOf ex)
  | _ => None
  end.

Definition needs (op : operation) : option component :=
  match op with
  | OpStart _ _ => None
  | OpGateway _ _ _ | OpHeartBeat => Some Application
  | OpInsights ex _ | OpDeals ex _ _ _ | OpStartGateway ex => Some (ManagerOf ex)
  end.

(** The surroundings of a start give it what it needs. *)
Definition can_start (op : operation) : Prop :=
  match op with OpStart m e => exists a, components m e = inr a | _ => True end.

Definition has (p : process) (c : component) : Prop :=
  match c with Application => is_Some (app p) /\ is_Some (Ctx p) | ManagerOf ex => is_Some (manager p ex) end.

Definition provided (p : process) (c : option component) : Prop :=
  match c with None => True | Some c => has p c end.

(** The context and the exporter are set together, and every goroutine was given a context. *)
Definition sound (p : process) : Prop :=
  (is_Some (app p) <-> is_Some (Ctx p)) /\
  (forall g c, (g, c) ∈ goroutines p -> exists k, c = Some k /\ (k < contexts p)%nat) /\
  (forall k, Ctx p = Some k -> (k < contexts p)%nat) /\
  (forall ex, is_Some (manager p ex) -> is_Some (Ctx p)).

Lemma go_sound g p : sound p -> is_Some (Ctx p) -> sound (go g p).
Proof.
  intros (H1 & H2 & H3 & H4) [k Hk]. split; [exact H1|]. split; [|by split].
  simpl. intros g' c [H|[= -> ->]%list_elem_of_singleton]%elem_of_app; [by eapply H2|].
  exists k. split; [exact Hk|by apply H3].
Qed.

Lemma go_all_sound gs p : sound p -> is_Some (Ctx p) -> sound (foldl (fun p g => go g p) p gs).
Proof. revert p. induction gs as [|g gs IH]; intros p Hs Hc; simpl; [done|]. apply IH; [by apply go_sound|done]. Qed.

Lemma go_all_has gs p c : has (foldl (fun p g => go g p) p gs) c <-> has p c.
Proof. revert p. induction gs as [|g gs IH]; intros p; simpl; [done|]. rewrite IH. by destruct c. Qed.

Lemma set_manager_has ex m p c : has (set_manager ex m p) c <-> has p c \/ c = ManagerOf ex.
Proof.
  destruct c as [|ex']; simpl; [split; [by left|by intros [|?]]|].
  case_decide as He; [subst ex'; split; [by right|by eexists]|].
  split; [by left|]. intros [|[= ->]]; done.
Qed.

Lemma set_manager_sound ex m p : sound p -> is_Some (Ctx p) -> sound (set_manager ex m p).
Proof. intros (H1 & H2 & H3 & H4) Hc. by repeat split; try apply H1. Qed.

(** The functions that need a manager. *)
Lemma with_manager_spec ex f p :
  match with_manager ex f p with
  | inl _ => manager p ex = None
  | inr p' => exists m, manager p ex = Some m /\ p' = f m p
  end.
Proof. unfold with_manager. destruct (manager p ex) as [m|]; [by exists m|done]. Qed.

(** What an operation needs is what it does not panic without. *)
Definition performed (op : operation) (p : process) (r : string + process) : Prop :=
  match r with
  | inl _ => ~ (can_start op /\ provided p (needs op))
  | inr p' => can_start op /\ provided p (needs op) /\ sound p' /\
      forall c, has p' c <-> has p c \/ gives op = Some c
  end.

Lemma InitAndStart_performed m e p : sound p -> performed (OpStart m e) p (InitAndStart m e p).
Proof.
  intros (H1 & H2 & H3 & H4). unfold InitAndStart. destruct (components m e) as [panic|a] eqn:Ha.
  { intros [[a Ha'] _]. congruence. }
  assert (forall a', sound (new_context p <| app := Some a' |>)) as Hs.
  { intros a'. split; [by split|]. split; [|split; [simpl; intros k [= <-]; lia|by eexists]].
    simpl. intros g c Hg. destruct (H2 g c Hg) as (k & -> & Hk). exists k. split; [done|lia]. }
  split; [by exists a|]. split; [done|]. split.
  - destruct m; [destruct (InitLogger e) as [|[]]..|];
      repeat (apply go_sound; [|by eexists]); apply Hs.
  - intros c. destruct m; [destruct (InitLogger e) as [|[]]..|]; destruct c as [|ex]; simpl;
      (split; [|intros [H|[=]]; try done]).
    all: first [by right|by left|by repeat eexists].
Qed.

Lemma InitGatewayManager_performed ex cred n p :
  sound p -> performed (OpGateway ex cred n) p (InitGatewayManager ex cred n p).
Proof.
  intros Hs.
  assert (exists public private, init_gateway ex = Startup.init_gateway public private) as (pub & priv & Hi)
    by (destruct ex; by eexists _, _).
  unfold InitGatewayManager. rewrite Hi. unfold Startup.init_gateway.
  destruct (app p) as [a|] eqn:Ha.
  - assert (is_Some (Ctx p)) as Hc by (apply Hs; by eexists).
    set (a' := a <| Exporter ::= _ |>). set (p1 := p <| app := Some a' |>).
    assert (sound p1) as Hs1.
    { destruct Hs as (H1 & H2 & H3 & H4). split; [|by split]. split; [done|by eexists]. }
    assert (forall c, has p1 c <-> has p c) as Hp1.
    { intros [|ex']; simpl; [|done]. rewrite Ha. split; intros [_ ?]; (split; [by eexists|done]). }
    split; [done|]. split; [split; [by eexists|done]|]. split.
    + destruct cred; by apply set_manager_sound.
    + intros c. destruct cred; rewrite set_manager_has; simpl gives.
      * rewrite <- Hp1. destruct c; naive_solver.
      * rewrite Hp1. naive_solver.
  - intros [_ [[a Ha'] _]]. congruence.
Qed.

Lemma with_manager_performed op ex f p :
  sound p -> needs op = Some (ManagerOf ex) -> gives op = None -> can_start op ->
  (forall m, manager p ex = Some m -> sound (f m p) /\ forall c, has (f m p) c <-> has p c) ->
  performed op p (with_manager ex f p).
Proof.
  intros Hs Hn Hg Hc Hf. pose proof (with_manager_spec ex f p) as Hw.
  destruct (with_manager ex f p) as [panic|p'].
  - unfold performed. rewrite Hn. simpl. rewrite Hw. by intros [_ []].
  - destruct Hw as (m & Hm & ->). destruct (Hf m Hm) as [Hs' Hc']. unfold performed. rewrite Hn, Hg.
    split; [done|]. split; [by eexists|]. split; [done|]. intros c. rewrite Hc'. naive_solver.
Qed.

(** The manager that is set is one of those there were. *)
Lemma set_again_has ex m p c : is_Some (manager p ex) -> has (set_manager ex m p) c <-> has p c.
Proof. intros Hm. rewrite set_manager_has. split; [intros [H| ->]; done|by left]. Qed.

Lemma perform_performed op p : sound p -> performed op p (perform op p).
Proof.
  intros Hs. assert (forall ex m, manager p ex = Some m -> is_Some (Ctx p)) as Hctx.
  { intros ex m Hm. apply Hs with ex. by eexists. }
  destruct op as [m e|ex cred n|ex ins|ex symbols onError now|ex|]; simpl.
  - by apply InitAndStart_performed.
  - by apply InitGatewayManager_performed.
  - apply with_manager_performed; try done. intros m Hm. split.
    + apply (set_manager_sound ex (m <| mg_insights := Some ins |>)) in Hs; [exact Hs|by eapply Hctx].
    + intros c. apply (set_again_has ex (m <| mg_insights := Some ins |>) p c). by eexists.
  - apply with_manager_performed; try done. intros m Hm. destruct (setup_dealers _ _ _ _ _) as [ds r]. split.
    + apply (set_manager_sound ex (m <| mg_deals := Some ds |>)) in Hs; [exact Hs|by eapply Hctx].
    + intros c. apply (set_again_has ex (m <| mg_deals := Some ds |>) p c). by eexists.
  - apply with_manager_performed; try done. intros m Hm. split.
    + by eapply go_all_sound, Hctx.
    + intros c. apply go_all_has.
  - unfold StartHeartBeat. destruct (Ctx p) as [k|] eqn:Hk.
    + split; [done|]. split; [split; [apply Hs; by eexists|by eexists]|]. split; [apply go_sound; [done|by eexists]|].
      intros c. simpl. destruct c; naive_solver.
    + intros [_ [_ [? ?]]]. congruence.
Qed.

(** Everything an operation of the program needs was made by an earlier one. *)
Definition in_order_from (p : process) (ops : list operation) : Prop :=
  forall i op, ops !! i = Some op -> can_start op /\
    forall c, needs op = Some c -> has p c \/ exists j op', (j < i)%nat /\ ops !! j = Some op' /\ gives op' = Some c.

Lemma perform_all_in_order ops p :
  sound p ->
  ((exists p', perform_all ops p = inr p') <-> in_order_from p ops) /\
  (forall p', perform_all ops p = inr p' -> sound p').
Proof.
  revert p. induction ops as [|op ops IH]; intros p Hs; simpl.
  { split; [split; [by intros _ i op|by eexists]|]. by intros p' [= <-]. }
  pose proof (perform_performed op p Hs) as Hp. destruct (perform op p) as [panic|p1]; simpl in Hp.
  - split; [|done]. split; [by intros []|]. intros Ho. destruct Hp. destruct (Ho 0%nat op eq_refl) as [Hc Hn].
    split; [done|]. unfold provided. destruct (needs op) as [c|]; [|done].
    destruct (Hn c eq_refl) as [|(j & ? & ? & _)]; [done|lia].
  - destruct Hp as (Hc & Hn & Hs1 & Hh). destruct (IH p1 Hs1) as [IH1 IH2]. split; [|exact IH2].
    rewrite IH1. unfold in_order_from. split; intros Ho.
    + intros [|i] op' Hi; simpl in Hi.
      * injection Hi as <-. split; [done|]. intros c Hneed. left. unfold provided in Hn. by rewrite Hneed in Hn.
      * destruct (Ho i op' Hi) as [Hc' Hn']. split; [done|]. intros c Hneed.
        destruct (Hn' c Hneed) as [[H|H]%Hh|(j & op2 & Hj & Hop & Hg)]; [by left|right..].
        -- exists 0%nat, op. split; [lia|done].
        -- exists (S j), op2. split; [lia|done].
    + intros i op' Hi. destruct (Ho (S i) op' Hi) as [Hc' Hn']. split; [done|]. intros c Hneed.
      destruct (Hn' c Hneed) as [H|([|j] & op2 & Hj & Hop & Hg)].
      * left. apply Hh. by left.
      * simpl in Hop. injection Hop as <-. left. apply Hh. by right.
      * right. exists j, op2. split; [lia|done].
Qed.

(** A program starts without a panic exactly if its surroundings are there, the application
    is started before anything else, and the manager of an exchange is made before the
    insights, the dealers and the gateway of that exchange; then every goroutine, of
    whatever part, was given a context that exists, so that a cancellation can end it. *)
Theorem starts_in_order ops :
  ((exists p, perform_all ops new_process = inr p) <->
   forall i op, ops !! i = Some op -> can_start op /\
     forall c, needs op = Some c -> exists j op', (j < i)%nat /\ ops !! j = Some op' /\ gives op' = Some c) /\
  forall p, perform_all ops new_process = inr p ->
    forall g c, (g, c) ∈ goroutines p -> exists k, c = Some k /\ (k < contexts p)%nat.
Proof.
  assert (sound new_process) as Hs.
  { split; [by split; intros []|]. split; [by intros g c ?%not_elem_of_nil|]. split; [done|]. by intros ex []. }
  destruct (perform_all_in_order ops _ Hs) as [H1 H2]. split.
  - rewrite H1. unfold in_order_from. split; intros Ho i op Hi; destruct (Ho i op Hi) as [Hc Hn];
      (split; [done|]); intros c Hneed; [|right; by apply Hn].
    destruct (Hn c Hneed) as [H|H]; [|done]. destruct c; simpl in H; [by destruct H as [[]]|by destruct H].
  - intros p Hp. apply H2 in Hp as (_ & H & _). exact H.
Qed.

(** ** Dealers are for life *)

(** Every entry of the registry stays, and so does the dealer it points to. *)
Definition keeps_dealers (r r' : dealer_registry) : Prop :=
  (forall symbol i, dealerInstances r !! symbol = Some i -> dealerInstances r' !! symbol = Some i) /\
  (forall i d, instances r !! i = Some d -> instances r' !! i = Some d).

Lemma keeps_dealers_refl r : keeps_dealers r r.
Proof. by split. Qed.

Lemma keeps_dealers_trans r1 r2 r3 : keeps_dealers r1 r2 -> keeps_dealers r2 r3 -> keeps_dealers r1 r3.
Proof. intros [H1 H2] [H3 H4]. split; auto. Qed.

Lemma NewDealer_keeps symbol agent onError now r :
  let '(r', i) := NewDealer symbol agent onError now r in
  keeps_dealers r r' /\ dealerInstances r' !! symbol = Some i.
Proof.
  unfold NewDealer. destruct (dealerInstances r !! symbol) as [i|] eqn:Hi; [done|]. simpl. split.
  - split; simpl.
    + intros s j Hj. rewrite lookup_insert_ne; [done|congruence].
    + intros i d Hd. by apply lookup_app_l_Some.
  - apply lookup_insert_eq.
Qed.

Definition of_registry (ds : gmap nat nat) (r : dealer_registry) : Prop :=
  forall symbol i, ds !! symbol = Some i -> dealerInstances r !! symbol = Some i.

Lemma setup_dealers_keeps symbols agent onError now r :
  let '(ds, r') := setup_dealers symbols agent onError now r in keeps_dealers r r' /\ of_registry ds r'.
Proof.
  unfold setup_dealers.
  assert (forall ds, of_registry ds r -> let '(ds', r') := foldl (fun '(ds, r) symbol =>
    let '(r, ins) := NewDealer symbol agent onError now r in (<[symbol := ins]> ds, r)) (ds, r) symbols in
    keeps_dealers r r' /\ of_registry ds' r') as H; [|by apply H].
  revert r. induction symbols as [|symbol symbols IH]; intros r ds Hds; simpl; [by split; [apply keeps_dealers_refl|]|].
  pose proof (NewDealer_keeps symbol agent onError now r) as Hn. destruct (NewDealer _ _ _ _ r) as [r1 i].
  destruct Hn as [Hk Hi]. specialize (IH r1 (<[symbol := i]> ds)).
  destruct (foldl _ _ symbols) as [ds' r']. destruct IH as [Hk' Hds'].
  { intros s j [[<- <-]|[_ Hj]]%lookup_insert_Some; [done|]. apply Hk. by apply Hds. }
  split; [by eapply keeps_dealers_trans|done].
Qed.

(** The dealers that the managers give out are those of the registry. *)
Definition dealers_registered (p : process) : Prop :=
  forall ex symbol i, GetDealer ex symbol p = Some i -> dealerInstances (dealers p) !! symbol = Some i.

Lemma set_manager_deals ex m p ex' symbol i :
  GetDealer ex' symbol (set_manager ex m p) = Some i ->
  (ex' = ex /\ exists ds, mg_deals m = Some ds /\ ds !! symbol = Some i) \/ GetDealer ex' symbol p = Some i.
Proof.
  unfold GetDealer. simpl. case_decide as He; [|by right]. simpl. intros (ds & Hds & Hi)%bind_Some. left. eauto.
Qed.

Lemma go_all_dealers gs p : dealers (foldl (fun p g => go g p) p gs) = dealers p /\
  forall ex symbol, GetDealer ex symbol (foldl (fun p g => go g p) p gs) = GetDealer ex symbol p.
Proof. revert p. induction gs as [|g gs IH]; intros p; simpl; [done|]. destruct (IH (go g p)) as [-> H]. done. Qed.

Lemma perform_keeps_dealers op p p' :
  dealers_registered p -> perform op p = inr p' ->
  keeps_dealers (dealers p) (dealers p') /\ dealers_registered p'.
Proof.
  intros Hp. destruct op as [m e|ex cred n|ex ins|ex symbols onError now|ex|]; simpl.
  - unfold InitAndStart. destruct (components m e); [done|]. intros [= <-].
    destruct m; [destruct (InitLogger e) as [|[]]..|].
    all: split; [apply keeps_dealers_refl|exact Hp].
  - unfold InitGatewayManager. destruct (init_gateway ex cred n (app p)) as [|[g a]]; [done|].
    intros [= <-]. split; [by destruct cred; apply keeps_dealers_refl|].
    intros ex' symbol i Hi. destruct cred; apply set_manager_deals in Hi as [(_ & ds & [=] & _)|Hi]; by eapply Hp.
  - unfold InitInsights, with_manager. destruct (manager p ex) as [m|] eqn:Hm; [|done].
    intros [= <-]. split; [apply keeps_dealers_refl|].
    intros ex' symbol i Hi%set_manager_deals. destruct Hi as [(-> & ds & Hds & Hi)|Hi]; [|by eapply Hp].
    apply (Hp ex). unfold GetDealer. rewrite Hm. simpl in *. by rewrite Hds.
  - unfold InitDeals, with_manager. destruct (manager p ex) as [m|] eqn:Hm; [|done].
    pose proof (setup_dealers_keeps symbols (mg_agent m) onError now (dealers p)) as Hk.
    destruct (setup_dealers _ _ _ _ _) as [ds r]. destruct Hk as [Hk Hds]. intros [= <-]. split; [exact Hk|].
    intros ex' symbol i Hi%set_manager_deals. destruct Hi as [(_ & ds' & [= <-] & Hi)|Hi]; [by apply Hds|]. apply Hk. by eapply Hp.
  - unfold StartGateway, with_manager. destruct (manager p ex) as [m|]; [|done]. intros [= <-].
    destruct (go_all_dealers (gateway_goroutines ex m) p) as [Hd Hg]. simpl in Hd.
    unfold dealers_registered. setoid_rewrite Hg. rewrite Hd. split; [apply keeps_dealers_refl|done].
  - unfold StartHeartBeat. destruct (Ctx p); [|done]. intros [= <-]. split; [apply keeps_dealers_refl|done].
Qed.

Lemma perform_all_keeps_dealers ops p p' :
  dealers_registered p -> perform_all ops p = inr p' ->
  keeps_dealers (dealers p) (dealers p') /\ dealers_registered p'.
Proof.
  revert p. induction ops as [|op ops IH]; intros p Hp; simpl; [intros [= <-]; by split; [apply keeps_dealers_refl|]|].
  destruct (perform op p) as [|p1] eqn:H1; [done|]. intros H2.
  destruct (perform_keeps_dealers _ _ _ Hp H1) as [Hk1 Hp1]. destruct (IH _ Hp1 H2) as [Hk2 Hp2].
  split; [by eapply keeps_dealers_trans|done].
Qed.

(** C40: a symbol has one dealer for the life of the process, whichever exchange and however often
    dealers are initialised: the one that was made first, with the agent and the error
    callback of that time; a later manager with other credentials does not reach it. *)
Theorem dealers_are_for_life ops ops' p p' ex ex' symbol i i' :
  perform_all ops new_process = inr p -> perform_all ops' p = inr p' ->
  GetDealer ex symbol p = Some i -> GetDealer ex' symbol p' = Some i' ->
  i' = i /\ forall d, instances (dealers p) !! i = Some d -> instances (dealers p') !! i = Some d.
Proof.
  intros H1 H2 Hi Hi'. assert (dealers_registered new_process) as H0 by by intros ex0 s0 i0 [=].
  destruct (perform_all_keeps_dealers _ _ _ H0 H1) as [_ Hp].
  destruct (perform_all_keeps_dealers _ _ _ Hp H2) as [[Hk1 Hk2] Hp'].
  apply Hp, Hk1 in Hi. apply Hp' in Hi'. split; [congruence|apply Hk2].
Qed.

(** ** The end of a process (context.go, [WaitForCtxDone], [StartHeartBeat]) *)

(** When the context was cancelled, and when the goroutine that received a signal ends the
    process at the latest. *)
Record shutdown := MkShutdown { cancelled_at : option time; forced_at : option time }.

Inductive occurrence := Signal | CancelCause.

Definition forced_after : duration := 10 * Second.
Definition extension : duration := 3 * Second.

(** A context is cancelled once. *)
Definition cancel (now : time) (s : shutdown) : shutdown :=
  match cancelled_at s with
  | Some _ => s
  | None => MkShutdown (Some now) (forced_at s)
  end.

(** The goroutine receives one signal; later ones stay in the buffer of the channel. *)
Definition occur (now : time) (o : occurrence) (s : shutdown) : shutdown :=
  match o with
  | CancelCause => cancel now s
  | Signal =>
      match forced_at s with
      | Some _ => s
      | None => MkShutdown (cancelled_at (cancel now s)) (Some (now + forced_after))
      end
  end.

Definition occur_all (os : list (time * occurrence)) : shutdown :=
  foldl (fun s '(now, o) => occur now o s) (MkShutdown None None) os.

(** When [WaitForCtxDone], called at [start], returns. *)
Definition WaitForCtxDone (start : time) (s : shutdown) : option time :=
  (fun t => Z.max start t + extension) <$> cancelled_at s.

(** The end of a process whose main function ends with [WaitForCtxDone], called at [start], or does
    not get there: the time, and the exit code. *)
Definition process_end (start : option time) (s : shutdown) : option (time * Z) :=
  match (t ← start; WaitForCtxDone t s), forced_at s with
  | Some r, Some f => Some (if r <=? f then (r, 0) else (f, 1))
  | Some r, None => Some (r, 0)
  | None, Some f => Some (f, 1)
  | None, None => None
  end.

(** The heart beats of the select loop: what it receives, tick or done. *)
Inductive received := Tick | Done.

Fixpoint heart_beats (url_ok : string -> bool) (c : Client) (rs : list received) : list (string * json) :=
  match rs with
  | Tick :: rs => SendInfo url_ok "heart beat" c ++ heart_beats url_ok c rs
  | _ => []
  end.

Definition first_of (p : occurrence -> bool) (os : list (time * occurrence)) : option time :=
  fst <$> List.find (fun '(_, o) => p o) os.

Definition is_signal (o : occurrence) : bool := match o with Signal => true | CancelCause => false end.

Lemma occur_all_from os s :
  foldl (fun s '(now, o) => occur now o s) s os =
  MkShutdown (match cancelled_at s with
              | Some t => Some t
              | None => first_of (fun o => negb (is_signal o) || bool_decide (forced_at s = None)) os
              end)
    (match forced_at s with Some f => Some f | None => (fun t => t + forced_after) <$> first_of is_signal os end).
Proof.
  unfold first_of. revert s. induction os as [|[now o] os IH]; intros [c f]; simpl; [by destruct c, f|].
  rewrite IH. destruct o, c, f; simpl; try done.
  all: rewrite ?bool_decide_eq_true_2 by done; simpl; done.
Qed.

(** A process that waits for its cancellation ends: three seconds after the first cancellation or
    signal, or after it began to wait, with code 0, unless a signal came ten seconds before
    that; one that does not wait is ended by a signal only, ten seconds after it, with code 1.
    Further signals change nothing. *)
Theorem process_ends os start :
  process_end start (occur_all os) =
  let cancelled := first_of (fun _ => true) os in
  let forced := (fun t => t + forced_after) <$> first_of is_signal os in
  match start, cancelled, forced with
  | Some t0, Some t, Some f => Some (if Z.max t0 t + extension <=? f then (Z.max t0 t + extension, 0) else (f, 1))
  | Some t0, Some t, None => Some (Z.max t0 t + extension, 0)
  | _, _, Some f => Some (f, 1)
  | _, _, None => None
  end.
Proof.
  unfold process_end, occur_all. rewrite occur_all_from. simpl.
  assert (first_of (fun o => negb (is_signal o) || true) os = first_of (fun _ => true) os) as ->.
  { unfold first_of. f_equal. induction os as [|[t o] os IH]; [done|]. simpl. by rewrite orb_true_r. }
  destruct start as [t0|]; simpl; [|by destruct (first_of is_signal os)].
  unfold WaitForCtxDone. simpl. by destruct (first_of (fun _ => true) os), (first_of is_signal os).
Qed.

End Lifecycle.

(** ** A process that gets other credentials *)

(** Points that hold nothing. *)
Definition plain_points : InfluxPoints := {|
  Point := unit; NewPointWithMeasurement _ := tt; SetTimestamp _ p := p; SetTag _ _ p := p;
  SetInt _ _ p := p; SetFloat _ _ p := p
|}.

Section Witness.
  #[local] Existing Instance QDecimal.
  #[local] Existing Instance GoStd.in_order.
  #[local] Existing Instance plain_text.
  #[local] Existing Instance plain_points.

Definition no_files : surroundings := MkSurroundings (fun _ => ""%string) false false false false None None false.

Definition first_credentials : list operation :=
  [OpStart NoopMode no_files; OpGateway ExCoinEx (Some (Agent.MkCredential "key1" "secret1")) 3; OpDeals ExCoinEx [7%nat] 1 0;
   OpStartGateway ExCoinEx].

Definition other_credentials : list operation :=
  [OpGateway ExCoinEx (Some (Agent.MkCredential "key2" "secret2")) 3; OpDeals ExCoinEx [7%nat] 2 5; OpStartGateway ExCoinEx].

(** The second manager's agent is 2, that of the dealer stays 1. *)
Lemma dealers_are_for_life_witness : exists p p' d,
  perform_all first_credentials (new_process (D := QDecimal)) = inr p /\ perform_all other_credentials p = inr p' /\
  (mg_agent <$> manager p' ExCoinEx) = Some 2%nat /\ GetDealer ExCoinEx 7 p' = Some 0%nat /\
  instances (dealers p') !! 0%nat = Some d /\ agent d = 1%nat.
Proof.
  assert (match perform_all first_credentials (new_process (D := QDecimal)) with
          | inl _ => false
          | inr p => bool_decide (GetDealer ExCoinEx 7 p = Some 0%nat) &&
              found_check (instances (dealers p) !! 0%nat) (fun d => bool_decide (agent d = 1%nat)) &&
              match perform_all other_credentials p with
              | inl _ => false
              | inr p' => bool_decide (GetDealer ExCoinEx 7 p' = Some 0%nat) &&
                  bool_decide ((mg_agent <$> manager p' ExCoinEx) = Some 2%nat)
              end
          end = true) as Hcheck by (vm_compute; reflexivity).
  destruct (perform_all first_credentials new_process) as [|p] eqn:H1; [discriminate Hcheck|].
  destruct (perform_all other_credentials p) as [|p'] eqn:H2; [by rewrite andb_false_r in Hcheck|].
  apply andb_true_iff in Hcheck as [[Hg (d & Hd & Ha)%found_check_sound]%andb_true_iff [Hg' Hm]%andb_true_iff].
  apply bool_decide_eq_true in Hg, Hg', Hm, Ha.
  exists p, p', d. split; [reflexivity|]. split; [exact H2|]. split; [exact Hm|]. split; [exact Hg'|].
  split; [|exact Ha].
  apply (dealers_are_for_life first_credentials other_credentials p p' ExCoinEx ExCoinEx 7 0 0 H1 H2 Hg Hg'). exact Hd.
Defined.

End Witness.
